(** * [src/App.tsx]: parsing, spatial index, scoring, grid and tooltip

    A shallow embedding of the data pipeline of the application: the CSV
    line parser, the three loaders, the name and rent-key normalizers, the
    nearest-area interpolation, the k-d tree with its k-nearest-neighbour
    query and the three scores attached to every tree record; and of what
    the grid does with the records: the record shown by each cell, the
    colour of a hovered cell, the text, the size and the position of the
    tooltip.

    Modelling conventions.
    - A JavaScript [string] is a Rocq [string]; the [String.prototype]
      functions used by the code ([trim], [toLowerCase], the [/\s+/g]
      replacement, [split]) are modelled on ASCII text, which is what the
      three data files contain.  A byte-order mark is its UTF-8 encoding.
    - A JavaScript [number] is a value of [number]: a real, one of the two
      infinities or NaN.  Arithmetic on the finite part is exact (no
      rounding, no overflow, no negative zero); the propagation of the
      infinities and of NaN follows IEEE 754.
    - A [Map] is a [gmap].  A plain object used as a dictionary is the
      [gmap] of its own properties; a read under a computed name is
      [getProperty], which falls back on [Object.prototype], and a read
      under a fixed name that is no name of [Object.prototype] is the
      lookup in the [gmap].
    - Arrays are lists; a function that mutates its argument returns the
      new value.
    - [Number(text)] and [toFixed] are section variables; a draw of
      [Math.random()] is an argument, a real of the interval [0, 1); the
      browser ([window], [document], the canvas context and its
      [measureText]) is a value of [Browser.t]; the component state and the
      module variable [measurementContext] are threaded through. *)

From Stdlib Require Import Reals Machin Lra Lia List String Ascii Bool Arith.
From Stdlib Require Import Permutation Sorted.
From stdpp Require Import gmap strings sorting pretty.
From Equations Require Import Equations.
Import ListNotations.

Local Open Scope string_scope.

(** ** Strings *)

Module Str.

Definition isUpper (c : ascii) : bool :=
  (65 <=? nat_of_ascii c)%nat && (nat_of_ascii c <=? 90)%nat.

Definition lowerChar (c : ascii) : ascii :=
  if isUpper c then ascii_of_nat (nat_of_ascii c + 32) else c.

(** [String.prototype.toLowerCase] *)
Fixpoint toLowerCase (s : string) : string :=
  match s with
  | EmptyString => EmptyString
  | String c r => String (lowerChar c) (toLowerCase r)
  end.

(** The characters matched by [\s] and stripped by [trim]: TAB, LF, VT, FF,
    CR and the space. *)
Definition isWhiteSpace (c : ascii) : bool :=
  let n := nat_of_ascii c in
  ((9 <=? n)%nat && (n <=? 13)%nat) || (n =? 32)%nat.

Fixpoint trimStart (s : string) : string :=
  match s with
  | EmptyString => EmptyString
  | String c r => if isWhiteSpace c then trimStart r else s
  end.

Fixpoint trimEnd (s : string) : string :=
  match s with
  | EmptyString => EmptyString
  | String c r =>
      match trimEnd r with
      | EmptyString => if isWhiteSpace c then EmptyString else String c EmptyString
      | r' => String c r'
      end
  end.

(** [String.prototype.trim] *)
Definition trim (s : string) : string := trimEnd (trimStart s).

(** [s.replace(/\s+/g, ' ')]: [inRun] tells that the previous character
    belonged to the run of white space being replaced. *)
Fixpoint collapseFrom (inRun : bool) (s : string) : string :=
  match s with
  | EmptyString => EmptyString
  | String c r =>
      if isWhiteSpace c
      then if inRun then collapseFrom true r else String " " (collapseFrom true r)
      else String c (collapseFrom false r)
  end.

Definition collapseWhiteSpace (s : string) : string := collapseFrom false s.

(** JavaScript truthiness of a string. *)
Definition truthy (s : string) : bool :=
  match s with EmptyString => false | _ => true end.

(** [a || b] on strings. *)
Definition orElse (a b : string) : string := if truthy a then a else b.

End Str.

(** ** Reads of a plain object *)

(** The names of the properties of [Object.prototype]. *)
Definition OBJECT_PROTOTYPE_NAMES : list string :=
  ["constructor"; "__defineGetter__"; "__defineSetter__"; "hasOwnProperty";
   "__lookupGetter__"; "__lookupSetter__"; "isPrototypeOf";
   "propertyIsEnumerable"; "toString"; "valueOf"; "__proto__";
   "toLocaleString"].

(** What a read [object[name]] of a plain object with string values
    returns: the text of an own property, or the object that
    [Object.prototype] holds under [name] (the function [Object] for
    [constructor], [Object.prototype] itself for [__proto__], a built-in
    method for the other names).  Two inherited objects are the same
    object exactly when their names are equal. *)
Inductive propertyValue :=
  | Text (text : string)
  | Inherited (name : string).

#[global] Instance propertyValue_eq_dec : EqDecision propertyValue.
Proof. solve_decision. Defined.

#[global] Instance propertyValue_countable : Countable propertyValue.
Proof.
  refine (inj_countable'
            (fun value =>
               match value with
               | Text text => inl text
               | Inherited name => inr name
               end)
            (fun code =>
               match code with
               | inl text => Text text
               | inr name => Inherited name
               end) _).
  intros [text|name]; reflexivity.
Defined.

(** JavaScript truthiness: an object is truthy. *)
Definition truthyValue (value : propertyValue) : bool :=
  match value with
  | Text text => Str.truthy text
  | Inherited _ => true
  end.

(** The read [object[name]], the own properties of the object being
    [object]: a name that is no own property is looked up in
    [Object.prototype]; [None] is [undefined]. *)
Definition getProperty (object : gmap string string) (name : string)
  : option propertyValue :=
  match object !! name with
  | Some text => Some (Text text)
  | None =>
      if bool_decide (name ∈ OBJECT_PROTOTYPE_NAMES) then Some (Inherited name)
      else None
  end.

(** ** Name and rent-key normalization *)

(** The own properties of the object literal of lines 29-32. *)
Definition RENT_KEY_ALIASES : gmap string string :=
  <["gramecy park" := "gramercy park"]>
    (<["stuyvesant town" := "stuyvesant town/pcv"]> ∅).

Definition normalizeNeighborhoodName (value : string) : string :=
  let trimmed := Str.trim (Str.collapseWhiteSpace value) in
  Str.orElse trimmed "Unknown".

(** The declared result type is [string]; the read of the alias object
    returns an inherited object for the names [constructor] and
    [__proto__]. *)
Definition normalizeRentKey (value : string) : propertyValue :=
  let normalized := normalizeNeighborhoodName value in
  if negb (Str.truthy normalized) || (normalized =? "Unknown")
  then Text EmptyString
  else
    let lowered := Str.toLowerCase normalized in
    match getProperty RENT_KEY_ALIASES lowered with
    | Some canonical => canonical
    | None => Text lowered
    end.

(** The call [normalizeRentKey(value)] on what a call of [normalizeRentKey]
    returned; [None]: the call throws a [TypeError], an inherited object
    having no method [replace]. *)
Definition normalizeRentKeyAgain (value : propertyValue) : option propertyValue :=
  match value with
  | Text text => Some (normalizeRentKey text)
  | Inherited _ => None
  end.

(** ** Numbers *)

Inductive number : Type :=
| Fin (x : R)
| PInf
| NInf
| NaN.

Module Num.

Local Open Scope R_scope.

Definition Rltb (x y : R) : bool := if Rlt_dec x y then true else false.
Definition Rleb (x y : R) : bool := if Rle_dec x y then true else false.
Definition Reqb (x y : R) : bool := if Req_dec_T x y then true else false.

Definition ofNat (n : nat) : number := Fin (INR n).

(** [Number.isFinite] *)
Definition isFinite (a : number) : bool :=
  match a with Fin _ => true | _ => false end.

(** Unary minus. *)
Definition neg (a : number) : number :=
  match a with
  | Fin x => Fin (- x)
  | PInf => NInf
  | NInf => PInf
  | NaN => NaN
  end.

(** [a + b] *)
Definition add (a b : number) : number :=
  match a, b with
  | NaN, _ | _, NaN => NaN
  | Fin x, Fin y => Fin (x + y)
  | PInf, NInf | NInf, PInf => NaN
  | PInf, _ | _, PInf => PInf
  | NInf, _ | _, NInf => NInf
  end.

(** [a - b] *)
Definition sub (a b : number) : number := add a (neg b).

(** The infinity with the sign of [x]; NaN at zero (the product of zero
    and an infinity). *)
Definition signedInf (x : R) : number :=
  if Rltb 0 x then PInf else if Rltb x 0 then NInf else NaN.

(** [a * b] *)
Definition mul (a b : number) : number :=
  match a, b with
  | NaN, _ | _, NaN => NaN
  | Fin x, Fin y => Fin (x * y)
  | Fin x, PInf | PInf, Fin x => signedInf x
  | Fin x, NInf | NInf, Fin x => signedInf (- x)
  | PInf, PInf | NInf, NInf => PInf
  | PInf, NInf | NInf, PInf => NInf
  end.

(** [a / b]; a zero divisor counts as positive zero. *)
Definition div (a b : number) : number :=
  match a, b with
  | NaN, _ | _, NaN => NaN
  | Fin x, Fin y => if Reqb y 0 then signedInf x else Fin (x / y)
  | Fin _, _ => Fin 0
  | PInf, Fin y => if Rltb y 0 then NInf else PInf
  | NInf, Fin y => if Rltb y 0 then PInf else NInf
  | _, _ => NaN
  end.

(** [a < b] *)
Definition ltb (a b : number) : bool :=
  match a, b with
  | NaN, _ | _, NaN => false
  | Fin x, Fin y => Rltb x y
  | _, NInf => false
  | NInf, _ => true
  | PInf, _ => false
  | Fin _, PInf => true
  end.

(** [a <= b] *)
Definition leb (a b : number) : bool :=
  match a, b with
  | NaN, _ | _, NaN => false
  | Fin x, Fin y => Rleb x y
  | NInf, _ => true
  | _, PInf => true
  | _, _ => false
  end.

(** [a === b] *)
Definition eqb (a b : number) : bool :=
  match a, b with
  | Fin x, Fin y => Reqb x y
  | PInf, PInf | NInf, NInf => true
  | _, _ => false
  end.

(** [Math.max(a, b)] *)
Definition max (a b : number) : number :=
  match a, b with
  | NaN, _ | _, NaN => NaN
  | _, _ => if ltb a b then b else a
  end.

(** [Math.min(a, b)] *)
Definition min (a b : number) : number :=
  match a, b with
  | NaN, _ | _, NaN => NaN
  | _, _ => if ltb b a then b else a
  end.

(** [Math.abs] *)
Definition abs (a : number) : number :=
  match a with
  | Fin x => Fin (Rabs x)
  | PInf | NInf => PInf
  | NaN => NaN
  end.

(** [Math.sin] and [Math.cos] *)
Definition sin (a : number) : number :=
  match a with Fin x => Fin (Rtrigo_def.sin x) | _ => NaN end.

Definition cos (a : number) : number :=
  match a with Fin x => Fin (Rtrigo_def.cos x) | _ => NaN end.

(** [Math.sqrt] *)
Definition sqrt (a : number) : number :=
  match a with
  | Fin x => if Rltb x 0 then NaN else Fin (R_sqrt.sqrt x)
  | PInf => PInf
  | _ => NaN
  end.

(** [Math.atan2(y, x)] on two reals. *)
Definition Ratan2 (y x : R) : R :=
  if Rltb 0 x then atan (y / x)
  else if Rltb x 0 then (if Rltb y 0 then atan (y / x) - PI else atan (y / x) + PI)
  else if Rltb 0 y then PI / 2
  else if Rltb y 0 then - (PI / 2)
  else 0.

(** [Math.atan2(y, x)] *)
Definition atan2 (y x : number) : number :=
  match y, x with
  | NaN, _ | _, NaN => NaN
  | Fin b, Fin a => Fin (Ratan2 b a)
  | Fin b, PInf => Fin 0
  | Fin b, NInf => if Rltb b 0 then Fin (- PI) else Fin PI
  | PInf, Fin _ => Fin (PI / 2)
  | NInf, Fin _ => Fin (- (PI / 2))
  | PInf, PInf => Fin (PI / 4)
  | NInf, PInf => Fin (- (PI / 4))
  | PInf, NInf => Fin (3 * PI / 4)
  | NInf, NInf => Fin (- (3 * PI / 4))
  end.

(** [a ** 2] *)
Definition square (a : number) : number := mul a a.

End Num.

Declare Scope num_scope.
Delimit Scope num_scope with num.
Bind Scope num_scope with number.
Infix "+" := Num.add : num_scope.
Infix "-" := Num.sub : num_scope.
Infix "*" := Num.mul : num_scope.
Infix "/" := Num.div : num_scope.
Infix "<?" := Num.ltb : num_scope.
Infix "<=?" := Num.leb : num_scope.
Infix "=?" := Num.eqb : num_scope.

(** [Number.POSITIVE_INFINITY] *)
Definition POSITIVE_INFINITY : number := PInf.

(** [clamp], lines 589-591. *)
Definition clamp (value min max : number) : number :=
  Num.min (Num.max value min) max.

(** ** Records of the data model (lines 34-90) *)

Module TreeRecord.
Record t : Type := mk {
  treeId : string;
  status : string;
  sidewalk : string;
  problems : string;
  latitude : number;
  longitude : number;
  neighborhood : string;
  species : string;
  treeFriendsScore : number;
  affordabilityScore : option number;
  accessibilityScore : option number
}.

(** [tree.treeFriendsScore = score] *)
Definition setTreeFriendsScore (tree : t) (score : number) : t :=
  mk (treeId tree) (status tree) (sidewalk tree) (problems tree)
     (latitude tree) (longitude tree) (neighborhood tree) (species tree)
     score (affordabilityScore tree) (accessibilityScore tree).

(** [tree.accessibilityScore = score] *)
Definition setAccessibilityScore (tree : t) (score : number) : t :=
  mk (treeId tree) (status tree) (sidewalk tree) (problems tree)
     (latitude tree) (longitude tree) (neighborhood tree) (species tree)
     (treeFriendsScore tree) (affordabilityScore tree) (Some score).
End TreeRecord.

Module NeighborhoodRecord.
Record t : Type := mk {
  name : string;
  latitude : number;
  longitude : number
}.
End NeighborhoodRecord.

Module NeighborhoodMatch.
Record t : Type := mk {
  name : string;
  distance : number;
  rent : option number
}.
End NeighborhoodMatch.

Module IndexedTreePoint.
Record t : Type := mk {
  tree : TreeRecord.t;
  latitude : number;
  longitude : number;
  index : nat
}.
End IndexedTreePoint.

(** [KdTreeNode | null]: the absent node is [null]. *)
Inductive KdTreeNode : Type :=
| null
| node (point : IndexedTreePoint.t) (axis : nat) (left right : KdTreeNode).

Definition NEAREST_NEIGHBOR_COUNT : nat := 3.

(** ** [Array.prototype.sort] with a numeric comparator

    The sort is stable; [cmp a b] positive puts [a] after [b].  For a
    comparator that is a total preorder (here: the difference of two finite
    keys) the result does not depend on the algorithm; the model is the
    stable insertion sort. *)

Section Sorting.
Context {A : Type} (cmp : A -> A -> number).

Fixpoint insertBy (x : A) (l : list A) : list A :=
  match l with
  | [] => [x]
  | y :: l' => if (Fin 0 <? cmp x y)%num then y :: insertBy x l' else x :: l
  end.

Definition sortBy (l : list A) : list A := foldr insertBy [] l.
End Sorting.

(** ** Scalar interpolation and its score (lines 377-402) *)

Definition calculateExpectedRent (matches : list NeighborhoodMatch.t) : option number :=
  if (length matches <? 3)%nat then None
  else
    match matches with
    | x1 :: x2 :: x3 :: _ =>
        match NeighborhoodMatch.rent x1, NeighborhoodMatch.rent x2,
              NeighborhoodMatch.rent x3 with
        | Some rent1, Some rent2, Some rent3 =>
            let d1 := Num.max (NeighborhoodMatch.distance x1) (Fin 0) in
            let d2 := Num.max (NeighborhoodMatch.distance x2) (Fin 0) in
            let d3 := Num.max (NeighborhoodMatch.distance x3) (Fin 0) in
            let denominator := (d1 + d2 + d3)%num in
            if (denominator =? Fin 0)%num
            then Some ((rent1 + rent2 + rent3) / Fin 3)%num
            else
              let weight1 := ((d2 + d3 - d1) / denominator)%num in
              let weight2 := ((d1 + d3 - d2) / denominator)%num in
              let weight3 := ((d1 + d2 - d3) / denominator)%num in
              Some (weight1 * rent1 + weight2 * rent2 + weight3 * rent3)%num
        | _, _, _ => None
        end
    | _ => None
    end.

Definition calculateAffordabilityScore (expectedRent : number) : number :=
  if negb (Num.isFinite expectedRent) || (expectedRent =? Fin 0)%num then Fin 0
  else
    let score := (Fin 36370 / expectedRent - Fin 2.737)%num in
    clamp score (Fin 0) (Fin 10).

(** ** Geodesic distance (lines 404-424) *)

Definition toRadians (degrees : number) : number :=
  (degrees * Fin PI / Fin 180)%num.

Definition getDistanceInMeters
    (originLat originLng targetLat targetLng : number) : number :=
  let earthRadius := Fin 6371000 in
  let dLat := toRadians (targetLat - originLat) in
  let dLng := toRadians (targetLng - originLng) in
  let a :=
    (Num.square (Num.sin (dLat / Fin 2))
     + Num.cos (toRadians originLat) * Num.cos (toRadians targetLat)
       * Num.square (Num.sin (dLng / Fin 2)))%num in
  let c := (Fin 2 * Num.atan2 (Num.sqrt a) (Num.sqrt (Fin 1 - a)))%num in
  (earthRadius * c)%num.

(** ** Health score (lines 511-525) *)

Definition calculateHealthScore (tree : TreeRecord.t) : nat :=
  let status := Str.toLowerCase (TreeRecord.status tree) in
  if (status =? "stump") || (status =? "dead") then 0%nat
  else
    let differences := 0%nat in
    let differences :=
      if negb (Str.toLowerCase (TreeRecord.status tree) =? "alive")
      then (differences + 1)%nat else differences in
    let differences :=
      if negb (Str.toLowerCase (TreeRecord.sidewalk tree) =? "nodamage")
      then (differences + 1)%nat else differences in
    let differences :=
      if Str.truthy (TreeRecord.problems tree)
         && negb (Str.toLowerCase (Str.trim (TreeRecord.problems tree)) =? "none")
      then (differences + 1)%nat else differences in
    if (differences =? 0)%nat then 3%nat
    else if (differences =? 1)%nat then 2%nat
    else 1%nat.

(** ** Normalized sub-scores (lines 546-554) *)

Definition normalizeTreeFriendsScore (score : number) : number :=
  if negb (Num.isFinite score) then Fin 0
  else (clamp score (Fin 0) (Fin 10) / Fin 10 * Fin 4)%num.

Definition normalizeAffordabilityScore (value : option number) : number :=
  match value with
  | None => Fin 0
  | Some value =>
      if negb (Num.isFinite value) then Fin 0
      else (clamp value (Fin 0) (Fin 10) / Fin 10 * Fin 4)%num
  end.

(** ** Nearest named areas (lines 334-375) *)

Definition getNeighborhoodRent (name : string) (rentLookup : gmap propertyValue number)
  : option number :=
  let key := normalizeRentKey name in
  if negb (truthyValue key) then None else rentLookup !! key.

Definition byDistance (a b : NeighborhoodMatch.t) : number :=
  (NeighborhoodMatch.distance a - NeighborhoodMatch.distance b)%num.

(** One iteration of the [forEach] of [getClosestNeighborhoodMatches]. *)
Definition offerNeighborhood (latitude longitude : number)
    (rentLookup : gmap propertyValue number) (limit : nat)
    (matches : list NeighborhoodMatch.t) (neighborhood : NeighborhoodRecord.t)
  : list NeighborhoodMatch.t :=
  let distance :=
    getDistanceInMeters latitude longitude
      (NeighborhoodRecord.latitude neighborhood)
      (NeighborhoodRecord.longitude neighborhood) in
  if negb (Num.isFinite distance) then matches
  else
    let match_ :=
      NeighborhoodMatch.mk (NeighborhoodRecord.name neighborhood) distance
        (getNeighborhoodRent (NeighborhoodRecord.name neighborhood) rentLookup) in
    if (length matches <? limit)%nat
    then sortBy byDistance (matches ++ [match_])
    else
      let farthestDistance :=
        match matches !! (length matches - 1)%nat with
        | Some m => NeighborhoodMatch.distance m
        | None => POSITIVE_INFINITY
        end in
      if (distance <? farthestDistance)%num
      then sortBy byDistance (<[(length matches - 1)%nat := match_]> matches)
      else matches.

Definition getClosestNeighborhoodMatches (latitude longitude : number)
    (neighborhoods : list NeighborhoodRecord.t)
    (rentLookup : gmap propertyValue number) (limit : nat)
  : list NeighborhoodMatch.t :=
  if (length neighborhoods =? 0)%nat || (limit <=? 0)%nat then []
  else foldl (offerNeighborhood latitude longitude rentLookup limit) [] neighborhoods.

(** ** Axis-only pruning distance (lines 752-763) *)

Definition getMetersPerDegreeLongitude (latitude : number) : number :=
  let meters := (Fin 111320 * Num.cos (toRadians latitude))%num in
  if Num.isFinite meters && (Fin 0 <? meters)%num then meters else Fin 0.

Definition getAxisDistanceMeters (deltaDegrees : number) (axis : nat)
    (referenceLatitude : number) : number :=
  if (deltaDegrees =? Fin 0)%num then Fin 0
  else if (axis =? 0)%nat then (deltaDegrees * Fin 111132)%num
  else (deltaDegrees * getMetersPerDegreeLongitude referenceLatitude)%num.

(** ** Density score (lines 765-776) *)

Definition getTreeFriendsScore (averageDistance : number) : number :=
  if negb (Num.isFinite averageDistance) || (averageDistance <=? Fin 0)%num
  then Fin 10
  else if (averageDistance <? Fin 2)%num then Fin 10
  else
    let rawScore := (Fin 10 - Fin 0.12 * (averageDistance - Fin 2))%num in
    clamp rawScore (Fin 0) (Fin 10).

(** ** The k-d tree (lines 687-701) *)

Definition byAxis (axis : nat) (a b : IndexedTreePoint.t) : number :=
  if (axis =? 0)%nat
  then (IndexedTreePoint.latitude a - IndexedTreePoint.latitude b)%num
  else (IndexedTreePoint.longitude a - IndexedTreePoint.longitude b)%num.

Equations? buildKdTree (points : list IndexedTreePoint.t) (depth : nat)
  : KdTreeNode by wf (length points) lt :=
  buildKdTree [] depth := null;
  buildKdTree (p :: ps) depth :=
    let axis := (depth mod 2)%nat in
    let sorted := sortBy (byAxis axis) (p :: ps) in
    let medianIndex := (length sorted / 2)%nat in
    let medianPoint := nth medianIndex sorted p in
    node medianPoint axis
      (buildKdTree (take medianIndex sorted) (depth + 1))
      (buildKdTree (drop (medianIndex + 1) sorted) (depth + 1)).
Proof.
  all: assert (Hins : forall cmp x (l : list IndexedTreePoint.t),
                 length (insertBy cmp x l) = S (length l))
         by (intros cmp x l; induction l as [|y l IH]; cbn [insertBy];
             [reflexivity | destruct (Fin 0 <? cmp x y)%num; cbn [length]; congruence]).
  all: assert (Hsort : forall cmp (l : list IndexedTreePoint.t),
                 length (sortBy cmp l) = length l)
         by (intros cmp l; induction l as [|y l IH]; cbn [sortBy foldr];
             [reflexivity | rewrite Hins; cbn [length]; f_equal; exact IH]).
  all: assert (Hlen : length sorted = S (length ps))
         by (subst sorted; rewrite Hins, Hsort; reflexivity).
  all: assert (Hmed : (medianIndex < length sorted)%nat)
         by (apply (Nat.div_lt (length sorted) 2); lia).
  - rewrite length_take. lia.
  - rewrite length_drop. lia.
Qed.

(** ** k-nearest-neighbour query (lines 703-750) *)

(** The accessor selected by [node.axis === 0 ? x.latitude : x.longitude]. *)
Definition axisValue (axis : nat) (latitude longitude : number) : number :=
  if (axis =? 0)%nat then latitude else longitude.

Definition addDistance (k : nat) (distance : number) (distances : list number)
  : list number :=
  if negb (Num.isFinite distance) then distances
  else
    let distances := sortBy Num.sub (distances ++ [distance]) in
    if (k <? length distances)%nat then removelast distances else distances.

(** The closure [search]; the captured array [distances] is threaded
    through. *)
Fixpoint search (target : IndexedTreePoint.t) (k : nat) (nd : KdTreeNode)
    (distances : list number) : list number :=
  match nd with
  | null => distances
  | node point axis leftNode rightNode =>
      let targetValue :=
        axisValue axis (IndexedTreePoint.latitude target)
          (IndexedTreePoint.longitude target) in
      let nodeValue :=
        axisValue axis (IndexedTreePoint.latitude point)
          (IndexedTreePoint.longitude point) in
      let distances :=
        search target k (if (targetValue <? nodeValue)%num then leftNode else rightNode)
          distances in
      let distances :=
        if negb (IndexedTreePoint.index point =? IndexedTreePoint.index target)%nat
        then
          addDistance k
            (getDistanceInMeters
               (IndexedTreePoint.latitude target) (IndexedTreePoint.longitude target)
               (IndexedTreePoint.latitude point) (IndexedTreePoint.longitude point))
            distances
        else distances in
      let deltaDegrees := Num.abs (targetValue - nodeValue) in
      let axisDistanceMeters :=
        getAxisDistanceMeters deltaDegrees axis (IndexedTreePoint.latitude target) in
      let currentMaxDistance :=
        match distances !! (length distances - 1)%nat with
        | Some d => d
        | None => POSITIVE_INFINITY
        end in
      if (length distances <? k)%nat || (axisDistanceMeters <? currentMaxDistance)%num
      then
        search target k (if (targetValue <? nodeValue)%num then rightNode else leftNode)
          distances
      else distances
  end.

Definition findKNearestNeighborDistances (root : KdTreeNode)
    (target : IndexedTreePoint.t) (k : nat) : list number :=
  search target k root [].

(** ** Collection-wide scoring passes (lines 652-685) *)

Definition indexPoints (trees : list TreeRecord.t) : list IndexedTreePoint.t :=
  imap (fun index tree =>
          IndexedTreePoint.mk tree (TreeRecord.latitude tree)
            (TreeRecord.longitude tree) index) trees.

(** [distances.reduce((sum, d) => sum + d, 0) / distances.length], or
    positive infinity for the empty array. *)
Definition averageDistance (neighborDistances : list number) : number :=
  if (0 <? length neighborDistances)%nat
  then (foldl Num.add (Fin 0) neighborDistances
        / Num.ofNat (length neighborDistances))%num
  else POSITIVE_INFINITY.

Definition assignTreeFriendsScores (trees : list TreeRecord.t)
    (neighborCount : nat) : list TreeRecord.t :=
  if (length trees =? 0)%nat then trees
  else
    let points := indexPoints trees in
    match buildKdTree points 0 with
    | null => trees
    | kdTreeRoot =>
        (fun point =>
           let neighborDistances :=
             findKNearestNeighborDistances kdTreeRoot point neighborCount in
           TreeRecord.setTreeFriendsScore (IndexedTreePoint.tree point)
             (getTreeFriendsScore (averageDistance neighborDistances)))
        <$> points
    end.

Definition assignAccessibilityScore (tree : TreeRecord.t) : TreeRecord.t :=
  let normalizedTreeFriends :=
    normalizeTreeFriendsScore (TreeRecord.treeFriendsScore tree) in
  let normalizedAffordability :=
    normalizeAffordabilityScore (TreeRecord.affordabilityScore tree) in
  let healthScore := Num.ofNat (calculateHealthScore tree) in
  let totalScore :=
    (normalizedTreeFriends + normalizedAffordability + healthScore)%num in
  let isDead := Str.toLowerCase (Str.trim (TreeRecord.status tree)) =? "dead" in
  TreeRecord.setAccessibilityScore tree (if isDead then Fin 0 else totalScore).

Definition assignAccessibilityScores (trees : list TreeRecord.t)
  : list TreeRecord.t :=
  assignAccessibilityScore <$> trees.

(** ** CSV line parser (lines 426-451) *)

Definition quoteChar : ascii := ascii_of_nat 34.
Definition commaChar : ascii := ascii_of_nat 44.
Definition CR : ascii := ascii_of_nat 13.
Definition LF : ascii := ascii_of_nat 10.

(** [current += char] *)
Definition pushChar (current : string) (char : ascii) : string :=
  current ++ String char EmptyString.

(** The [for] loop of [parseCsvLine] from position [i] on: [line] is the
    text from [line[i]] to the end. *)
Fixpoint parseCsvLoop (line current : string) (inQuotes : bool)
    (result : list string) : list string :=
  match line with
  | EmptyString => result ++ [current]
  | String char rest =>
      if (char =? quoteChar)%char then
        match rest with
        | String next rest' =>
            if inQuotes && (next =? quoteChar)%char
            then parseCsvLoop rest' (pushChar current quoteChar) inQuotes result
            else parseCsvLoop rest current (negb inQuotes) result
        | EmptyString => parseCsvLoop rest current (negb inQuotes) result
        end
      else if (char =? commaChar)%char && negb inQuotes then
        parseCsvLoop rest EmptyString inQuotes (result ++ [current])
      else parseCsvLoop rest (pushChar current char) inQuotes result
  end.

Definition parseCsvLine (line : string) : list string :=
  parseCsvLoop line EmptyString false [].

(** ** Splitting the raw text into lines (lines 224-226) *)

(** [csvData.replace(/^\uFEFF/, '')] *)
Definition stripBom (csvData : string) : string :=
  match csvData with
  | String b1 (String b2 (String b3 rest)) =>
      if ((b1 =? ascii_of_nat 239) && (b2 =? ascii_of_nat 187)
          && (b3 =? ascii_of_nat 191))%char
      then rest else csvData
  | _ => csvData
  end.

(** [text.split(/\r?\n/)], with [current] the line being read. *)
Fixpoint splitLinesFrom (current text : string) : list string :=
  match text with
  | EmptyString => [current]
  | String char rest =>
      if (char =? LF)%char then current :: splitLinesFrom EmptyString rest
      else if (char =? CR)%char then
        match rest with
        | String next rest' =>
            if (next =? LF)%char then current :: splitLinesFrom EmptyString rest'
            else splitLinesFrom (pushChar current char) rest
        | EmptyString => splitLinesFrom (pushChar current char) rest
        end
      else splitLinesFrom (pushChar current char) rest
  end.

Definition splitLines (text : string) : list string :=
  splitLinesFrom EmptyString text.

(** [csvData.replace(/^\uFEFF/, '').trim().split(/\r?\n/).filter(Boolean)] *)
Definition nonEmptyLines (csvData : string) : list string :=
  let normalizedData := Str.trim (stripBom csvData) in
  List.filter Str.truthy (splitLines normalizedData).

(** The [headers.reduce] that builds the header-keyed row, as the own
    properties of the object.  The assignment [acc[header] = text] under
    the header [__proto__] calls the setter inherited from
    [Object.prototype], which ignores a string: nothing is stored.  The
    names that the loaders read from a row ([latitude], [longitude],
    [tree_id], [status], [sidewalk], [problems], [spc_common], [name]) are
    no names of [Object.prototype], so that a read of one of them is the
    own property or [undefined]. *)
Definition rowOf (headers values : list string) : gmap string string :=
  foldl
    (fun acc '(index, header) =>
       if (header =? "__proto__")%string then acc
       else <[header := default EmptyString (values !! index)]> acc)
    ∅ (imap pair headers).

(** ** Primary-point normalization (lines 219-271) *)

Section Pipeline.

(** The conversion [Number(text)] of a string. *)
Variable Number : string -> number.

(** [Number(row.key)]: a missing key reads [undefined], which converts to
    NaN. *)
Definition numberOf (value : option string) : number :=
  match value with
  | Some text => Number text
  | None => NaN
  end.

(** The callback of [lines.slice(1).map(...)]; [None] is [undefined]. *)
Definition parseTreeLine (neighborhoods : list NeighborhoodRecord.t)
    (rentLookup : gmap propertyValue number) (headers : list string) (line : string)
  : option TreeRecord.t :=
  let values := parseCsvLine line in
  let row := rowOf headers values in
  let latitude := numberOf (row !! "latitude") in
  let longitude := numberOf (row !! "longitude") in
  if negb (Num.isFinite latitude) || negb (Num.isFinite longitude) then None
  else
    let nearestMatches :=
      getClosestNeighborhoodMatches latitude longitude neighborhoods rentLookup
        NEAREST_NEIGHBOR_COUNT in
    let closestNeighborhood :=
      match nearestMatches !! 0%nat with
      | Some m => NeighborhoodMatch.name m
      | None => "Unknown"
      end in
    let expectedRent := calculateExpectedRent nearestMatches in
    let affordabilityScore :=
      match expectedRent with
      | Some expectedRent => Some (calculateAffordabilityScore expectedRent)
      | None => None
      end in
    Some (TreeRecord.mk
            (Str.orElse (Str.trim (default EmptyString (row !! "tree_id")))
               "unknown")
            (match row !! "status" with
             | Some s => Str.trim s
             | None => EmptyString
             end)
            (match row !! "sidewalk" with
             | Some s => Str.trim s
             | None => EmptyString
             end)
            (match row !! "problems" with
             | Some s => Str.trim s
             | None => EmptyString
             end)
            latitude
            longitude
            closestNeighborhood
            (Str.orElse
               (Str.toLowerCase
                  (Str.trim (default EmptyString (row !! "spc_common"))))
               "unknown")
            (Fin 0)
            affordabilityScore
            None).

Definition parseTreeData (csvData : string)
    (neighborhoods : list NeighborhoodRecord.t)
    (rentLookup : gmap propertyValue number) : list TreeRecord.t :=
  let lines := nonEmptyLines csvData in
  if (length lines <=? 1)%nat then []
  else
    let headers := parseCsvLine (nth 0 lines EmptyString) in
    let parsedTrees :=
      omap (parseTreeLine neighborhoods rentLookup headers) (drop 1 lines) in
    assignAccessibilityScores (assignTreeFriendsScores parsedTrees 5).

End Pipeline.

(** ** Named areas and the rent table (lines 273-325) *)

(** [array.findIndex(test)]; [None] is the result [-1]. *)
Fixpoint findIndexFrom {A : Type} (test : A -> bool) (index : nat) (l : list A)
  : option nat :=
  match l with
  | [] => None
  | x :: rest => if test x then Some index else findIndexFrom test (S index) rest
  end.

Definition findIndex {A : Type} (test : A -> bool) (l : list A) : option nat :=
  findIndexFrom test 0 l.

Section Loaders.

(** The conversion [Number(text)] of a string. *)
Variable Number : string -> number.

(** The callback of [lines.slice(1).map(...)] of [parseNeighborhoodData];
    [None] is [undefined]. *)
Definition parseNeighborhoodLine (headers : list string) (line : string)
  : option NeighborhoodRecord.t :=
  let values := parseCsvLine line in
  let row := rowOf headers values in
  let latitude := numberOf Number (row !! "latitude") in
  let longitude := numberOf Number (row !! "longitude") in
  if negb (Num.isFinite latitude) || negb (Num.isFinite longitude) then None
  else
    Some (NeighborhoodRecord.mk
            (normalizeNeighborhoodName (default EmptyString (row !! "name")))
            latitude longitude).

Definition parseNeighborhoodData (csvData : string) : list NeighborhoodRecord.t :=
  let lines := nonEmptyLines csvData in
  if (length lines <=? 1)%nat then []
  else
    let headers := parseCsvLine (nth 0 lines EmptyString) in
    omap (parseNeighborhoodLine headers) (drop 1 lines).

(** The callback of [lines.slice(1).forEach(...)] of [parseRentData]; the
    map [rentLookup] it writes to is threaded through. *)
Definition parseRentLine (nameIndex rentIndex : nat)
    (rentLookup : gmap propertyValue number) (line : string) : gmap propertyValue number :=
  let values := parseCsvLine line in
  let key := normalizeRentKey (default EmptyString (values !! nameIndex)) in
  let rentValue := numberOf Number (values !! rentIndex) in
  if negb (truthyValue key) || negb (Num.isFinite rentValue) then rentLookup
  else <[key := rentValue]> rentLookup.

Definition parseRentData (csvData : string) : gmap propertyValue number :=
  let rentLookup : gmap propertyValue number := ∅ in
  let lines := nonEmptyLines csvData in
  if (length lines <=? 1)%nat then rentLookup
  else
    let headers := parseCsvLine (nth 0 lines EmptyString) in
    let nameIndex :=
      findIndex (fun header => Str.toLowerCase header =? "areaname") headers in
    let rentIndex :=
      findIndex (fun header => Str.toLowerCase header =? "rent") headers in
    match nameIndex, rentIndex with
    | Some nameIndex, Some rentIndex =>
        foldl (parseRentLine nameIndex rentIndex) rentLookup (drop 1 lines)
    | _, _ => rentLookup
    end.

(** The three module-level constants of lines 92-94. *)
Definition loadTrees (treeDataCsv neighborhoodsCsv rentDataCsv : string)
  : list TreeRecord.t :=
  let rentLookup := parseRentData rentDataCsv in
  let neighborhoods := parseNeighborhoodData neighborhoodsCsv in
  parseTreeData Number treeDataCsv neighborhoods rentLookup.

End Loaders.

(** ** The tooltip: its lines (lines 458-544) *)

Definition GRID_SIZE : nat := 12.
Definition CELL_COUNT : nat := GRID_SIZE * GRID_SIZE.
Definition TOOLTIP_GAP : number := Fin 16.
Definition TOOLTIP_LINE_HEIGHT : number := Fin 2.1.
Definition TOOLTIP_FONT_SIZE_MIN_PX : number := Fin 9.
Definition TOOLTIP_FONT_SIZE_MAX_PX : number := Fin 18.
Definition TOOLTIP_FONT_SIZE_VIEWPORT_RATIO : number := Fin 0.015.
Definition TOOLTIP_PADDING_X_SCALE : number := Fin 1.25.
Definition TOOLTIP_PADDING_Y_SCALE : number := Fin 0.55.

Module ACCESSIBILITY_COLORS.
Definition excellent : string := "#0C3B1D".
Definition great : string := "#1C7F3B".
Definition fair : string := "#FFFFFF".
Definition poor : string := "#C0392B".
Definition unknown : string := "#3A2A24".
End ACCESSIBILITY_COLORS.

Module TooltipMetrics.
Record t : Type := mk {
  fontSizePx : number;
  paddingXPx : number;
  paddingYPx : number
}.
End TooltipMetrics.

(** [deadSuffix?: string]: the absent property is [None]. *)
Module TooltipLine.
Record t : Type := mk {
  text : string;
  deadSuffix : option string
}.
End TooltipLine.

Module TooltipState.
Record t : Type := mk {
  lines : list TooltipLine.t;
  x : number;
  y : number;
  metrics : TooltipMetrics.t
}.
End TooltipState.

Definition shouldShowProblems (tree : TreeRecord.t) : bool :=
  if Str.toLowerCase (Str.trim (TreeRecord.status tree)) =? "dead" then true
  else negb (calculateHealthScore tree =? 3)%nat.

Definition formatProblems (tree : TreeRecord.t) : string :=
  let rawProblems := Str.trim (TreeRecord.problems tree) in
  if Str.truthy rawProblems && negb (Str.toLowerCase rawProblems =? "none")
  then rawProblems
  else
    let sidewalkIssue := Str.trim (TreeRecord.sidewalk tree) in
    if Str.truthy sidewalkIssue
       && negb (Str.toLowerCase sidewalkIssue =? "nodamage")
    then sidewalkIssue
    else "Unknown".

Definition getAccessibilityColor (score : option number) : string :=
  match score with
  | None => ACCESSIBILITY_COLORS.unknown
  | Some score =>
      if negb (Num.isFinite score) then ACCESSIBILITY_COLORS.unknown
      else if (Fin 8.5 <=? score)%num then ACCESSIBILITY_COLORS.excellent
      else if (Fin 7.5 <=? score)%num then ACCESSIBILITY_COLORS.great
      else if (Fin 4.5 <=? score)%num then ACCESSIBILITY_COLORS.fair
      else ACCESSIBILITY_COLORS.poor
  end.

Section TooltipContent.

(** [value.toFixed(digits)], the decimal rendering of a number. *)
Variable toFixed : number -> nat -> string.

Definition formatTreeFriendsScore (score : number) : string :=
  toFixed (normalizeTreeFriendsScore score) 1.

Definition formatAffordabilityScore (value : option number) : string :=
  toFixed (normalizeAffordabilityScore value) 1.

Definition formatAccessibilityScore (score : option number) : string :=
  match score with
  | None => "0.0"
  | Some score => if negb (Num.isFinite score) then "0.0" else toFixed score 1
  end.

Definition formatCoordinate (value : number) : string :=
  if negb (Num.isFinite value) then "unknown" else toFixed value 5.

Definition formatHealthScore (tree : TreeRecord.t) : string :=
  let score := Num.ofNat (calculateHealthScore tree) in
  if negb (Num.isFinite score) then "0" else toFixed score 0.

Definition getTreeTooltipContent (tree : TreeRecord.t) : list TooltipLine.t :=
  let lines :=
    [ TooltipLine.mk
        (if Str.truthy (TreeRecord.treeId tree)
         then "tree-#" ++ TreeRecord.treeId tree else "tree-#unknown") None;
      TooltipLine.mk
        ("Accessibility: "
         ++ formatAccessibilityScore (TreeRecord.accessibilityScore tree)) None;
      TooltipLine.mk ("Neighborhood: " ++ TreeRecord.neighborhood tree) None;
      TooltipLine.mk
        ("Coordinates: " ++ formatCoordinate (TreeRecord.latitude tree)
         ++ ", " ++ formatCoordinate (TreeRecord.longitude tree)) None;
      TooltipLine.mk
        ("Species: " ++ Str.orElse (TreeRecord.species tree) "unknown") None;
      TooltipLine.mk
        ("Tree Friends: "
         ++ formatTreeFriendsScore (TreeRecord.treeFriendsScore tree)) None;
      TooltipLine.mk
        ("Affordability: "
         ++ formatAffordabilityScore (TreeRecord.affordabilityScore tree)) None;
      TooltipLine.mk ("Health: " ++ formatHealthScore tree) None ]%list in
  if shouldShowProblems tree then
    let isDead := Str.toLowerCase (Str.trim (TreeRecord.status tree)) =? "dead" in
    if isDead
    then (lines ++ [TooltipLine.mk "Problems:" (Some "dead")])%list
    else (lines ++ [TooltipLine.mk ("Problems: " ++ formatProblems tree) None])%list
  else lines.

End TooltipContent.

(** ** The tooltip: its size and position (lines 564-650) *)

(** [Math.max(...values)]: minus infinity for no value, NaN as soon as one
    value is NaN. *)
Definition maxOf (values : list number) : number := foldl Num.max NInf values.

(** [text.split('\n')], with [current] the piece being read. *)
Fixpoint splitNewlinesFrom (current text : string) : list string :=
  match text with
  | EmptyString => [current]
  | String char rest =>
      if (char =? LF)%char then current :: splitNewlinesFrom EmptyString rest
      else splitNewlinesFrom (pushChar current char) rest
  end.

Definition splitNewlines (text : string) : list string :=
  splitNewlinesFrom EmptyString text.

(** [pieces.join('\n')] *)
Fixpoint joinNewlines (pieces : list string) : string :=
  match pieces with
  | [] => EmptyString
  | [piece] => piece
  | piece :: rest => piece ++ String LF (joinNewlines rest)
  end.

(** The part of [window] that the code reads. *)
Module Window.
Record t : Type := mk {
  innerWidth : number;
  innerHeight : number
}.
End Window.

(** A 2D canvas context: [measureText fontSizePx line] is the width
    [context.measureText(line).width] once [context.font] was set to the
    monospace font of [fontSizePx] pixels. *)
Module CanvasContext.
Record t : Type := mk {
  measureText : number -> string -> number
}.
End CanvasContext.

(** The host environment: [window] and [document] may be undefined, and
    [canvas.getContext('2d')] may be null. *)
Module Browser.
Record t : Type := mk {
  window : option Window.t;
  document : option (option CanvasContext.t)
}.
End Browser.

Module Size.
Record t : Type := mk {
  width : number;
  height : number
}.
End Size.

Module Position.
Record t : Type := mk {
  x : number;
  y : number
}.
End Position.

(** [getMeasurementContext]: the module variable [measurementContext] is
    passed in and returned with the result. *)
Definition getMeasurementContext (browser : Browser.t)
    (measurementContext : option CanvasContext.t)
  : option CanvasContext.t * option CanvasContext.t :=
  match measurementContext with
  | Some context => (Some context, measurementContext)
  | None =>
      match Browser.document browser with
      | None => (None, measurementContext)
      | Some canvasContext =>
          match canvasContext with
          | None => (None, measurementContext)
          | Some context => (Some context, Some context)
          end
      end
  end.

Definition getResponsiveFontSizePx (browser : Browser.t) : number :=
  let fallback :=
    clamp (Fin 800 * TOOLTIP_FONT_SIZE_VIEWPORT_RATIO)%num
      TOOLTIP_FONT_SIZE_MIN_PX TOOLTIP_FONT_SIZE_MAX_PX in
  match Browser.window browser with
  | None => fallback
  | Some window =>
      let viewportMin :=
        Num.min (Window.innerWidth window) (Window.innerHeight window) in
      let ideal := (viewportMin * TOOLTIP_FONT_SIZE_VIEWPORT_RATIO)%num in
      clamp ideal TOOLTIP_FONT_SIZE_MIN_PX TOOLTIP_FONT_SIZE_MAX_PX
  end.

Definition getTooltipMetrics (browser : Browser.t) : TooltipMetrics.t :=
  let fontSizePx := getResponsiveFontSizePx browser in
  TooltipMetrics.mk fontSizePx
    (fontSizePx * TOOLTIP_PADDING_X_SCALE)%num
    (fontSizePx * TOOLTIP_PADDING_Y_SCALE)%num.

Definition measureTooltipSize (browser : Browser.t)
    (measurementContext : option CanvasContext.t)
    (text : string) (metrics : TooltipMetrics.t)
  : Size.t * option CanvasContext.t :=
  let lines := splitNewlines text in
  let lineHeight := (TooltipMetrics.fontSizePx metrics * TOOLTIP_LINE_HEIGHT)%num in
  let textHeight :=
    Num.max (lineHeight * Num.ofNat (length lines))%num
      (TooltipMetrics.fontSizePx metrics) in
  let fallbackLineWidth :=
    maxOf
      (((fun line =>
           (Num.ofNat (String.length line) * TooltipMetrics.fontSizePx metrics
            * Fin 0.6)%num) <$> lines) ++ [Fin 0])%list in
  let '(context, measurementContext) :=
    getMeasurementContext browser measurementContext in
  match context with
  | None =>
      (Size.mk
         (fallbackLineWidth + TooltipMetrics.paddingXPx metrics * Fin 2)%num
         (textHeight + TooltipMetrics.paddingYPx metrics * Fin 2)%num,
       measurementContext)
  | Some context =>
      let maxMeasuredWidth :=
        foldl
          (fun maxWidth line =>
             Num.max maxWidth
               (CanvasContext.measureText context
                  (TooltipMetrics.fontSizePx metrics) line))
          (Fin 0) lines in
      (Size.mk
         (Num.max maxMeasuredWidth fallbackLineWidth
          + TooltipMetrics.paddingXPx metrics * Fin 2)%num
         (textHeight + TooltipMetrics.paddingYPx metrics * Fin 2)%num,
       measurementContext)
  end.

Definition calculateTooltipPosition (browser : Browser.t)
    (measurementContext : option CanvasContext.t)
    (text : string) (clientX clientY : number) (metrics : TooltipMetrics.t)
  : Position.t * option CanvasContext.t :=
  match Browser.window browser with
  | None =>
      (Position.mk (clientX + TOOLTIP_GAP)%num (clientY + TOOLTIP_GAP)%num,
       measurementContext)
  | Some window =>
      let '(size, measurementContext) :=
        measureTooltipSize browser measurementContext text metrics in
      let width := Size.width size in
      let height := Size.height size in
      let viewportWidth := Window.innerWidth window in
      let viewportHeight := Window.innerHeight window in
      let spaceOnLeft := (clientX - TOOLTIP_GAP - width)%num in
      if (TOOLTIP_GAP <=? spaceOnLeft)%num then
        let y :=
          clamp (clientY - height / Fin 2)%num TOOLTIP_GAP
            (viewportHeight - height - TOOLTIP_GAP)%num in
        (Position.mk spaceOnLeft y, measurementContext)
      else
        let y :=
          clamp (clientY + TOOLTIP_GAP)%num TOOLTIP_GAP
            (viewportHeight - height - TOOLTIP_GAP)%num in
        let x :=
          clamp (clientX - width / Fin 2)%num TOOLTIP_GAP
            (viewportWidth - width - TOOLTIP_GAP)%num in
        (Position.mk x y, measurementContext)
  end.

(** ** The grid of cells (lines 96-217 and 453-456) *)

(** [Math.floor] *)
Definition floor (a : number) : number :=
  match a with
  | Fin x => Fin (IZR (Int_part x))
  | other => other
  end.

(** [array[index]] for a numeric index: an element when the index is a
    non-negative integer below the length, [undefined] otherwise. *)
Definition arrayGet {A : Type} (l : list A) (index : number) : option A :=
  match index with
  | Fin x =>
      if Num.Rleb 0 x && Num.Reqb (IZR (Int_part x)) x
      then l !! Z.to_nat (Int_part x)
      else None
  | _ => None
  end.

(** [array[index] = value] on an array that may have empty slots: beyond
    the end the array is extended, the slots in between staying empty. *)
Definition arraySet {A : Type} (index : nat) (value : A) (l : list (option A))
  : list (option A) :=
  if (index <? length l)%nat then <[index := Some value]> l
  else (l ++ replicate (index - length l) None ++ [Some value])%list.

(** [getRandomTreeIndex]; [random] is the value drawn by [Math.random()]. *)
Definition getRandomTreeIndex (trees : list TreeRecord.t) (random : number)
  : number :=
  if (length trees =? 0)%nat then Fin (-1)
  else floor (random * Num.ofNat (length trees))%num.

(** The initial value of [cellTreeIndices]; [random index] is the value
    drawn for the cell [index]. *)
Definition initialCellTreeIndices (trees : list TreeRecord.t)
    (random : nat -> number) : list (option number) :=
  (fun index => Some (getRandomTreeIndex trees (random index)))
  <$> seq 0 CELL_COUNT.

(** The state of the application: the two state variables of the component
    [App] and the module variable [measurementContext]. *)
Module AppState.
Record t : Type := mk {
  cellTreeIndices : list (option number);
  tooltip : option TooltipState.t;
  measurementContext : option CanvasContext.t
}.
End AppState.

(** [trees[cellTreeIndices[index]]], the record shown by the cell. *)
Definition cellTree (trees : list TreeRecord.t) (state : AppState.t)
    (index : nat) : option TreeRecord.t :=
  match AppState.cellTreeIndices state !! index with
  | Some (Some treeIndex) => arrayGet trees treeIndex
  | _ => None
  end.

Definition handleCellMouseLeave (trees : list TreeRecord.t) (random : number)
    (cellIndex : nat) (state : AppState.t) : AppState.t :=
  if (length trees =? 0)%nat then state
  else
    AppState.mk
      (arraySet cellIndex (getRandomTreeIndex trees random)
         (AppState.cellTreeIndices state))
      None
      (AppState.measurementContext state).

(** [onHoverEnd], that is [setTooltip(null)]. *)
Definition onHoverEnd (state : AppState.t) : AppState.t :=
  AppState.mk (AppState.cellTreeIndices state) None
    (AppState.measurementContext state).

(** [handleMouseLeave] of the cell [cellIndex]: [onHoverEnd()], then
    [onMouseLeave()], which is [handleCellMouseLeave(cellIndex)]. *)
Definition handleMouseLeave (trees : list TreeRecord.t) (random : number)
    (cellIndex : nat) (state : AppState.t) : AppState.t :=
  handleCellMouseLeave trees random cellIndex (onHoverEnd state).

(** The text of a tooltip line, as [updateTooltip] joins it. *)
Definition tooltipLineText (line : TooltipLine.t) : string :=
  match TooltipLine.deadSuffix line with
  | Some deadSuffix =>
      if Str.truthy deadSuffix
      then TooltipLine.text line ++ " " ++ deadSuffix
      else TooltipLine.text line
  | None => TooltipLine.text line
  end.

Section Hover.

Variable toFixed : number -> nat -> string.

Definition updateTooltip (browser : Browser.t) (clientX clientY : number)
    (tree : TreeRecord.t) (state : AppState.t) : AppState.t :=
  let tooltipLines := getTreeTooltipContent toFixed tree in
  let tooltipText := joinNewlines (tooltipLineText <$> tooltipLines) in
  let metrics := getTooltipMetrics browser in
  let '(position, measurementContext) :=
    calculateTooltipPosition browser (AppState.measurementContext state)
      tooltipText clientX clientY metrics in
  AppState.mk (AppState.cellTreeIndices state)
    (Some (TooltipState.mk tooltipLines (Position.x position)
             (Position.y position) metrics))
    measurementContext.

End Hover.

(** The background colour that [handleMouseEnter] gives to a cell; [None]
    when the cell shows no record and the handler returns at once. *)
Definition cellHoverColor (trees : list TreeRecord.t) (state : AppState.t)
    (index : nat) : option string :=
  match cellTree trees state index with
  | Some tree => Some (getAccessibilityColor (TreeRecord.accessibilityScore tree))
  | None => None
  end.

(** The row and the column named by the [aria-label] of a cell. *)
Definition cellRow (index : nat) : nat := (index / GRID_SIZE + 1)%nat.
Definition cellColumn (index : nat) : nat := (index mod GRID_SIZE + 1)%nat.

Definition cellLabel (index : nat) : string :=
  "Cell " ++ pretty (cellRow index) ++ ", " ++ pretty (cellColumn index).

(** ** Reference definitions used to state the properties *)

(** The distance of a match, floored at zero. *)
Definition flooredDistance (m : NeighborhoodMatch.t) : number :=
  Num.max (NeighborhoodMatch.distance m) (Fin 0).

(** The interpolation weight of the area at distance [d], the two others
    being at distances [e] and [f]: [(e + f - d) / (d + e + f)]. *)
Definition interpolationWeight (d e f : R) : R := ((e + f - d) / (d + e + f))%R.

(** The number of mismatches against the three healthy baselines, as the
    specification counts them. *)
Definition healthMismatches (tree : TreeRecord.t) : nat :=
  let statusMismatch : nat :=
    if Str.toLowerCase (TreeRecord.status tree) =? "alive" then 0 else 1 in
  let sidewalkMismatch : nat :=
    if Str.toLowerCase (TreeRecord.sidewalk tree) =? "nodamage" then 0 else 1 in
  let problemsMismatch : nat :=
    if Str.truthy (TreeRecord.problems tree)
       && negb (Str.toLowerCase (TreeRecord.problems tree) =? "none")
    then 1 else 0 in
  (statusMismatch + sidewalkMismatch + problemsMismatch)%nat.

(** The point at position [index] of the collection, as
    [assignTreeFriendsScores] builds it. *)
Definition pointOf (index : nat) (tree : TreeRecord.t) : IndexedTreePoint.t :=
  IndexedTreePoint.mk tree (TreeRecord.latitude tree) (TreeRecord.longitude tree)
    index.

(** The geodesic distance between two indexed points. *)
Definition pointDistance (target point : IndexedTreePoint.t) : number :=
  getDistanceInMeters
    (IndexedTreePoint.latitude target) (IndexedTreePoint.longitude target)
    (IndexedTreePoint.latitude point) (IndexedTreePoint.longitude point).

(** The finite distances from [target] to every other point of [points]. *)
Definition otherDistances (target : IndexedTreePoint.t)
    (points : list IndexedTreePoint.t) : list number :=
  List.filter Num.isFinite
    (map (pointDistance target)
       (List.filter
          (fun point =>
             negb (IndexedTreePoint.index point =? IndexedTreePoint.index target)%nat)
          points)).

(** The brute-force reference of the query: scan every other point, sort
    the distances and keep the [k] smallest. *)
Definition bruteForceNearest (points : list IndexedTreePoint.t)
    (target : IndexedTreePoint.t) (k : nat) : list number :=
  take k (sortBy Num.sub (otherDistances target points)).

(** The points stored in a k-d tree. *)
Fixpoint pointsOf (nd : KdTreeNode) : list IndexedTreePoint.t :=
  match nd with
  | null => []
  | node point _ leftNode rightNode => pointsOf leftNode ++ point :: pointsOf rightNode
  end.

(** The pruning test at a node is sound for [target] when the axis-only
    distance does not exceed the geodesic distance from [target] to any
    other point stored on the far side of the node. *)
Fixpoint pruningSound (target : IndexedTreePoint.t) (nd : KdTreeNode) : Prop :=
  match nd with
  | null => True
  | node point axis leftNode rightNode =>
      let targetValue :=
        axisValue axis (IndexedTreePoint.latitude target)
          (IndexedTreePoint.longitude target) in
      let nodeValue :=
        axisValue axis (IndexedTreePoint.latitude point)
          (IndexedTreePoint.longitude point) in
      let farNode := if (targetValue <? nodeValue)%num then rightNode else leftNode in
      Forall
        (fun d =>
           (getAxisDistanceMeters (Num.abs (targetValue - nodeValue)) axis
              (IndexedTreePoint.latitude target) <=? d)%num = true)
        (otherDistances target (pointsOf farNode))
      /\ pruningSound target leftNode
      /\ pruningSound target rightNode
  end.

(** Non-decreasing order on numbers. *)
Definition numLe (a b : number) : Prop := (a <=? b)%num = true.

(** The scalar score clamped to [0, 10]; a null or non-finite score counts
    as zero. *)
Definition clampedScalar (score : option number) : R :=
  match score with
  | Some (Fin s) => Rmin (Rmax s 0) 10
  | _ => 0%R
  end.

(** The text fields of a record are trimmed, as [parseTreeData] leaves
    them. *)
Definition trimmedFields (tree : TreeRecord.t) : Prop :=
  Str.trim (TreeRecord.status tree) = TreeRecord.status tree
  /\ Str.trim (TreeRecord.sidewalk tree) = TreeRecord.sidewalk tree
  /\ Str.trim (TreeRecord.problems tree) = TreeRecord.problems tree.

(** What [parseTreeLine] guarantees about the record it builds. *)
Definition freshRecord (raw : TreeRecord.t) : Prop :=
  Num.isFinite (TreeRecord.latitude raw) = true
  /\ Num.isFinite (TreeRecord.longitude raw) = true
  /\ trimmedFields raw
  /\ match TreeRecord.affordabilityScore raw with
     | None => True
     | Some score => exists s, score = Fin s /\ (0 <= s <= 10)%R
     end.

(** A sample conversion for the runs below: every text converts to zero. *)
Definition sampleNumber (text : string) : number := Fin 0.

(** A data set of one row, with the given status. *)
Definition sampleCsv (status : string) : string :=
  "latitude,longitude,status" ++ String LF ("0,0," ++ status).

(** The record read from [sampleCsv status], before scoring. *)
Definition sampleRecord (status : string) : TreeRecord.t :=
  TreeRecord.mk "unknown" status EmptyString EmptyString (Fin 0) (Fin 0)
    "Unknown" "unknown" (Fin 0) None None.

(** The commas of a line that lie outside quoted mode; [inQuotes] is the
    mode at the start of [line]. *)
Fixpoint unquotedCommas (inQuotes : bool) (line : string) : nat :=
  match line with
  | EmptyString => 0
  | String char rest =>
      if (char =? quoteChar)%char then
        match rest with
        | String next rest' =>
            if inQuotes && (next =? quoteChar)%char
            then unquotedCommas inQuotes rest'
            else unquotedCommas (negb inQuotes) rest
        | EmptyString => 0
        end
      else if (char =? commaChar)%char && negb inQuotes
      then S (unquotedCommas inQuotes rest)
      else unquotedCommas inQuotes rest
  end.

(** The number of occurrences of a character. *)
Fixpoint countChar (c : ascii) (s : string) : nat :=
  match s with
  | EmptyString => 0
  | String char rest => (if (char =? c)%char then 1 else 0) + countChar c rest
  end.

(** RFC 4180 rendering of a field: enclosed in double quotes, every double
    quote of the content doubled. *)
Fixpoint escapeField (field : string) : string :=
  match field with
  | EmptyString => EmptyString
  | String char rest =>
      if (char =? quoteChar)%char
      then String quoteChar (String quoteChar (escapeField rest))
      else String char (escapeField rest)
  end.

Definition quoteField (field : string) : string :=
  String quoteChar (escapeField field ++ String quoteChar EmptyString).

(** The fields of a record joined by commas. *)
Fixpoint joinFields (fields : list string) : string :=
  match fields with
  | [] => EmptyString
  | [field] => field
  | field :: rest => field ++ String commaChar (joinFields rest)
  end.

(** [kept] holds the [k] smallest of the distances [every]: it is sorted,
    has at most [k] entries, and the entries of [every] left out are none
    smaller than a kept one, and there are some only when [kept] is full. *)
Definition kSmallest (k : nat) (every kept : list number) : Prop :=
  StronglySorted numLe kept
  /\ (length kept <= k)%nat
  /\ exists rest,
       every ≡ₚ kept ++ rest
       /\ (rest <> [] -> length kept = k)
       /\ Forall (fun z => Forall (fun x => numLe x z) kept) rest.

(** [distances[distances.length - 1] ?? Infinity] *)
Definition currentMax (distances : list number) : number :=
  match distances !! (length distances - 1)%nat with
  | Some d => d
  | None => POSITIVE_INFINITY
  end.

(** The visit of the node itself. *)
Definition visitNode (target : IndexedTreePoint.t) (k : nat)
    (point : IndexedTreePoint.t) (distances : list number) : list number :=
  if negb (IndexedTreePoint.index point =? IndexedTreePoint.index target)%nat
  then addDistance k (pointDistance target point) distances
  else distances.

(** The length in meters of an arc of [degrees] degrees of a great circle,
    as the haversine formula computes it. *)
Definition arcMeters (degrees : R) : R :=
  (6371000 * (2 * (degrees * PI / 180 / 2)))%R.

(** A record at the given coordinates. *)
Definition treeAt (latitude longitude : R) : TreeRecord.t :=
  TreeRecord.mk EmptyString EmptyString EmptyString EmptyString
    (Fin latitude) (Fin longitude) EmptyString EmptyString (Fin 0) None None.

(** The indexed point of a record on the equator. *)
Definition equatorPoint (longitude : R) (index : nat) : IndexedTreePoint.t :=
  pointOf index (treeAt 0 longitude).

(** The indexed point of a record on the prime meridian. *)
Definition meridianPoint (latitude : R) (index : nat) : IndexedTreePoint.t :=
  pointOf index (treeAt latitude 0).

(** Eight records on the equator, within two degrees of the fifth one. *)
Definition equatorTrees : list TreeRecord.t :=
  [treeAt 0 (-0.2); treeAt 0 (-0.1); treeAt 0 1; treeAt 0 1.0002;
   treeAt 0 0; treeAt 0 (-2); treeAt 0 (-1.0005); treeAt 0 0.3].

(** The same eight records at one ten-thousandth of the spacing: within
    22 meters of the fifth one. *)
Definition streetTrees : list TreeRecord.t :=
  [treeAt 0 (-0.00002); treeAt 0 (-0.00001); treeAt 0 0.0001;
   treeAt 0 0.00010002; treeAt 0 0; treeAt 0 (-0.0002);
   treeAt 0 (-0.00010005); treeAt 0 0.00003].

(** Eight records on the equator, on both sides of the antimeridian. *)
Definition antimeridianTrees : list TreeRecord.t :=
  [treeAt 0 (-180); treeAt 0 (-179); treeAt 0 (-100); treeAt 0 179;
   treeAt 0 (-175); treeAt 0 (-178); treeAt 0 (-177); treeAt 0 (-176)].

(** Three records on the prime meridian, one degree apart. *)
Definition meridianTrees : list TreeRecord.t :=
  [treeAt 0 0; treeAt 1 0; treeAt 2 0].

(** The finite distances from a point to every named area. *)
Definition areaDistances (latitude longitude : number)
    (neighborhoods : list NeighborhoodRecord.t) : list number :=
  List.filter Num.isFinite
    ((fun neighborhood =>
        getDistanceInMeters latitude longitude
          (NeighborhoodRecord.latitude neighborhood)
          (NeighborhoodRecord.longitude neighborhood))
     <$> neighborhoods).

(** The haversine of the central angle between two points given in degrees:
    the quantity [a] of [getDistanceInMeters] on finite coordinates. *)
Definition haversine (lat1 lng1 lat2 lng2 : R) : R :=
  (let dLat := (lat2 + - lat1) * PI / 180 / 2 in
   let dLng := (lng2 + - lng1) * PI / 180 / 2 in
   sin dLat * sin dLat
   + cos (lat1 * PI / 180) * cos (lat2 * PI / 180) * (sin dLng * sin dLng))%R.

(** Half the circumference of the sphere of radius 6371 km, in meters. *)
Definition halfCircumference : R := (6371000 * PI)%R.

(** A point of longitude [lng] whose latitude lies in [-90, 90]. *)
Definition onMeridian (lng : R) (point : IndexedTreePoint.t) : Prop :=
  exists lat : R,
    (-90 <= lat <= 90)%R
    /\ IndexedTreePoint.latitude point = Fin lat
    /\ IndexedTreePoint.longitude point = Fin lng.

(** The coordinate of a point that a node of the given axis compares. *)
Definition axisOf (axis : nat) (point : IndexedTreePoint.t) : number :=
  axisValue axis (IndexedTreePoint.latitude point)
    (IndexedTreePoint.longitude point).

(** The search-tree order of a k-d tree: at every node the points of the
    left subtree are not above the point of the node on its axis, those of
    the right subtree not below. *)
Fixpoint kdOrdered (nd : KdTreeNode) : Prop :=
  match nd with
  | null => True
  | node point axis leftNode rightNode =>
      Forall (fun p => numLe (axisOf axis p) (axisOf axis point)) (pointsOf leftNode)
      /\ Forall (fun p => numLe (axisOf axis point) (axisOf axis p))
           (pointsOf rightNode)
      /\ kdOrdered leftNode
      /\ kdOrdered rightNode
  end.

(** The axes of a tree whose root is at [depth] alternate with the depth:
    latitude at even depths, longitude at odd ones. *)
Fixpoint kdAxes (depth : nat) (nd : KdTreeNode) : Prop :=
  match nd with
  | null => True
  | node _ axis leftNode rightNode =>
      axis = (depth mod 2)%nat
      /\ kdAxes (depth + 1) leftNode
      /\ kdAxes (depth + 1) rightNode
  end.

(** The number of nodes on the longest path from the root. *)
Fixpoint height (nd : KdTreeNode) : nat :=
  match nd with
  | null => 0
  | node _ _ leftNode rightNode => S (Nat.max (height leftNode) (height rightNode))
  end.

(** The height of a tree of [n] nodes that is as shallow as possible. *)
Definition balancedHeight (n : nat) : nat :=
  match n with
  | 0 => 0
  | _ => S (Nat.log2 n)
  end.

Definition finiteCoordinates (point : IndexedTreePoint.t) : Prop :=
  Num.isFinite (IndexedTreePoint.latitude point) = true
  /\ Num.isFinite (IndexedTreePoint.longitude point) = true.

(** The match that [getClosestNeighborhoodMatches] builds for an area. *)
Definition matchOf (latitude longitude : number)
    (rentLookup : gmap propertyValue number) (neighborhood : NeighborhoodRecord.t)
  : NeighborhoodMatch.t :=
  NeighborhoodMatch.mk (NeighborhoodRecord.name neighborhood)
    (getDistanceInMeters latitude longitude
       (NeighborhoodRecord.latitude neighborhood)
       (NeighborhoodRecord.longitude neighborhood))
    (getNeighborhoodRent (NeighborhoodRecord.name neighborhood) rentLookup).

(** The distance from a record to an area. *)
Definition areaDistance (tree : TreeRecord.t) (neighborhood : NeighborhoodRecord.t)
  : number :=
  getDistanceInMeters (TreeRecord.latitude tree) (TreeRecord.longitude tree)
    (NeighborhoodRecord.latitude neighborhood)
    (NeighborhoodRecord.longitude neighborhood).

Definition finiteArea (neighborhood : NeighborhoodRecord.t) : Prop :=
  Num.isFinite (NeighborhoodRecord.latitude neighborhood) = true
  /\ Num.isFinite (NeighborhoodRecord.longitude neighborhood) = true.

(** One named area, at the origin of the coordinates. *)
Definition sampleArea : NeighborhoodRecord.t :=
  NeighborhoodRecord.mk "SoHo" (Fin 0) (Fin 0).

(** The key and the value that [parseRentData] reads on a data line, given
    the positions of the two columns. *)
Definition rentKeyOf (nameIndex : nat) (line : string) : propertyValue :=
  normalizeRentKey (default EmptyString (parseCsvLine line !! nameIndex)).

Definition rentValueOf (Number : string -> number) (rentIndex : nat)
    (line : string) : number :=
  numberOf Number (parseCsvLine line !! rentIndex).

(** The line stores a rent under [key]: its key is [key], it is not empty,
    and its value is finite. *)
Definition storesRent (Number : string -> number) (nameIndex rentIndex : nat)
    (key : propertyValue) (line : string) : bool :=
  bool_decide (rentKeyOf nameIndex line = key)
  && truthyValue (rentKeyOf nameIndex line)
  && Num.isFinite (rentValueOf Number rentIndex line).

(** A sample conversion for rent tables: two known amounts, NaN for any
    other text. *)
Definition sampleRent (text : string) : number :=
  if text =? "3000" then Fin 3000
  else if text =? "4000" then Fin 4000
  else NaN.

(** A rent table with a row that is not a number and two rows for the same
    area, whose names differ in case and spacing. *)
Definition sampleRentCsv : string :=
  "areaName,rent" ++ String LF ("Tribeca,n/a" ++ String LF
    ("SoHo,3000" ++ String LF " soho ,4000")).

(** The length of the longest of the given lines. *)
Definition longestLine (lines : list string) : nat :=
  foldr Nat.max 0%nat (String.length <$> lines).

(** A value that [Math.random()] may return: a real in [0, 1). *)
Definition unitInterval (random : number) : Prop :=
  exists r : R, random = Fin r /\ (0 <= r < 1)%R.

(** The states that the component [App] can reach: its initial state, then
    any sequence of pointer events on the cells that are rendered, whose
    indices are below [CELL_COUNT]. *)
Inductive reachable (toFixed : number -> nat -> string) (browser : Browser.t)
    (trees : list TreeRecord.t) : AppState.t -> Prop :=
| reachable_initial (random : nat -> number) :
    (forall index, unitInterval (random index)) ->
    reachable toFixed browser trees
      (AppState.mk (initialCellTreeIndices trees random) None None)
| reachable_hover (state : AppState.t) (clientX clientY : number)
    (tree : TreeRecord.t) :
    reachable toFixed browser trees state ->
    reachable toFixed browser trees
      (updateTooltip toFixed browser clientX clientY tree state)
| reachable_leave (state : AppState.t) (random : number) (cellIndex : nat) :
    reachable toFixed browser trees state ->
    (cellIndex < CELL_COUNT)%nat ->
    unitInterval random ->
    reachable toFixed browser trees
      (handleMouseLeave trees random cellIndex state).

(** The lines of a text joined by a line separator. *)
Fixpoint joinLines (separator : string) (lines : list string) : string :=
  match lines with
  | [] => EmptyString
  | [line] => line
  | line :: rest => line ++ separator ++ joinLines separator rest
  end.

(** A line that holds neither a carriage return nor a line feed. *)
Definition plainLine (line : string) : Prop :=
  countChar CR line = 0%nat /\ countChar LF line = 0%nat.

(** The byte-order mark, in UTF-8. *)
Definition BOM : string :=
  String (ascii_of_nat 239)
    (String (ascii_of_nat 187) (String (ascii_of_nat 191) EmptyString)).

(** The two line separators that the loaders accept. *)
Definition lineSeparator (separator : string) : Prop :=
  separator = String LF EmptyString
  \/ separator = String CR (String LF EmptyString).

(** * Properties *)

(** ** Strings: [trim], [toLowerCase] and the white-space collapse *)

Module StrFacts.
Import Str.

Ltac by_ascii c :=
  destruct c as [[] [] [] [] [] [] [] []]; reflexivity.

Lemma lowerChar_idem c : lowerChar (lowerChar c) = lowerChar c.
Proof. by_ascii c. Qed.

Lemma isWhiteSpace_lowerChar c : isWhiteSpace (lowerChar c) = isWhiteSpace c.
Proof. by_ascii c. Qed.

Lemma lowerChar_not_U c : lowerChar c <> "U"%char.
Proof.
  destruct c as [[] [] [] [] [] [] [] []]; vm_compute; discriminate.
Qed.

Lemma toLowerCase_idem s : toLowerCase (toLowerCase s) = toLowerCase s.
Proof.
  induction s as [|c s IH]; simpl; [reflexivity|].
  rewrite lowerChar_idem, IH. reflexivity.
Qed.

Lemma toLowerCase_truthy s : truthy (toLowerCase s) = truthy s.
Proof. destruct s; reflexivity. Qed.

Lemma toLowerCase_not_Unknown s : toLowerCase s <> "Unknown".
Proof.
  destruct s as [|c s]; simpl; [discriminate|].
  intros H. injection H as Hc _. exact (lowerChar_not_U c Hc).
Qed.

(** A string that starts with a character that [trim] keeps, or is empty. *)
Definition headKept (s : string) : Prop :=
  match s with
  | EmptyString => True
  | String c _ => isWhiteSpace c = false
  end.

Lemma headKept_trimStart s : headKept (trimStart s).
Proof.
  induction s as [|c s IH]; simpl; [exact I|].
  destruct (isWhiteSpace c) eqn:E; [exact IH | exact E].
Qed.

Lemma trimStart_headKept s : headKept s -> trimStart s = s.
Proof. destruct s as [|c s]; simpl; [reflexivity|]. intros ->. reflexivity. Qed.

Lemma trimEnd_cons c r :
  trimEnd (String c r) =
  if truthy (trimEnd r) then String c (trimEnd r)
  else if isWhiteSpace c then EmptyString else String c EmptyString.
Proof. simpl. destruct (trimEnd r); reflexivity. Qed.

Lemma headKept_trimEnd s : headKept s -> headKept (trimEnd s).
Proof.
  destruct s as [|c r]; [intros; exact I|].
  cbn [headKept]. intros Hc. rewrite trimEnd_cons, Hc.
  destruct (truthy (trimEnd r)); exact Hc.
Qed.

Lemma trimEnd_idem s : trimEnd (trimEnd s) = trimEnd s.
Proof.
  induction s as [|c r IH]; [reflexivity|].
  rewrite trimEnd_cons.
  destruct (truthy (trimEnd r)) eqn:E.
  - rewrite trimEnd_cons, IH, E. reflexivity.
  - destruct (isWhiteSpace c) eqn:Ec; [reflexivity|].
    rewrite trimEnd_cons. cbn [trimEnd truthy]. rewrite Ec. reflexivity.
Qed.

Lemma trim_idem s : trim (trim s) = trim s.
Proof.
  unfold trim.
  rewrite (trimStart_headKept (trimEnd (trimStart s))).
  - apply trimEnd_idem.
  - apply headKept_trimEnd, headKept_trimStart.
Qed.

(** [normal b s]: every white-space character of [s] is a single space
    that follows a character other than white space ([b] tells that the
    character before [s] was a space). *)
Fixpoint normal (b : bool) (s : string) : bool :=
  match s with
  | EmptyString => true
  | String c r =>
      if isWhiteSpace c then (c =? " ")%char && negb b && normal true r
      else normal false r
  end.

Lemma normal_collapseFrom b s : normal b (collapseFrom b s) = true.
Proof.
  revert b. induction s as [|c r IH]; intros b; simpl; [reflexivity|].
  destruct (isWhiteSpace c) eqn:Ec.
  - destruct b; [apply IH|]. simpl. apply IH.
  - simpl. rewrite Ec. apply IH.
Qed.

Lemma collapseFrom_normal b s : normal b s = true -> collapseFrom b s = s.
Proof.
  revert b. induction s as [|c r IH]; intros b; simpl; [reflexivity|].
  destruct (isWhiteSpace c) eqn:Ec.
  - intros H. apply andb_prop in H as [H Hr]. apply andb_prop in H as [Hc Hb].
    apply Ascii.eqb_eq in Hc. subst c. destruct b; [discriminate|].
    rewrite (IH true Hr). reflexivity.
  - intros Hr. rewrite (IH false Hr). reflexivity.
Qed.

Lemma normal_weaken s : normal true s = true -> normal false s = true.
Proof.
  destruct s as [|c r]; simpl; [reflexivity|].
  destruct (isWhiteSpace c); [|tauto].
  rewrite andb_false_r. discriminate.
Qed.

Lemma normal_true_headKept s : normal true s = true -> headKept s.
Proof.
  destruct s as [|c r]; simpl; [reflexivity|].
  destruct (isWhiteSpace c); [|reflexivity].
  rewrite andb_false_r. discriminate.
Qed.

Lemma normal_trimStart s : normal false s = true -> normal false (trimStart s) = true.
Proof.
  destruct s as [|c r]; simpl; [reflexivity|].
  destruct (isWhiteSpace c) eqn:Ec.
  - intros H. apply andb_prop in H as [_ Hr].
    rewrite (trimStart_headKept r (normal_true_headKept r Hr)).
    apply normal_weaken, Hr.
  - intros Hr. simpl. rewrite Ec. exact Hr.
Qed.

Lemma normal_trimEnd b s : normal b s = true -> normal b (trimEnd s) = true.
Proof.
  revert b. induction s as [|c r IH]; intros b; [reflexivity|].
  rewrite trimEnd_cons. intros H.
  destruct (truthy (trimEnd r)) eqn:E.
  - cbn [normal] in *. destruct (isWhiteSpace c).
    + apply andb_prop in H as [H Hr]. rewrite H. apply (IH true Hr).
    + apply (IH false H).
  - destruct (isWhiteSpace c) eqn:Ec; [reflexivity|].
    cbn [normal]. rewrite Ec. reflexivity.
Qed.

(** The trimmed collapse of any text is a fixed point of both steps. *)
Lemma collapse_trim_collapse s :
  collapseWhiteSpace (trim (collapseWhiteSpace s)) = trim (collapseWhiteSpace s).
Proof.
  unfold collapseWhiteSpace, trim.
  apply collapseFrom_normal, normal_trimEnd, normal_trimStart, normal_collapseFrom.
Qed.

(** [toLowerCase] commutes with the white-space functions. *)
Lemma trimStart_toLowerCase s : trimStart (toLowerCase s) = toLowerCase (trimStart s).
Proof.
  induction s as [|c r IH]; simpl; [reflexivity|].
  rewrite isWhiteSpace_lowerChar. destruct (isWhiteSpace c); [exact IH | reflexivity].
Qed.

Lemma trimEnd_toLowerCase s : trimEnd (toLowerCase s) = toLowerCase (trimEnd s).
Proof.
  induction s as [|c r IH]; [reflexivity|].
  cbn [toLowerCase]. rewrite !trimEnd_cons, IH, toLowerCase_truthy, isWhiteSpace_lowerChar.
  destruct (truthy (trimEnd r)); [reflexivity|].
  destruct (isWhiteSpace c); reflexivity.
Qed.

Lemma trim_toLowerCase s : trim (toLowerCase s) = toLowerCase (trim s).
Proof. unfold trim. rewrite trimStart_toLowerCase, trimEnd_toLowerCase. reflexivity. Qed.

Lemma collapseFrom_toLowerCase b s :
  collapseFrom b (toLowerCase s) = toLowerCase (collapseFrom b s).
Proof.
  revert b. induction s as [|c r IH]; intros b; simpl; [reflexivity|].
  rewrite isWhiteSpace_lowerChar.
  destruct (isWhiteSpace c); [destruct b|]; simpl; rewrite IH; reflexivity.
Qed.

Lemma orElse_truthy a b : truthy a = true -> orElse a b = a.
Proof. unfold orElse. intros ->. reflexivity. Qed.

End StrFacts.

(** ** Normalization is idempotent *)

Lemma normalizeNeighborhoodName_fixed value :
  let trimmed := Str.trim (Str.collapseWhiteSpace value) in
  Str.truthy trimmed = true ->
  normalizeNeighborhoodName trimmed = trimmed.
Proof.
  intros trimmed Ht. unfold normalizeNeighborhoodName.
  subst trimmed. rewrite StrFacts.collapse_trim_collapse, StrFacts.trim_idem.
  apply StrFacts.orElse_truthy, Ht.
Qed.

Lemma normalizeNeighborhoodName_idem value :
  normalizeNeighborhoodName (normalizeNeighborhoodName value)
  = normalizeNeighborhoodName value.
Proof.
  unfold normalizeNeighborhoodName at 2 3. unfold Str.orElse.
  destruct (Str.truthy (Str.trim (Str.collapseWhiteSpace value))) eqn:E.
  - apply normalizeNeighborhoodName_fixed, E.
  - reflexivity.
Qed.

Lemma RENT_KEY_ALIASES_values lowered canonical :
  RENT_KEY_ALIASES !! lowered = Some canonical ->
  canonical = "gramercy park" \/ canonical = "stuyvesant town/pcv".
Proof.
  unfold RENT_KEY_ALIASES. intros H.
  apply lookup_insert_Some in H as [[_ <-]|[_ H]]; [left; reflexivity|].
  apply lookup_insert_Some in H as [[_ <-]|[_ H]]; [right; reflexivity|].
  rewrite lookup_empty in H. discriminate.
Qed.

(** The only names of [Object.prototype] without an upper-case letter. *)
Lemma OBJECT_PROTOTYPE_NAMES_lower name :
  name ∈ OBJECT_PROTOTYPE_NAMES ->
  Str.toLowerCase name = name ->
  name = "constructor" \/ name = "__proto__".
Proof.
  unfold OBJECT_PROTOTYPE_NAMES. intros Hin Hlow.
  repeat (apply elem_of_cons in Hin as [-> | Hin];
          [first [left; reflexivity | right; reflexivity
                 | vm_compute in Hlow; discriminate]|]).
  apply elem_of_nil in Hin. destruct Hin.
Qed.

(** The three kinds of results of a read of the alias object. *)
Lemma getProperty_RENT_KEY_ALIASES lowered value :
  getProperty RENT_KEY_ALIASES lowered = Some value ->
  value = Text "gramercy park" \/ value = Text "stuyvesant town/pcv"
  \/ (value = Inherited lowered /\ RENT_KEY_ALIASES !! lowered = None
      /\ lowered ∈ OBJECT_PROTOTYPE_NAMES).
Proof.
  unfold getProperty. destruct (RENT_KEY_ALIASES !! lowered) as [canonical|] eqn:Ea.
  - intros [= <-]. destruct (RENT_KEY_ALIASES_values _ _ Ea) as [-> | ->]; auto.
  - destruct (bool_decide (lowered ∈ OBJECT_PROTOTYPE_NAMES)) eqn:Ep; [|discriminate].
    intros [= <-]. apply bool_decide_eq_true in Ep. auto.
Qed.

(** A normalized name that is not the sentinel is the trimmed, collapsed
    text, and its lower-case form is a fixed point of the normalization. *)
Lemma normalizeNeighborhoodName_lowered value :
  Str.truthy (normalizeNeighborhoodName value) = true ->
  (normalizeNeighborhoodName value =? "Unknown") = false ->
  normalizeNeighborhoodName (Str.toLowerCase (normalizeNeighborhoodName value))
  = Str.toLowerCase (normalizeNeighborhoodName value).
Proof.
  intros Et Eu. set (n := normalizeNeighborhoodName value) in *.
  assert (Hn : n = Str.trim (Str.collapseWhiteSpace value)).
  { unfold n, normalizeNeighborhoodName, Str.orElse.
    destruct (Str.truthy (Str.trim (Str.collapseWhiteSpace value))) eqn:E;
      [reflexivity|].
    exfalso. unfold n, normalizeNeighborhoodName, Str.orElse in Eu.
    rewrite E in Eu. discriminate. }
  unfold normalizeNeighborhoodName, Str.collapseWhiteSpace.
  rewrite StrFacts.collapseFrom_toLowerCase, StrFacts.trim_toLowerCase.
  fold (Str.collapseWhiteSpace n). rewrite Hn.
  rewrite StrFacts.collapse_trim_collapse, StrFacts.trim_idem, <- Hn.
  apply StrFacts.orElse_truthy. rewrite StrFacts.toLowerCase_truthy. exact Et.
Qed.

(** A key that is a string is a fixed point of [normalizeRentKey]. *)
Lemma normalizeRentKey_text value text :
  normalizeRentKey value = Text text -> normalizeRentKey text = Text text.
Proof.
  unfold normalizeRentKey at 1.
  destruct (negb (Str.truthy (normalizeNeighborhoodName value))
            || (normalizeNeighborhoodName value =? "Unknown")) eqn:E.
  { intros [= <-]. reflexivity. }
  apply orb_false_elim in E as [Et Eu]. apply negb_false_iff in Et.
  pose proof (normalizeNeighborhoodName_lowered value Et Eu) as Hfix.
  set (n := normalizeNeighborhoodName value) in *.
  destruct (getProperty RENT_KEY_ALIASES (Str.toLowerCase n)) as [canonical|] eqn:Ea.
  - intros ->.
    destruct (getProperty_RENT_KEY_ALIASES _ _ Ea) as [H | [H | [H _]]];
      [injection H as -> | injection H as -> | discriminate]; reflexivity.
  - intros [= <-]. unfold normalizeRentKey.
    rewrite Hfix, StrFacts.toLowerCase_truthy, Et. cbn [negb orb].
    destruct (Str.toLowerCase n =? "Unknown") eqn:Eq.
    + apply String.eqb_eq in Eq. destruct (StrFacts.toLowerCase_not_Unknown _ Eq).
    + rewrite StrFacts.toLowerCase_idem, Ea. reflexivity.
Qed.

(** A key that is no string is the object inherited under the lowered
    name, one of [constructor] and [__proto__]. *)
Lemma normalizeRentKey_inherited value name :
  normalizeRentKey value = Inherited name ->
  Str.toLowerCase (normalizeNeighborhoodName value) = name
  /\ (name = "constructor" \/ name = "__proto__").
Proof.
  unfold normalizeRentKey.
  destruct (negb (Str.truthy (normalizeNeighborhoodName value))
            || (normalizeNeighborhoodName value =? "Unknown")); [discriminate|].
  destruct (getProperty RENT_KEY_ALIASES
              (Str.toLowerCase (normalizeNeighborhoodName value)))
    as [canonical|] eqn:Ea; [|discriminate].
  intros ->.
  destruct (getProperty_RENT_KEY_ALIASES _ _ Ea) as [H | [H | (H & _ & Hin)]];
    [discriminate | discriminate |].
  injection H as H. subst name. split; [reflexivity|].
  apply OBJECT_PROTOTYPE_NAMES_lower; [exact Hin | apply StrFacts.toLowerCase_idem].
Qed.

(** C8. Area-name normalization is idempotent.  Rent-key normalization is
    not: the read of the alias object finds, for the names [constructor]
    and [__proto__] (in any letter case and spacing), an object inherited
    from [Object.prototype]; [normalizeRentKey] returns that object, which
    is no string, and the second call throws.  For every other string the
    key is a string and normalizing it again returns it unchanged, which
    covers the alias table, the empty key and the "Unknown" sentinel. *)
Theorem normalizeRentKey_returns_inherited_object :
  normalizeRentKey "constructor" = Inherited "constructor"
  /\ normalizeRentKeyAgain (normalizeRentKey "constructor") = None
  /\ normalizeRentKey " __Proto__" = Inherited "__proto__"
  /\ (forall x : string,
        match normalizeRentKey x with
        | Text text => normalizeRentKeyAgain (Text text) = Some (Text text)
        | Inherited name =>
            Str.toLowerCase (normalizeNeighborhoodName x) = name
            /\ (name = "constructor" \/ name = "__proto__")
        end)
  /\ (forall x : string,
        normalizeNeighborhoodName (normalizeNeighborhoodName x)
        = normalizeNeighborhoodName x).
Proof.
  split; [vm_compute; reflexivity|]. split; [vm_compute; reflexivity|].
  split; [vm_compute; reflexivity|]. split.
  - intros x. destruct (normalizeRentKey x) as [text|name] eqn:E.
    + cbn [normalizeRentKeyAgain]. f_equal. exact (normalizeRentKey_text x text E).
    + exact (normalizeRentKey_inherited x name E).
  - apply normalizeNeighborhoodName_idem.
Qed.

(** ** Numbers: comparisons and [clamp] on finite values *)

Module NumFacts.
Import Num.
Local Open Scope R_scope.

Lemma Rltb_true x y : Rltb x y = true <-> x < y.
Proof. unfold Rltb. destruct (Rlt_dec x y); split; (discriminate || tauto). Qed.

Lemma Rltb_false x y : Rltb x y = false <-> y <= x.
Proof.
  unfold Rltb. destruct (Rlt_dec x y); split; try discriminate; try lra; reflexivity.
Qed.

Lemma Rleb_true x y : Rleb x y = true <-> x <= y.
Proof. unfold Rleb. destruct (Rle_dec x y); split; (discriminate || tauto). Qed.

Lemma Rleb_false x y : Rleb x y = false <-> y < x.
Proof.
  unfold Rleb. destruct (Rle_dec x y); split; try discriminate; try lra; reflexivity.
Qed.

Lemma Reqb_true x y : Reqb x y = true <-> x = y.
Proof. unfold Reqb. destruct (Req_dec_T x y); split; (discriminate || tauto). Qed.

Lemma Reqb_false x y : Reqb x y = false <-> x <> y.
Proof.
  unfold Reqb. destruct (Req_dec_T x y); split; try discriminate; tauto.
Qed.

(** Decide every comparison of reals in the goal and in the context. *)
Ltac rcases :=
  repeat match goal with
  | |- context [Rltb ?x ?y] =>
      let E := fresh "E" in
      destruct (Rltb x y) eqn:E;
      [apply Rltb_true in E | apply Rltb_false in E]
  | |- context [Rleb ?x ?y] =>
      let E := fresh "E" in
      destruct (Rleb x y) eqn:E;
      [apply Rleb_true in E | apply Rleb_false in E]
  | |- context [Reqb ?x ?y] =>
      let E := fresh "E" in
      destruct (Reqb x y) eqn:E;
      [apply Reqb_true in E | apply Reqb_false in E]
  end.

Lemma max_Fin x y : max (Fin x) (Fin y) = Fin (Rmax x y).
Proof.
  unfold max, ltb, Rmax. rcases; destruct (Rle_dec x y); f_equal; lra.
Qed.

Lemma min_Fin x y : min (Fin x) (Fin y) = Fin (Rmin x y).
Proof.
  unfold min, ltb, Rmin. rcases; destruct (Rle_dec x y); f_equal; lra.
Qed.

Lemma clamp_Fin v lo hi : clamp (Fin v) (Fin lo) (Fin hi) = Fin (Rmin (Rmax v lo) hi).
Proof. unfold clamp. rewrite max_Fin, min_Fin. reflexivity. Qed.

Lemma clamp_PInf lo hi : clamp PInf (Fin lo) (Fin hi) = Fin hi.
Proof. reflexivity. Qed.

Lemma clamp_NInf lo hi : clamp NInf (Fin lo) (Fin hi) = Fin (Rmin lo hi).
Proof.
  unfold clamp. cbn [max ltb]. apply min_Fin.
Qed.

Lemma Rclamp_bounds v lo hi : lo <= hi -> lo <= Rmin (Rmax v lo) hi <= hi.
Proof.
  intros H. unfold Rmin, Rmax.
  destruct (Rle_dec v lo); destruct (Rle_dec _ hi); lra.
Qed.

Lemma Rclamp_mono v w lo hi :
  v <= w -> Rmin (Rmax v lo) hi <= Rmin (Rmax w lo) hi.
Proof.
  intros H. unfold Rmin, Rmax.
  destruct (Rle_dec v lo); destruct (Rle_dec w lo);
    repeat match goal with |- context [Rle_dec ?a ?b] => destruct (Rle_dec a b) end;
    lra.
Qed.

Lemma Rclamp_id v lo hi : lo <= v <= hi -> Rmin (Rmax v lo) hi = v.
Proof.
  intros H. unfold Rmin, Rmax.
  destruct (Rle_dec v lo); destruct (Rle_dec _ hi); lra.
Qed.

Lemma div_Fin x y : y <> 0 -> (Fin x / Fin y)%num = Fin (x / y).
Proof. intros H. unfold div. rcases; [contradiction | reflexivity]. Qed.

End NumFacts.

(** ** The scalar (affordability) score *)

Section AffordabilityScore.
Import Num NumFacts.
Local Open Scope R_scope.

Lemma calculateAffordabilityScore_Fin x :
  x <> 0 ->
  calculateAffordabilityScore (Fin x)
  = Fin (Rmin (Rmax (36370 / x - 2.737) 0) 10).
Proof.
  intros Hx. unfold calculateAffordabilityScore.
  cbn [isFinite negb orb eqb].
  apply Reqb_false in Hx. rewrite Hx.
  apply Reqb_false in Hx. rewrite div_Fin by exact Hx.
  cbn [sub neg add]. rewrite clamp_Fin. f_equal.
Qed.

Lemma calculateAffordabilityScore_zero : calculateAffordabilityScore (Fin 0) = Fin 0.
Proof.
  unfold calculateAffordabilityScore. cbn [isFinite negb orb eqb].
  replace (Reqb 0 0) with true; [reflexivity|].
  symmetry. apply Reqb_true. reflexivity.
Qed.

Lemma calculateAffordabilityScore_nonfinite r :
  isFinite r = false -> calculateAffordabilityScore r = Fin 0.
Proof. unfold calculateAffordabilityScore. intros ->. reflexivity. Qed.

Lemma calculateAffordabilityScore_range r :
  exists x, calculateAffordabilityScore r = Fin x /\ 0 <= x <= 10.
Proof.
  destruct r as [x| | |];
    try (exists 0; split; [reflexivity | lra]).
  destruct (Req_dec_T x 0) as [->|Hx].
  - exists 0. split; [apply calculateAffordabilityScore_zero | lra].
  - rewrite calculateAffordabilityScore_Fin by exact Hx.
    eexists. split; [reflexivity|]. apply Rclamp_bounds. lra.
Qed.

Lemma calculateAffordabilityScore_nonpositive x :
  x <= 0 -> calculateAffordabilityScore (Fin x) = Fin 0.
Proof.
  intros Hx. destruct (Req_dec_T x 0) as [-> | Hne].
  - apply calculateAffordabilityScore_zero.
  - rewrite calculateAffordabilityScore_Fin by exact Hne. f_equal.
    assert (Hinv : / x < 0) by (apply Rinv_lt_0_compat; lra).
    assert (36370 / x - 2.737 <= 0) by (unfold Rdiv; nra).
    unfold Rmin, Rmax.
    destruct (Rle_dec (36370 / x - 2.737) 0); destruct (Rle_dec _ 10); lra.
Qed.

(** C6 (amended). On positive estimates the scalar score is non-increasing:
    for [0 < r' < r] the score of [r'] is at least the score of [r].  An
    estimate that is zero, negative or not finite scores 0, so the score
    does not decrease with the estimate across zero. *)
Theorem affordability_monotone_on_positive :
  (forall r r' : number,
      (Fin 0 <? r')%num = true ->
      (r' <? r)%num = true ->
      (calculateAffordabilityScore r <=? calculateAffordabilityScore r')%num = true)
  /\ (forall x : R, x <= 0 -> calculateAffordabilityScore (Fin x) = Fin 0)
  /\ (forall r : number, isFinite r = false -> calculateAffordabilityScore r = Fin 0).
Proof.
  split; [|split;
           [exact calculateAffordabilityScore_nonpositive
           | exact calculateAffordabilityScore_nonfinite]].
  intros r r' Hpos Hlt.
  destruct r' as [y| | |]; try discriminate.
  2:{ destruct r; discriminate. }
  cbn [ltb] in Hpos. apply Rltb_true in Hpos.
  rewrite (calculateAffordabilityScore_Fin y) by lra.
  destruct r as [x| | |]; try discriminate.
  - cbn [ltb] in Hlt. apply Rltb_true in Hlt.
    rewrite (calculateAffordabilityScore_Fin x) by lra.
    cbn [leb]. apply Rleb_true, Rclamp_mono.
    assert (/ x <= / y) by (apply Rinv_le_contravar; lra).
    unfold Rdiv. nra.
  - rewrite calculateAffordabilityScore_nonfinite by reflexivity.
    cbn [leb]. apply Rleb_true.
    apply (Rclamp_bounds (36370 / y - 2.737) 0 10). lra.
Qed.

Lemma affordability_monotone_on_positive_witness :
  (calculateAffordabilityScore (Fin 4000)
     <=? calculateAffordabilityScore (Fin 3000))%num = true
  /\ calculateAffordabilityScore (Fin (-3000)) = Fin 0
  /\ calculateAffordabilityScore PInf = Fin 0.
Proof.
  split; [|split].
  - apply (proj1 affordability_monotone_on_positive (Fin 4000) (Fin 3000));
      cbn [ltb]; apply Rltb_true; lra.
  - apply (proj1 (proj2 affordability_monotone_on_positive) (-3000)). lra.
  - apply (proj2 (proj2 affordability_monotone_on_positive) PInf). reflexivity.
Defined.

(** C6, as stated, fails at the zero estimate: [0 < 3000], the score of [0]
    is [0] and the score of [3000] is positive. *)
Lemma affordability_not_monotone_at_zero :
  (Fin 0 <? Fin 3000)%num = true
  /\ (calculateAffordabilityScore (Fin 3000)
        <=? calculateAffordabilityScore (Fin 0))%num = false.
Proof.
  split.
  - cbn [ltb]. apply Rltb_true. lra.
  - rewrite calculateAffordabilityScore_zero.
    rewrite calculateAffordabilityScore_Fin by lra.
    cbn [leb]. apply Rleb_false.
    unfold Rmin, Rmax.
    destruct (Rle_dec (36370 / 3000 - 2.737) 0); destruct (Rle_dec _ 10); lra.
Qed.

End AffordabilityScore.

(** ** The scalar (rent) estimate *)

Section ExpectedRent.
Import Num NumFacts.
Local Open Scope R_scope.

Lemma calculateExpectedRent_short matches :
  (length matches < 3)%nat -> calculateExpectedRent matches = None.
Proof.
  intros H. unfold calculateExpectedRent.
  apply Nat.ltb_lt in H. rewrite H. reflexivity.
Qed.

Lemma calculateExpectedRent_three x1 x2 x3 rest :
  calculateExpectedRent (x1 :: x2 :: x3 :: rest) =
  match NeighborhoodMatch.rent x1, NeighborhoodMatch.rent x2,
        NeighborhoodMatch.rent x3 with
  | Some r1, Some r2, Some r3 =>
      let d1 := flooredDistance x1 in
      let d2 := flooredDistance x2 in
      let d3 := flooredDistance x3 in
      let s := (d1 + d2 + d3)%num in
      Some (if (s =? Fin 0)%num then ((r1 + r2 + r3) / Fin 3)%num
            else ((d2 + d3 - d1) / s * r1 + (d1 + d3 - d2) / s * r2
                  + (d1 + d2 - d3) / s * r3)%num)
  | _, _, _ => None
  end.
Proof.
  unfold calculateExpectedRent, flooredDistance. cbn [length Nat.ltb Nat.leb].
  destruct (NeighborhoodMatch.rent x1), (NeighborhoodMatch.rent x2),
    (NeighborhoodMatch.rent x3); try reflexivity.
  cbn zeta. match goal with |- context [(?s =? Fin 0)%num] => destruct (s =? Fin 0)%num end;
    reflexivity.
Qed.

End ExpectedRent.

(** ** The density score *)

Section DensityScore.
Import Num NumFacts.
Local Open Scope R_scope.

Lemma getTreeFriendsScore_max averageDistance :
  isFinite averageDistance = false
  \/ (averageDistance <=? Fin 0)%num = true
  \/ (averageDistance <? Fin 2)%num = true ->
  getTreeFriendsScore averageDistance = Fin 10.
Proof.
  unfold getTreeFriendsScore. intros [-> | [-> | ->]]; cbn [negb orb]; try reflexivity.
  - rewrite orb_true_r. reflexivity.
  - destruct (_ || _); reflexivity.
Qed.

Lemma getTreeFriendsScore_linear a :
  2 <= a ->
  getTreeFriendsScore (Fin a) = Fin (Rmin (Rmax (10 - 0.12 * (a - 2)) 0) 10).
Proof.
  intros Ha. unfold getTreeFriendsScore. cbn [isFinite negb orb leb ltb].
  replace (Rleb a 0) with false by (symmetry; apply Rleb_false; lra).
  replace (Rltb a 2) with false by (symmetry; apply Rltb_false; lra).
  cbn [sub neg add mul]. rewrite clamp_Fin. f_equal.
Qed.

Lemma getTreeFriendsScore_range averageDistance :
  exists x, getTreeFriendsScore averageDistance = Fin x /\ 0 <= x <= 10.
Proof.
  destruct averageDistance as [a| | |];
    try (exists 10; split; [reflexivity | lra]).
  destruct (Rle_lt_dec 2 a) as [Ha|Ha].
  - rewrite getTreeFriendsScore_linear by exact Ha.
    eexists. split; [reflexivity|]. apply Rclamp_bounds. lra.
  - exists 10. split; [|lra]. apply getTreeFriendsScore_max.
    right. right. cbn [ltb]. apply Rltb_true, Ha.
Qed.

Lemma buildKdTree_cons p ps depth :
  buildKdTree (p :: ps) depth =
  let axis := (depth mod 2)%nat in
  let sorted := sortBy (byAxis axis) (p :: ps) in
  let medianIndex := (length sorted / 2)%nat in
  node (nth medianIndex sorted p) axis
    (buildKdTree (take medianIndex sorted) (depth + 1))
    (buildKdTree (drop (medianIndex + 1) sorted) (depth + 1)).
Proof. simp buildKdTree. reflexivity. Qed.

Lemma buildKdTree_single p depth :
  buildKdTree [p] depth = node p (depth mod 2) null null.
Proof.
  rewrite buildKdTree_cons. cbn. simp buildKdTree. reflexivity.
Qed.

Lemma search_single target k point axis distances :
  IndexedTreePoint.index point = IndexedTreePoint.index target ->
  search target k (node point axis null null) distances = distances.
Proof.
  intros Hi. cbn [search]. rewrite Hi, Nat.eqb_refl. cbn [negb].
  destruct (_ || _); destruct (_ <? _)%num; reflexivity.
Qed.

Lemma assignTreeFriendsScores_single tree k :
  assignTreeFriendsScores [tree] k = [TreeRecord.setTreeFriendsScore tree (Fin 10)].
Proof.
  unfold assignTreeFriendsScores. cbn [length Nat.eqb indexPoints imap].
  rewrite buildKdTree_single. cbn [fmap list_fmap].
  unfold findKNearestNeighborDistances.
  rewrite search_single by reflexivity. reflexivity.
Qed.

Lemma assignTreeFriendsScores_lookup trees k i tree :
  trees !! i = Some tree ->
  assignTreeFriendsScores trees k !! i =
  Some (TreeRecord.setTreeFriendsScore tree
          (getTreeFriendsScore
             (averageDistance
                (findKNearestNeighborDistances
                   (buildKdTree (indexPoints trees) 0) (pointOf i tree) k)))).
Proof.
  intros Hi. unfold assignTreeFriendsScores.
  destruct trees as [|t0 trees]; [discriminate|].
  cbn [length Nat.eqb].
  destruct (buildKdTree (indexPoints (t0 :: trees)) 0) eqn:Eb.
  { cbn [indexPoints imap] in Eb. rewrite buildKdTree_cons in Eb. discriminate. }
  rewrite list_lookup_fmap. unfold indexPoints at 1.
  rewrite list_lookup_imap, Hi. reflexivity.
Qed.

End DensityScore.

(** ** Health and composite scores of one record *)

Section RecordScores.
Import Num NumFacts.
Local Open Scope R_scope.

Lemma calculateHealthScore_zero tree :
  Str.toLowerCase (TreeRecord.status tree) = "stump"
  \/ Str.toLowerCase (TreeRecord.status tree) = "dead" ->
  calculateHealthScore tree = 0%nat.
Proof.
  unfold calculateHealthScore. intros [-> | ->]; reflexivity.
Qed.

Lemma calculateHealthScore_count tree :
  Str.toLowerCase (TreeRecord.status tree) <> "stump" ->
  Str.toLowerCase (TreeRecord.status tree) <> "dead" ->
  Str.trim (TreeRecord.problems tree) = TreeRecord.problems tree ->
  calculateHealthScore tree =
  match healthMismatches tree with
  | 0%nat => 3%nat
  | 1%nat => 2%nat
  | _ => 1%nat
  end.
Proof.
  intros Hs Hd Ht. unfold calculateHealthScore, healthMismatches.
  apply String.eqb_neq in Hs, Hd. rewrite Hs, Hd, Ht. cbn [orb].
  destruct (Str.toLowerCase (TreeRecord.status tree) =? "alive");
    destruct (Str.toLowerCase (TreeRecord.sidewalk tree) =? "nodamage");
    destruct (Str.truthy (TreeRecord.problems tree)
              && negb (Str.toLowerCase (TreeRecord.problems tree) =? "none"));
    reflexivity.
Qed.

Lemma calculateHealthScore_le3 tree : (calculateHealthScore tree <= 3)%nat.
Proof.
  unfold calculateHealthScore.
  repeat match goal with |- context [if ?b then _ else _] => destruct b end; lia.
Qed.

Lemma normalizeTreeFriendsScore_Fin d :
  0 <= d <= 10 -> normalizeTreeFriendsScore (Fin d) = Fin (d / 10 * 4).
Proof.
  intros Hd. unfold normalizeTreeFriendsScore. cbn [isFinite negb].
  rewrite clamp_Fin, Rclamp_id by exact Hd.
  rewrite div_Fin by lra. reflexivity.
Qed.

Lemma normalizeAffordabilityScore_clamped score :
  normalizeAffordabilityScore score = Fin (clampedScalar score / 10 * 4).
Proof.
  unfold normalizeAffordabilityScore, clampedScalar.
  destruct score as [[s| | |]|]; cbn [isFinite negb];
    try (f_equal; lra).
  rewrite clamp_Fin, div_Fin by lra. reflexivity.
Qed.

Lemma clampedScalar_range score : 0 <= clampedScalar score <= 10.
Proof.
  unfold clampedScalar. destruct score as [[s| | |]|]; try lra.
  apply Rclamp_bounds. lra.
Qed.

Lemma INR_health_range tree : 0 <= INR (calculateHealthScore tree) <= 3.
Proof.
  split; [apply pos_INR|].
  replace 3 with (INR 3) by (simpl; lra). apply le_INR, calculateHealthScore_le3.
Qed.

(** The composite score written by [assignAccessibilityScore] on a record
    whose status is trimmed and whose density score is within bounds. *)
Lemma assignAccessibilityScore_dead tree :
  Str.toLowerCase (TreeRecord.status tree) = "dead" ->
  TreeRecord.accessibilityScore (assignAccessibilityScore tree) = Some (Fin 0).
Proof.
  intros Hd. unfold assignAccessibilityScore. cbn [TreeRecord.accessibilityScore
    TreeRecord.setAccessibilityScore].
  rewrite <- StrFacts.trim_toLowerCase, Hd. reflexivity.
Qed.

Lemma assignAccessibilityScore_live tree d :
  Str.trim (TreeRecord.status tree) = TreeRecord.status tree ->
  Str.toLowerCase (TreeRecord.status tree) <> "dead" ->
  TreeRecord.treeFriendsScore tree = Fin d ->
  0 <= d <= 10 ->
  TreeRecord.accessibilityScore (assignAccessibilityScore tree) =
  Some (Fin (d / 10 * 4
             + clampedScalar (TreeRecord.affordabilityScore tree) / 10 * 4
             + INR (calculateHealthScore tree))).
Proof.
  intros Ht Hd Hs Hr. unfold assignAccessibilityScore.
  cbn [TreeRecord.accessibilityScore TreeRecord.setAccessibilityScore].
  apply String.eqb_neq in Hd. rewrite Ht, Hd, Hs.
  rewrite normalizeTreeFriendsScore_Fin by exact Hr.
  rewrite normalizeAffordabilityScore_clamped. reflexivity.
Qed.

End RecordScores.

(** ** The finalized collection *)

Section Finalized.
Import Num NumFacts.
Local Open Scope R_scope.
Variable Number : string -> number.

Lemma parseTreeLine_fresh neighborhoods rentLookup headers line raw :
  parseTreeLine Number neighborhoods rentLookup headers line = Some raw ->
  freshRecord raw.
Proof.
  unfold parseTreeLine. cbn zeta.
  destruct (isFinite (numberOf Number (rowOf headers (parseCsvLine line) !! "latitude")))
    eqn:Elat; [|discriminate].
  destruct (isFinite (numberOf Number (rowOf headers (parseCsvLine line) !! "longitude")))
    eqn:Elng; [|discriminate].
  cbn [negb orb]. intros [= <-].
  unfold freshRecord, trimmedFields.
  cbn [TreeRecord.latitude TreeRecord.longitude TreeRecord.status
       TreeRecord.sidewalk TreeRecord.problems TreeRecord.affordabilityScore].
  repeat split; try assumption.
  - destruct (_ !! "status"); [apply StrFacts.trim_idem | reflexivity].
  - destruct (_ !! "sidewalk"); [apply StrFacts.trim_idem | reflexivity].
  - destruct (_ !! "problems"); [apply StrFacts.trim_idem | reflexivity].
  - destruct (calculateExpectedRent _); [|exact I].
    apply calculateAffordabilityScore_range.
Qed.

Lemma parseTreeLine_drops neighborhoods rentLookup headers line :
  let row := rowOf headers (parseCsvLine line) in
  isFinite (numberOf Number (row !! "latitude")) = false
  \/ isFinite (numberOf Number (row !! "longitude")) = false ->
  parseTreeLine Number neighborhoods rentLookup headers line = None.
Proof.
  intros row H. unfold parseTreeLine. cbn zeta. fold row.
  destruct H as [-> | ->]; [reflexivity|].
  rewrite orb_true_r. reflexivity.
Qed.

Lemma assignTreeFriendsScores_elem trees k tree :
  tree ∈ assignTreeFriendsScores trees k ->
  exists raw d,
    raw ∈ trees /\ 0 <= d <= 10
    /\ tree = TreeRecord.setTreeFriendsScore raw (Fin d).
Proof.
  intros H. apply list_elem_of_lookup in H as [i Hi].
  destruct (trees !! i) as [raw|] eqn:Er.
  - rewrite (assignTreeFriendsScores_lookup trees k i raw Er) in Hi.
    injection Hi as <-.
    destruct (getTreeFriendsScore_range
                (averageDistance
                   (findKNearestNeighborDistances
                      (buildKdTree (indexPoints trees) 0) (pointOf i raw) k)))
      as (d & -> & Hd).
    exists raw, d. split; [|split; [exact Hd | reflexivity]].
    apply list_elem_of_lookup. exists i. exact Er.
  - exfalso. apply lookup_ge_None in Er.
    assert (Hlen : length (assignTreeFriendsScores trees k) = length trees).
    { unfold assignTreeFriendsScores.
      destruct (length trees =? 0)%nat; [reflexivity|].
      destruct (buildKdTree (indexPoints trees) 0); [reflexivity|].
      rewrite length_fmap. unfold indexPoints. apply length_imap. }
    apply lookup_lt_Some in Hi. lia.
Qed.

(** Every record of the finalized collection is a fresh record whose
    density score was set to a value in [0, 10] and whose composite score
    was computed afterwards. *)
Lemma parseTreeData_elem csvData neighborhoods rentLookup tree :
  In tree (parseTreeData Number csvData neighborhoods rentLookup) ->
  exists raw d,
    freshRecord raw /\ 0 <= d <= 10
    /\ tree = assignAccessibilityScore (TreeRecord.setTreeFriendsScore raw (Fin d)).
Proof.
  intros H. apply list_elem_of_In in H. unfold parseTreeData in H. cbn zeta in H.
  destruct (length (nonEmptyLines csvData) <=? 1)%nat.
  { apply elem_of_nil in H. destruct H. }
  unfold assignAccessibilityScores in H.
  apply list_elem_of_fmap in H as (scored & -> & H).
  apply assignTreeFriendsScores_elem in H as (raw & d & Hraw & Hd & ->).
  apply list_elem_of_omap in Hraw as (line & _ & Hline).
  exists raw, d. split; [|split; [exact Hd | reflexivity]].
  eapply parseTreeLine_fresh, Hline.
Qed.

End Finalized.

(** ** Sample runs of the pipeline *)

Section SampleRuns.

Lemma parseTreeData_one_row Number csvData neighborhoods rentLookup header line raw :
  nonEmptyLines csvData = [header; line] ->
  parseTreeLine Number neighborhoods rentLookup (parseCsvLine header) line = Some raw ->
  parseTreeData Number csvData neighborhoods rentLookup =
  [assignAccessibilityScore (TreeRecord.setTreeFriendsScore raw (Fin 10))].
Proof.
  intros Hl Hr. unfold parseTreeData. rewrite Hl.
  cbn [length Nat.leb nth drop omap list_omap].
  rewrite Hr, assignTreeFriendsScores_single. reflexivity.
Qed.

Ltac sample_run status :=
  apply (parseTreeData_one_row _ _ _ _ "latitude,longitude,status" ("0,0," ++ status));
  vm_compute; reflexivity.

Lemma sample_run_stump :
  parseTreeData sampleNumber (sampleCsv "Stump") [] ∅ =
  [assignAccessibilityScore
     (TreeRecord.setTreeFriendsScore (sampleRecord "Stump") (Fin 10))].
Proof. sample_run "Stump". Qed.

Lemma sample_run_dead :
  parseTreeData sampleNumber (sampleCsv "Dead") [] ∅ =
  [assignAccessibilityScore
     (TreeRecord.setTreeFriendsScore (sampleRecord "Dead") (Fin 10))].
Proof. sample_run "Dead". Qed.

Lemma sample_run_alive :
  parseTreeData sampleNumber (sampleCsv "Alive") [] ∅ =
  [assignAccessibilityScore
     (TreeRecord.setTreeFriendsScore (sampleRecord "Alive") (Fin 10))].
Proof. sample_run "Alive". Qed.

End SampleRuns.

(** ** The scores of the finalized collection *)

Section FinalizedScores.
Import Num NumFacts.
Local Open Scope R_scope.

(** C9. In the finalized collection every record has finite coordinates,
    a density score that is a real in [0, 10], a scalar score that is null
    or a real in [0, 10] and a composite score that is null or a real in
    [0, 11]; a row whose latitude or longitude is not finite yields no
    record. *)
Theorem finalized_collection_invariant :
  forall (Number : string -> number) csvData neighborhoods rentLookup,
    (forall tree,
        In tree (parseTreeData Number csvData neighborhoods rentLookup) ->
        isFinite (TreeRecord.latitude tree) = true
        /\ isFinite (TreeRecord.longitude tree) = true
        /\ (exists d, TreeRecord.treeFriendsScore tree = Fin d /\ 0 <= d <= 10)
        /\ match TreeRecord.affordabilityScore tree with
           | None => True
           | Some score => exists s, score = Fin s /\ 0 <= s <= 10
           end
        /\ match TreeRecord.accessibilityScore tree with
           | None => True
           | Some score => exists c, score = Fin c /\ 0 <= c <= 11
           end)
    /\ (forall headers line,
          let row := rowOf headers (parseCsvLine line) in
          isFinite (numberOf Number (row !! "latitude")) = false
          \/ isFinite (numberOf Number (row !! "longitude")) = false ->
          parseTreeLine Number neighborhoods rentLookup headers line = None).
Proof.
  intros Number csvData neighborhoods rentLookup. split.
  - intros tree H.
    apply parseTreeData_elem in H as (raw & d & (Hlat & Hlng & _ & Haff) & Hd & ->).
    cbn [assignAccessibilityScore TreeRecord.latitude TreeRecord.longitude
         TreeRecord.treeFriendsScore TreeRecord.affordabilityScore
         TreeRecord.accessibilityScore TreeRecord.setAccessibilityScore
         TreeRecord.setTreeFriendsScore].
    split; [exact Hlat|]. split; [exact Hlng|].
    split; [exists d; split; [reflexivity | exact Hd]|].
    split; [exact Haff|].
    destruct (Str.toLowerCase _ =? "dead").
    + exists 0. split; [reflexivity | lra].
    + rewrite normalizeTreeFriendsScore_Fin by exact Hd.
      rewrite normalizeAffordabilityScore_clamped.
      eexists. split; [reflexivity|].
      pose proof (clampedScalar_range (TreeRecord.affordabilityScore raw)).
      match goal with |- context [INR (calculateHealthScore ?t)] =>
        pose proof (INR_health_range t) end.
      lra.
  - intros headers line. apply parseTreeLine_drops.
Qed.

Lemma finalized_collection_invariant_witness :
  let tree :=
    assignAccessibilityScore
      (TreeRecord.setTreeFriendsScore (sampleRecord "Alive") (Fin 10)) in
  (isFinite (TreeRecord.latitude tree) = true
   /\ isFinite (TreeRecord.longitude tree) = true
   /\ (exists d, TreeRecord.treeFriendsScore tree = Fin d /\ 0 <= d <= 10)
   /\ match TreeRecord.affordabilityScore tree with
      | None => True
      | Some score => exists s, score = Fin s /\ 0 <= s <= 10
      end
   /\ match TreeRecord.accessibilityScore tree with
      | None => True
      | Some score => exists c, score = Fin c /\ 0 <= c <= 11
      end)
  /\ parseTreeLine sampleNumber [] ∅ ["status"] "Alive" = None.
Proof.
  intros tree. split.
  - apply (proj1 (finalized_collection_invariant sampleNumber (sampleCsv "Alive") [] ∅)).
    rewrite sample_run_alive. left. reflexivity.
  - apply (proj2 (finalized_collection_invariant sampleNumber (sampleCsv "Alive") [] ∅)).
    left. reflexivity.
Defined.

(** C4. For every record of the finalized collection: if its status is
    "dead" (whatever the letter case) its composite score is 0 and its health
    score is 0, whatever its density and scalar scores; otherwise its
    composite score is [density / 10 * 4 + clamped scalar / 10 * 4 + health],
    unclamped, and lies in [0, 11]. *)
Theorem composite_score_spec :
  forall (Number : string -> number) csvData neighborhoods rentLookup tree,
    In tree (parseTreeData Number csvData neighborhoods rentLookup) ->
    (Str.toLowerCase (TreeRecord.status tree) = "dead" ->
       TreeRecord.accessibilityScore tree = Some (Fin 0)
       /\ calculateHealthScore tree = 0%nat)
    /\ (Str.toLowerCase (TreeRecord.status tree) <> "dead" ->
          exists d,
            TreeRecord.treeFriendsScore tree = Fin d
            /\ TreeRecord.accessibilityScore tree =
               Some (Fin (d / 10 * 4
                          + clampedScalar (TreeRecord.affordabilityScore tree) / 10 * 4
                          + INR (calculateHealthScore tree)))
            /\ 0 <= d / 10 * 4
                    + clampedScalar (TreeRecord.affordabilityScore tree) / 10 * 4
                    + INR (calculateHealthScore tree) <= 11).
Proof.
  intros Number csvData neighborhoods rentLookup tree H.
  apply parseTreeData_elem in H as (raw & d & (_ & _ & (Hst & _ & _) & _) & Hd & ->).
  set (scored := TreeRecord.setTreeFriendsScore raw (Fin d)).
  split.
  - intros Hdead. split.
    + apply assignAccessibilityScore_dead, Hdead.
    + apply calculateHealthScore_zero. right. exact Hdead.
  - intros Hlive. exists d. split; [reflexivity|]. split.
    + apply (assignAccessibilityScore_live scored d);
        [exact Hst | exact Hlive | reflexivity | exact Hd].
    + pose proof (clampedScalar_range
                    (TreeRecord.affordabilityScore (assignAccessibilityScore scored))).
      pose proof (INR_health_range (assignAccessibilityScore scored)).
      lra.
Qed.

Lemma composite_score_spec_witness :
  let dead :=
    assignAccessibilityScore
      (TreeRecord.setTreeFriendsScore (sampleRecord "Dead") (Fin 10)) in
  let alive :=
    assignAccessibilityScore
      (TreeRecord.setTreeFriendsScore (sampleRecord "Alive") (Fin 10)) in
  (TreeRecord.accessibilityScore dead = Some (Fin 0)
   /\ calculateHealthScore dead = 0%nat)
  /\ exists d,
       TreeRecord.treeFriendsScore alive = Fin d
       /\ TreeRecord.accessibilityScore alive =
          Some (Fin (d / 10 * 4
                     + clampedScalar (TreeRecord.affordabilityScore alive) / 10 * 4
                     + INR (calculateHealthScore alive)))
       /\ 0 <= d / 10 * 4
               + clampedScalar (TreeRecord.affordabilityScore alive) / 10 * 4
               + INR (calculateHealthScore alive) <= 11.
Proof.
  intros dead alive. split.
  - apply (proj1 (composite_score_spec sampleNumber (sampleCsv "Dead") [] ∅ dead
                    ltac:(rewrite sample_run_dead; left; reflexivity))).
    reflexivity.
  - apply (proj2 (composite_score_spec sampleNumber (sampleCsv "Alive") [] ∅ alive
                    ltac:(rewrite sample_run_alive; left; reflexivity))).
    vm_compute. discriminate.
Defined.

(** C5. For every record of the finalized collection the health score is
    one of 0, 1, 2, 3: it is 0 when the status is "stump" or "dead"
    (whatever the letter case); otherwise no mismatch gives 3, exactly one
    gives 2, two or more give 1, the mismatches being: status other than
    "alive", sidewalk other than "nodamage", problems non-empty and other
    than "none". *)
Theorem health_score_spec :
  forall (Number : string -> number) csvData neighborhoods rentLookup tree,
    In tree (parseTreeData Number csvData neighborhoods rentLookup) ->
    In (calculateHealthScore tree) [0; 1; 2; 3]%nat
    /\ (Str.toLowerCase (TreeRecord.status tree) = "stump"
        \/ Str.toLowerCase (TreeRecord.status tree) = "dead" ->
        calculateHealthScore tree = 0%nat)
    /\ (Str.toLowerCase (TreeRecord.status tree) <> "stump" ->
        Str.toLowerCase (TreeRecord.status tree) <> "dead" ->
        (healthMismatches tree = 0%nat -> calculateHealthScore tree = 3%nat)
        /\ (healthMismatches tree = 1%nat -> calculateHealthScore tree = 2%nat)
        /\ ((2 <= healthMismatches tree)%nat -> calculateHealthScore tree = 1%nat)).
Proof.
  intros Number csvData neighborhoods rentLookup tree H.
  apply parseTreeData_elem in H as (raw & d & (_ & _ & (_ & _ & Hp) & _) & _ & ->).
  set (tree := assignAccessibilityScore _).
  split; [|split].
  - pose proof (calculateHealthScore_le3 tree) as Hle.
    destruct (calculateHealthScore tree) as [|[|[|[|n]]]]; cbn; try tauto. lia.
  - apply calculateHealthScore_zero.
  - intros Hs Hd. rewrite (calculateHealthScore_count tree Hs Hd Hp).
    destruct (healthMismatches tree) as [|[|n]]; repeat split;
      (reflexivity || discriminate || lia).
Qed.

Lemma health_score_spec_witness :
  let alive :=
    assignAccessibilityScore
      (TreeRecord.setTreeFriendsScore (sampleRecord "Alive") (Fin 10)) in
  let stump :=
    assignAccessibilityScore
      (TreeRecord.setTreeFriendsScore (sampleRecord "Stump") (Fin 10)) in
  calculateHealthScore alive = 2%nat /\ calculateHealthScore stump = 0%nat.
Proof.
  intros alive stump. split.
  - apply (proj2 (proj2 (health_score_spec sampleNumber (sampleCsv "Alive") [] ∅ alive
                    ltac:(rewrite sample_run_alive; left; reflexivity)))).
    + vm_compute. discriminate.
    + vm_compute. discriminate.
    + vm_compute. reflexivity.
  - apply (proj1 (proj2 (health_score_spec sampleNumber (sampleCsv "Stump") [] ∅ stump
                    ltac:(rewrite sample_run_stump; left; reflexivity)))).
    left. reflexivity.
Defined.

(** C10. A record of the finalized collection whose status is "stump"
    (whatever the letter case) has health score 0, and its composite score
    is not forced to 0: it is the sum of the normalized density and of the
    normalized scalar contributions, between 0 and 8. *)
Theorem stump_composite_score :
  forall (Number : string -> number) csvData neighborhoods rentLookup tree,
    In tree (parseTreeData Number csvData neighborhoods rentLookup) ->
    Str.toLowerCase (TreeRecord.status tree) = "stump" ->
    calculateHealthScore tree = 0%nat
    /\ exists d,
         TreeRecord.treeFriendsScore tree = Fin d
         /\ TreeRecord.accessibilityScore tree =
            Some (Fin (d / 10 * 4
                       + clampedScalar (TreeRecord.affordabilityScore tree) / 10 * 4))
         /\ 0 <= d / 10 * 4
                 + clampedScalar (TreeRecord.affordabilityScore tree) / 10 * 4 <= 8.
Proof.
  intros Number csvData neighborhoods rentLookup tree H Hstump.
  apply parseTreeData_elem in H as (raw & d & (_ & _ & (Hst & _ & _) & _) & Hd & ->).
  set (scored := TreeRecord.setTreeFriendsScore raw (Fin d)) in *.
  assert (Hh : calculateHealthScore (assignAccessibilityScore scored) = 0%nat)
    by (apply calculateHealthScore_zero; left; exact Hstump).
  split; [exact Hh|].
  exists d. split; [reflexivity|]. split.
  - rewrite (assignAccessibilityScore_live scored d);
      [| exact Hst | | reflexivity | exact Hd].
    + change (calculateHealthScore scored)
        with (calculateHealthScore (assignAccessibilityScore scored)).
      rewrite Hh. do 2 f_equal. simpl. lra.
    + change (TreeRecord.status scored)
        with (TreeRecord.status (assignAccessibilityScore scored)).
      rewrite Hstump. discriminate.
  - pose proof (clampedScalar_range
                  (TreeRecord.affordabilityScore (assignAccessibilityScore scored))).
    lra.
Qed.

Lemma stump_composite_score_witness :
  let tree :=
    assignAccessibilityScore
      (TreeRecord.setTreeFriendsScore (sampleRecord "Stump") (Fin 10)) in
  calculateHealthScore tree = 0%nat
  /\ exists d,
       TreeRecord.treeFriendsScore tree = Fin d
       /\ TreeRecord.accessibilityScore tree =
          Some (Fin (d / 10 * 4
                     + clampedScalar (TreeRecord.affordabilityScore tree) / 10 * 4))
       /\ 0 <= d / 10 * 4
               + clampedScalar (TreeRecord.affordabilityScore tree) / 10 * 4 <= 8.
Proof.
  intros tree.
  apply (stump_composite_score sampleNumber (sampleCsv "Stump") [] ∅ tree).
  - rewrite sample_run_stump. left. reflexivity.
  - reflexivity.
Defined.

(** The composite score of the sample stump is 4, not 0. *)
Lemma stump_composite_score_sample :
  TreeRecord.accessibilityScore
    (assignAccessibilityScore
       (TreeRecord.setTreeFriendsScore (sampleRecord "Stump") (Fin 10)))
  = Some (Fin (10 / 10 * 4 + 0 / 10 * 4 + INR 0)).
Proof.
  apply (assignAccessibilityScore_live
           (TreeRecord.setTreeFriendsScore (sampleRecord "Stump") (Fin 10)) 10).
  - reflexivity.
  - vm_compute. discriminate.
  - reflexivity.
  - lra.
Qed.

End FinalizedScores.

(** ** The CSV line parser *)

Section CsvParser.

Lemma append_cons c (s t : string) : String c s ++ t = String c (s ++ t).
Proof. reflexivity. Qed.

Lemma append_nil (t : string) : EmptyString ++ t = t.
Proof. reflexivity. Qed.

Lemma append_assoc (a b c : string) : (a ++ b) ++ c = a ++ b ++ c.
Proof.
  induction a as [|x a IH]; [reflexivity|].
  rewrite !append_cons, IH. reflexivity.
Qed.

Lemma append_pushChar current char rest :
  pushChar current char ++ rest = current ++ String char rest.
Proof. unfold pushChar. rewrite append_assoc. reflexivity. Qed.

Lemma append_empty_r (s : string) : s ++ EmptyString = s.
Proof.
  induction s as [|c s IH]; [reflexivity|]. rewrite append_cons, IH. reflexivity.
Qed.

Lemma parseCsvLoop_length line current inQuotes result :
  length (parseCsvLoop line current inQuotes result)
  = (length result + unquotedCommas inQuotes line + 1)%nat.
Proof.
  remember (String.length line) as n eqn:Hn.
  revert line current inQuotes result Hn.
  induction n as [n IH] using lt_wf_ind. intros line current inQuotes result Hn.
  destruct line as [|char rest]; cbn [parseCsvLoop unquotedCommas].
  { rewrite length_app. cbn. lia. }
  cbn [String.length] in Hn.
  destruct (char =? quoteChar)%char.
  - destruct rest as [|next rest'].
    + cbn [parseCsvLoop]. rewrite length_app. cbn. lia.
    + cbn [String.length] in Hn.
      destruct (inQuotes && (next =? quoteChar)%char).
      * apply (IH (String.length rest')); [lia | reflexivity].
      * apply (IH (String.length (String next rest'))); [cbn; lia | reflexivity].
  - destruct ((char =? commaChar)%char && negb inQuotes).
    + rewrite (IH (String.length rest)) by (lia || reflexivity).
      rewrite length_app. cbn. lia.
    + apply (IH (String.length rest)); [lia | reflexivity].
Qed.

Lemma unquotedCommas_plain line :
  countChar quoteChar line = 0%nat ->
  unquotedCommas false line = countChar commaChar line.
Proof.
  induction line as [|char rest IH]; cbn [unquotedCommas countChar]; [reflexivity|].
  destruct (char =? quoteChar)%char eqn:Eq; [discriminate|].
  cbn [Nat.add negb]. rewrite andb_true_r. intros Hq.
  destruct (char =? commaChar)%char; rewrite (IH Hq); reflexivity.
Qed.

(** Characters that are neither a quote nor a comma are copied. *)
Lemma parseCsvLoop_plain field rest current inQuotes result :
  countChar quoteChar field = 0%nat ->
  countChar commaChar field = 0%nat ->
  parseCsvLoop (field ++ rest) current inQuotes result
  = parseCsvLoop rest (current ++ field) inQuotes result.
Proof.
  revert current. induction field as [|char field IH]; intros current Hq Hc.
  { rewrite append_empty_r. reflexivity. }
  cbn [countChar] in Hq, Hc.
  destruct (char =? quoteChar)%char eqn:Eq; [discriminate|].
  destruct (char =? commaChar)%char eqn:Ec; [discriminate|].
  rewrite append_cons. cbn [parseCsvLoop]. rewrite Eq, Ec. cbn [andb].
  rewrite IH by assumption. rewrite append_pushChar. reflexivity.
Qed.

(** Inside quoted mode the escaped content of a field is read back, and
    the closing quote leaves quoted mode. *)
Lemma parseCsvLoop_escaped field rest current result :
  (forall rest', rest <> String quoteChar rest') ->
  parseCsvLoop (escapeField field ++ String quoteChar rest) current true result
  = parseCsvLoop rest (current ++ field) false result.
Proof.
  intros Hrest. revert current.
  induction field as [|char field IH]; intros current.
  - rewrite append_empty_r. cbn [escapeField]. rewrite append_nil.
    cbn [parseCsvLoop]. rewrite Ascii.eqb_refl.
    destruct rest as [|next rest']; [reflexivity|].
    destruct (next =? quoteChar)%char eqn:En; [|reflexivity].
    apply Ascii.eqb_eq in En. subst next. destruct (Hrest rest' eq_refl).
  - cbn [escapeField].
    destruct (char =? quoteChar)%char eqn:Eq.
    + apply Ascii.eqb_eq in Eq. subst char.
      rewrite !append_cons. cbn [parseCsvLoop]. rewrite Ascii.eqb_refl. cbn [andb].
      rewrite IH, append_pushChar. reflexivity.
    + rewrite append_cons. cbn [parseCsvLoop]. rewrite Eq. cbn [negb andb].
      rewrite andb_false_r, IH, append_pushChar. reflexivity.
Qed.

Lemma parseCsvLoop_quoted field rest current result :
  (forall rest', rest <> String quoteChar rest') ->
  parseCsvLoop (quoteField field ++ rest) current false result
  = parseCsvLoop rest (current ++ field) false result.
Proof.
  intros Hrest. unfold quoteField.
  rewrite append_cons, append_assoc, append_cons, append_nil.
  cbn [parseCsvLoop]. rewrite Ascii.eqb_refl.
  destruct (escapeField field ++ String quoteChar rest) as [|next tail] eqn:E.
  { destruct (escapeField field); discriminate. }
  cbn [andb negb]. rewrite <- E. apply parseCsvLoop_escaped, Hrest.
Qed.

Lemma parseCsvLoop_quoted_fields fields result :
  fields <> [] ->
  parseCsvLoop (joinFields (quoteField <$> fields)) EmptyString false result
  = (result ++ fields)%list.
Proof.
  revert result. induction fields as [|field fields IH]; intros result Hne;
    [contradiction|].
  destruct fields as [|field' fields].
  - cbn [fmap list_fmap joinFields].
    rewrite <- (append_empty_r (quoteField field)).
    rewrite parseCsvLoop_quoted by discriminate. reflexivity.
  - change (joinFields (quoteField <$> field :: field' :: fields))
      with (quoteField field
            ++ String commaChar (joinFields (quoteField <$> field' :: fields))).
    rewrite parseCsvLoop_quoted by (intros rest'; discriminate).
    cbn [parseCsvLoop]. change (commaChar =? quoteChar)%char with false.
    rewrite Ascii.eqb_refl. cbn [andb negb].
    rewrite IH by discriminate.
    rewrite <- app_assoc. reflexivity.
Qed.

Lemma parseCsvLoop_plain_fields fields result :
  fields <> [] ->
  Forall (fun field => countChar quoteChar field = 0%nat
                       /\ countChar commaChar field = 0%nat) fields ->
  parseCsvLoop (joinFields fields) EmptyString false result = (result ++ fields)%list.
Proof.
  revert result. induction fields as [|field fields IH]; intros result Hne Hall;
    [contradiction|].
  apply Forall_cons in Hall as [[Hq Hc] Hall].
  destruct fields as [|field' fields].
  - cbn [joinFields].
    pose proof (parseCsvLoop_plain field EmptyString EmptyString false result Hq Hc) as H.
    rewrite append_empty_r in H. rewrite H. reflexivity.
  - change (joinFields (field :: field' :: fields))
      with (field ++ String commaChar (joinFields (field' :: fields))).
    rewrite parseCsvLoop_plain by assumption.
    cbn [parseCsvLoop]. change (commaChar =? quoteChar)%char with false.
    rewrite Ascii.eqb_refl. cbn [andb negb].
    rewrite IH by (discriminate || assumption).
    rewrite <- app_assoc. reflexivity.
Qed.

(** C7. A text with at most one non-empty line (after the byte-order mark
    is stripped and the text trimmed) yields the empty collection.  On a
    data line: a double quote outside quoted mode enters it; inside quoted
    mode a doubled double quote adds one literal quote and any other double
    quote leaves quoted mode; a comma outside quoted mode ends the field,
    inside it is literal; any other character is appended.  The fields
    always end with the field being read at the end of the line, so a line
    yields one field more than it has commas outside quoted mode, and a line
    of [n] comma-separated fields, plain or quoted, is read back as these
    fields. *)
Theorem csv_parser_spec :
  (forall (Number : string -> number) csvData neighborhoods rentLookup,
      (length (nonEmptyLines csvData) <= 1)%nat ->
      parseTreeData Number csvData neighborhoods rentLookup = [])
  /\ (forall rest current result,
        parseCsvLoop (String quoteChar rest) current false result
        = parseCsvLoop rest current true result)
  /\ (forall rest current result,
        parseCsvLoop (String quoteChar (String quoteChar rest)) current true result
        = parseCsvLoop rest (pushChar current quoteChar) true result)
  /\ (forall rest current result,
        (forall rest', rest <> String quoteChar rest') ->
        parseCsvLoop (String quoteChar rest) current true result
        = parseCsvLoop rest current false result)
  /\ (forall rest current result,
        parseCsvLoop (String commaChar rest) current false result
        = parseCsvLoop rest EmptyString false (result ++ [current])%list)
  /\ (forall rest current result,
        parseCsvLoop (String commaChar rest) current true result
        = parseCsvLoop rest (pushChar current commaChar) true result)
  /\ (forall char rest current inQuotes result,
        char <> quoteChar -> char <> commaChar ->
        parseCsvLoop (String char rest) current inQuotes result
        = parseCsvLoop rest (pushChar current char) inQuotes result)
  /\ (forall current inQuotes result,
        parseCsvLoop EmptyString current inQuotes result = (result ++ [current])%list)
  /\ (forall line,
        length (parseCsvLine line) = (unquotedCommas false line + 1)%nat)
  /\ (forall line,
        countChar quoteChar line = 0%nat ->
        length (parseCsvLine line) = (countChar commaChar line + 1)%nat)
  /\ (forall fields,
        fields <> [] ->
        Forall (fun field => countChar quoteChar field = 0%nat
                             /\ countChar commaChar field = 0%nat) fields ->
        parseCsvLine (joinFields fields) = fields)
  /\ (forall fields,
        fields <> [] ->
        parseCsvLine (joinFields (quoteField <$> fields)) = fields).
Proof.
  repeat apply conj.
  - intros Number csvData neighborhoods rentLookup H. unfold parseTreeData.
    apply Nat.leb_le in H. rewrite H. reflexivity.
  - intros rest current result. cbn [parseCsvLoop]. rewrite Ascii.eqb_refl.
    destruct rest; reflexivity.
  - intros rest current result. cbn [parseCsvLoop]. rewrite Ascii.eqb_refl.
    reflexivity.
  - intros rest current result Hrest. cbn [parseCsvLoop]. rewrite Ascii.eqb_refl.
    destruct rest as [|next rest']; [reflexivity|].
    destruct (next =? quoteChar)%char eqn:En; [|reflexivity].
    apply Ascii.eqb_eq in En. subst next. destruct (Hrest rest' eq_refl).
  - intros rest current result. reflexivity.
  - intros rest current result. reflexivity.
  - intros char rest current inQuotes result Hq Hc. cbn [parseCsvLoop].
    apply Ascii.eqb_neq in Hq, Hc. rewrite Hq, Hc. reflexivity.
  - reflexivity.
  - intros line. unfold parseCsvLine. rewrite parseCsvLoop_length. reflexivity.
  - intros line Hq. unfold parseCsvLine.
    rewrite parseCsvLoop_length, unquotedCommas_plain by exact Hq. reflexivity.
  - intros fields Hne Hall. apply (parseCsvLoop_plain_fields fields [] Hne Hall).
  - intros fields Hne. apply (parseCsvLoop_quoted_fields fields [] Hne).
Qed.

Lemma csv_parser_spec_witness :
  parseTreeData sampleNumber "latitude,longitude,status" [] ∅ = []
  /\ length (parseCsvLine "a,b,,c") = 4%nat
  /\ parseCsvLine (joinFields ["a"; "b"; EmptyString; "c"])
     = ["a"; "b"; EmptyString; "c"]
  /\ parseCsvLine (joinFields (quoteField <$> ["a,b"; String quoteChar "c"; EmptyString]))
     = ["a,b"; String quoteChar "c"; EmptyString].
Proof.
  destruct csv_parser_spec
    as (Hlines & _ & _ & _ & _ & _ & _ & _ & _ & Hcount & Hplain & Hquoted).
  split; [|split; [|split]].
  - apply Hlines. vm_compute. lia.
  - apply (Hcount "a,b,,c"). reflexivity.
  - apply Hplain; [discriminate|]. repeat constructor.
  - apply Hquoted. discriminate.
Defined.

End CsvParser.

(** ** Sorting finite numbers *)

Section SortingFacts.
Import Num NumFacts.
Local Open Scope list_scope.
Local Open Scope R_scope.

Global Instance numLe_trans : Transitive numLe.
Proof.
  intros a b c. unfold numLe.
  destruct a, b, c; cbn [leb]; try discriminate; try reflexivity.
  rewrite !Rleb_true. lra.
Qed.

Global Instance numLe_antisym : AntiSymm (=) numLe.
Proof.
  intros a b. unfold numLe.
  destruct a, b; cbn [leb]; try discriminate; try reflexivity.
  rewrite !Rleb_true. intros. f_equal. lra.
Qed.

Lemma numLe_Fin x y : numLe (Fin x) (Fin y) <-> x <= y.
Proof. unfold numLe. cbn [leb]. apply Rleb_true. Qed.

Lemma isFinite_Fin a : isFinite a = true -> exists x, a = Fin x.
Proof. destruct a; try discriminate. eauto. Qed.

(** On finite numbers the comparator [a - b] is positive exactly when [b]
    is smaller than [a]. *)
Lemma sub_positive_false a b :
  isFinite a = true -> isFinite b = true ->
  (Fin 0 <? a - b)%num = false <-> numLe a b.
Proof.
  intros [x ->]%isFinite_Fin [y ->]%isFinite_Fin.
  cbn [sub neg add ltb]. rewrite Rltb_false, numLe_Fin. lra.
Qed.

Lemma sub_positive_true a b :
  isFinite a = true -> isFinite b = true ->
  (Fin 0 <? a - b)%num = true -> numLe b a.
Proof.
  intros [x ->]%isFinite_Fin [y ->]%isFinite_Fin.
  cbn [sub neg add ltb]. rewrite Rltb_true, numLe_Fin. lra.
Qed.

Lemma insertBy_Permutation {A} (cmp : A -> A -> number) x l :
  insertBy cmp x l ≡ₚ x :: l.
Proof.
  induction l as [|y l IH]; cbn [insertBy]; [reflexivity|].
  destruct (Fin 0 <? cmp x y)%num; [|reflexivity].
  rewrite IH. apply Permutation_swap.
Qed.

Lemma sortBy_Permutation {A} (cmp : A -> A -> number) l : sortBy cmp l ≡ₚ l.
Proof.
  induction l as [|x l IH]; cbn [sortBy foldr]; [reflexivity|].
  rewrite insertBy_Permutation. fold (sortBy cmp l). rewrite IH. reflexivity.
Qed.

Lemma length_sortBy {A} (cmp : A -> A -> number) l :
  length (sortBy cmp l) = length l.
Proof. rewrite sortBy_Permutation. reflexivity. Qed.

(** A list whose neighbours are in comparator order is left as it is. *)
Lemma sortBy_ordered {A} (cmp : A -> A -> number) l :
  Sorted (fun x y => (Fin 0 <? cmp x y)%num = false) l -> sortBy cmp l = l.
Proof.
  induction 1 as [|x l Hl IH Hx]; [reflexivity|].
  cbn [sortBy foldr]. fold (sortBy cmp l). rewrite IH.
  destruct Hx as [|y l' Hxy]; cbn [insertBy]; [reflexivity|].
  rewrite Hxy. reflexivity.
Qed.

Lemma insertBy_sorted x l :
  isFinite x = true -> Forall (fun y => isFinite y = true) l ->
  StronglySorted numLe l -> StronglySorted numLe (insertBy sub x l).
Proof.
  intros Hx Hfin Hl. induction Hl as [|y l Hl IH Hy]; cbn [insertBy].
  { repeat constructor. }
  apply Forall_cons in Hfin as [Hyf Hfin].
  destruct (Fin 0 <? x - y)%num eqn:E.
  - apply sub_positive_true in E; [|assumption..].
    constructor; [apply IH, Hfin|].
    rewrite insertBy_Permutation. constructor; assumption.
  - apply sub_positive_false in E; [|assumption..].
    constructor; [constructor; assumption|].
    constructor; [exact E|].
    eapply Forall_impl; [exact Hy|]. intros z Hz. etransitivity; eassumption.
Qed.

Lemma sortBy_sorted l :
  Forall (fun y => isFinite y = true) l -> StronglySorted numLe (sortBy sub l).
Proof.
  induction 1 as [|x l Hx Hl IH]; cbn [sortBy foldr]; [constructor|].
  apply insertBy_sorted; [exact Hx | | exact IH].
  fold (sortBy sub l). rewrite sortBy_Permutation. exact Hl.
Qed.

(** The sort of finite numbers is the sorted rearrangement. *)
Lemma sortBy_unique l sorted :
  Forall (fun y => isFinite y = true) l ->
  StronglySorted numLe sorted -> sorted ≡ₚ l -> sortBy sub l = sorted.
Proof.
  intros Hfin Hs Hp. apply (StronglySorted_unique numLe).
  - apply sortBy_sorted, Hfin.
  - exact Hs.
  - rewrite sortBy_Permutation, Hp. reflexivity.
Qed.

Lemma sortBy_Permutation_eq l1 l2 :
  Forall (fun y => isFinite y = true) l1 -> l1 ≡ₚ l2 -> sortBy sub l1 = sortBy sub l2.
Proof.
  intros Hfin Hp. apply sortBy_unique; [exact Hfin | |].
  - apply sortBy_sorted. rewrite <- Hp. exact Hfin.
  - rewrite sortBy_Permutation. symmetry. exact Hp.
Qed.

Lemma StronglySorted_take {A} (R : relation A) n l :
  StronglySorted R l -> StronglySorted R (take n l).
Proof.
  intros H. rewrite <- (take_drop n l) in H.
  eapply StronglySorted_app_1_l, H.
Qed.

(** [addDistance] keeps the [k] first entries of the sorted extension. *)
Lemma addDistance_take k d kept :
  isFinite d = true -> (length kept <= k)%nat ->
  addDistance k d kept = take k (sortBy sub (kept ++ [d])).
Proof.
  intros Hd Hlen. unfold addDistance. rewrite Hd. cbn [negb].
  assert (Hs : length (sortBy sub (kept ++ [d])) = S (length kept)).
  { rewrite length_sortBy, length_app. cbn. lia. }
  destruct (k <? length (sortBy sub (kept ++ [d])))%nat eqn:E.
  - apply Nat.ltb_lt in E. rewrite removelast_firstn_len. f_equal. lia.
  - apply Nat.ltb_ge in E. symmetry. apply take_ge. exact E.
Qed.

Lemma addDistance_skip k d kept :
  isFinite d = false -> addDistance k d kept = kept.
Proof. unfold addDistance. intros ->. reflexivity. Qed.

(** *** The [k] smallest entries *)

Lemma kSmallest_finite k every kept :
  Forall (fun y => isFinite y = true) every -> kSmallest k every kept ->
  Forall (fun y => isFinite y = true) kept.
Proof.
  intros Hfin (_ & _ & rest & Hp & _). rewrite Hp in Hfin.
  apply Forall_app in Hfin as [H _]. exact H.
Qed.

Lemma kSmallest_nil k : kSmallest k [] [].
Proof.
  split; [constructor|]. split; [cbn; lia|].
  exists []. split; [reflexivity|]. split; [intros []; reflexivity | constructor].
Qed.

Lemma kSmallest_Permutation k every every' kept :
  every ≡ₚ every' -> kSmallest k every kept -> kSmallest k every' kept.
Proof.
  intros Hp (Hs & Hl & rest & Hr & Hfull & Hle).
  split; [exact Hs|]. split; [exact Hl|].
  exists rest. split; [rewrite <- Hp; exact Hr | split; assumption].
Qed.

(** The [k] smallest entries are unique: they are the [k] first of the
    sorted list. *)
Lemma kSmallest_unique k every kept :
  Forall (fun y => isFinite y = true) every ->
  kSmallest k every kept -> kept = take k (sortBy sub every).
Proof.
  intros Hfin (Hs & Hl & rest & Hp & Hfull & Hle).
  assert (Hrest : Forall (fun y => isFinite y = true) rest).
  { rewrite Hp in Hfin. apply Forall_app in Hfin as [_ H]. exact H. }
  rewrite (sortBy_unique every (kept ++ sortBy sub rest)); [| exact Hfin | |].
  - destruct rest as [|z rest].
    + cbn [sortBy foldr]. rewrite app_nil_r. symmetry. apply take_ge, Hl.
    + symmetry. apply take_app_length'. symmetry. apply Hfull. discriminate.
  - apply StronglySorted_app_2; [| exact Hs | apply sortBy_sorted, Hrest].
    intros x z Hx Hz. rewrite sortBy_Permutation in Hz.
    rewrite Forall_forall in Hle. specialize (Hle z Hz).
    rewrite Forall_forall in Hle. apply Hle, Hx.
  - rewrite sortBy_Permutation. symmetry. exact Hp.
Qed.

Lemma kSmallest_take k every :
  Forall (fun y => isFinite y = true) every ->
  kSmallest k every (take k (sortBy sub every)).
Proof.
  intros Hfin. pose proof (sortBy_sorted every Hfin) as Hs.
  split; [apply StronglySorted_take, Hs|].
  split; [rewrite length_take; lia|].
  exists (drop k (sortBy sub every)).
  split; [rewrite take_drop, sortBy_Permutation; reflexivity|].
  split.
  - intros Hne. apply length_take_le.
    destruct (le_lt_dec k (length (sortBy sub every))) as [H|H]; [exact H|].
    rewrite drop_ge in Hne by lia. contradiction.
  - rewrite <- (take_drop k (sortBy sub every)) in Hs.
    apply Forall_forall. intros z Hz. apply Forall_forall. intros x Hx.
    eapply StronglySorted_app_1_elem_of; eassumption.
Qed.

(** Entries that are none smaller than a full [kept] can be left out. *)
Lemma kSmallest_skip k every kept pruned :
  kSmallest k every kept ->
  (pruned <> [] -> length kept = k) ->
  Forall (fun z => Forall (fun x => numLe x z) kept) pruned ->
  kSmallest k (every ++ pruned) kept.
Proof.
  intros (Hs & Hl & rest & Hp & Hfull & Hle) Hk Hpr.
  split; [exact Hs|]. split; [exact Hl|].
  exists (rest ++ pruned). split; [|split].
  - rewrite Hp, app_assoc. reflexivity.
  - intros Hne. destruct rest as [|z rest]; [apply Hk, Hne | apply Hfull; discriminate].
  - apply Forall_app. split; assumption.
Qed.

(** Offering one more distance keeps the [k] smallest. *)
Lemma kSmallest_add k every kept d :
  Forall (fun y => isFinite y = true) every -> isFinite d = true ->
  kSmallest k every kept ->
  kSmallest k (every ++ [d]) (addDistance k d kept).
Proof.
  intros Hfin Hd Hk.
  pose proof (kSmallest_finite k every kept Hfin Hk) as Hkf.
  pose proof (kSmallest_unique k every kept Hfin Hk) as Hu.
  destruct Hk as (Hs & Hl & rest & Hp & Hfull & Hle).
  rewrite addDistance_take by assumption.
  assert (Hfin1 : Forall (fun y => isFinite y = true) (kept ++ [d])).
  { apply Forall_app. split; [exact Hkf | repeat constructor; exact Hd]. }
  destruct (kSmallest_take k (kept ++ [d]) Hfin1)
    as (Hs' & Hl' & dropped & Hp' & Hfull' & Hle').
  set (new := take k (sortBy sub (kept ++ [d]))) in *.
  split; [exact Hs'|]. split; [exact Hl'|].
  exists (dropped ++ rest). split; [|split].
  - rewrite Hp. rewrite app_assoc, <- Hp'.
    rewrite <- !app_assoc. apply Permutation_app_head, Permutation_app_comm.
  - intros Hne. destruct dropped as [|m dropped]; [|apply Hfull'; discriminate].
    cbn [app] in Hne. specialize (Hfull Hne).
    rewrite app_nil_r in Hp'.
    apply Permutation_length in Hp'. rewrite length_app in Hp'. cbn in Hp'. lia.
  - apply Forall_app. split; [exact Hle'|].
    destruct rest as [|z0 rest0]; [constructor|].
    specialize (Hfull ltac:(discriminate)).
    (* [kept] is full: exactly one entry is dropped *)
    assert (Hlen : (length new + length dropped = S k)%nat).
    { apply Permutation_length in Hp'. rewrite !length_app in Hp'. cbn in Hp'. lia. }
    destruct dropped as [|m dropped]; [cbn in Hlen; lia|].
    apply Forall_forall. intros z Hz. apply Forall_forall. intros x Hx.
    rewrite Forall_forall in Hle. specialize (Hle z Hz).
    rewrite Forall_forall in Hle.
    assert (Hxm : numLe x m).
    { rewrite Forall_forall in Hle'. specialize (Hle' m ltac:(left)).
      rewrite Forall_forall in Hle'. apply Hle', Hx. }
    assert (Hm : m ∈ kept ++ [d])
      by (rewrite Hp'; apply elem_of_app; right; left).
    apply elem_of_app in Hm as [Hm | Hm].
    + etransitivity; [exact Hxm | apply Hle, Hm].
    + apply list_elem_of_singleton in Hm. subst m.
      assert (Hdr : dropped = []).
      { destruct dropped; [reflexivity|]. cbn in Hlen.
        assert (length new = k) by (apply Hfull'; discriminate). cbn in Hlen. lia. }
      subst dropped.
      apply Permutation_app_inv_r in Hp'.
      apply Hle. rewrite Hp'. exact Hx.
Qed.

End SortingFacts.

(** ** The nearest named areas *)

Section NearestAreas.
Import Num NumFacts.
Local Open Scope list_scope.
Local Open Scope R_scope.

Local Abbreviation finite := (fun y : number => isFinite y = true).

Lemma fmap_insertBy {A} (key : A -> number) x l :
  key <$> insertBy (fun a b => key a - key b)%num x l
  = insertBy sub (key x) (key <$> l).
Proof.
  induction l as [|y l IH]; cbn [insertBy fmap list_fmap]; [reflexivity|].
  destruct (Fin 0 <? key x - key y)%num; cbn [fmap list_fmap]; [|reflexivity].
  f_equal. exact IH.
Qed.

Lemma fmap_sortBy {A} (key : A -> number) l :
  key <$> sortBy (fun a b => key a - key b)%num l = sortBy sub (key <$> l).
Proof.
  induction l as [|x l IH]; cbn [sortBy foldr fmap list_fmap]; [reflexivity|].
  rewrite fmap_insertBy. f_equal. exact IH.
Qed.

Lemma fmap_sortBy_byDistance matches :
  NeighborhoodMatch.distance <$> sortBy byDistance matches
  = sortBy sub (NeighborhoodMatch.distance <$> matches).
Proof. apply (fmap_sortBy NeighborhoodMatch.distance). Qed.

(** Replacing the largest entry by a smaller distance and sorting again
    keeps the smallest entries of the extended list. *)
Lemma replace_farthest k distances d m :
  StronglySorted numLe distances -> Forall finite distances ->
  isFinite d = true -> length distances = k ->
  distances !! (length distances - 1)%nat = Some m ->
  sortBy sub (if (d <? m)%num
              then <[(length distances - 1)%nat := d]> distances
              else distances)
  = addDistance k d distances.
Proof.
  intros Hs Hfin Hd Hlen Hm.
  destruct distances as [|m' init] using rev_ind; [discriminate|]. clear IHinit.
  rewrite length_app in Hm, Hlen |- *. cbn [length] in Hm, Hlen |- *.
  replace (length init + 1 - 1)%nat with (length init + 0)%nat in Hm |- * by lia.
  rewrite lookup_app_r in Hm by lia.
  replace (length init + 0 - length init)%nat with 0%nat in Hm by lia.
  cbn in Hm. injection Hm as ->.
  rewrite insert_app_r. cbn [insert list_insert].
  rewrite addDistance_take by (assumption || (rewrite length_app; cbn; lia)).
  pose proof (proj1 (Forall_app _ _ _) Hfin) as [Hinit Hmf].
  apply Forall_cons in Hmf as [Hmf _].
  apply StronglySorted_app in Hs as (Hle & Hsi & _).
  destruct (d <? m)%num eqn:E.
  - assert (Hdm : numLe d m).
    { apply isFinite_Fin in Hd as [x ->]. apply isFinite_Fin in Hmf as [y ->].
      cbn [ltb] in E. apply Rltb_true in E. apply numLe_Fin. lra. }
    assert (Hf1 : Forall finite (init ++ [d]))
      by (apply Forall_app; split; [exact Hinit | repeat constructor; exact Hd]).
    rewrite (sortBy_unique ((init ++ [m]) ++ [d]) (sortBy sub (init ++ [d]) ++ [m])).
    + symmetry. apply take_app_length'.
      rewrite length_sortBy, length_app. cbn. lia.
    + apply Forall_app. split; [exact Hfin | repeat constructor; exact Hd].
    + apply StronglySorted_app_2; [| apply sortBy_sorted, Hf1 | repeat constructor].
      intros x z Hx Hz. apply list_elem_of_singleton in Hz. subst z.
      rewrite sortBy_Permutation in Hx. apply elem_of_app in Hx as [Hx | Hx].
      * apply Hle; [exact Hx | left].
      * apply list_elem_of_singleton in Hx. subst x. exact Hdm.
    + rewrite sortBy_Permutation. rewrite <- !app_assoc.
      apply Permutation_app_head, Permutation_app_comm.
  - assert (Hmd : numLe m d).
    { apply isFinite_Fin in Hd as [x ->]. apply isFinite_Fin in Hmf as [y ->].
      cbn [ltb] in E. apply Rltb_false in E. apply numLe_Fin. lra. }
    assert (Hsorted : StronglySorted numLe ((init ++ [m]) ++ [d])).
    { apply StronglySorted_app_2; [| | repeat constructor].
      - intros x z Hx Hz. apply list_elem_of_singleton in Hz. subst z.
        apply elem_of_app in Hx as [Hx | Hx].
        + etransitivity; [apply Hle; [exact Hx | left] | exact Hmd].
        + apply list_elem_of_singleton in Hx. subst x. exact Hmd.
      - apply StronglySorted_app_2; [exact Hle | exact Hsi | repeat constructor]. }
    rewrite (sortBy_unique (init ++ [m]) (init ++ [m]));
      [| exact Hfin
       | apply StronglySorted_app_2; [exact Hle | exact Hsi | repeat constructor]
       | reflexivity].
    rewrite (sortBy_unique ((init ++ [m]) ++ [d]) ((init ++ [m]) ++ [d]));
      [| apply Forall_app; split; [exact Hfin | repeat constructor; exact Hd]
       | exact Hsorted | reflexivity].
    symmetry. apply take_app_length'. rewrite length_app. cbn. lia.
Qed.

(** One iteration of the scan offers the distance of the area to the
    distances kept so far, as [addDistance] does. *)
Lemma offerNeighborhood_distances latitude longitude rentLookup limit matches
    neighborhood :
  let d :=
    getDistanceInMeters latitude longitude
      (NeighborhoodRecord.latitude neighborhood)
      (NeighborhoodRecord.longitude neighborhood) in
  (0 < limit)%nat ->
  StronglySorted numLe (NeighborhoodMatch.distance <$> matches) ->
  Forall finite (NeighborhoodMatch.distance <$> matches) ->
  (length matches <= limit)%nat ->
  NeighborhoodMatch.distance
    <$> offerNeighborhood latitude longitude rentLookup limit matches neighborhood
  = if isFinite d
    then addDistance limit d (NeighborhoodMatch.distance <$> matches)
    else NeighborhoodMatch.distance <$> matches.
Proof.
  intros d Hlimit Hs Hfin Hlen. unfold offerNeighborhood. fold d.
  destruct (isFinite d) eqn:Hd; cbn [negb]; [|reflexivity].
  destruct (length matches <? limit)%nat eqn:E.
  - apply Nat.ltb_lt in E.
    rewrite fmap_sortBy_byDistance, fmap_app. cbn [fmap list_fmap NeighborhoodMatch.distance].
    unfold addDistance. rewrite Hd. cbn [negb].
    replace (limit <? _)%nat with false; [reflexivity|].
    symmetry. apply Nat.ltb_ge.
    rewrite length_sortBy, length_app, length_fmap. cbn. lia.
  - apply Nat.ltb_ge in E.
    assert (Hk : length (NeighborhoodMatch.distance <$> matches) = limit)
      by (rewrite length_fmap; lia).
    destruct (lookup_lt_is_Some_2 matches (length matches - 1)%nat ltac:(lia))
      as [last Hlast].
    rewrite Hlast.
    assert (Hm : (NeighborhoodMatch.distance <$> matches)
                   !! (length (NeighborhoodMatch.distance <$> matches) - 1)%nat
                 = Some (NeighborhoodMatch.distance last))
      by (rewrite list_lookup_fmap, length_fmap, Hlast; reflexivity).
    rewrite <- (replace_farthest limit _ d _ Hs Hfin Hd Hk Hm).
    rewrite length_fmap.
    destruct (d <? NeighborhoodMatch.distance last)%num.
    + rewrite fmap_sortBy_byDistance, list_fmap_insert. reflexivity.
    + symmetry. apply sortBy_unique; [exact Hfin | exact Hs | reflexivity].
Qed.

Lemma areaDistances_cons latitude longitude neighborhood neighborhoods :
  areaDistances latitude longitude (neighborhood :: neighborhoods)
  = (if isFinite
          (getDistanceInMeters latitude longitude
             (NeighborhoodRecord.latitude neighborhood)
             (NeighborhoodRecord.longitude neighborhood))
     then [getDistanceInMeters latitude longitude
             (NeighborhoodRecord.latitude neighborhood)
             (NeighborhoodRecord.longitude neighborhood)]
     else [])
    ++ areaDistances latitude longitude neighborhoods.
Proof.
  unfold areaDistances. cbn [fmap list_fmap List.filter].
  destruct (isFinite _); reflexivity.
Qed.

Lemma areaDistances_finite latitude longitude neighborhoods :
  Forall finite (areaDistances latitude longitude neighborhoods).
Proof.
  apply Forall_forall. intros d Hd. apply list_elem_of_In in Hd.
  unfold areaDistances in Hd. apply filter_In in Hd as [_ Hd]. exact Hd.
Qed.

Lemma foldl_offerNeighborhood latitude longitude rentLookup limit neighborhoods :
  (0 < limit)%nat ->
  forall matches seen,
    Forall finite seen ->
    kSmallest limit seen (NeighborhoodMatch.distance <$> matches) ->
    kSmallest limit (seen ++ areaDistances latitude longitude neighborhoods)
      (NeighborhoodMatch.distance
         <$> foldl (offerNeighborhood latitude longitude rentLookup limit)
               matches neighborhoods).
Proof.
  intros Hlimit.
  induction neighborhoods as [|neighborhood neighborhoods IH];
    intros matches seen Hfin Hk.
  { cbn [foldl]. unfold areaDistances. cbn. rewrite app_nil_r. exact Hk. }
  cbn [foldl]. rewrite areaDistances_cons, app_assoc.
  pose proof (kSmallest_finite _ _ _ Hfin Hk) as Hkf.
  assert (Hlen : (length matches <= limit)%nat).
  { destruct Hk as (_ & Hl & _). rewrite length_fmap in Hl. exact Hl. }
  pose proof (offerNeighborhood_distances latitude longitude rentLookup limit
                matches neighborhood Hlimit (proj1 Hk) Hkf Hlen) as Hoffer.
  cbn zeta in Hoffer.
  destruct (isFinite (getDistanceInMeters latitude longitude
                        (NeighborhoodRecord.latitude neighborhood)
                        (NeighborhoodRecord.longitude neighborhood))) eqn:Hd.
  - apply IH.
    + apply Forall_app. split; [exact Hfin | repeat constructor; exact Hd].
    + rewrite Hoffer. apply kSmallest_add; assumption.
  - rewrite app_nil_r. apply IH; [exact Hfin|]. rewrite Hoffer. exact Hk.
Qed.

(** The matches kept are the [limit] nearest areas, in non-decreasing order
    of distance. *)
Lemma getClosestNeighborhoodMatches_distances latitude longitude neighborhoods
    rentLookup limit :
  NeighborhoodMatch.distance
    <$> getClosestNeighborhoodMatches latitude longitude neighborhoods rentLookup limit
  = take limit (sortBy sub (areaDistances latitude longitude neighborhoods)).
Proof.
  unfold getClosestNeighborhoodMatches.
  destruct neighborhoods as [|neighborhood neighborhoods].
  { cbn. destruct limit; reflexivity. }
  cbn [length Nat.eqb orb].
  destruct limit as [|limit]; [reflexivity|].
  cbn [Nat.leb].
  apply kSmallest_unique; [apply areaDistances_finite|].
  apply (foldl_offerNeighborhood latitude longitude rentLookup (S limit)
           (neighborhood :: neighborhoods) ltac:(lia) [] []);
    [constructor | apply kSmallest_nil].
Qed.

(** C2. The estimate is null unless there are at least three matches whose
    first three rents are known.  When it is not null, with [d1 d2 d3] the
    three distances floored at zero: if they sum to zero the estimate is the
    plain mean of the three rents, otherwise it is [w1*r1 + w2*r2 + w3*r3]
    with the weights [(d2+d3-d1)/(d1+d2+d3)], [(d1+d3-d2)/(d1+d2+d3)] and
    [(d1+d2-d3)/(d1+d2+d3)], which are used as they are, negative or not.
    The list that the pipeline passes holds the three nearest areas, the
    closest first. *)
Theorem calculateExpectedRent_spec :
  forall matches : list NeighborhoodMatch.t,
    (calculateExpectedRent matches <> None <->
       exists x1 x2 x3 rest,
         matches = x1 :: x2 :: x3 :: rest
         /\ NeighborhoodMatch.rent x1 <> None
         /\ NeighborhoodMatch.rent x2 <> None
         /\ NeighborhoodMatch.rent x3 <> None)
    /\ (forall x1 x2 x3 rest r1 r2 r3,
          matches = x1 :: x2 :: x3 :: rest ->
          NeighborhoodMatch.rent x1 = Some r1 ->
          NeighborhoodMatch.rent x2 = Some r2 ->
          NeighborhoodMatch.rent x3 = Some r3 ->
          let d1 := flooredDistance x1 in
          let d2 := flooredDistance x2 in
          let d3 := flooredDistance x3 in
          let s := (d1 + d2 + d3)%num in
          ((s =? Fin 0)%num = true ->
             calculateExpectedRent matches = Some ((r1 + r2 + r3) / Fin 3)%num)
          /\ ((s =? Fin 0)%num = false ->
                calculateExpectedRent matches =
                Some ((d2 + d3 - d1) / s * r1 + (d1 + d3 - d2) / s * r2
                      + (d1 + d2 - d3) / s * r3)%num))
    /\ (forall n1 n2 n3 a1 a2 a3 b1 b2 b3 rest,
          matches = NeighborhoodMatch.mk n1 (Fin a1) (Some (Fin b1))
                    :: NeighborhoodMatch.mk n2 (Fin a2) (Some (Fin b2))
                    :: NeighborhoodMatch.mk n3 (Fin a3) (Some (Fin b3)) :: rest ->
          let d1 := Rmax a1 0 in
          let d2 := Rmax a2 0 in
          let d3 := Rmax a3 0 in
          (d1 + d2 + d3 = 0 ->
             calculateExpectedRent matches = Some (Fin ((b1 + b2 + b3) / 3)))
          /\ (d1 + d2 + d3 <> 0 ->
                calculateExpectedRent matches =
                Some (Fin (interpolationWeight d1 d2 d3 * b1
                           + interpolationWeight d2 d1 d3 * b2
                           + interpolationWeight d3 d1 d2 * b3))))
    /\ (forall latitude longitude neighborhoods rentLookup,
          NeighborhoodMatch.distance
            <$> getClosestNeighborhoodMatches latitude longitude neighborhoods
                  rentLookup NEAREST_NEIGHBOR_COUNT
          = take 3 (sortBy sub (areaDistances latitude longitude neighborhoods))).
Proof.
  intros matches. split; [|split; [|split]].
  - split.
    + intros H.
      destruct matches as [|x1 [|x2 [|x3 rest]]];
        try (exfalso; apply H, calculateExpectedRent_short; cbn; lia).
      rewrite calculateExpectedRent_three in H.
      exists x1, x2, x3, rest.
      destruct (NeighborhoodMatch.rent x1), (NeighborhoodMatch.rent x2),
        (NeighborhoodMatch.rent x3); try (exfalso; apply H; reflexivity).
      repeat split; discriminate.
    + intros (x1 & x2 & x3 & rest & -> & H1 & H2 & H3).
      rewrite calculateExpectedRent_three.
      destruct (NeighborhoodMatch.rent x1), (NeighborhoodMatch.rent x2),
        (NeighborhoodMatch.rent x3); try contradiction.
      discriminate.
  - intros x1 x2 x3 rest r1 r2 r3 -> H1 H2 H3 d1 d2 d3 s.
    rewrite calculateExpectedRent_three, H1, H2, H3. cbn zeta.
    fold d1 d2 d3. fold s.
    split; intros ->; reflexivity.
  - intros n1 n2 n3 a1 a2 a3 b1 b2 b3 rest -> d1 d2 d3.
    rewrite calculateExpectedRent_three.
    cbn [NeighborhoodMatch.rent]. unfold flooredDistance.
    cbn [NeighborhoodMatch.distance]. rewrite !max_Fin. fold d1 d2 d3.
    cbn zeta. cbn [add eqb sub neg].
    split; intros Hs.
    + apply Reqb_true in Hs as Hb. rewrite Hb.
      rewrite div_Fin by lra. reflexivity.
    + apply Reqb_false in Hs as Hb. rewrite Hb.
      rewrite !div_Fin by exact Hs. cbn [mul add].
      unfold interpolationWeight. do 2 f_equal. field.
      repeat split; intros Heq; apply Hs; lra.
  - intros latitude longitude neighborhoods rentLookup.
    apply getClosestNeighborhoodMatches_distances.
Qed.

(** The estimate at distances [0, 0, 10] with rents [1000, 1000, 5000]:
    the third weight is [-1] and the estimate is negative. *)
Lemma calculateExpectedRent_spec_witness :
  let matches :=
    [NeighborhoodMatch.mk "a" (Fin 0) (Some (Fin 1000));
     NeighborhoodMatch.mk "b" (Fin 0) (Some (Fin 1000));
     NeighborhoodMatch.mk "c" (Fin 10) (Some (Fin 5000))] in
  calculateExpectedRent matches <> None
  /\ calculateExpectedRent matches
     = Some (Fin (interpolationWeight (Rmax 0 0) (Rmax 0 0) (Rmax 10 0) * 1000
                  + interpolationWeight (Rmax 0 0) (Rmax 0 0) (Rmax 10 0) * 1000
                  + interpolationWeight (Rmax 10 0) (Rmax 0 0) (Rmax 0 0) * 5000)).
Proof.
  intros matches. split.
  - apply (proj1 (calculateExpectedRent_spec matches)).
    exists (NeighborhoodMatch.mk "a" (Fin 0) (Some (Fin 1000))),
           (NeighborhoodMatch.mk "b" (Fin 0) (Some (Fin 1000))),
           (NeighborhoodMatch.mk "c" (Fin 10) (Some (Fin 5000))), [].
    repeat split; discriminate.
  - apply (proj1 (proj2 (proj2 (calculateExpectedRent_spec matches)))
             "a" "b" "c" 0 0 10 1000 1000 5000 [] eq_refl).
    unfold Rmax. destruct (Rle_dec 0 0); destruct (Rle_dec 10 0); lra.
Defined.

Lemma calculateExpectedRent_negative_weight :
  interpolationWeight (Rmax 10 0) (Rmax 0 0) (Rmax 0 0) = -1
  /\ interpolationWeight (Rmax 0 0) (Rmax 0 0) (Rmax 10 0) * 1000
     + interpolationWeight (Rmax 0 0) (Rmax 0 0) (Rmax 10 0) * 1000
     + interpolationWeight (Rmax 10 0) (Rmax 0 0) (Rmax 0 0) * 5000 = -3000.
Proof.
  unfold interpolationWeight.
  replace (Rmax 10 0) with 10 by (symmetry; apply Rmax_left; lra).
  replace (Rmax 0 0) with 0 by (symmetry; apply Rmax_left; lra).
  split; field.
Qed.


End NearestAreas.

(** ** The k-d tree and its query *)

Section SearchFacts.
Import Num NumFacts.
Local Open Scope list_scope.
Local Open Scope R_scope.

Local Abbreviation finite := (fun y : number => isFinite y = true).

Lemma buildKdTree_Permutation points depth :
  pointsOf (buildKdTree points depth) ≡ₚ points.
Proof.
  remember (length points) as n eqn:Hn. revert points depth Hn.
  induction n as [n IH] using lt_wf_ind. intros points depth Hn.
  destruct points as [|p ps]; [simp buildKdTree; reflexivity|].
  rewrite buildKdTree_cons. cbn zeta.
  set (sorted := sortBy (byAxis (depth mod 2)) (p :: ps)).
  assert (Hlen : length sorted = S (length ps))
    by (subst sorted; rewrite length_sortBy; reflexivity).
  assert (Hmed : (length sorted / 2 < length sorted)%nat)
    by (apply Nat.div_lt; lia).
  cbn [pointsOf].
  rewrite (IH (length (take (length sorted / 2) sorted)))
    by (rewrite ?length_take; cbn [length] in *; lia || reflexivity).
  rewrite (IH (length (drop (length sorted / 2 + 1) sorted)))
    by (rewrite ?length_drop; cbn [length] in *; lia || reflexivity).
  destruct (lookup_lt_is_Some_2 sorted (length sorted / 2) Hmed) as [m Hm].
  rewrite (nth_lookup_Some _ _ _ _ Hm).
  replace (length sorted / 2 + 1)%nat with (S (length sorted / 2)) by lia.
  rewrite (take_drop_middle _ _ _ Hm).
  apply sortBy_Permutation.
Qed.

Lemma Permutation_flip {A} (a b c : list A) : a ++ b ++ c ≡ₚ c ++ b ++ a.
Proof.
  rewrite (Permutation_app_comm a), (Permutation_app_comm b), app_assoc.
  reflexivity.
Qed.

Lemma otherDistances_app target l1 l2 :
  otherDistances target (l1 ++ l2)
  = otherDistances target l1 ++ otherDistances target l2.
Proof.
  unfold otherDistances. rewrite List.filter_app, map_app, List.filter_app.
  reflexivity.
Qed.

Lemma otherDistances_finite target points :
  Forall finite (otherDistances target points).
Proof.
  apply Forall_forall. intros d Hd. apply list_elem_of_In in Hd.
  unfold otherDistances in Hd. apply filter_In in Hd as [_ Hd]. exact Hd.
Qed.

Lemma otherDistances_Permutation target l1 l2 :
  l1 ≡ₚ l2 -> otherDistances target l1 ≡ₚ otherDistances target l2.
Proof.
  induction 1 as [|x l l' _ IH|x y l|l l' l'' _ IH1 _ IH2].
  - reflexivity.
  - change (x :: l) with ([x] ++ l). change (x :: l') with ([x] ++ l').
    rewrite !otherDistances_app, IH. reflexivity.
  - change (y :: x :: l) with ([y] ++ [x] ++ l).
    change (x :: y :: l) with ([x] ++ [y] ++ l).
    rewrite !otherDistances_app, !app_assoc.
    apply Permutation_app_tail, Permutation_app_comm.
  - etransitivity; eassumption.
Qed.

(** The distance that the visit of a node offers to the result. *)
Lemma otherDistances_single target point :
  otherDistances target [point] =
  if negb (IndexedTreePoint.index point =? IndexedTreePoint.index target)%nat
  then if isFinite (pointDistance target point)
       then [pointDistance target point] else []
  else [].
Proof.
  unfold otherDistances. cbn [List.filter].
  destruct (negb _); [|reflexivity].
  cbn [map List.filter]. reflexivity.
Qed.

Lemma pointsOf_distances target point axis leftNode rightNode :
  otherDistances target (pointsOf (node point axis leftNode rightNode))
  = otherDistances target (pointsOf leftNode)
    ++ otherDistances target [point]
    ++ otherDistances target (pointsOf rightNode).
Proof.
  cbn [pointsOf].
  change (point :: pointsOf rightNode) with ([point] ++ pointsOf rightNode).
  rewrite !otherDistances_app. reflexivity.
Qed.

(** One unfolding of [search]. *)
Lemma search_node target k point axis leftNode rightNode distances :
  search target k (node point axis leftNode rightNode) distances =
  let targetValue :=
    axisValue axis (IndexedTreePoint.latitude target)
      (IndexedTreePoint.longitude target) in
  let nodeValue :=
    axisValue axis (IndexedTreePoint.latitude point)
      (IndexedTreePoint.longitude point) in
  let near := (targetValue <? nodeValue)%num in
  let visited :=
    visitNode target k point
      (search target k (if near then leftNode else rightNode) distances) in
  if (length visited <? k)%nat
     || (getAxisDistanceMeters (abs (targetValue - nodeValue)) axis
           (IndexedTreePoint.latitude target) <? currentMax visited)%num
  then search target k (if near then rightNode else leftNode) visited
  else visited.
Proof. reflexivity. Qed.

Lemma kSmallest_visitNode target k point every kept :
  Forall finite every -> kSmallest k every kept ->
  kSmallest k (every ++ otherDistances target [point])
    (visitNode target k point kept).
Proof.
  intros Hfin Hk. rewrite otherDistances_single. unfold visitNode.
  destruct (negb _); [|rewrite app_nil_r; exact Hk].
  destruct (isFinite (pointDistance target point)) eqn:Hd.
  - apply kSmallest_add; assumption.
  - rewrite addDistance_skip by exact Hd. rewrite app_nil_r. exact Hk.
Qed.

(** Whatever the pruning does, the result holds the [k] smallest of the
    distances that were offered, all of them distances to other points of
    the tree. *)
Lemma search_visited target k nd :
  forall every kept,
    Forall finite every -> kSmallest k every kept ->
    exists offered,
      offered ⊆+ otherDistances target (pointsOf nd)
      /\ kSmallest k (every ++ offered) (search target k nd kept).
Proof.
  induction nd as [|point axis leftNode IHl rightNode IHr]; intros every kept Hfin Hk.
  { exists []. split; [reflexivity|]. rewrite app_nil_r. exact Hk. }
  rewrite search_node, pointsOf_distances. cbn zeta.
  set (near := (axisValue axis _ _ <? axisValue axis _ _)%num).
  assert (Hcase :
    forall nearNode farNode,
      (forall every kept, Forall finite every -> kSmallest k every kept ->
         exists offered, offered ⊆+ otherDistances target (pointsOf nearNode)
           /\ kSmallest k (every ++ offered) (search target k nearNode kept)) ->
      (forall every kept, Forall finite every -> kSmallest k every kept ->
         exists offered, offered ⊆+ otherDistances target (pointsOf farNode)
           /\ kSmallest k (every ++ offered) (search target k farNode kept)) ->
      forall test : bool,
      exists offered,
        offered ⊆+ otherDistances target (pointsOf nearNode)
                   ++ otherDistances target [point]
                   ++ otherDistances target (pointsOf farNode)
        /\ kSmallest k (every ++ offered)
             (let visited := visitNode target k point (search target k nearNode kept) in
              if test then search target k farNode visited else visited)).
  { intros nearNode farNode IHn IHf test.
    destruct (IHn every kept Hfin Hk) as (o1 & Ho1 & Hk1).
    assert (Hfin1 : Forall finite (every ++ o1)).
    { apply Forall_app. split; [exact Hfin|].
      apply Forall_forall. intros d Hd.
      pose proof (otherDistances_finite target (pointsOf nearNode)) as Hf.
      rewrite Forall_forall in Hf. apply Hf. eapply elem_of_submseteq; eassumption. }
    pose proof (kSmallest_visitNode target k point _ _ Hfin1 Hk1) as Hk2.
    assert (Hfin2 : Forall finite ((every ++ o1) ++ otherDistances target [point])).
    { apply Forall_app. split; [exact Hfin1 | apply otherDistances_finite]. }
    cbn zeta. destruct test.
    - destruct (IHf _ _ Hfin2 Hk2) as (o2 & Ho2 & Hk3).
      exists (o1 ++ otherDistances target [point] ++ o2). split.
      + apply submseteq_app; [exact Ho1|].
        apply submseteq_app; [reflexivity | exact Ho2].
      + rewrite !app_assoc. exact Hk3.
    - exists (o1 ++ otherDistances target [point]). split.
      + apply submseteq_app; [exact Ho1|]. apply submseteq_inserts_r. reflexivity.
      + rewrite app_assoc. exact Hk2. }
  destruct near.
  - apply (Hcase leftNode rightNode IHl IHr).
  - destruct (Hcase rightNode leftNode IHr IHl
                ((length (visitNode target k point (search target k rightNode kept)) <? k)%nat
                 || (getAxisDistanceMeters
                       (abs (axisValue axis (IndexedTreePoint.latitude target)
                               (IndexedTreePoint.longitude target)
                             - axisValue axis (IndexedTreePoint.latitude point)
                                 (IndexedTreePoint.longitude point))) axis
                       (IndexedTreePoint.latitude target)
                     <? currentMax (visitNode target k point
                                      (search target k rightNode kept)))%num))
      as (offered & Ho & Hkk).
    exists offered. split; [|exact Hkk].
    etransitivity; [exact Ho|]. apply Permutation_submseteq, Permutation_flip.
Qed.

(** A subtree may be skipped when the test fails and the axis-only
    distance bounds its distances from below. *)
Lemma currentMax_bound kept axisDistance z :
  StronglySorted numLe kept -> Forall finite kept ->
  (axisDistance <? currentMax kept)%num = false ->
  numLe axisDistance z -> isFinite z = true ->
  Forall (fun x => numLe x z) kept.
Proof.
  intros Hs Hfin Hmax Hz Hzf.
  destruct kept as [|x0 kept0] using rev_ind; [constructor|]. clear IHkept0.
  unfold currentMax in Hmax. rewrite length_app in Hmax. cbn [length] in Hmax.
  replace (length kept0 + 1 - 1)%nat with (length kept0 + 0)%nat in Hmax by lia.
  rewrite lookup_app_r in Hmax by lia.
  replace (length kept0 + 0 - length kept0)%nat with 0%nat in Hmax by lia.
  cbn in Hmax.
  apply Forall_app in Hfin as [_ Hx0]. apply Forall_cons in Hx0 as [Hx0 _].
  apply isFinite_Fin in Hx0 as [m ->]. apply isFinite_Fin in Hzf as [zr ->].
  assert (Hmz : numLe (Fin m) (Fin zr)).
  { unfold numLe in *. destruct axisDistance as [a| | |]; cbn [leb ltb] in *;
      try discriminate.
    apply Rltb_false in Hmax. apply Rleb_true in Hz. apply Rleb_true. lra. }
  apply Forall_app. split.
  - apply Forall_forall. intros x Hx. etransitivity; [|exact Hmz].
    eapply StronglySorted_app_1_elem_of; [exact Hs | exact Hx | left].
  - repeat constructor. exact Hmz.
Qed.

(** Under a sound pruning test the result holds the [k] smallest of all
    the distances of the tree. *)
Lemma search_sound target k nd :
  pruningSound target nd ->
  forall every kept,
    Forall finite every -> kSmallest k every kept ->
    kSmallest k (every ++ otherDistances target (pointsOf nd))
      (search target k nd kept).
Proof.
  induction nd as [|point axis leftNode IHl rightNode IHr];
    intros Hsound every kept Hfin Hk.
  { cbn [pointsOf]. rewrite app_nil_r. exact Hk. }
  cbn [pruningSound] in Hsound. destruct Hsound as (Hfar & Hsl & Hsr).
  specialize (IHl Hsl). specialize (IHr Hsr).
  rewrite search_node, pointsOf_distances. cbn zeta.
  set (targetValue := axisValue axis (IndexedTreePoint.latitude target)
                        (IndexedTreePoint.longitude target)) in *.
  set (nodeValue := axisValue axis (IndexedTreePoint.latitude point)
                      (IndexedTreePoint.longitude point)) in *.
  set (axisDistance := getAxisDistanceMeters (abs (targetValue - nodeValue)) axis
                         (IndexedTreePoint.latitude target)) in *.
  assert (Hcase :
    forall nearNode farNode,
      (forall every kept, Forall finite every -> kSmallest k every kept ->
         kSmallest k (every ++ otherDistances target (pointsOf nearNode))
           (search target k nearNode kept)) ->
      (forall every kept, Forall finite every -> kSmallest k every kept ->
         kSmallest k (every ++ otherDistances target (pointsOf farNode))
           (search target k farNode kept)) ->
      Forall (fun d => (axisDistance <=? d)%num = true)
        (otherDistances target (pointsOf farNode)) ->
      kSmallest k
        (every ++ otherDistances target (pointsOf nearNode)
               ++ otherDistances target [point]
               ++ otherDistances target (pointsOf farNode))
        (let visited := visitNode target k point (search target k nearNode kept) in
         if (length visited <? k)%nat || (axisDistance <? currentMax visited)%num
         then search target k farNode visited else visited)).
  { intros nearNode farNode IHn IHf Hbound.
    pose proof (IHn every kept Hfin Hk) as Hk1.
    assert (Hfin1 : Forall finite (every ++ otherDistances target (pointsOf nearNode))).
    { apply Forall_app. split; [exact Hfin | apply otherDistances_finite]. }
    pose proof (kSmallest_visitNode target k point _ _ Hfin1 Hk1) as Hk2.
    assert (Hfin2 : Forall finite
              ((every ++ otherDistances target (pointsOf nearNode))
               ++ otherDistances target [point])).
    { apply Forall_app. split; [exact Hfin1 | apply otherDistances_finite]. }
    cbn zeta.
    set (visited := visitNode target k point (search target k nearNode kept)) in *.
    rewrite !app_assoc.
    destruct ((length visited <? k)%nat || (axisDistance <? currentMax visited)%num)
      eqn:Etest.
    - apply IHf; assumption.
    - apply orb_false_elim in Etest as [Elen Emax]. apply Nat.ltb_ge in Elen.
      pose proof (kSmallest_finite _ _ _ Hfin2 Hk2) as Hvf.
      apply kSmallest_skip; [exact Hk2 | |].
      + intros _. destruct Hk2 as (_ & Hle & _). lia.
      + pose proof (otherDistances_finite target (pointsOf farNode)) as Hff.
        rewrite Forall_forall in Hbound, Hff.
        apply Forall_forall. intros z Hz.
        apply (currentMax_bound visited axisDistance z);
          [apply Hk2 | exact Hvf | exact Emax | apply Hbound, Hz | apply Hff, Hz]. }
  destruct (targetValue <? nodeValue)%num.
  - apply (Hcase leftNode rightNode IHl IHr Hfar).
  - eapply kSmallest_Permutation; [|apply (Hcase rightNode leftNode IHr IHl Hfar)].
    apply Permutation_app_head, Permutation_flip.
Qed.

(** C1 (amended). For every list of points, every target and every [k],
    the query on the tree built from the points returns at most [k]
    distances, in non-decreasing order, each of them the finite haversine
    distance from the target to another point of the list (a sub-multiset
    of these distances); and when the pruning test is sound for the target
    at every node, the result is the list of the [k] smallest of these
    distances, as a brute-force scan finds them. *)
Theorem knn_query_spec :
  forall (points : list IndexedTreePoint.t) (target : IndexedTreePoint.t) (k : nat),
    let root := buildKdTree points 0 in
    let result := findKNearestNeighborDistances root target k in
    StronglySorted numLe result
    /\ (length result <= k)%nat
    /\ result ⊆+ otherDistances target points
    /\ (pruningSound target root -> result = bruteForceNearest points target k).
Proof.
  intros points target k root result.
  assert (Hperm : otherDistances target (pointsOf root) ≡ₚ otherDistances target points)
    by apply otherDistances_Permutation, buildKdTree_Permutation.
  destruct (search_visited target k root [] [] ltac:(constructor) (kSmallest_nil k))
    as (offered & Hsub & Hs & Hl & rest & Hp & _).
  fold (findKNearestNeighborDistances root target k) in Hs, Hl, Hp. fold result in Hs, Hl, Hp.
  split; [exact Hs|]. split; [exact Hl|]. split.
  - rewrite <- Hperm. etransitivity; [|exact Hsub].
    cbn [app] in Hp. rewrite Hp. apply submseteq_inserts_r. reflexivity.
  - intros Hsound.
    pose proof (search_sound target k root Hsound [] [] ltac:(constructor)
                  (kSmallest_nil k)) as Hk.
    cbn [app] in Hk.
    apply kSmallest_unique in Hk; [|apply otherDistances_finite].
    unfold bruteForceNearest.
    rewrite <- (sortBy_Permutation_eq _ _ (otherDistances_finite target (pointsOf root)) Hperm).
    exact Hk.
Qed.

End SearchFacts.

(** ** The haversine distance along the equator and along a meridian *)

Section Geodesy.
Import NumFacts.
Local Open Scope R_scope.

(** Bounds on pi, from the Machin-like series of the Standard Library. *)
Lemma PI_bounds : 3.1415 <= PI <= 3.1421.
Proof.
  pose proof (PI_2_3_7_ineq 1) as H.
  unfold sum_f_R0, tg_alt, PI_2_3_7_tg, Ratan_seq in H.
  simpl in H. lra.
Qed.

Lemma toRadians_Fin x : toRadians (Fin x) = Fin (x * PI / 180).
Proof.
  unfold toRadians. cbn [Num.mul]. apply div_Fin. lra.
Qed.

(** The central angle recovered by [atan2] from a haversine [sin y * sin y]
    with [y] in the first quadrant. *)
Lemma Ratan2_haversine y :
  0 <= y <= PI / 2 ->
  Num.Ratan2 (sqrt (sin y * sin y)) (sqrt (1 + - (sin y * sin y))) = y.
Proof.
  intros Hy. pose proof PI_RGT_0 as Hpi.
  assert (Hs : 0 <= sin y) by (apply sin_ge_0; lra).
  assert (Hc : 0 <= cos y) by (apply cos_ge_0; lra).
  rewrite (sqrt_square _ Hs).
  replace (1 + - (sin y * sin y)) with (cos y * cos y)
    by (pose proof (sin2_cos2 y) as H; unfold Rsqr in H; lra).
  rewrite (sqrt_square _ Hc).
  unfold Num.Ratan2.
  destruct (Rle_lt_or_eq_dec _ _ Hc) as [Hpos | Hzero].
  - replace (Num.Rltb 0 (cos y)) with true
      by (symmetry; apply Rltb_true; exact Hpos).
    assert (Hlt : y < PI / 2).
    { destruct (proj2 Hy) as [H | H]; [exact H|].
      rewrite H, cos_PI2 in Hpos. lra. }
    apply atan_tan. lra.
  - rewrite <- Hzero.
    replace (Num.Rltb 0 0) with false by (symmetry; apply Rltb_false; lra).
    assert (Heq : y = PI / 2).
    { destruct (proj2 Hy) as [H | H]; [|exact H].
      assert (0 < cos y) by (apply cos_gt_0; lra). lra. }
    rewrite Heq, sin_PI2.
    replace (Num.Rltb 0 1) with true by (symmetry; apply Rltb_true; lra).
    reflexivity.
Qed.

(** The distance between two points whose haversine is that of an arc of
    [degrees] degrees, at most half a turn. *)
Lemma getDistanceInMeters_arc lat1 lng1 lat2 lng2 degrees :
  0 <= degrees <= 180 ->
  (let dLat := (lat2 + - lat1) * PI / 180 / 2 in
   let dLng := (lng2 + - lng1) * PI / 180 / 2 in
   let y := degrees * PI / 180 / 2 in
   sin dLat * sin dLat
   + cos (lat1 * PI / 180) * cos (lat2 * PI / 180) * (sin dLng * sin dLng)
   = sin y * sin y) ->
  getDistanceInMeters (Fin lat1) (Fin lng1) (Fin lat2) (Fin lng2)
  = Fin (arcMeters degrees).
Proof.
  intros Hd Hsin. cbn zeta in Hsin. pose proof PI_RGT_0 as Hpi.
  unfold getDistanceInMeters. cbn [Num.sub Num.neg Num.add].
  rewrite !toRadians_Fin, !div_Fin by lra.
  cbn [Num.sin Num.cos Num.square Num.mul Num.add].
  rewrite Hsin.
  set (y := degrees * PI / 180 / 2).
  assert (Hy : 0 <= y <= PI / 2) by (unfold y; split; nra).
  assert (Hs : 0 <= sin y * sin y) by nra.
  assert (Hc : 0 <= 1 + - (sin y * sin y)).
  { pose proof (sin2_cos2 y) as H. unfold Rsqr in H.
    assert (0 <= cos y * cos y) by nra. lra. }
  cbn [Num.sqrt Num.sub Num.neg Num.add].
  replace (Num.Rltb (sin y * sin y) 0) with false
    by (symmetry; apply Rltb_false; lra).
  replace (Num.Rltb (1 + - (sin y * sin y)) 0) with false
    by (symmetry; apply Rltb_false; lra).
  cbn [Num.atan2 Num.mul]. rewrite (Ratan2_haversine y Hy). reflexivity.
Qed.

Lemma sin_sin_abs x delta degrees :
  delta = degrees \/ delta = - degrees ->
  x = delta * PI / 180 / 2 ->
  sin x * sin x = sin (degrees * PI / 180 / 2) * sin (degrees * PI / 180 / 2).
Proof.
  intros [-> | ->] ->; [reflexivity|].
  replace (- degrees * PI / 180 / 2) with (- (degrees * PI / 180 / 2)) by lra.
  rewrite sin_neg. lra.
Qed.

(** On the equator, less than half a turn apart: the arc between the two
    longitudes. *)
Lemma equator_distance lng1 lng2 degrees :
  0 <= degrees <= 180 ->
  lng2 - lng1 = degrees \/ lng2 - lng1 = - degrees ->
  getDistanceInMeters (Fin 0) (Fin lng1) (Fin 0) (Fin lng2)
  = Fin (arcMeters degrees).
Proof.
  intros Hd Hl. apply getDistanceInMeters_arc; [exact Hd|]. cbn zeta.
  replace ((0 + - 0) * PI / 180 / 2) with 0 by lra.
  replace (0 * PI / 180) with 0 by lra.
  rewrite sin_0, cos_0.
  rewrite (sin_sin_abs ((lng2 + - lng1) * PI / 180 / 2) (lng2 - lng1) degrees Hl)
    by lra.
  lra.
Qed.

(** On the equator, more than half a turn apart: the arc the other way
    round. *)
Lemma equator_distance_wrap lng1 lng2 :
  180 <= lng2 - lng1 <= 360 ->
  getDistanceInMeters (Fin 0) (Fin lng1) (Fin 0) (Fin lng2)
  = Fin (arcMeters (360 - (lng2 - lng1))).
Proof.
  intros H. apply getDistanceInMeters_arc; [lra|]. cbn zeta.
  replace ((0 + - 0) * PI / 180 / 2) with 0 by lra.
  replace (0 * PI / 180) with 0 by lra.
  rewrite sin_0, cos_0.
  replace ((360 - (lng2 - lng1)) * PI / 180 / 2)
    with (PI - (lng2 + - lng1) * PI / 180 / 2) by lra.
  rewrite sin_PI_x. lra.
Qed.

(** On a meridian: the arc between the two latitudes. *)
Lemma meridian_distance lat1 lat2 lng degrees :
  0 <= degrees <= 180 ->
  lat2 - lat1 = degrees \/ lat2 - lat1 = - degrees ->
  getDistanceInMeters (Fin lat1) (Fin lng) (Fin lat2) (Fin lng)
  = Fin (arcMeters degrees).
Proof.
  intros Hd Hl. apply getDistanceInMeters_arc; [exact Hd|]. cbn zeta.
  replace ((lng + - lng) * PI / 180 / 2) with 0 by lra.
  rewrite sin_0.
  rewrite (sin_sin_abs ((lat2 + - lat1) * PI / 180 / 2) (lat2 - lat1) degrees Hl)
    by lra.
  lra.
Qed.

Lemma arcMeters_le g h : g <= h -> arcMeters g <= arcMeters h.
Proof. intros H. pose proof PI_RGT_0. unfold arcMeters. nra. Qed.

Lemma arcMeters_lt g h : g < h -> arcMeters g < arcMeters h.
Proof. intros H. pose proof PI_RGT_0. unfold arcMeters. nra. Qed.

Lemma numLe_arcMeters g h :
  g <= h -> numLe (Fin (arcMeters g)) (Fin (arcMeters h)).
Proof. intros H. apply Rleb_true, arcMeters_le, H. Qed.

(** A degree of arc is about 111195 meters: more than the 111132 meters
    of the latitude conversion, less than the 111320 meters of the
    longitude conversion at the equator. *)
Lemma arcMeters_degree : 111132 < arcMeters 1 < 111320.
Proof. pose proof PI_bounds. unfold arcMeters. lra. Qed.

(** The longitude conversion at the equator, for the pruning test. *)
Lemma getMetersPerDegreeLongitude_equator :
  getMetersPerDegreeLongitude (Fin 0) = Fin (111320 * cos (0 * PI / 180)).
Proof.
  unfold getMetersPerDegreeLongitude. rewrite toRadians_Fin.
  cbn [Num.cos Num.mul Num.isFinite Num.ltb andb].
  replace (0 * PI / 180) with 0 by lra. rewrite cos_0.
  replace (Num.Rltb 0 (111320 * 1)) with true by (symmetry; apply Rltb_true; lra).
  reflexivity.
Qed.

Lemma getAxisDistanceMeters_longitude_equator delta :
  delta <> 0 ->
  getAxisDistanceMeters (Fin delta) 1 (Fin 0) = Fin (delta * 111320).
Proof.
  intros Hd. unfold getAxisDistanceMeters. cbn [Num.eqb Nat.eqb].
  apply Reqb_false in Hd. rewrite Hd, getMetersPerDegreeLongitude_equator.
  cbn [Num.mul]. f_equal.
  replace (0 * PI / 180) with 0 by lra. rewrite cos_0. lra.
Qed.

Lemma getAxisDistanceMeters_latitude delta referenceLatitude :
  delta <> 0 ->
  getAxisDistanceMeters (Fin delta) 0 referenceLatitude = Fin (delta * 111132).
Proof.
  intros Hd. unfold getAxisDistanceMeters. cbn [Num.eqb Nat.eqb].
  apply Reqb_false in Hd. rewrite Hd. reflexivity.
Qed.

End Geodesy.

(** ** The query on concrete trees *)

Section QueryExamples.
Import NumFacts.
Local Open Scope list_scope.
Local Open Scope R_scope.

Lemma search_leaf target k point axis distances :
  search target k (node point axis null null) distances
  = visitNode target k point distances.
Proof.
  rewrite search_node. cbn zeta.
  destruct (_ <? _)%num; destruct (_ || _); reflexivity.
Qed.

(** The far side is visited while the result is not full. *)
Lemma search_explore target k point axis leftNode rightNode distances near :
  (axisValue axis (IndexedTreePoint.latitude target) (IndexedTreePoint.longitude target)
   <? axisValue axis (IndexedTreePoint.latitude point) (IndexedTreePoint.longitude point))%num
  = near ->
  let visited :=
    visitNode target k point
      (search target k (if near then leftNode else rightNode) distances) in
  (length visited < k)%nat ->
  search target k (node point axis leftNode rightNode) distances
  = search target k (if near then rightNode else leftNode) visited.
Proof.
  intros Hnear visited Hlen. rewrite search_node. cbn zeta. rewrite Hnear.
  fold visited. apply Nat.ltb_lt in Hlen. rewrite Hlen. reflexivity.
Qed.

(** The far side is skipped when the result is full and the axis-only
    distance is not below its largest entry. *)
Lemma search_pruned target k point axis leftNode rightNode distances near :
  (axisValue axis (IndexedTreePoint.latitude target) (IndexedTreePoint.longitude target)
   <? axisValue axis (IndexedTreePoint.latitude point) (IndexedTreePoint.longitude point))%num
  = near ->
  let visited :=
    visitNode target k point
      (search target k (if near then leftNode else rightNode) distances) in
  (k <= length visited)%nat ->
  (getAxisDistanceMeters
     (Num.abs
        (axisValue axis (IndexedTreePoint.latitude target)
           (IndexedTreePoint.longitude target)
         - axisValue axis (IndexedTreePoint.latitude point)
             (IndexedTreePoint.longitude point))) axis
     (IndexedTreePoint.latitude target) <? currentMax visited)%num = false ->
  search target k (node point axis leftNode rightNode) distances = visited.
Proof.
  intros Hnear visited Hlen Hmax. rewrite search_node. cbn zeta. rewrite Hnear.
  fold visited. apply Nat.ltb_ge in Hlen. rewrite Hlen, Hmax. reflexivity.
Qed.

(** Offering a distance to a sorted result puts it in its place. *)
Lemma addDistance_insert k d before after :
  Forall (fun y => Num.isFinite y = true) (before ++ d :: after) ->
  StronglySorted numLe (before ++ d :: after) ->
  (length (before ++ after) <= k)%nat ->
  addDistance k d (before ++ after) = take k (before ++ d :: after).
Proof.
  intros Hfin Hs Hlen.
  assert (Hp : before ++ d :: after ≡ₚ (before ++ after) ++ [d]).
  { rewrite <- app_assoc. apply Permutation_app_head.
    apply Permutation_cons_append. }
  rewrite addDistance_take; [| | exact Hlen].
  - f_equal. apply sortBy_unique; [rewrite <- Hp; exact Hfin | exact Hs | exact Hp].
  - rewrite Forall_app, Forall_cons in Hfin. tauto.
Qed.

Lemma equatorPoint_distance lng1 i lng2 j degrees :
  0 <= degrees <= 180 ->
  lng2 - lng1 = degrees \/ lng2 - lng1 = - degrees ->
  pointDistance (equatorPoint lng1 i) (equatorPoint lng2 j) = Fin (arcMeters degrees).
Proof. apply equator_distance. Qed.

Lemma meridianPoint_distance lat1 i lat2 j degrees :
  0 <= degrees <= 180 ->
  lat2 - lat1 = degrees \/ lat2 - lat1 = - degrees ->
  pointDistance (meridianPoint lat1 i) (meridianPoint lat2 j) = Fin (arcMeters degrees).
Proof. apply (meridian_distance lat1 lat2 0). Qed.

Ltac ordered :=
  repeat constructor; cbn; apply Rltb_false; lra.

Ltac sorted_meters :=
  repeat constructor; apply numLe_arcMeters; lra.

Ltac all_finite :=
  repeat (constructor; [reflexivity|]); constructor.

Ltac arc_side := try split; lra || (left; lra) || (right; lra).

(** Offer the point at [degrees] degrees of the query point to the result
    [before ++ after], between [before] and [after]. *)
Ltac offer degrees before after :=
  unfold visitNode; cbn [IndexedTreePoint.index equatorPoint pointOf Nat.eqb negb];
  rewrite (equatorPoint_distance _ _ _ _ degrees) by arc_side;
  refine (addDistance_insert 5 _ before after _ _ _);
  [all_finite | sorted_meters | cbn; lia].

Ltac unfold_point :=
  cbn [axisValue Nat.eqb IndexedTreePoint.latitude IndexedTreePoint.longitude
       equatorPoint meridianPoint pointOf TreeRecord.latitude TreeRecord.longitude
       treeAt Num.sub Num.neg Num.add Num.abs].

(** *** Three trees on a meridian: the pruning test is sound *)

Lemma meridianTrees_kdTree :
  buildKdTree (indexPoints meridianTrees) 0
  = node (meridianPoint 1 1) 0
      (node (meridianPoint 0 0) 1 null null)
      (node (meridianPoint 2 2) 1 null null).
Proof.
  change (indexPoints meridianTrees)
    with [meridianPoint 0 0; meridianPoint 1 1; meridianPoint 2 2].
  rewrite buildKdTree_cons. cbn zeta.
  rewrite sortBy_ordered by ordered.
  cbn [length Nat.div Nat.divmod fst nth take drop Nat.add Nat.modulo snd Nat.sub].
  rewrite !buildKdTree_single. reflexivity.
Qed.

Lemma meridianTrees_pruningSound :
  pruningSound (meridianPoint 0 0) (buildKdTree (indexPoints meridianTrees) 0).
Proof.
  rewrite meridianTrees_kdTree. cbn [pruningSound pointsOf app].
  replace (axisValue 0 (IndexedTreePoint.latitude (meridianPoint 0 0))
             (IndexedTreePoint.longitude (meridianPoint 0 0))
           <? axisValue 0 (IndexedTreePoint.latitude (meridianPoint 1 1))
                (IndexedTreePoint.longitude (meridianPoint 1 1)))%num
    with true by (symmetry; cbn; apply Rltb_true; lra).
  split;
    [|split; (split; [destruct (_ <? _)%num; constructor | split; exact I])].
  cbn [pointsOf app]. rewrite otherDistances_single.
  cbn [IndexedTreePoint.index meridianPoint pointOf Nat.eqb negb].
  rewrite (meridianPoint_distance 0 0 2 2 2) by arc_side.
  cbn [Num.isFinite]. constructor; [|constructor].
  unfold_point.
  rewrite getAxisDistanceMeters_latitude
    by (unfold Rabs; destruct (Rcase_abs _); lra).
  cbn [Num.leb]. apply Rleb_true.
  pose proof PI_bounds. unfold arcMeters, Rabs. destruct (Rcase_abs _); lra.
Qed.

Lemma knn_query_spec_witness :
  findKNearestNeighborDistances (buildKdTree (indexPoints meridianTrees) 0)
    (meridianPoint 0 0) 5
  = bruteForceNearest (indexPoints meridianTrees) (meridianPoint 0 0) 5.
Proof.
  apply (proj2 (proj2 (proj2 (knn_query_spec (indexPoints meridianTrees)
                                (meridianPoint 0 0) 5)))).
  exact meridianTrees_pruningSound.
Defined.

(** *** Eight trees on the equator: a neighbour is missed *)

Lemma equatorTrees_kdTree :
  buildKdTree (indexPoints equatorTrees) 0
  = node (equatorPoint 0 4) 0
      (node (equatorPoint 1 2) 1
         (node (equatorPoint (-0.1) 1) 0
            (node (equatorPoint (-0.2) 0) 1 null null) null)
         (node (equatorPoint 1.0002 3) 0 null null))
      (node (equatorPoint (-1.0005) 6) 1
         (node (equatorPoint (-2) 5) 0 null null)
         (node (equatorPoint 0.3 7) 0 null null)).
Proof.
  change (indexPoints equatorTrees)
    with [equatorPoint (-0.2) 0; equatorPoint (-0.1) 1; equatorPoint 1 2;
          equatorPoint 1.0002 3; equatorPoint 0 4; equatorPoint (-2) 5;
          equatorPoint (-1.0005) 6; equatorPoint 0.3 7].
  rewrite buildKdTree_cons. cbn zeta.
  rewrite sortBy_ordered by ordered.
  cbn [length Nat.div Nat.divmod fst nth take drop Nat.add Nat.modulo snd Nat.sub].
  rewrite !buildKdTree_cons. cbn zeta.
  cbn [Nat.add Nat.modulo Nat.divmod snd Nat.sub].
  rewrite !sortBy_ordered by ordered.
  cbn [length Nat.div Nat.divmod fst nth take drop Nat.add Nat.modulo snd Nat.sub].
  rewrite !buildKdTree_single. cbn [Nat.add Nat.modulo Nat.divmod snd Nat.sub].
  rewrite buildKdTree_cons. cbn zeta.
  cbn [Nat.add Nat.modulo Nat.divmod snd Nat.sub].
  rewrite sortBy_ordered by ordered.
  cbn [length Nat.div Nat.divmod fst nth take drop Nat.add Nat.modulo snd Nat.sub].
  rewrite buildKdTree_single. simp buildKdTree. reflexivity.
Qed.

(** The near side of the root: the three trees stored to its right. *)
Lemma equator_query_near_side :
  search (equatorPoint 0 4) 5
    (node (equatorPoint (-1.0005) 6) 1
       (node (equatorPoint (-2) 5) 0 null null)
       (node (equatorPoint 0.3 7) 0 null null)) []
  = [Fin (arcMeters 0.3); Fin (arcMeters 1.0005); Fin (arcMeters 2)].
Proof.
  assert (H7 : visitNode (equatorPoint 0 4) 5 (equatorPoint 0.3 7) []
               = [Fin (arcMeters 0.3)]) by offer 0.3 (@nil number) (@nil number).
  assert (H6 : visitNode (equatorPoint 0 4) 5 (equatorPoint (-1.0005) 6)
                 [Fin (arcMeters 0.3)]
               = [Fin (arcMeters 0.3); Fin (arcMeters 1.0005)])
    by offer 1.0005 [Fin (arcMeters 0.3)] (@nil number).
  assert (H5 : visitNode (equatorPoint 0 4) 5 (equatorPoint (-2) 5)
                 [Fin (arcMeters 0.3); Fin (arcMeters 1.0005)]
               = [Fin (arcMeters 0.3); Fin (arcMeters 1.0005); Fin (arcMeters 2)])
    by offer 2 [Fin (arcMeters 0.3); Fin (arcMeters 1.0005)] (@nil number).
  rewrite (search_explore _ _ _ _ _ _ _ false).
  - rewrite !search_leaf, H7, H6, H5. reflexivity.
  - cbn. apply Rltb_false. lra.
  - rewrite search_leaf, H7, H6. cbn. lia.
Qed.

(** The far side of the root: the tree at longitude 1.0002 is skipped. *)
Lemma equator_query_far_side :
  search (equatorPoint 0 4) 5
    (node (equatorPoint 1 2) 1
       (node (equatorPoint (-0.1) 1) 0
          (node (equatorPoint (-0.2) 0) 1 null null) null)
       (node (equatorPoint 1.0002 3) 0 null null))
    [Fin (arcMeters 0.3); Fin (arcMeters 1.0005); Fin (arcMeters 2)]
  = [Fin (arcMeters 0.1); Fin (arcMeters 0.2); Fin (arcMeters 0.3);
     Fin (arcMeters 1); Fin (arcMeters 1.0005)].
Proof.
  assert (H1 : visitNode (equatorPoint 0 4) 5 (equatorPoint (-0.1) 1)
                 [Fin (arcMeters 0.3); Fin (arcMeters 1.0005); Fin (arcMeters 2)]
               = [Fin (arcMeters 0.1); Fin (arcMeters 0.3); Fin (arcMeters 1.0005);
                  Fin (arcMeters 2)])
    by offer 0.1 (@nil number)
         [Fin (arcMeters 0.3); Fin (arcMeters 1.0005); Fin (arcMeters 2)].
  assert (H0 : visitNode (equatorPoint 0 4) 5 (equatorPoint (-0.2) 0)
                 [Fin (arcMeters 0.1); Fin (arcMeters 0.3); Fin (arcMeters 1.0005);
                  Fin (arcMeters 2)]
               = [Fin (arcMeters 0.1); Fin (arcMeters 0.2); Fin (arcMeters 0.3);
                  Fin (arcMeters 1.0005); Fin (arcMeters 2)])
    by offer 0.2 [Fin (arcMeters 0.1)]
         [Fin (arcMeters 0.3); Fin (arcMeters 1.0005); Fin (arcMeters 2)].
  assert (H2 : visitNode (equatorPoint 0 4) 5 (equatorPoint 1 2)
                 [Fin (arcMeters 0.1); Fin (arcMeters 0.2); Fin (arcMeters 0.3);
                  Fin (arcMeters 1.0005); Fin (arcMeters 2)]
               = [Fin (arcMeters 0.1); Fin (arcMeters 0.2); Fin (arcMeters 0.3);
                  Fin (arcMeters 1); Fin (arcMeters 1.0005)])
    by offer 1 [Fin (arcMeters 0.1); Fin (arcMeters 0.2); Fin (arcMeters 0.3)]
         [Fin (arcMeters 1.0005); Fin (arcMeters 2)].
  assert (Hwest :
    search (equatorPoint 0 4) 5
      (node (equatorPoint (-0.1) 1) 0
         (node (equatorPoint (-0.2) 0) 1 null null) null)
      [Fin (arcMeters 0.3); Fin (arcMeters 1.0005); Fin (arcMeters 2)]
    = [Fin (arcMeters 0.1); Fin (arcMeters 0.2); Fin (arcMeters 0.3);
       Fin (arcMeters 1.0005); Fin (arcMeters 2)]).
  { rewrite (search_explore _ _ _ _ _ _ _ false).
    - rewrite search_leaf. cbn [search]. rewrite H1. exact H0.
    - cbn. apply Rltb_false. lra.
    - cbn [search]. rewrite H1. cbn. lia. }
  rewrite (search_pruned _ _ _ _ _ _ _ true).
  - rewrite Hwest. exact H2.
  - cbn. apply Rltb_true. lra.
  - rewrite Hwest, H2. cbn. lia.
  - rewrite Hwest, H2. unfold_point.
    rewrite getAxisDistanceMeters_longitude_equator
      by (unfold Rabs; destruct (Rcase_abs _); lra).
    cbn. apply Rltb_false.
    pose proof PI_bounds. unfold arcMeters, Rabs. destruct (Rcase_abs _); lra.
Qed.

Lemma query_on_equatorTrees :
  findKNearestNeighborDistances (buildKdTree (indexPoints equatorTrees) 0)
    (equatorPoint 0 4) 5
  = [Fin (arcMeters 0.1); Fin (arcMeters 0.2); Fin (arcMeters 0.3);
     Fin (arcMeters 1); Fin (arcMeters 1.0005)].
Proof.
  rewrite equatorTrees_kdTree. unfold findKNearestNeighborDistances.
  rewrite (search_explore _ _ _ _ _ _ _ false).
  - rewrite equator_query_near_side. apply equator_query_far_side.
  - cbn. apply Rltb_false. lra.
  - rewrite equator_query_near_side. cbn. lia.
Qed.

Lemma bruteForce_on_equatorTrees :
  bruteForceNearest (indexPoints equatorTrees) (equatorPoint 0 4) 5
  = [Fin (arcMeters 0.1); Fin (arcMeters 0.2); Fin (arcMeters 0.3);
     Fin (arcMeters 1); Fin (arcMeters 1.0002)].
Proof.
  unfold bruteForceNearest.
  assert (Hd : otherDistances (equatorPoint 0 4) (indexPoints equatorTrees)
               = [Fin (arcMeters 0.2); Fin (arcMeters 0.1); Fin (arcMeters 1);
                  Fin (arcMeters 1.0002); Fin (arcMeters 2); Fin (arcMeters 1.0005);
                  Fin (arcMeters 0.3)]).
  { change (indexPoints equatorTrees)
      with ([equatorPoint (-0.2) 0] ++ [equatorPoint (-0.1) 1]
            ++ [equatorPoint 1 2] ++ [equatorPoint 1.0002 3]
            ++ [equatorPoint 0 4] ++ [equatorPoint (-2) 5]
            ++ [equatorPoint (-1.0005) 6] ++ [equatorPoint 0.3 7]).
    rewrite !otherDistances_app, !otherDistances_single.
    cbn [IndexedTreePoint.index equatorPoint pointOf Nat.eqb negb].
    rewrite (equatorPoint_distance 0 4 (-0.2) 0 0.2) by arc_side.
    rewrite (equatorPoint_distance 0 4 (-0.1) 1 0.1) by arc_side.
    rewrite (equatorPoint_distance 0 4 1 2 1) by arc_side.
    rewrite (equatorPoint_distance 0 4 1.0002 3 1.0002) by arc_side.
    rewrite (equatorPoint_distance 0 4 (-2) 5 2) by arc_side.
    rewrite (equatorPoint_distance 0 4 (-1.0005) 6 1.0005) by arc_side.
    rewrite (equatorPoint_distance 0 4 0.3 7 0.3) by arc_side.
    reflexivity. }
  rewrite Hd.
  rewrite (sortBy_unique _
             [Fin (arcMeters 0.1); Fin (arcMeters 0.2); Fin (arcMeters 0.3);
              Fin (arcMeters 1); Fin (arcMeters 1.0002); Fin (arcMeters 1.0005);
              Fin (arcMeters 2)]).
  - reflexivity.
  - all_finite.
  - sorted_meters.
  - solve_Permutation.
Qed.

(** C1, as stated, fails on these eight trees, all with finite coordinates:
    for the tree at longitude 0 the query skips the tree at longitude
    1.0002, because the axis-only distance of one degree of longitude,
    111320 meters, exceeds the haversine distance of 1.0005 degrees, the
    fifth distance found; the brute-force scan keeps the tree at 1.0002
    and drops the one at 1.0005. *)
Lemma knn_query_differs_from_brute_force :
  let points := indexPoints equatorTrees in
  let target := equatorPoint 0 4 in
  points !! 4%nat = Some target
  /\ Forall (fun point =>
               Num.isFinite (IndexedTreePoint.latitude point) = true
               /\ Num.isFinite (IndexedTreePoint.longitude point) = true) points
  /\ findKNearestNeighborDistances (buildKdTree points 0) target 5
     <> bruteForceNearest points target 5.
Proof.
  cbn zeta. split; [reflexivity|]. split.
  - repeat (constructor; [split; reflexivity|]). constructor.
  - rewrite query_on_equatorTrees, bruteForce_on_equatorTrees.
    intros H. injection H as H.
    pose proof (arcMeters_lt 1.0002 1.0005 ltac:(lra)). lra.
Qed.

(** *** Eight trees around the antimeridian: a close neighbour is missed *)

Lemma antimeridianTrees_kdTree :
  buildKdTree (indexPoints antimeridianTrees) 0
  = node (equatorPoint (-175) 4) 0
      (node (equatorPoint (-100) 2) 1
         (node (equatorPoint (-179) 1) 0
            (node (equatorPoint (-180) 0) 1 null null) null)
         (node (equatorPoint 179 3) 0 null null))
      (node (equatorPoint (-177) 6) 1
         (node (equatorPoint (-178) 5) 0 null null)
         (node (equatorPoint (-176) 7) 0 null null)).
Proof.
  change (indexPoints antimeridianTrees)
    with [equatorPoint (-180) 0; equatorPoint (-179) 1; equatorPoint (-100) 2;
          equatorPoint 179 3; equatorPoint (-175) 4; equatorPoint (-178) 5;
          equatorPoint (-177) 6; equatorPoint (-176) 7].
  rewrite buildKdTree_cons. cbn zeta.
  rewrite sortBy_ordered by ordered.
  cbn [length Nat.div Nat.divmod fst nth take drop Nat.add Nat.modulo snd Nat.sub].
  rewrite !buildKdTree_cons. cbn zeta.
  cbn [Nat.add Nat.modulo Nat.divmod snd Nat.sub].
  rewrite !sortBy_ordered by ordered.
  cbn [length Nat.div Nat.divmod fst nth take drop Nat.add Nat.modulo snd Nat.sub].
  rewrite !buildKdTree_single. cbn [Nat.add Nat.modulo Nat.divmod snd Nat.sub].
  rewrite buildKdTree_cons. cbn zeta.
  cbn [Nat.add Nat.modulo Nat.divmod snd Nat.sub].
  rewrite sortBy_ordered by ordered.
  cbn [length Nat.div Nat.divmod fst nth take drop Nat.add Nat.modulo snd Nat.sub].
  rewrite buildKdTree_single. simp buildKdTree. reflexivity.
Qed.

Lemma distance_across_antimeridian :
  pointDistance (equatorPoint (-179) 1) (equatorPoint 179 3) = Fin (arcMeters 2).
Proof.
  change (pointDistance (equatorPoint (-179) 1) (equatorPoint 179 3))
    with (getDistanceInMeters (Fin 0) (Fin (-179)) (Fin 0) (Fin 179)).
  rewrite equator_distance_wrap by lra. do 2 f_equal. lra.
Qed.

Lemma antimeridian_query_near_side :
  search (equatorPoint (-179) 1) 5
    (node (equatorPoint (-177) 6) 1
       (node (equatorPoint (-178) 5) 0 null null)
       (node (equatorPoint (-176) 7) 0 null null)) []
  = [Fin (arcMeters 1); Fin (arcMeters 2); Fin (arcMeters 3)].
Proof.
  assert (H5 : visitNode (equatorPoint (-179) 1) 5 (equatorPoint (-178) 5) []
               = [Fin (arcMeters 1)]) by offer 1 (@nil number) (@nil number).
  assert (H6 : visitNode (equatorPoint (-179) 1) 5 (equatorPoint (-177) 6)
                 [Fin (arcMeters 1)]
               = [Fin (arcMeters 1); Fin (arcMeters 2)])
    by offer 2 [Fin (arcMeters 1)] (@nil number).
  assert (H7 : visitNode (equatorPoint (-179) 1) 5 (equatorPoint (-176) 7)
                 [Fin (arcMeters 1); Fin (arcMeters 2)]
               = [Fin (arcMeters 1); Fin (arcMeters 2); Fin (arcMeters 3)])
    by offer 3 [Fin (arcMeters 1); Fin (arcMeters 2)] (@nil number).
  rewrite (search_explore _ _ _ _ _ _ _ true).
  - rewrite !search_leaf, H5, H6, H7. reflexivity.
  - cbn. apply Rltb_true. lra.
  - rewrite search_leaf, H5, H6. cbn. lia.
Qed.

Lemma antimeridian_query_far_side :
  search (equatorPoint (-179) 1) 5
    (node (equatorPoint (-100) 2) 1
       (node (equatorPoint (-179) 1) 0
          (node (equatorPoint (-180) 0) 1 null null) null)
       (node (equatorPoint 179 3) 0 null null))
    [Fin (arcMeters 1); Fin (arcMeters 2); Fin (arcMeters 3); Fin (arcMeters 4)]
  = [Fin (arcMeters 1); Fin (arcMeters 1); Fin (arcMeters 2);
     Fin (arcMeters 3); Fin (arcMeters 4)].
Proof.
  assert (H0 : visitNode (equatorPoint (-179) 1) 5 (equatorPoint (-180) 0)
                 [Fin (arcMeters 1); Fin (arcMeters 2);
                  Fin (arcMeters 3); Fin (arcMeters 4)]
               = [Fin (arcMeters 1); Fin (arcMeters 1); Fin (arcMeters 2);
                  Fin (arcMeters 3); Fin (arcMeters 4)])
    by offer 1 (@nil number)
         [Fin (arcMeters 1); Fin (arcMeters 2);
          Fin (arcMeters 3); Fin (arcMeters 4)].
  assert (H2 : visitNode (equatorPoint (-179) 1) 5 (equatorPoint (-100) 2)
                 [Fin (arcMeters 1); Fin (arcMeters 1); Fin (arcMeters 2);
                  Fin (arcMeters 3); Fin (arcMeters 4)]
               = [Fin (arcMeters 1); Fin (arcMeters 1); Fin (arcMeters 2);
                  Fin (arcMeters 3); Fin (arcMeters 4)])
    by offer 79
         [Fin (arcMeters 1); Fin (arcMeters 1); Fin (arcMeters 2);
          Fin (arcMeters 3); Fin (arcMeters 4)] (@nil number).
  assert (Hself :
    search (equatorPoint (-179) 1) 5
      (node (equatorPoint (-179) 1) 0
         (node (equatorPoint (-180) 0) 1 null null) null)
      [Fin (arcMeters 1); Fin (arcMeters 2); Fin (arcMeters 3); Fin (arcMeters 4)]
    = [Fin (arcMeters 1); Fin (arcMeters 1); Fin (arcMeters 2);
       Fin (arcMeters 3); Fin (arcMeters 4)]).
  { rewrite (search_explore _ _ _ _ _ _ _ false).
    - rewrite search_leaf. exact H0.
    - cbn. apply Rltb_false. lra.
    - cbn. lia. }
  rewrite (search_pruned _ _ _ _ _ _ _ true).
  - rewrite Hself. exact H2.
  - cbn. apply Rltb_true. lra.
  - rewrite Hself, H2. cbn. lia.
  - rewrite Hself, H2. unfold_point.
    rewrite getAxisDistanceMeters_longitude_equator
      by (unfold Rabs; destruct (Rcase_abs _); lra).
    cbn. apply Rltb_false.
    pose proof PI_bounds. unfold arcMeters, Rabs. destruct (Rcase_abs _); lra.
Qed.

Lemma query_on_antimeridianTrees :
  findKNearestNeighborDistances (buildKdTree (indexPoints antimeridianTrees) 0)
    (equatorPoint (-179) 1) 5
  = [Fin (arcMeters 1); Fin (arcMeters 1); Fin (arcMeters 2);
     Fin (arcMeters 3); Fin (arcMeters 4)].
Proof.
  rewrite antimeridianTrees_kdTree. unfold findKNearestNeighborDistances.
  assert (H4 : visitNode (equatorPoint (-179) 1) 5 (equatorPoint (-175) 4)
                 [Fin (arcMeters 1); Fin (arcMeters 2); Fin (arcMeters 3)]
               = [Fin (arcMeters 1); Fin (arcMeters 2); Fin (arcMeters 3);
                  Fin (arcMeters 4)])
    by offer 4 [Fin (arcMeters 1); Fin (arcMeters 2); Fin (arcMeters 3)]
         (@nil number).
  rewrite (search_explore _ _ _ _ _ _ _ false).
  - rewrite antimeridian_query_near_side, H4. apply antimeridian_query_far_side.
  - cbn. apply Rltb_false. lra.
  - rewrite antimeridian_query_near_side, H4. cbn. lia.
Qed.

Lemma bruteForce_on_antimeridianTrees :
  bruteForceNearest (indexPoints antimeridianTrees) (equatorPoint (-179) 1) 5
  = [Fin (arcMeters 1); Fin (arcMeters 1); Fin (arcMeters 2);
     Fin (arcMeters 2); Fin (arcMeters 3)].
Proof.
  unfold bruteForceNearest.
  assert (Hd : otherDistances (equatorPoint (-179) 1) (indexPoints antimeridianTrees)
               = [Fin (arcMeters 1); Fin (arcMeters 79); Fin (arcMeters 2);
                  Fin (arcMeters 4); Fin (arcMeters 1); Fin (arcMeters 2);
                  Fin (arcMeters 3)]).
  { change (indexPoints antimeridianTrees)
      with ([equatorPoint (-180) 0] ++ [equatorPoint (-179) 1]
            ++ [equatorPoint (-100) 2] ++ [equatorPoint 179 3]
            ++ [equatorPoint (-175) 4] ++ [equatorPoint (-178) 5]
            ++ [equatorPoint (-177) 6] ++ [equatorPoint (-176) 7]).
    rewrite !otherDistances_app, !otherDistances_single.
    cbn [IndexedTreePoint.index equatorPoint pointOf Nat.eqb negb].
    rewrite distance_across_antimeridian.
    rewrite (equatorPoint_distance (-179) 1 (-180) 0 1) by arc_side.
    rewrite (equatorPoint_distance (-179) 1 (-100) 2 79) by arc_side.
    rewrite (equatorPoint_distance (-179) 1 (-175) 4 4) by arc_side.
    rewrite (equatorPoint_distance (-179) 1 (-178) 5 1) by arc_side.
    rewrite (equatorPoint_distance (-179) 1 (-177) 6 2) by arc_side.
    rewrite (equatorPoint_distance (-179) 1 (-176) 7 3) by arc_side.
    reflexivity. }
  rewrite Hd.
  rewrite (sortBy_unique _
             [Fin (arcMeters 1); Fin (arcMeters 1); Fin (arcMeters 2);
              Fin (arcMeters 2); Fin (arcMeters 3); Fin (arcMeters 4);
              Fin (arcMeters 79)]).
  - reflexivity.
  - all_finite.
  - sorted_meters.
  - solve_Permutation.
Qed.

(** Across the antimeridian the miss is large: the query for the tree at
    longitude -179 returns the distances of 1, 1, 2, 3 and 4 degrees and
    misses the tree at longitude 179, two degrees away. *)
Lemma knn_query_misses_across_antimeridian :
  findKNearestNeighborDistances (buildKdTree (indexPoints antimeridianTrees) 0)
    (equatorPoint (-179) 1) 5
  <> bruteForceNearest (indexPoints antimeridianTrees) (equatorPoint (-179) 1) 5.
Proof.
  rewrite query_on_antimeridianTrees, bruteForce_on_antimeridianTrees.
  intros H. injection H as H.
  pose proof (arcMeters_lt 2 3 ltac:(lra)). lra.
Qed.

(** *** The eight trees at street scale: the same neighbour is missed *)

Lemma streetTrees_kdTree :
  buildKdTree (indexPoints streetTrees) 0
  = node (equatorPoint 0 4) 0
      (node (equatorPoint 0.0001 2) 1
         (node (equatorPoint (-0.00001) 1) 0
            (node (equatorPoint (-0.00002) 0) 1 null null) null)
         (node (equatorPoint 0.00010002 3) 0 null null))
      (node (equatorPoint (-0.00010005) 6) 1
         (node (equatorPoint (-0.0002) 5) 0 null null)
         (node (equatorPoint 0.00003 7) 0 null null)).
Proof.
  change (indexPoints streetTrees)
    with [equatorPoint (-0.00002) 0; equatorPoint (-0.00001) 1; equatorPoint 0.0001 2;
          equatorPoint 0.00010002 3; equatorPoint 0 4; equatorPoint (-0.0002) 5;
          equatorPoint (-0.00010005) 6; equatorPoint 0.00003 7].
  rewrite buildKdTree_cons. cbn zeta.
  rewrite sortBy_ordered by ordered.
  cbn [length Nat.div Nat.divmod fst nth take drop Nat.add Nat.modulo snd Nat.sub].
  rewrite !buildKdTree_cons. cbn zeta.
  cbn [Nat.add Nat.modulo Nat.divmod snd Nat.sub].
  rewrite !sortBy_ordered by ordered.
  cbn [length Nat.div Nat.divmod fst nth take drop Nat.add Nat.modulo snd Nat.sub].
  rewrite !buildKdTree_single. cbn [Nat.add Nat.modulo Nat.divmod snd Nat.sub].
  rewrite buildKdTree_cons. cbn zeta.
  cbn [Nat.add Nat.modulo Nat.divmod snd Nat.sub].
  rewrite sortBy_ordered by ordered.
  cbn [length Nat.div Nat.divmod fst nth take drop Nat.add Nat.modulo snd Nat.sub].
  rewrite buildKdTree_single. simp buildKdTree. reflexivity.
Qed.

(** The near side of the root: the three trees stored to its right. *)
Lemma street_query_near_side :
  search (equatorPoint 0 4) 5
    (node (equatorPoint (-0.00010005) 6) 1
       (node (equatorPoint (-0.0002) 5) 0 null null)
       (node (equatorPoint 0.00003 7) 0 null null)) []
  = [Fin (arcMeters 0.00003); Fin (arcMeters 0.00010005); Fin (arcMeters 0.0002)].
Proof.
  assert (H7 : visitNode (equatorPoint 0 4) 5 (equatorPoint 0.00003 7) []
               = [Fin (arcMeters 0.00003)]) by offer 0.00003 (@nil number) (@nil number).
  assert (H6 : visitNode (equatorPoint 0 4) 5 (equatorPoint (-0.00010005) 6)
                 [Fin (arcMeters 0.00003)]
               = [Fin (arcMeters 0.00003); Fin (arcMeters 0.00010005)])
    by offer 0.00010005 [Fin (arcMeters 0.00003)] (@nil number).
  assert (H5 : visitNode (equatorPoint 0 4) 5 (equatorPoint (-0.0002) 5)
                 [Fin (arcMeters 0.00003); Fin (arcMeters 0.00010005)]
               = [Fin (arcMeters 0.00003); Fin (arcMeters 0.00010005); Fin (arcMeters 0.0002)])
    by offer 0.0002 [Fin (arcMeters 0.00003); Fin (arcMeters 0.00010005)] (@nil number).
  rewrite (search_explore _ _ _ _ _ _ _ false).
  - rewrite !search_leaf, H7, H6, H5. reflexivity.
  - cbn. apply Rltb_false. lra.
  - rewrite search_leaf, H7, H6. cbn. lia.
Qed.

(** The far side of the root: the tree at longitude 0.00010002 is skipped. *)
Lemma street_query_far_side :
  search (equatorPoint 0 4) 5
    (node (equatorPoint 0.0001 2) 1
       (node (equatorPoint (-0.00001) 1) 0
          (node (equatorPoint (-0.00002) 0) 1 null null) null)
       (node (equatorPoint 0.00010002 3) 0 null null))
    [Fin (arcMeters 0.00003); Fin (arcMeters 0.00010005); Fin (arcMeters 0.0002)]
  = [Fin (arcMeters 0.00001); Fin (arcMeters 0.00002); Fin (arcMeters 0.00003);
     Fin (arcMeters 0.0001); Fin (arcMeters 0.00010005)].
Proof.
  assert (H1 : visitNode (equatorPoint 0 4) 5 (equatorPoint (-0.00001) 1)
                 [Fin (arcMeters 0.00003); Fin (arcMeters 0.00010005); Fin (arcMeters 0.0002)]
               = [Fin (arcMeters 0.00001); Fin (arcMeters 0.00003); Fin (arcMeters 0.00010005);
                  Fin (arcMeters 0.0002)])
    by offer 0.00001 (@nil number)
         [Fin (arcMeters 0.00003); Fin (arcMeters 0.00010005); Fin (arcMeters 0.0002)].
  assert (H0 : visitNode (equatorPoint 0 4) 5 (equatorPoint (-0.00002) 0)
                 [Fin (arcMeters 0.00001); Fin (arcMeters 0.00003); Fin (arcMeters 0.00010005);
                  Fin (arcMeters 0.0002)]
               = [Fin (arcMeters 0.00001); Fin (arcMeters 0.00002); Fin (arcMeters 0.00003);
                  Fin (arcMeters 0.00010005); Fin (arcMeters 0.0002)])
    by offer 0.00002 [Fin (arcMeters 0.00001)]
         [Fin (arcMeters 0.00003); Fin (arcMeters 0.00010005); Fin (arcMeters 0.0002)].
  assert (H2 : visitNode (equatorPoint 0 4) 5 (equatorPoint 0.0001 2)
                 [Fin (arcMeters 0.00001); Fin (arcMeters 0.00002); Fin (arcMeters 0.00003);
                  Fin (arcMeters 0.00010005); Fin (arcMeters 0.0002)]
               = [Fin (arcMeters 0.00001); Fin (arcMeters 0.00002); Fin (arcMeters 0.00003);
                  Fin (arcMeters 0.0001); Fin (arcMeters 0.00010005)])
    by offer 0.0001 [Fin (arcMeters 0.00001); Fin (arcMeters 0.00002); Fin (arcMeters 0.00003)]
         [Fin (arcMeters 0.00010005); Fin (arcMeters 0.0002)].
  assert (Hwest :
    search (equatorPoint 0 4) 5
      (node (equatorPoint (-0.00001) 1) 0
         (node (equatorPoint (-0.00002) 0) 1 null null) null)
      [Fin (arcMeters 0.00003); Fin (arcMeters 0.00010005); Fin (arcMeters 0.0002)]
    = [Fin (arcMeters 0.00001); Fin (arcMeters 0.00002); Fin (arcMeters 0.00003);
       Fin (arcMeters 0.00010005); Fin (arcMeters 0.0002)]).
  { rewrite (search_explore _ _ _ _ _ _ _ false).
    - rewrite search_leaf. cbn [search]. rewrite H1. exact H0.
    - cbn. apply Rltb_false. lra.
    - cbn [search]. rewrite H1. cbn. lia. }
  rewrite (search_pruned _ _ _ _ _ _ _ true).
  - rewrite Hwest. exact H2.
  - cbn. apply Rltb_true. lra.
  - rewrite Hwest, H2. cbn. lia.
  - rewrite Hwest, H2. unfold_point.
    rewrite getAxisDistanceMeters_longitude_equator
      by (unfold Rabs; destruct (Rcase_abs _); lra).
    cbn. apply Rltb_false.
    pose proof PI_bounds. unfold arcMeters, Rabs. destruct (Rcase_abs _); lra.
Qed.

Lemma query_on_streetTrees :
  findKNearestNeighborDistances (buildKdTree (indexPoints streetTrees) 0)
    (equatorPoint 0 4) 5
  = [Fin (arcMeters 0.00001); Fin (arcMeters 0.00002); Fin (arcMeters 0.00003);
     Fin (arcMeters 0.0001); Fin (arcMeters 0.00010005)].
Proof.
  rewrite streetTrees_kdTree. unfold findKNearestNeighborDistances.
  rewrite (search_explore _ _ _ _ _ _ _ false).
  - rewrite street_query_near_side. apply street_query_far_side.
  - cbn. apply Rltb_false. lra.
  - rewrite street_query_near_side. cbn. lia.
Qed.

Lemma bruteForce_on_streetTrees :
  bruteForceNearest (indexPoints streetTrees) (equatorPoint 0 4) 5
  = [Fin (arcMeters 0.00001); Fin (arcMeters 0.00002); Fin (arcMeters 0.00003);
     Fin (arcMeters 0.0001); Fin (arcMeters 0.00010002)].
Proof.
  unfold bruteForceNearest.
  assert (Hd : otherDistances (equatorPoint 0 4) (indexPoints streetTrees)
               = [Fin (arcMeters 0.00002); Fin (arcMeters 0.00001); Fin (arcMeters 0.0001);
                  Fin (arcMeters 0.00010002); Fin (arcMeters 0.0002); Fin (arcMeters 0.00010005);
                  Fin (arcMeters 0.00003)]).
  { change (indexPoints streetTrees)
      with ([equatorPoint (-0.00002) 0] ++ [equatorPoint (-0.00001) 1]
            ++ [equatorPoint 0.0001 2] ++ [equatorPoint 0.00010002 3]
            ++ [equatorPoint 0 4] ++ [equatorPoint (-0.0002) 5]
            ++ [equatorPoint (-0.00010005) 6] ++ [equatorPoint 0.00003 7]).
    rewrite !otherDistances_app, !otherDistances_single.
    cbn [IndexedTreePoint.index equatorPoint pointOf Nat.eqb negb].
    rewrite (equatorPoint_distance 0 4 (-0.00002) 0 0.00002) by arc_side.
    rewrite (equatorPoint_distance 0 4 (-0.00001) 1 0.00001) by arc_side.
    rewrite (equatorPoint_distance 0 4 0.0001 2 0.0001) by arc_side.
    rewrite (equatorPoint_distance 0 4 0.00010002 3 0.00010002) by arc_side.
    rewrite (equatorPoint_distance 0 4 (-0.0002) 5 0.0002) by arc_side.
    rewrite (equatorPoint_distance 0 4 (-0.00010005) 6 0.00010005) by arc_side.
    rewrite (equatorPoint_distance 0 4 0.00003 7 0.00003) by arc_side.
    reflexivity. }
  rewrite Hd.
  rewrite (sortBy_unique _
             [Fin (arcMeters 0.00001); Fin (arcMeters 0.00002); Fin (arcMeters 0.00003);
              Fin (arcMeters 0.0001); Fin (arcMeters 0.00010002); Fin (arcMeters 0.00010005);
              Fin (arcMeters 0.0002)]).
  - reflexivity.
  - all_finite.
  - sorted_meters.
  - solve_Permutation.
Qed.

End QueryExamples.

(** ** The density score and the nearest neighbours *)

Section DensityScoreSpec.
Import Num NumFacts.
Local Open Scope list_scope.
Local Open Scope R_scope.

(** Where the pruning test is sound the query is the brute-force scan. *)
Lemma findKNearestNeighborDistances_sound points target k :
  pruningSound target (buildKdTree points 0) ->
  findKNearestNeighborDistances (buildKdTree points 0) target k
  = bruteForceNearest points target k.
Proof.
  intros Hsound. set (root := buildKdTree points 0) in *.
  assert (Hperm : otherDistances target (pointsOf root) ≡ₚ otherDistances target points)
    by apply otherDistances_Permutation, buildKdTree_Permutation.
  pose proof (search_sound target k root Hsound [] [] ltac:(constructor)
                (kSmallest_nil k)) as Hk.
  cbn [app] in Hk.
  apply kSmallest_unique in Hk; [|apply otherDistances_finite].
  unfold bruteForceNearest, findKNearestNeighborDistances.
  rewrite <- (sortBy_Permutation_eq _ _ (otherDistances_finite target (pointsOf root)) Hperm).
  exact Hk.
Qed.

(** The average of five finite distances. *)
Lemma averageDistance_five a b c d e :
  averageDistance [Fin a; Fin b; Fin c; Fin d; Fin e]
  = Fin ((0 + a + b + c + d + e) / 5).
Proof.
  unfold averageDistance. cbn [length Nat.ltb Nat.leb foldl add].
  unfold ofNat. rewrite div_Fin by (cbn; lra). f_equal. cbn. lra.
Qed.

(** The score on the segment where it is a line. *)
Lemma getTreeFriendsScore_line a :
  2 <= a <= 85 ->
  getTreeFriendsScore (Fin a) = Fin (10 - 0.12 * (a - 2)).
Proof.
  intros Ha. rewrite getTreeFriendsScore_linear by lra. f_equal.
  rewrite Rmax_left by lra. apply Rmin_left. lra.
Qed.

Lemma arcMeters_street degrees :
  0 <= degrees -> 11.1 * (10000 * degrees) <= arcMeters degrees <= 11.2 * (10000 * degrees).
Proof. intros H. pose proof PI_bounds. unfold arcMeters. nra. Qed.

Lemma streetTrees_scores :
  getTreeFriendsScore
    (averageDistance
       [Fin (arcMeters 0.00001); Fin (arcMeters 0.00002); Fin (arcMeters 0.00003);
        Fin (arcMeters 0.0001); Fin (arcMeters 0.00010005)])
  = Fin (10 - 0.12 * ((0 + arcMeters 0.00001 + arcMeters 0.00002 + arcMeters 0.00003
                       + arcMeters 0.0001 + arcMeters 0.00010005) / 5 - 2))
  /\ getTreeFriendsScore
       (averageDistance
          [Fin (arcMeters 0.00001); Fin (arcMeters 0.00002); Fin (arcMeters 0.00003);
           Fin (arcMeters 0.0001); Fin (arcMeters 0.00010002)])
     = Fin (10 - 0.12 * ((0 + arcMeters 0.00001 + arcMeters 0.00002 + arcMeters 0.00003
                          + arcMeters 0.0001 + arcMeters 0.00010002) / 5 - 2)).
Proof.
  pose proof (arcMeters_street 0.00001 ltac:(lra)).
  pose proof (arcMeters_street 0.00002 ltac:(lra)).
  pose proof (arcMeters_street 0.00003 ltac:(lra)).
  pose proof (arcMeters_street 0.0001 ltac:(lra)).
  pose proof (arcMeters_street 0.00010005 ltac:(lra)).
  pose proof (arcMeters_street 0.00010002 ltac:(lra)).
  rewrite !averageDistance_five.
  split; apply getTreeFriendsScore_line; lra.
Qed.

(** C3 (amended). The density score of the point at position [i] is
    [getTreeFriendsScore] of the average of the distances that the index
    query returns for it with [k = 5]; these are the five nearest geodesic
    distances, as a brute-force scan finds them, when the pruning test is
    sound for the point at every node of the tree; the average of no
    distance is positive infinity; an average that is not finite, not
    positive or below 2 scores exactly 10, any other scores
    [10 - 0.12 * (average - 2)] clamped to [0, 10]; and the only point of a
    one-point collection scores exactly 10. *)
Theorem density_score_spec :
  (forall trees i tree,
      trees !! i = Some tree ->
      let root := buildKdTree (indexPoints trees) 0 in
      TreeRecord.treeFriendsScore <$> (assignTreeFriendsScores trees 5 !! i) =
      Some (getTreeFriendsScore
              (averageDistance
                 (findKNearestNeighborDistances root (pointOf i tree) 5)))
      /\ (pruningSound (pointOf i tree) root ->
          TreeRecord.treeFriendsScore <$> (assignTreeFriendsScores trees 5 !! i) =
          Some (getTreeFriendsScore
                  (averageDistance
                     (bruteForceNearest (indexPoints trees) (pointOf i tree) 5)))))
  /\ averageDistance [] = PInf
  /\ getTreeFriendsScore (averageDistance []) = Fin 10
  /\ (forall d ds,
        averageDistance (d :: ds) =
        (foldl Num.add (Fin 0) (d :: ds) / Num.ofNat (length (d :: ds)))%num)
  /\ (forall average,
        isFinite average = false
        \/ (average <=? Fin 0)%num = true
        \/ (average <? Fin 2)%num = true ->
        getTreeFriendsScore average = Fin 10)
  /\ (forall a,
        2 <= a ->
        getTreeFriendsScore (Fin a) = Fin (Rmin (Rmax (10 - 0.12 * (a - 2)) 0) 10))
  /\ (forall tree,
        TreeRecord.treeFriendsScore <$> assignTreeFriendsScores [tree] 5 = [Fin 10]).
Proof.
  split; [|repeat split].
  - intros trees i tree Hi root.
    rewrite (assignTreeFriendsScores_lookup trees 5 i tree Hi). fold root.
    split; [reflexivity|]. intros Hsound. cbn [fmap option_fmap option_map TreeRecord.treeFriendsScore TreeRecord.setTreeFriendsScore].
    unfold root. rewrite findKNearestNeighborDistances_sound by exact Hsound.
    reflexivity.
  - intros average H. apply getTreeFriendsScore_max, H.
  - intros a Ha. apply getTreeFriendsScore_linear, Ha.
  - intros tree. rewrite assignTreeFriendsScores_single. reflexivity.
Qed.

Lemma density_score_spec_witness :
  TreeRecord.treeFriendsScore
    <$> (assignTreeFriendsScores meridianTrees 5 !! 0%nat)
  = Some (getTreeFriendsScore
            (averageDistance
               (bruteForceNearest (indexPoints meridianTrees)
                  (meridianPoint 0 0) 5)))
  /\ getTreeFriendsScore PInf = Fin 10
  /\ getTreeFriendsScore (Fin 52) = Fin (Rmin (Rmax (10 - 0.12 * (52 - 2)) 0) 10).
Proof.
  split; [|split].
  - apply (proj2 (proj1 density_score_spec meridianTrees 0%nat (treeAt 0 0)
                    eq_refl)).
    exact meridianTrees_pruningSound.
  - apply (proj1 (proj2 (proj2 (proj2 (proj2 density_score_spec)))) PInf).
    left. reflexivity.
  - apply (proj1 (proj2 (proj2 (proj2 (proj2 (proj2 density_score_spec))))) 52). lra.
Defined.

(** C3, as stated, fails on the eight trees of [streetTrees]: for the tree
    at longitude 0 the query returns the distance to the tree at longitude
    -0.00010005 (11.125 meters) and misses the nearer tree at longitude
    0.00010002 (11.122 meters), whose subtree is skipped because the
    axis-only distance of the node at longitude 0.0001, 11.132 meters, is
    not below 11.125; both averages lie on the segment where the score is
    a line, so that the density score is not the score of the average of
    the five nearest geodesic distances. *)
Lemma density_score_differs_from_nearest_average :
  streetTrees !! 4%nat = Some (treeAt 0 0)
  /\ TreeRecord.treeFriendsScore <$> (assignTreeFriendsScores streetTrees 5 !! 4%nat)
     <> Some (getTreeFriendsScore
                (averageDistance
                   (bruteForceNearest (indexPoints streetTrees)
                      (pointOf 4 (treeAt 0 0)) 5))).
Proof.
  split; [reflexivity|].
  rewrite (assignTreeFriendsScores_lookup streetTrees 5 4 (treeAt 0 0) eq_refl).
  cbn [fmap option_fmap option_map TreeRecord.treeFriendsScore
       TreeRecord.setTreeFriendsScore].
  change (pointOf 4 (treeAt 0 0)) with (equatorPoint 0 4).
  rewrite query_on_streetTrees, bruteForce_on_streetTrees.
  destruct streetTrees_scores as [-> ->].
  intros H. injection H as H.
  pose proof (arcMeters_lt 0.00010002 0.00010005 ltac:(lra)). lra.
Qed.

End DensityScoreSpec.

(** ** The haversine distance in general *)

Section Distance.
Import NumFacts.
Local Open Scope R_scope.

Lemma haversine_range lat1 lng1 lat2 lng2 :
  0 <= haversine lat1 lng1 lat2 lng2 <= 1.
Proof.
  unfold haversine. cbn zeta.
  set (p := lat1 * PI / 180). set (q := lat2 * PI / 180).
  set (l := (lng2 + - lng1) * PI / 180 / 2).
  replace ((lat2 + - lat1) * PI / 180 / 2) with ((q - p) / 2)
    by (unfold p, q; lra).
  pose proof (cos_2a_sin ((q - p) / 2)) as Hx.
  replace (2 * ((q - p) / 2)) with (q - p) in Hx by lra.
  rewrite cos_minus in Hx.
  pose proof (cos_2a_sin l) as Hl.
  pose proof (COS_bound (2 * l)) as HC.
  pose proof (sin2_cos2 p) as Hp. pose proof (sin2_cos2 q) as Hq.
  unfold Rsqr in Hp, Hq.
  set (sx := sin ((q - p) / 2)) in *. set (sl := sin l) in *.
  set (C := cos (2 * l)) in *.
  set (sp := sin p) in *. set (cp := cos p) in *.
  set (sq := sin q) in *. set (cq := cos q) in *.
  assert (Ha : sx * sx + cp * cq * (sl * sl) = (1 - sq * sp - cp * cq * C) / 2).
  { replace (sl * sl) with ((1 - C) / 2) by lra.
    replace (sx * sx) with ((1 - (cq * cp + sq * sp)) / 2) by lra. lra. }
  rewrite Ha.
  clearbody sx sl C sp cp sq cq. clear p q l.
  pose proof (Rle_0_sqr (sp - sq)) as H1. pose proof (Rle_0_sqr (sp + sq)) as H2.
  pose proof (Rle_0_sqr (cp - cq)) as H3. pose proof (Rle_0_sqr (cp + cq)) as H4.
  unfold Rsqr in H1, H2, H3, H4.
  destruct (Rle_lt_dec 0 (cp * cq)) as [Hu | Hu]; split; nra.
Qed.

Lemma haversine_sym lat1 lng1 lat2 lng2 :
  haversine lat1 lng1 lat2 lng2 = haversine lat2 lng2 lat1 lng1.
Proof.
  unfold haversine. cbn zeta.
  replace ((lat1 + - lat2) * PI / 180 / 2)
    with (- ((lat2 + - lat1) * PI / 180 / 2)) by lra.
  replace ((lng1 + - lng2) * PI / 180 / 2)
    with (- ((lng2 + - lng1) * PI / 180 / 2)) by lra.
  rewrite !sin_neg. lra.
Qed.

Lemma asin_sqrt_range a :
  0 <= a <= 1 ->
  0 <= asin (sqrt a) <= PI / 2 /\ sin (asin (sqrt a)) * sin (asin (sqrt a)) = a.
Proof.
  intros Ha. pose proof PI_RGT_0 as Hpi.
  assert (Hs : 0 <= sqrt a <= 1).
  { split; [apply sqrt_pos|]. rewrite <- sqrt_1. apply sqrt_le_1; lra. }
  pose proof (asin_bound (sqrt a)) as Hb.
  pose proof (sin_asin (sqrt a) ltac:(lra)) as Hsin.
  split; [split; [|lra]|].
  - destruct (Rle_lt_dec 0 (asin (sqrt a))) as [H | H]; [exact H|].
    pose proof (sin_lt_0_var (asin (sqrt a)) ltac:(lra) H). lra.
  - rewrite Hsin. apply sqrt_sqrt. lra.
Qed.

Lemma asin_le u v : -1 <= u -> u <= v -> v <= 1 -> asin u <= asin v.
Proof.
  intros Hu Huv Hv.
  pose proof (asin_bound u). pose proof (asin_bound v).
  apply sin_incr_0; try lra.
  rewrite !sin_asin by lra. exact Huv.
Qed.

(** On finite coordinates the distance is the arc whose half-angle is the
    arc sine of the square root of the haversine. *)
Lemma getDistanceInMeters_Fin lat1 lng1 lat2 lng2 :
  getDistanceInMeters (Fin lat1) (Fin lng1) (Fin lat2) (Fin lng2)
  = Fin (6371000 * (2 * asin (sqrt (haversine lat1 lng1 lat2 lng2)))).
Proof.
  pose proof PI_RGT_0 as Hpi.
  pose proof (haversine_range lat1 lng1 lat2 lng2) as Ha.
  destruct (asin_sqrt_range _ Ha) as [Hz Hsin].
  unfold getDistanceInMeters. cbn [Num.sub Num.neg Num.add].
  rewrite !toRadians_Fin, !div_Fin by lra.
  cbn [Num.sin Num.cos Num.square Num.mul Num.add].
  change (sin ((lat2 + - lat1) * PI / 180 / 2) * sin ((lat2 + - lat1) * PI / 180 / 2)
          + cos (lat1 * PI / 180) * cos (lat2 * PI / 180)
            * (sin ((lng2 + - lng1) * PI / 180 / 2)
               * sin ((lng2 + - lng1) * PI / 180 / 2)))
    with (haversine lat1 lng1 lat2 lng2).
  remember (haversine lat1 lng1 lat2 lng2) as a eqn:Ea.
  remember (asin (sqrt a)) as z eqn:Ez.
  cbn [Num.sqrt Num.sub Num.neg Num.add].
  replace (Num.Rltb a 0) with false by (symmetry; apply Rltb_false; lra).
  replace (Num.Rltb (1 + - a) 0) with false by (symmetry; apply Rltb_false; lra).
  cbn [Num.atan2 Num.mul].
  pose proof (Ratan2_haversine z Hz) as H. rewrite Hsin in H. rewrite H.
  reflexivity.
Qed.

Lemma toRadians_nonfinite n :
  Num.isFinite n = false -> Num.isFinite (toRadians n / Fin 2)%num = false.
Proof.
  pose proof PI_RGT_0 as Hpi.
  assert (H180 : Num.Rltb 180 0 = false) by (apply Rltb_false; lra).
  assert (H2 : Num.Rltb 2 0 = false) by (apply Rltb_false; lra).
  assert (Hpos : Num.Rltb 0 PI = true) by (apply Rltb_true; lra).
  assert (Hneg : Num.Rltb 0 (- PI) = false) by (apply Rltb_false; lra).
  assert (Hneg' : Num.Rltb (- PI) 0 = true) by (apply Rltb_true; lra).
  destruct n as [x| | |]; [discriminate| | |]; intros _;
    unfold toRadians, Num.mul, Num.signedInf;
    rewrite ?Hpos, ?Hneg, ?Hneg'; unfold Num.div; rewrite ?H180, ?H2;
    reflexivity.
Qed.

Lemma sub_nonfinite a b :
  Num.isFinite a && Num.isFinite b = false -> Num.isFinite (b - a)%num = false.
Proof. destruct a, b; cbn; congruence. Qed.

Lemma sin_nonfinite n : Num.isFinite n = false -> Num.sin n = NaN.
Proof. destruct n; [discriminate | reflexivity..]. Qed.

(** A coordinate that is not finite makes the distance NaN. *)
Lemma getDistanceInMeters_nonfinite a b c d :
  Num.isFinite a && Num.isFinite b && Num.isFinite c && Num.isFinite d = false ->
  getDistanceInMeters a b c d = NaN.
Proof.
  intros H. unfold getDistanceInMeters. cbn zeta.
  destruct (Num.isFinite a && Num.isFinite c) eqn:Elat.
  - assert (Elng : Num.isFinite b && Num.isFinite d = false).
    { apply andb_true_iff in Elat as [Ha Hc]. rewrite Ha, Hc in H.
      destruct (Num.isFinite b), (Num.isFinite d); cbn in H |- *; congruence. }
    rewrite (sin_nonfinite (toRadians (d - b) / Fin 2)%num)
      by (apply toRadians_nonfinite, sub_nonfinite, Elng).
    cbn [Num.square Num.mul].
    match goal with |- context [(?u * NaN)%num] =>
      replace (u * NaN)%num with NaN by (destruct u; reflexivity) end.
    match goal with |- context [(?u + NaN)%num] =>
      replace (u + NaN)%num with NaN by (destruct u; reflexivity) end.
    reflexivity.
  - rewrite (sin_nonfinite (toRadians (c - a) / Fin 2)%num)
      by (apply toRadians_nonfinite, sub_nonfinite, Elat).
    reflexivity.
Qed.

(** X1. The distance is never negative and never an infinity: it is NaN
    or a number of meters between 0 and half the circumference of the
    sphere, [PI * 6371000]; and it is NaN as soon as one of the four
    coordinates is not a finite number. *)
Theorem distance_is_nan_or_in_range :
  forall a b c d : number,
    (getDistanceInMeters a b c d = NaN
     \/ exists meters,
          getDistanceInMeters a b c d = Fin meters
          /\ 0 <= meters <= halfCircumference)
    /\ (Num.isFinite a && Num.isFinite b && Num.isFinite c && Num.isFinite d = false ->
        getDistanceInMeters a b c d = NaN).
Proof.
  intros a b c d. split.
  - destruct (Num.isFinite a && Num.isFinite b && Num.isFinite c && Num.isFinite d)
      eqn:E.
    + destruct a as [lat1| | |], b as [lng1| | |], c as [lat2| | |], d as [lng2| | |];
        try discriminate.
      right. eexists. split; [apply getDistanceInMeters_Fin|].
      destruct (asin_sqrt_range _ (haversine_range lat1 lng1 lat2 lng2)) as [Hz _].
      unfold halfCircumference. lra.
    + left. apply getDistanceInMeters_nonfinite, E.
  - apply getDistanceInMeters_nonfinite.
Qed.

Lemma distance_is_nan_or_in_range_witness :
  getDistanceInMeters (Fin 40) PInf (Fin 41) (Fin (-73)) = NaN.
Proof.
  apply (proj2 (distance_is_nan_or_in_range (Fin 40) PInf (Fin 41) (Fin (-73)))).
  reflexivity.
Defined.

(** X2. The distance is symmetric in its two points, whatever the
    coordinates, and it is zero from a point to itself when the latitude of
    the point lies in [-90, 90] and its longitude is finite. *)
Theorem distance_symmetric_and_zero :
  (forall a b c d : number,
      getDistanceInMeters a b c d = getDistanceInMeters c d a b)
  /\ (forall lat lng : R,
        -90 <= lat <= 90 ->
        getDistanceInMeters (Fin lat) (Fin lng) (Fin lat) (Fin lng) = Fin 0).
Proof.
  pose proof PI_RGT_0 as Hpi. split.
  - intros a b c d.
    destruct (Num.isFinite a && Num.isFinite b && Num.isFinite c && Num.isFinite d)
      eqn:E.
    + destruct a, b, c, d; try discriminate.
      rewrite !getDistanceInMeters_Fin, haversine_sym. reflexivity.
    + rewrite (getDistanceInMeters_nonfinite a b c d) by exact E.
      rewrite (getDistanceInMeters_nonfinite c d a b); [reflexivity|].
      destruct (Num.isFinite a), (Num.isFinite b), (Num.isFinite c),
        (Num.isFinite d); cbn in E |- *; congruence.
  - intros lat lng _. rewrite getDistanceInMeters_Fin. f_equal.
    unfold haversine. cbn zeta.
    replace ((lat + - lat) * PI / 180 / 2) with 0 by lra.
    replace ((lng + - lng) * PI / 180 / 2) with 0 by lra.
    rewrite sin_0. replace (0 * 0 + cos (lat * PI / 180) * cos (lat * PI / 180) * (0 * 0))
      with 0 by lra.
    rewrite sqrt_0, asin_0. lra.
Qed.

Lemma distance_symmetric_and_zero_witness :
  getDistanceInMeters (Fin 40) (Fin (-74)) (Fin 40) (Fin (-74)) = Fin 0.
Proof.
  apply (proj2 distance_symmetric_and_zero 40 (-74)). lra.
Defined.

(** On the latitude axis the pruning distance is 111132 meters per degree,
    zero degrees included. *)
Lemma getAxisDistanceMeters_latitude_all delta referenceLatitude :
  getAxisDistanceMeters (Fin delta) 0 referenceLatitude = Fin (delta * 111132).
Proof.
  destruct (Req_dec_T delta 0) as [E | E].
  - unfold getAxisDistanceMeters. cbn [Num.eqb].
    replace (Num.Reqb delta 0) with true by (symmetry; apply Reqb_true; exact E).
    f_equal. lra.
  - apply getAxisDistanceMeters_latitude, E.
Qed.

(** The latitude conversion of the pruning test, 111132 meters per degree,
    is below the length of a degree of arc, and the arc between two points
    is at least the arc between their latitudes. *)
Lemma latitude_meters_bound lat1 lng1 lat2 lng2 :
  -90 <= lat1 <= 90 -> -90 <= lat2 <= 90 ->
  Rabs (lat1 + - lat2) * 111132
  <= 6371000 * (2 * asin (sqrt (haversine lat1 lng1 lat2 lng2))).
Proof.
  intros H1 H2.
  pose proof PI_RGT_0 as Hpi. pose proof PI_bounds as Hb.
  pose proof (haversine_range lat1 lng1 lat2 lng2) as Ha.
  set (delta := Rabs (lat1 + - lat2)).
  assert (Hdelta : 0 <= delta <= 180).
  { unfold delta, Rabs. destruct (Rcase_abs _); lra. }
  set (y := delta * PI / 180 / 2).
  assert (Hy : 0 <= y <= PI / 2) by (unfold y; split; nra).
  assert (Hsy : 0 <= sin y) by (apply sin_ge_0; lra).
  assert (Hle : sin y * sin y <= haversine lat1 lng1 lat2 lng2).
  { unfold haversine. cbn zeta.
    rewrite (sin_sin_abs ((lat2 + - lat1) * PI / 180 / 2) (lat2 + - lat1) delta);
      [| unfold delta, Rabs; destruct (Rcase_abs _); lra | reflexivity].
    fold y.
    assert (0 <= cos (lat1 * PI / 180)) by (apply cos_ge_0; nra).
    assert (0 <= cos (lat2 * PI / 180)) by (apply cos_ge_0; nra).
    pose proof (Rle_0_sqr (sin ((lng2 + - lng1) * PI / 180 / 2))) as Hs.
    unfold Rsqr in Hs.
    assert (0 <= cos (lat1 * PI / 180) * cos (lat2 * PI / 180))
      by (apply Rmult_le_pos; assumption).
    nra. }
  assert (Hasin : y <= asin (sqrt (haversine lat1 lng1 lat2 lng2))).
  { rewrite <- (asin_sin y) at 1 by lra.
    rewrite <- (sqrt_square (sin y)) at 1 by exact Hsy.
    apply asin_le.
    - pose proof (sqrt_pos (sin y * sin y)). lra.
    - apply sqrt_le_1_alt, Hle.
    - rewrite <- sqrt_1. apply sqrt_le_1_alt. lra. }
  unfold y in Hasin. nra.
Qed.

End Distance.

(** ** The shape of the k-d tree *)

Section KdTreeShape.
Import NumFacts.
Local Open Scope list_scope.

Local Abbreviation finite := (fun y : number => Num.isFinite y = true).

Lemma byAxis_axisOf axis a b :
  byAxis axis a b = (axisOf axis a - axisOf axis b)%num.
Proof. unfold byAxis, axisOf, axisValue. destruct (axis =? 0)%nat; reflexivity. Qed.

Lemma insertBy_ext {A} (f g : A -> A -> number) x l :
  (forall a b, f a b = g a b) -> insertBy f x l = insertBy g x l.
Proof.
  intros H. induction l as [|y l IH]; cbn [insertBy]; [reflexivity|].
  rewrite H, IH. reflexivity.
Qed.

Lemma sortBy_ext {A} (f g : A -> A -> number) l :
  (forall a b, f a b = g a b) -> sortBy f l = sortBy g l.
Proof.
  intros H. induction l as [|x l IH]; cbn [sortBy foldr]; [reflexivity|].
  fold (sortBy f l). fold (sortBy g l). rewrite IH. apply insertBy_ext, H.
Qed.

(** The points sorted on an axis have their coordinates on that axis in
    non-decreasing order. *)
Lemma sortBy_byAxis_sorted axis points :
  Forall finiteCoordinates points ->
  StronglySorted numLe (axisOf axis <$> sortBy (byAxis axis) points).
Proof.
  intros Hfin.
  rewrite (sortBy_ext (byAxis axis)
             (fun a b => (axisOf axis a - axisOf axis b)%num))
    by apply byAxis_axisOf.
  rewrite fmap_sortBy. apply sortBy_sorted.
  apply Forall_fmap. eapply Forall_impl; [exact Hfin|].
  intros p [Hlat Hlng]. unfold axisOf, axisValue. cbn.
  destruct (axis =? 0)%nat; assumption.
Qed.

Lemma sorted_around_median (keys : list number) m :
  StronglySorted numLe keys ->
  forall key, keys !! m = Some key ->
    Forall (fun z => numLe z key) (take m keys)
    /\ Forall (fun z => numLe key z) (drop (S m) keys).
Proof.
  intros Hs key Hm.
  rewrite <- (take_drop_middle keys m key Hm) in Hs.
  apply StronglySorted_app in Hs as (Hle & _ & Hs).
  apply StronglySorted_inv in Hs as [_ Hright].
  split; [|exact Hright].
  apply Forall_forall. intros z Hz. apply Hle; [exact Hz | left].
Qed.

Lemma buildKdTree_ordered points depth :
  Forall finiteCoordinates points -> kdOrdered (buildKdTree points depth).
Proof.
  remember (length points) as n eqn:Hn. revert points depth Hn.
  induction n as [n IH] using lt_wf_ind. intros points depth Hn Hfin.
  destruct points as [|p ps]; [simp buildKdTree; exact I|].
  rewrite buildKdTree_cons. cbn zeta.
  set (axis := (depth mod 2)%nat).
  set (sorted := sortBy (byAxis axis) (p :: ps)).
  assert (Hlen : length sorted = S (length ps))
    by (subst sorted; rewrite length_sortBy; reflexivity).
  assert (Hmed : (length sorted / 2 < length sorted)%nat)
    by (apply Nat.div_lt; lia).
  set (m := (length sorted / 2)%nat) in *.
  assert (Hperm : sorted ≡ₚ p :: ps) by apply sortBy_Permutation.
  assert (Hsfin : Forall finiteCoordinates sorted) by (rewrite Hperm; exact Hfin).
  destruct (lookup_lt_is_Some_2 sorted m Hmed) as [median Hmedian].
  rewrite (nth_lookup_Some sorted m p median Hmedian).
  pose proof (sortBy_byAxis_sorted axis (p :: ps) Hfin) as Hsorted.
  fold sorted in Hsorted.
  destruct (sorted_around_median (axisOf axis <$> sorted) m Hsorted
              (axisOf axis median))
    as [Hleft Hright].
  { rewrite list_lookup_fmap, Hmedian. reflexivity. }
  rewrite <- fmap_take in Hleft. rewrite <- fmap_drop in Hright.
  rewrite Forall_fmap in Hleft. rewrite Forall_fmap in Hright.
  cbn [kdOrdered]. replace (m + 1)%nat with (S m) by lia.
  split; [|split; [|split]].
  - rewrite buildKdTree_Permutation. exact Hleft.
  - rewrite buildKdTree_Permutation. exact Hright.
  - apply (IH (length (take m sorted))); [| reflexivity | apply Forall_take, Hsfin].
    rewrite length_take. subst n. cbn [length]. lia.
  - apply (IH (length (drop (S m) sorted)));
      [| reflexivity | apply Forall_drop, Hsfin].
    rewrite length_drop. subst n. cbn [length]. lia.
Qed.

Lemma buildKdTree_axes points depth : kdAxes depth (buildKdTree points depth).
Proof.
  remember (length points) as n eqn:Hn. revert points depth Hn.
  induction n as [n IH] using lt_wf_ind. intros points depth Hn.
  destruct points as [|p ps]; [simp buildKdTree; exact I|].
  rewrite buildKdTree_cons. cbn zeta.
  set (sorted := sortBy (byAxis (depth mod 2)) (p :: ps)).
  assert (Hlen : length sorted = S (length ps))
    by (subst sorted; rewrite length_sortBy; reflexivity).
  assert (Hmed : (length sorted / 2 < length sorted)%nat)
    by (apply Nat.div_lt; lia).
  cbn [kdAxes]. split; [reflexivity|]. split.
  - apply (IH (length (take (length sorted / 2) sorted))); [|reflexivity].
    rewrite length_take. subst n. cbn [length]. lia.
  - apply (IH (length (drop (length sorted / 2 + 1) sorted))); [|reflexivity].
    rewrite length_drop. subst n. cbn [length]. lia.
Qed.

Lemma log2_half n : (2 <= n)%nat -> Nat.log2 n = S (Nat.log2 (n / 2)).
Proof.
  intros Hn.
  assert (Hhalf : (0 < n / 2)%nat) by (apply Nat.div_str_pos; lia).
  pose proof (Nat.log2_spec (n / 2) Hhalf) as [Hlo Hhi].
  pose proof (Nat.div_mod_eq n 2) as Hdiv.
  pose proof (Nat.mod_upper_bound n 2 ltac:(lia)) as Hmod.
  apply Nat.log2_unique; [lia|].
  rewrite !Nat.pow_succ_r' in *. lia.
Qed.

Lemma balancedHeight_mono a b : (a <= b)%nat -> (balancedHeight a <= balancedHeight b)%nat.
Proof.
  intros H. unfold balancedHeight.
  destruct a as [|a]; [lia|]. destruct b as [|b]; [lia|].
  apply le_n_S, Nat.log2_le_mono, H.
Qed.

Lemma balancedHeight_step n :
  (0 < n)%nat ->
  S (Nat.max (balancedHeight (n / 2)) (balancedHeight (n - (n / 2 + 1))))
  = balancedHeight n.
Proof.
  intros Hn.
  pose proof (Nat.div_mod_eq n 2) as Hdiv.
  pose proof (Nat.mod_upper_bound n 2 ltac:(lia)) as Hmod.
  rewrite Nat.max_l by (apply balancedHeight_mono; lia).
  destruct (Nat.le_gt_cases 2 n) as [H2 | H2].
  - unfold balancedHeight at 2. destruct n as [|n]; [lia|].
    rewrite (log2_half (S n) H2). unfold balancedHeight.
    destruct (S n / 2)%nat eqn:E; [lia|]. reflexivity.
  - assert (n = 1%nat) by lia. subst n. reflexivity.
Qed.

Lemma buildKdTree_height points depth :
  height (buildKdTree points depth) = balancedHeight (length points).
Proof.
  remember (length points) as n eqn:Hn. revert points depth Hn.
  induction n as [n IH] using lt_wf_ind. intros points depth Hn.
  destruct points as [|p ps]; [subst n; simp buildKdTree; reflexivity|].
  rewrite buildKdTree_cons. cbn zeta.
  set (sorted := sortBy (byAxis (depth mod 2)) (p :: ps)).
  assert (Hlen : length sorted = n)
    by (subst sorted n; rewrite length_sortBy; reflexivity).
  assert (Hpos : (0 < n)%nat) by (subst n; cbn [length]; lia).
  assert (Hmed : (n / 2 < n)%nat) by (apply Nat.div_lt; lia).
  cbn [height]. rewrite Hlen.
  rewrite (IH (length (take (n / 2) sorted)) ltac:(rewrite length_take; lia)
             (take (n / 2) sorted) (depth + 1)%nat eq_refl).
  rewrite (IH (length (drop (n / 2 + 1) sorted)) ltac:(rewrite length_drop; lia)
             (drop (n / 2 + 1) sorted) (depth + 1)%nat eq_refl).
  rewrite length_take, length_drop, Hlen.
  rewrite Nat.min_l by lia. apply balancedHeight_step, Hpos.
Qed.

(** X4. The tree built from a list of points stores exactly these points,
    each once; the axis of a node is the parity of its depth; and when the
    coordinates are finite the tree is a search tree on these axes: the
    left subtree of a node holds coordinates not above the one of the node,
    the right subtree coordinates not below. *)
Theorem kd_tree_invariant :
  forall (points : list IndexedTreePoint.t) (depth : nat),
    let root := buildKdTree points depth in
    pointsOf root ≡ₚ points
    /\ kdAxes depth root
    /\ (Forall finiteCoordinates points -> kdOrdered root).
Proof.
  intros points depth root. split; [|split].
  - apply buildKdTree_Permutation.
  - apply buildKdTree_axes.
  - apply buildKdTree_ordered.
Qed.

Lemma kd_tree_invariant_witness :
  let points := indexPoints equatorTrees in
  let root := buildKdTree points 0 in
  Forall finiteCoordinates points
  /\ pointsOf root ≡ₚ points
  /\ kdAxes 0 root
  /\ kdOrdered root.
Proof.
  intros points root.
  assert (Hfin : Forall finiteCoordinates points)
    by (repeat constructor).
  split; [exact Hfin|].
  destruct (kd_tree_invariant points 0) as (Hperm & Haxes & Hord).
  split; [exact Hperm|]. split; [exact Haxes|]. exact (Hord Hfin).
Defined.

(** X5. The tree built from [n] points has [n] nodes and is as shallow as
    a binary tree of [n] nodes can be: it is empty for no point and its
    height is one more than the binary logarithm of [n] otherwise, so the
    recursion of the query is at most that deep. *)
Theorem kd_tree_is_balanced :
  forall (points : list IndexedTreePoint.t) (depth : nat),
    let root := buildKdTree points depth in
    length (pointsOf root) = length points
    /\ height root = balancedHeight (length points)
    /\ (root = null <-> points = []).
Proof.
  intros points depth root. split; [|split].
  - apply Permutation_length, buildKdTree_Permutation.
  - apply buildKdTree_height.
  - subst root. destruct points as [|p ps].
    + simp buildKdTree. split; reflexivity.
    + rewrite buildKdTree_cons. split; discriminate.
Qed.

End KdTreeShape.

(** ** The query on the points of one meridian *)

Section Meridian.
Import NumFacts.
Local Open Scope list_scope.
Local Open Scope R_scope.

Lemma otherDistances_elem target points d :
  d ∈ otherDistances target points ->
  exists point, point ∈ points /\ d = pointDistance target point.
Proof.
  unfold otherDistances. intros H. apply list_elem_of_In in H.
  apply filter_In in H as [H _]. apply in_map_iff in H as (point & <- & H).
  apply filter_In in H as [H _]. exists point. split; [|reflexivity].
  apply list_elem_of_In, H.
Qed.

(** On the points of one meridian the pruning test of a search tree is
    sound: a longitude split is at distance zero, and a latitude split is
    nearer than any point beyond it. *)
Lemma pruningSound_meridian lng target nd :
  onMeridian lng target -> Forall (onMeridian lng) (pointsOf nd) ->
  kdOrdered nd -> pruningSound target nd.
Proof.
  intros (latT & HlatT & EtLat & EtLng).
  induction nd as [|point axis leftNode IHl rightNode IHr]; intros Hall Hord;
    [exact I|].
  cbn [pointsOf] in Hall. apply Forall_app in Hall as [Hleft Hright].
  apply Forall_cons in Hright as [(latP & HlatP & EpLat & EpLng) Hright].
  cbn [kdOrdered] in Hord. destruct Hord as (Ol & Or & Hol & Hor).
  cbn [pruningSound].
  split; [|split; [apply IHl | apply IHr]; assumption].
  assert (Hbound : forall far,
            far ∈ pointsOf leftNode ++ pointsOf rightNode ->
            exists latF, -90 <= latF <= 90
              /\ IndexedTreePoint.latitude far = Fin latF
              /\ pointDistance target far
                 = Fin (6371000 * (2 * asin (sqrt (haversine latT lng latF lng))))).
  { intros far Hfar.
    assert (HfarM : onMeridian lng far).
    { apply elem_of_app in Hfar as [Hfar | Hfar];
        [exact (proj1 (Forall_forall _ _) Hleft far Hfar)
        |exact (proj1 (Forall_forall _ _) Hright far Hfar)]. }
    destruct HfarM as (latF & HlatF & EfLat & EfLng).
    exists latF. split; [exact HlatF|]. split; [exact EfLat|].
    unfold pointDistance. rewrite EtLat, EtLng, EfLat, EfLng.
    apply getDistanceInMeters_Fin. }
  apply Forall_forall. intros d Hd.
  unfold axisValue in Hd |- *. unfold axisOf, axisValue in Ol, Or.
  destruct (axis =? 0)%nat eqn:Eaxis.
  - apply Nat.eqb_eq in Eaxis. subst axis.
    rewrite EtLat, EpLat in Hd |- *.
    cbn [Num.sub Num.neg Num.add Num.abs Num.ltb] in Hd |- *.
    rewrite getAxisDistanceMeters_latitude_all.
    destruct (Num.Rltb latT latP) eqn:E;
      apply otherDistances_elem in Hd as (far & Hfar & ->).
    + apply Rltb_true in E.
      pose proof (proj1 (Forall_forall _ _) Or far Hfar) as Hle. cbn beta in Hle.
      destruct (Hbound far ltac:(apply elem_of_app; right; exact Hfar))
        as (latF & HlatF & EfLat & ->).
      rewrite EpLat, EfLat in Hle. apply numLe_Fin in Hle.
      apply Rleb_true.
      eapply Rle_trans; [|apply latitude_meters_bound; assumption].
      apply Rmult_le_compat_r; [lra|].
      unfold Rabs. repeat destruct (Rcase_abs _); lra.
    + apply Rltb_false in E.
      pose proof (proj1 (Forall_forall _ _) Ol far Hfar) as Hle. cbn beta in Hle.
      destruct (Hbound far ltac:(apply elem_of_app; left; exact Hfar))
        as (latF & HlatF & EfLat & ->).
      rewrite EpLat, EfLat in Hle. apply numLe_Fin in Hle.
      apply Rleb_true.
      eapply Rle_trans; [|apply latitude_meters_bound; assumption].
      apply Rmult_le_compat_r; [lra|].
      unfold Rabs. repeat destruct (Rcase_abs _); lra.
  - rewrite EtLng, EpLng in Hd |- *.
    cbn [Num.sub Num.neg Num.add Num.abs Num.ltb] in Hd |- *.
    unfold getAxisDistanceMeters. cbn [Num.eqb].
    replace (Num.Reqb (Rabs (lng + - lng)) 0) with true
      by (symmetry; apply Reqb_true; replace (lng + - lng) with 0 by lra;
          apply Rabs_R0).
    assert (Hfar : exists far, far ∈ pointsOf leftNode ++ pointsOf rightNode
                               /\ d = pointDistance target far).
    { destruct (Num.Rltb lng lng);
        apply otherDistances_elem in Hd as (far & Hfar & ->);
        exists far; (split; [|reflexivity]); apply elem_of_app; auto. }
    destruct Hfar as (far & Hfar & ->).
    destruct (Hbound far Hfar) as (latF & _ & _ & ->).
    apply Rleb_true.
    destruct (asin_sqrt_range _ (haversine_range latT lng latF lng)) as [Hz _].
    lra.
Qed.

Lemma onMeridian_finite lng point : onMeridian lng point -> finiteCoordinates point.
Proof.
  intros (lat & _ & Hlat & Hlng). unfold finiteCoordinates.
  rewrite Hlat, Hlng. split; reflexivity.
Qed.

(** X6. On points that share one longitude and whose latitudes lie in
    [-90, 90], the query on the built tree returns exactly the [k]
    smallest distances from the query point to the other points, as a
    brute-force scan finds them. *)
Theorem knn_query_exact_on_meridian :
  forall (points : list IndexedTreePoint.t) (target : IndexedTreePoint.t)
         (lng : R) (k : nat),
    Forall (onMeridian lng) points -> onMeridian lng target ->
    findKNearestNeighborDistances (buildKdTree points 0) target k
    = bruteForceNearest points target k.
Proof.
  intros points target lng k Hall Htarget.
  set (root := buildKdTree points 0).
  assert (Hperm : pointsOf root ≡ₚ points) by apply buildKdTree_Permutation.
  assert (Hsound : pruningSound target root).
  { apply (pruningSound_meridian lng); [exact Htarget | rewrite Hperm; exact Hall |].
    apply buildKdTree_ordered. eapply Forall_impl; [exact Hall|].
    apply onMeridian_finite. }
  pose proof (search_sound target k root Hsound [] [] ltac:(constructor)
                (kSmallest_nil k)) as Hk.
  cbn [app] in Hk.
  apply kSmallest_unique in Hk; [|apply otherDistances_finite].
  unfold bruteForceNearest, findKNearestNeighborDistances.
  rewrite <- (sortBy_Permutation_eq _ _ (otherDistances_finite target (pointsOf root))
                (otherDistances_Permutation target _ _ Hperm)).
  exact Hk.
Qed.

Lemma knn_query_exact_on_meridian_witness :
  findKNearestNeighborDistances (buildKdTree (indexPoints meridianTrees) 0)
    (meridianPoint 1 1) 5
  = bruteForceNearest (indexPoints meridianTrees) (meridianPoint 1 1) 5.
Proof.
  apply (knn_query_exact_on_meridian (indexPoints meridianTrees)
           (meridianPoint 1 1) 0 5).
  - repeat constructor;
      (eexists; split; [|split; reflexivity]; lra).
  - exists 1. split; [lra|]. split; reflexivity.
Defined.

End Meridian.

(** ** The interpolated rent as a weighted mean *)

Section Interpolation.
Import NumFacts.
Local Open Scope R_scope.




End Interpolation.

(** ** The matches are the nearest areas *)

Section NearestAreaNames.
Import NumFacts.
Local Open Scope list_scope.

Local Abbreviation finite := (fun y : number => Num.isFinite y = true).

Lemma elem_of_insert_inv {A} (l : list A) i x y :
  y ∈ <[i := x]> l -> y = x \/ y ∈ l.
Proof.
  revert i. induction l as [|z l IH]; intros i H; [right; exact H|].
  destruct i as [|i]; cbn in H.
  - apply elem_of_cons in H as [-> | H]; [left; reflexivity | right; right; exact H].
  - apply elem_of_cons in H as [-> | H]; [right; left|].
    destruct (IH i H) as [-> | H']; [left; reflexivity | right; right; exact H'].
Qed.

Lemma offerNeighborhood_elem latitude longitude rentLookup limit matches
    neighborhood m :
  m ∈ offerNeighborhood latitude longitude rentLookup limit matches neighborhood ->
  m ∈ matches \/ m = matchOf latitude longitude rentLookup neighborhood.
Proof.
  unfold offerNeighborhood. fold (matchOf latitude longitude rentLookup neighborhood).
  destruct (negb _); [left; assumption|].
  destruct (length matches <? limit)%nat.
  - rewrite sortBy_Permutation. intros H.
    apply elem_of_app in H as [H | H]; [left; exact H|].
    apply list_elem_of_singleton in H. right. exact H.
  - destruct (_ <? _)%num; [|left; assumption].
    rewrite sortBy_Permutation. intros H.
    apply elem_of_insert_inv in H as [H | H]; [right | left]; exact H.
Qed.

Lemma foldl_offerNeighborhood_elem latitude longitude rentLookup limit
    neighborhoods :
  forall matches m,
    m ∈ foldl (offerNeighborhood latitude longitude rentLookup limit) matches
          neighborhoods ->
    m ∈ matches
    \/ exists neighborhood,
         neighborhood ∈ neighborhoods
         /\ m = matchOf latitude longitude rentLookup neighborhood.
Proof.
  induction neighborhoods as [|nb nbs IH]; intros matches m H; [left; exact H|].
  cbn [foldl] in H. apply IH in H as [H | (nb' & Hnb & ->)].
  - apply offerNeighborhood_elem in H as [H | ->]; [left; exact H|].
    right. exists nb. split; [left | reflexivity].
  - right. exists nb'. split; [right; exact Hnb | reflexivity].
Qed.

Lemma getClosestNeighborhoodMatches_elem latitude longitude neighborhoods
    rentLookup limit m :
  m ∈ getClosestNeighborhoodMatches latitude longitude neighborhoods rentLookup limit ->
  exists neighborhood,
    neighborhood ∈ neighborhoods
    /\ m = matchOf latitude longitude rentLookup neighborhood.
Proof.
  unfold getClosestNeighborhoodMatches.
  destruct (_ || _); intros H; [apply elem_of_nil in H; destruct H|].
  apply foldl_offerNeighborhood_elem in H as [H | H]; [|exact H].
  apply elem_of_nil in H. destruct H.
Qed.

Lemma areaDistances_elem latitude longitude neighborhoods neighborhood :
  neighborhood ∈ neighborhoods ->
  Num.isFinite
    (getDistanceInMeters latitude longitude
       (NeighborhoodRecord.latitude neighborhood)
       (NeighborhoodRecord.longitude neighborhood)) = true ->
  getDistanceInMeters latitude longitude
    (NeighborhoodRecord.latitude neighborhood)
    (NeighborhoodRecord.longitude neighborhood)
  ∈ areaDistances latitude longitude neighborhoods.
Proof.
  intros Hin Hfin. unfold areaDistances. apply list_elem_of_In, filter_In.
  split; [|exact Hfin]. apply list_elem_of_In.
  apply (list_elem_of_fmap_2
           (fun nb => getDistanceInMeters latitude longitude
                        (NeighborhoodRecord.latitude nb)
                        (NeighborhoodRecord.longitude nb))).
  exact Hin.
Qed.

Lemma numLe_refl_finite d : Num.isFinite d = true -> numLe d d.
Proof.
  intros H. apply isFinite_Fin in H as [x ->]. apply numLe_Fin. apply Rle_refl.
Qed.

(** The first of the matches is at the smallest of the finite distances. *)
Lemma getClosestNeighborhoodMatches_first latitude longitude neighborhoods
    rentLookup limit first d :
  getClosestNeighborhoodMatches latitude longitude neighborhoods rentLookup limit
    !! 0%nat = Some first ->
  d ∈ areaDistances latitude longitude neighborhoods ->
  numLe (NeighborhoodMatch.distance first) d.
Proof.
  intros Hfirst Hd.
  assert (Hhead : (NeighborhoodMatch.distance
                     <$> getClosestNeighborhoodMatches latitude longitude
                           neighborhoods rentLookup limit) !! 0%nat
                  = Some (NeighborhoodMatch.distance first))
    by (rewrite list_lookup_fmap, Hfirst; reflexivity).
  rewrite getClosestNeighborhoodMatches_distances in Hhead.
  apply lookup_take_Some in Hhead as [Hhead _].
  pose proof (sortBy_sorted (areaDistances latitude longitude neighborhoods)
                (areaDistances_finite latitude longitude neighborhoods)) as Hs.
  rewrite <- (sortBy_Permutation Num.sub) in Hd.
  destruct (sortBy Num.sub (areaDistances latitude longitude neighborhoods))
    as [|x sorted] eqn:E; [discriminate|].
  cbn in Hhead. injection Hhead as ->.
  apply StronglySorted_inv in Hs as [_ Hall].
  apply elem_of_cons in Hd as [-> | Hd].
  - apply numLe_refl_finite.
    pose proof (areaDistances_finite latitude longitude neighborhoods) as Hfin.
    rewrite <- (sortBy_Permutation Num.sub), E in Hfin.
    apply Forall_cons in Hfin as [Hfin _]. exact Hfin.
  - exact (proj1 (Forall_forall _ _) Hall d Hd).
Qed.

Lemma getClosestNeighborhoodMatches_nearest :
  forall (latitude longitude : number) (neighborhoods : list NeighborhoodRecord.t)
         (rentLookup : gmap propertyValue number) (limit : nat),
    let matches :=
      getClosestNeighborhoodMatches latitude longitude neighborhoods rentLookup
        limit in
    Forall
      (fun m =>
         exists neighborhood,
           neighborhood ∈ neighborhoods
           /\ m = matchOf latitude longitude rentLookup neighborhood)
      matches
    /\ length matches
       = Nat.min limit (length (areaDistances latitude longitude neighborhoods))
    /\ match matches with
       | [] => True
       | first :: _ =>
           Forall (numLe (NeighborhoodMatch.distance first))
             (areaDistances latitude longitude neighborhoods)
       end.
Proof.
  intros latitude longitude neighborhoods rentLookup limit matches.
  split; [|split].
  - apply Forall_forall. intros m. apply getClosestNeighborhoodMatches_elem.
  - rewrite <- (length_fmap NeighborhoodMatch.distance). subst matches.
    rewrite getClosestNeighborhoodMatches_distances, length_take, length_sortBy.
    reflexivity.
  - destruct matches as [|first rest] eqn:E; [exact I|].
    apply Forall_forall. intros d Hd.
    apply (getClosestNeighborhoodMatches_first latitude longitude neighborhoods
             rentLookup limit); [|exact Hd].
    subst matches. rewrite E. reflexivity.
Qed.

(** X8. Every match returned for a point is built from one of the given
    areas: its name, its distance to the point and the rent found for its
    name.  There are as many matches as the limit allows among the areas at
    a finite distance, and the first match is at the smallest of these
    distances. *)
Theorem closest_matches_are_nearest_areas :
  forall (latitude longitude : number) (neighborhoods : list NeighborhoodRecord.t)
         (rentLookup : gmap propertyValue number) (limit : nat),
    let matches :=
      getClosestNeighborhoodMatches latitude longitude neighborhoods rentLookup
        limit in
    Forall
      (fun m =>
         exists neighborhood,
           neighborhood ∈ neighborhoods
           /\ m = matchOf latitude longitude rentLookup neighborhood)
      matches
    /\ length matches
       = Nat.min limit (length (areaDistances latitude longitude neighborhoods))
    /\ match matches with
       | [] => True
       | first :: _ =>
           Forall (numLe (NeighborhoodMatch.distance first))
             (areaDistances latitude longitude neighborhoods)
       end.
Proof. exact getClosestNeighborhoodMatches_nearest. Qed.

End NearestAreaNames.

(** ** The area named on a record *)

Section NeighborhoodLabel.
Import NumFacts.
Local Open Scope list_scope.
Variable Number : string -> number.

Lemma parseTreeLine_matches neighborhoods rentLookup headers line raw :
  parseTreeLine Number neighborhoods rentLookup headers line = Some raw ->
  let matches :=
    getClosestNeighborhoodMatches (TreeRecord.latitude raw)
      (TreeRecord.longitude raw) neighborhoods rentLookup NEAREST_NEIGHBOR_COUNT in
  TreeRecord.neighborhood raw
  = match matches !! 0%nat with
    | Some m => NeighborhoodMatch.name m
    | None => "Unknown"
    end
  /\ TreeRecord.affordabilityScore raw
     = calculateAffordabilityScore <$> calculateExpectedRent matches.
Proof.
  unfold parseTreeLine. cbn zeta.
  destruct (negb _ || negb _); [discriminate|].
  intros [= <-]. cbn [TreeRecord.latitude TreeRecord.longitude
                       TreeRecord.neighborhood TreeRecord.affordabilityScore].
  split; [reflexivity|]. destruct (calculateExpectedRent _); reflexivity.
Qed.

(** Every record of the finalized collection comes from one data line. *)
Lemma parseTreeData_source csvData neighborhoods rentLookup tree :
  In tree (parseTreeData Number csvData neighborhoods rentLookup) ->
  exists headers line raw d,
    parseTreeLine Number neighborhoods rentLookup headers line = Some raw
    /\ (0 <= d <= 10)%R
    /\ tree = assignAccessibilityScore (TreeRecord.setTreeFriendsScore raw (Fin d)).
Proof.
  intros H. apply list_elem_of_In in H. unfold parseTreeData in H. cbn zeta in H.
  destruct (length (nonEmptyLines csvData) <=? 1)%nat.
  { apply elem_of_nil in H. destruct H. }
  unfold assignAccessibilityScores in H.
  apply list_elem_of_fmap in H as (scored & -> & H).
  apply assignTreeFriendsScores_elem in H as (raw & d & Hraw & Hd & ->).
  apply list_elem_of_omap in Hraw as (line & _ & Hline).
  eexists _, line, raw, d. split; [exact Hline|]. split; [exact Hd | reflexivity].
Qed.

Lemma areaDistances_length latitude longitude neighborhoods :
  (length (areaDistances latitude longitude neighborhoods) <= length neighborhoods)%nat.
Proof.
  unfold areaDistances.
  etransitivity; [apply List.filter_length_le|]. rewrite length_fmap. reflexivity.
Qed.

(** Without an area at a finite distance there is no finite distance. *)
Lemma areaDistances_none latitude longitude neighborhoods :
  Forall
    (fun neighborhood =>
       Num.isFinite
         (getDistanceInMeters latitude longitude
            (NeighborhoodRecord.latitude neighborhood)
            (NeighborhoodRecord.longitude neighborhood)) = false)
    neighborhoods ->
  areaDistances latitude longitude neighborhoods = [].
Proof.
  unfold areaDistances. induction 1 as [|neighborhood rest Hd _ IH]; [reflexivity|].
  cbn [fmap list_fmap List.filter]. rewrite Hd. exact IH.
Qed.

(** Every match is at a finite distance. *)
Lemma getClosestNeighborhoodMatches_finite latitude longitude neighborhoods
    rentLookup limit m :
  m ∈ getClosestNeighborhoodMatches latitude longitude neighborhoods rentLookup limit ->
  Num.isFinite (NeighborhoodMatch.distance m) = true.
Proof.
  intros Hm.
  assert (Hd : NeighborhoodMatch.distance m
               ∈ NeighborhoodMatch.distance
                   <$> getClosestNeighborhoodMatches latitude longitude
                         neighborhoods rentLookup limit)
    by (apply list_elem_of_fmap; exists m; split; [reflexivity | exact Hm]).
  rewrite getClosestNeighborhoodMatches_distances in Hd.
  apply subseteq_take in Hd. rewrite sortBy_Permutation in Hd.
  exact (proj1 (Forall_forall _ _) (areaDistances_finite _ _ _) _ Hd).
Qed.

Lemma parseTreeData_label csvData neighborhoods rentLookup tree :
  In tree (parseTreeData Number csvData neighborhoods rentLookup) ->
  ((length neighborhoods < 3)%nat -> TreeRecord.affordabilityScore tree = None)
  /\ (Forall (fun neighborhood =>
                Num.isFinite (areaDistance tree neighborhood) = false)
        neighborhoods ->
      TreeRecord.neighborhood tree = "Unknown")
  /\ (Exists (fun neighborhood =>
                Num.isFinite (areaDistance tree neighborhood) = true)
        neighborhoods ->
      exists neighborhood,
        neighborhood ∈ neighborhoods
        /\ Num.isFinite (areaDistance tree neighborhood) = true
        /\ TreeRecord.neighborhood tree = NeighborhoodRecord.name neighborhood
        /\ Forall
             (fun other =>
                Num.isFinite (areaDistance tree other) = true ->
                numLe (areaDistance tree neighborhood) (areaDistance tree other))
             neighborhoods).
Proof.
  intros H.
  apply parseTreeData_source in H as (headers & line & raw & d & Hline & _ & ->).
  apply parseTreeLine_matches in Hline as [Hname Hscore]. cbn zeta in Hname, Hscore.
  unfold areaDistance.
  cbn [assignAccessibilityScore TreeRecord.setAccessibilityScore
       TreeRecord.setTreeFriendsScore TreeRecord.neighborhood
       TreeRecord.affordabilityScore TreeRecord.latitude TreeRecord.longitude].
  set (lat := TreeRecord.latitude raw) in *.
  set (lng := TreeRecord.longitude raw) in *.
  set (matches := getClosestNeighborhoodMatches lat lng neighborhoods
                    rentLookup NEAREST_NEIGHBOR_COUNT) in *.
  destruct (getClosestNeighborhoodMatches_nearest lat lng neighborhoods
              rentLookup NEAREST_NEIGHBOR_COUNT) as (Hfrom & Hlen & Hfirst).
  fold matches in Hfrom, Hlen, Hfirst.
  split; [|split].
  - intros Hshort. rewrite Hscore, calculateExpectedRent_short; [reflexivity|].
    pose proof (areaDistances_length lat lng neighborhoods). lia.
  - intros Hnone. rewrite (areaDistances_none _ _ _ Hnone) in Hlen.
    rewrite Nat.min_0_r in Hlen. rewrite Hname.
    destruct matches; [reflexivity | discriminate].
  - intros Hsome.
    assert (Hnonempty : (0 < length (areaDistances lat lng neighborhoods))%nat).
    { apply Exists_exists in Hsome as (nb & Hnb & Hfin).
      pose proof (areaDistances_elem lat lng neighborhoods nb Hnb Hfin) as Hin.
      destruct (areaDistances _ _ _); [apply elem_of_nil in Hin; destruct Hin|].
      cbn. lia. }
    destruct matches as [|first rest] eqn:Em.
    { cbn [length] in Hlen. unfold NEAREST_NEIGHBOR_COUNT in Hlen. lia. }
    pose proof (getClosestNeighborhoodMatches_finite lat lng neighborhoods rentLookup
                  NEAREST_NEIGHBOR_COUNT first) as Hfin.
    fold matches in Hfin. rewrite Em in Hfin. specialize (Hfin ltac:(left)).
    apply Forall_cons in Hfrom as [(nb & Hnb & Hm) _].
    exists nb. split; [exact Hnb|]. rewrite Hm in Hfin, Hfirst.
    split; [exact Hfin|]. split.
    + rewrite Hname. cbn. rewrite Hm. reflexivity.
    + apply Forall_forall. intros other Hother Hofin.
      exact (proj1 (Forall_forall _ _) Hfirst _
               (areaDistances_elem lat lng neighborhoods other Hother Hofin)).
Qed.

End NeighborhoodLabel.

(** X9. In the finalized collection the area named on a record is one of
    the given areas at a finite distance from the record, and no other area
    at a finite distance is nearer; a record from which no area is at a
    finite distance, as when no area is given, is named ["Unknown"]; and
    with fewer than three areas its scalar score is null. *)
Theorem neighborhood_is_nearest_area :
  forall (Number : string -> number) (csvData : string)
         (neighborhoods : list NeighborhoodRecord.t)
         (rentLookup : gmap propertyValue number) (tree : TreeRecord.t),
    In tree (parseTreeData Number csvData neighborhoods rentLookup) ->
    ((length neighborhoods < 3)%nat -> TreeRecord.affordabilityScore tree = None)
    /\ (Forall (fun neighborhood =>
                  Num.isFinite (areaDistance tree neighborhood) = false)
          neighborhoods ->
        TreeRecord.neighborhood tree = "Unknown")
    /\ (Exists (fun neighborhood =>
                  Num.isFinite (areaDistance tree neighborhood) = true)
          neighborhoods ->
        exists neighborhood,
          neighborhood ∈ neighborhoods
          /\ Num.isFinite (areaDistance tree neighborhood) = true
          /\ TreeRecord.neighborhood tree = NeighborhoodRecord.name neighborhood
          /\ Forall
               (fun other =>
                  Num.isFinite (areaDistance tree other) = true ->
                  numLe (areaDistance tree neighborhood) (areaDistance tree other))
               neighborhoods).
Proof. exact parseTreeData_label. Qed.

Lemma neighborhood_is_nearest_area_witness :
  exists tree,
    In tree (parseTreeData sampleNumber (sampleCsv "Alive") [sampleArea] ∅)
    /\ TreeRecord.affordabilityScore tree = None
    /\ exists neighborhood,
         neighborhood ∈ [sampleArea]
         /\ Num.isFinite (areaDistance tree neighborhood) = true
         /\ TreeRecord.neighborhood tree = NeighborhoodRecord.name neighborhood
         /\ Forall
              (fun other =>
                 Num.isFinite (areaDistance tree other) = true ->
                 numLe (areaDistance tree neighborhood) (areaDistance tree other))
              [sampleArea].
Proof.
  destruct (parseTreeLine sampleNumber [sampleArea] ∅
              (parseCsvLine "latitude,longitude,status") "0,0,Alive")
    as [raw|] eqn:Eraw; [|vm_compute in Eraw; discriminate].
  assert (Hin : In (assignAccessibilityScore
                      (TreeRecord.setTreeFriendsScore raw (Fin 10)))
                  (parseTreeData sampleNumber (sampleCsv "Alive") [sampleArea] ∅)).
  { rewrite (parseTreeData_one_row sampleNumber (sampleCsv "Alive") [sampleArea] ∅
               "latitude,longitude,status" "0,0,Alive" raw);
      [left; reflexivity | vm_compute; reflexivity | exact Eraw]. }
  eexists. split; [exact Hin|].
  destruct (neighborhood_is_nearest_area sampleNumber (sampleCsv "Alive")
              [sampleArea] ∅ _ Hin) as (Hshort & _ & Hnear).
  split.
  - apply Hshort. cbn. lia.
  - apply Hnear. constructor.
    pose proof (parseTreeLine_fresh sampleNumber _ _ _ _ _ Eraw) as (Hlat & Hlng & _).
    unfold areaDistance, sampleArea.
    cbn [assignAccessibilityScore TreeRecord.setAccessibilityScore
         TreeRecord.setTreeFriendsScore TreeRecord.latitude TreeRecord.longitude
         NeighborhoodRecord.latitude NeighborhoodRecord.longitude].
    apply isFinite_Fin in Hlat as [lat ->].
    apply isFinite_Fin in Hlng as [lng ->].
    rewrite getDistanceInMeters_Fin. reflexivity.
Defined.

(** ** Rows, named areas and the rent table *)

Section RowLookup.
Local Open Scope list_scope.

Lemma rowOf_snoc headers header values :
  rowOf (headers ++ [header]) values
  = if (header =? "__proto__")%string then rowOf headers values
    else <[header := default EmptyString (values !! length headers)]>
           (rowOf headers values).
Proof.
  unfold rowOf. rewrite imap_app, foldl_app. cbn.
  rewrite Nat.add_0_r. reflexivity.
Qed.

Lemma rowOf_absent headers values key :
  key ∉ headers -> rowOf headers values !! key = None.
Proof.
  induction headers as [|header headers IH] using rev_ind; intros Hnot.
  - apply lookup_empty.
  - rewrite rowOf_snoc. rewrite not_elem_of_app in Hnot. destruct Hnot as [Hnot Hne].
    destruct (header =? "__proto__")%string; [apply IH, Hnot|].
    rewrite lookup_insert_ne; [apply IH, Hnot|].
    intros ->. apply Hne. left.
Qed.

(** Nothing is stored under the header [__proto__]. *)
Lemma rowOf_proto headers values : rowOf headers values !! "__proto__" = None.
Proof.
  induction headers as [|header headers IH] using rev_ind.
  - apply lookup_empty.
  - rewrite rowOf_snoc. destruct (header =? "__proto__")%string eqn:E; [exact IH|].
    rewrite lookup_insert_ne; [exact IH|].
    intros ->. discriminate.
Qed.

Lemma rowOf_last headers values key index :
  key <> "__proto__" ->
  headers !! index = Some key ->
  (forall later, (index < later)%nat -> headers !! later <> Some key) ->
  rowOf headers values !! key = Some (default EmptyString (values !! index)).
Proof.
  intros Hkey. revert index. induction headers as [|header headers IH] using rev_ind;
    intros index Hindex Hlast; [discriminate|].
  rewrite rowOf_snoc.
  destruct (decide (index = length headers)) as [-> | Hne].
  - rewrite lookup_app_r, Nat.sub_diag in Hindex by lia.
    injection Hindex as ->.
    replace (key =? "__proto__")%string with false
      by (symmetry; apply String.eqb_neq; exact Hkey).
    rewrite lookup_insert_eq. reflexivity.
  - assert (Hlt : (index < length headers)%nat).
    { apply lookup_lt_Some in Hindex. rewrite length_app in Hindex. cbn in Hindex. lia. }
    rewrite lookup_app_l in Hindex by exact Hlt.
    assert (Hrest : rowOf headers values !! key
                    = Some (default EmptyString (values !! index))).
    { apply IH; [exact Hindex|]. intros later Hlater Heq.
      apply (Hlast later Hlater).
      rewrite lookup_app_l by (apply lookup_lt_Some in Heq; exact Heq). exact Heq. }
    destruct (header =? "__proto__")%string; [exact Hrest|].
    rewrite lookup_insert_ne; [exact Hrest|].
    intros ->. apply (Hlast (length headers) Hlt).
    rewrite lookup_app_r, Nat.sub_diag by lia. reflexivity.
Qed.

(** The names that the loaders read from a row. *)
Lemma row_names_are_own name :
  name ∈ ["latitude"; "longitude"; "tree_id"; "status"; "sidewalk"; "problems";
          "spc_common"; "name"] ->
  name ∉ OBJECT_PROTOTYPE_NAMES.
Proof.
  intros Hin.
  repeat (apply elem_of_cons in Hin as [-> | Hin];
          [apply (bool_decide_unpack _); vm_compute; exact I|]).
  apply elem_of_nil in Hin. destruct Hin.
Qed.

(** X10. A read of the row built from a header line and the values of a
    data line returns, under a header name other than [__proto__], the
    value at the position of the last column of that name, the empty string
    when the data line is too short to have that position; nothing is
    stored under a header [__proto__]; a name that is no header, or is
    [__proto__], reads the object inherited from [Object.prototype] when it
    is one of its names and [undefined] otherwise; so that each of the
    eight names that the loaders read returns its own column or
    [undefined]. *)
Theorem row_lookup_by_header :
  forall (headers values : list string) (key : string),
    (forall index,
        key <> "__proto__" ->
        headers !! index = Some key ->
        (forall later, (index < later)%nat -> headers !! later <> Some key) ->
        getProperty (rowOf headers values) key
        = Some (Text (default EmptyString (values !! index))))
    /\ (key ∉ headers \/ key = "__proto__" ->
        getProperty (rowOf headers values) key
        = if bool_decide (key ∈ OBJECT_PROTOTYPE_NAMES) then Some (Inherited key)
          else None)
    /\ (key ∈ ["latitude"; "longitude"; "tree_id"; "status"; "sidewalk"; "problems";
               "spc_common"; "name"] ->
        getProperty (rowOf headers values) key = Text <$> rowOf headers values !! key).
Proof.
  intros headers values key. split; [|split].
  - intros index Hkey Hindex Hlast. unfold getProperty.
    rewrite (rowOf_last headers values key index Hkey Hindex Hlast). reflexivity.
  - intros [Hnot | ->]; unfold getProperty.
    + rewrite rowOf_absent by exact Hnot. reflexivity.
    + rewrite rowOf_proto. reflexivity.
  - intros Hin. apply row_names_are_own in Hin. unfold getProperty.
    destruct (rowOf headers values !! key); [reflexivity|].
    rewrite bool_decide_eq_false_2 by exact Hin. reflexivity.
Qed.

Lemma row_lookup_by_header_witness :
  getProperty (rowOf ["name"; "latitude"; "name"; "__proto__"]
                 ["SoHo"; "40.7"]) "name"
  = Some (Text EmptyString)
  /\ getProperty (rowOf ["name"; "latitude"; "name"; "__proto__"]
                    ["SoHo"; "40.7"]) "__proto__"
     = Some (Inherited "__proto__")
  /\ getProperty (rowOf ["name"; "latitude"; "name"; "__proto__"]
                    ["SoHo"; "40.7"]) "longitude"
     = None
  /\ getProperty (rowOf ["name"; "latitude"; "name"; "__proto__"]
                    ["SoHo"; "40.7"]) "latitude"
     = Text <$> rowOf ["name"; "latitude"; "name"; "__proto__"]
                  ["SoHo"; "40.7"] !! "latitude".
Proof.
  split; [|split; [|split]].
  - apply (proj1 (row_lookup_by_header ["name"; "latitude"; "name"; "__proto__"]
                    ["SoHo"; "40.7"] "name") 2%nat);
      [discriminate | reflexivity |].
    intros [|[|[|[|later]]]] Hlater; (lia || discriminate).
  - apply (proj1 (proj2 (row_lookup_by_header ["name"; "latitude"; "name"; "__proto__"]
                           ["SoHo"; "40.7"] "__proto__"))).
    right. reflexivity.
  - apply (proj1 (proj2 (row_lookup_by_header ["name"; "latitude"; "name"; "__proto__"]
                           ["SoHo"; "40.7"] "longitude"))).
    left. apply (bool_decide_unpack _). vm_compute. exact I.
  - apply (proj2 (proj2 (row_lookup_by_header ["name"; "latitude"; "name"; "__proto__"]
                           ["SoHo"; "40.7"] "latitude"))).
    apply (bool_decide_unpack _). vm_compute. exact I.
Defined.

End RowLookup.

Section NamedAreas.
Import NumFacts.
Local Open Scope list_scope.
Variable Number : string -> number.

Lemma normalizeNeighborhoodName_truthy value :
  Str.truthy (normalizeNeighborhoodName value) = true.
Proof.
  unfold normalizeNeighborhoodName, Str.orElse. cbn zeta.
  destruct (Str.truthy (Str.trim (Str.collapseWhiteSpace value))) eqn:E;
    [exact E | reflexivity].
Qed.

Lemma length_omap_le {A B} (f : A -> option B) (l : list A) :
  (length (omap f l) <= length l)%nat.
Proof.
  induction l as [|x l IH]; cbn; [lia|]. destruct (f x); cbn; lia.
Qed.

Lemma parseNeighborhoodLine_area headers line neighborhood :
  parseNeighborhoodLine Number headers line = Some neighborhood ->
  finiteArea neighborhood
  /\ normalizeNeighborhoodName (NeighborhoodRecord.name neighborhood)
     = NeighborhoodRecord.name neighborhood
  /\ NeighborhoodRecord.name neighborhood <> EmptyString.
Proof.
  unfold parseNeighborhoodLine. cbn zeta.
  destruct (Num.isFinite (numberOf Number (rowOf headers (parseCsvLine line) !! "latitude")))
    eqn:Elat; [|discriminate].
  destruct (Num.isFinite (numberOf Number (rowOf headers (parseCsvLine line) !! "longitude")))
    eqn:Elng; [|discriminate].
  cbn [negb orb]. intros [= <-]. unfold finiteArea.
  cbn [NeighborhoodRecord.latitude NeighborhoodRecord.longitude NeighborhoodRecord.name].
  split; [split; assumption|]. split; [apply normalizeNeighborhoodName_idem|].
  intros H.
  pose proof (normalizeNeighborhoodName_truthy
                (default EmptyString (rowOf headers (parseCsvLine line) !! "name")))
    as Ht.
  rewrite H in Ht. discriminate.
Qed.

Lemma parseNeighborhoodLine_plain name latitude longitude :
  countChar quoteChar name = 0%nat -> countChar commaChar name = 0%nat ->
  countChar quoteChar latitude = 0%nat -> countChar commaChar latitude = 0%nat ->
  countChar quoteChar longitude = 0%nat -> countChar commaChar longitude = 0%nat ->
  parseNeighborhoodLine Number (parseCsvLine "name,latitude,longitude")
    (joinFields [name; latitude; longitude])
  = if Num.isFinite (Number latitude) && Num.isFinite (Number longitude)
    then Some (NeighborhoodRecord.mk (normalizeNeighborhoodName name)
                 (Number latitude) (Number longitude))
    else None.
Proof.
  intros Hn Hn' Hla Hla' Hlo Hlo'.
  assert (Hvalues : parseCsvLine (joinFields [name; latitude; longitude])
                    = [name; latitude; longitude]).
  { unfold parseCsvLine.
    rewrite (parseCsvLoop_plain_fields [name; latitude; longitude] [])
      by (discriminate || (repeat constructor; assumption)).
    reflexivity. }
  assert (Hrow : rowOf ["name"; "latitude"; "longitude"] [name; latitude; longitude]
                 = <["longitude" := longitude]>
                     (<["latitude" := latitude]>
                        (<["name" := name]> (∅ : gmap string string))))
    by reflexivity.
  unfold parseNeighborhoodLine. cbn zeta.
  change (parseCsvLine "name,latitude,longitude")
    with ["name"; "latitude"; "longitude"].
  rewrite Hvalues, Hrow.
  rewrite (lookup_insert_ne _ "longitude" "latitude") by discriminate.
  rewrite !lookup_insert_eq.
  rewrite !(lookup_insert_ne _ _ "name"), lookup_insert_eq by discriminate.
  cbn [numberOf default id].
  destruct (Num.isFinite (Number latitude)), (Num.isFinite (Number longitude));
    reflexivity.
Qed.

Lemma parseNeighborhoodData_areas csvData :
  Forall
    (fun neighborhood =>
       finiteArea neighborhood
       /\ normalizeNeighborhoodName (NeighborhoodRecord.name neighborhood)
          = NeighborhoodRecord.name neighborhood
       /\ NeighborhoodRecord.name neighborhood <> EmptyString)
    (parseNeighborhoodData Number csvData).
Proof.
  unfold parseNeighborhoodData. cbn zeta.
  destruct (length (nonEmptyLines csvData) <=? 1)%nat; [constructor|].
  apply Forall_forall. intros neighborhood H.
  apply list_elem_of_omap in H as (line & _ & Hline).
  eapply parseNeighborhoodLine_area, Hline.
Qed.

End NamedAreas.

(** X11. Every area returned by [parseNeighborhoodData] has finite
    coordinates and a name that is not empty and is its own normal form;
    there are at most as many areas as non-empty lines after the header
    line, so none for an empty or header-only text.  Under the header
    [name,latitude,longitude] a line of three plain fields yields the area
    of the normalized name and the two converted numbers when both are
    finite, and no area otherwise. *)
Theorem named_areas_are_well_formed :
  forall (Number : string -> number) (csvData : string),
    Forall
      (fun neighborhood =>
         finiteArea neighborhood
         /\ normalizeNeighborhoodName (NeighborhoodRecord.name neighborhood)
            = NeighborhoodRecord.name neighborhood
         /\ NeighborhoodRecord.name neighborhood <> EmptyString)
      (parseNeighborhoodData Number csvData)
    /\ (length (parseNeighborhoodData Number csvData)
        <= length (nonEmptyLines csvData) - 1)%nat
    /\ (forall name latitude longitude,
          countChar quoteChar name = 0%nat -> countChar commaChar name = 0%nat ->
          countChar quoteChar latitude = 0%nat ->
          countChar commaChar latitude = 0%nat ->
          countChar quoteChar longitude = 0%nat ->
          countChar commaChar longitude = 0%nat ->
          parseNeighborhoodLine Number (parseCsvLine "name,latitude,longitude")
            (joinFields [name; latitude; longitude])
          = if Num.isFinite (Number latitude) && Num.isFinite (Number longitude)
            then Some (NeighborhoodRecord.mk (normalizeNeighborhoodName name)
                         (Number latitude) (Number longitude))
            else None).
Proof.
  intros Number csvData. split; [|split].
  - apply parseNeighborhoodData_areas.
  - unfold parseNeighborhoodData. cbn zeta.
    destruct (length (nonEmptyLines csvData) <=? 1)%nat; [cbn; lia|].
    etransitivity; [apply length_omap_le|]. rewrite length_drop. reflexivity.
  - apply parseNeighborhoodLine_plain.
Qed.

Lemma named_areas_are_well_formed_witness :
  parseNeighborhoodLine sampleRent (parseCsvLine "name,latitude,longitude")
    (joinFields ["  Upper   West Side "; "3000"; "4000"])
  = if Num.isFinite (sampleRent "3000") && Num.isFinite (sampleRent "4000")
    then Some (NeighborhoodRecord.mk
                 (normalizeNeighborhoodName "  Upper   West Side ")
                 (sampleRent "3000") (sampleRent "4000"))
    else None.
Proof.
  apply (proj2 (proj2 (named_areas_are_well_formed sampleRent EmptyString)));
    reflexivity.
Defined.

Section RentTable.
Import NumFacts.
Local Open Scope list_scope.
Variable Number : string -> number.

Lemma parseRentLine_lookup nameIndex rentIndex rentLookup line key :
  parseRentLine Number nameIndex rentIndex rentLookup line !! key
  = if storesRent Number nameIndex rentIndex key line
    then Some (rentValueOf Number rentIndex line)
    else rentLookup !! key.
Proof.
  unfold parseRentLine, storesRent. cbn zeta.
  fold (rentKeyOf nameIndex line). fold (rentValueOf Number rentIndex line).
  destruct (truthyValue (rentKeyOf nameIndex line)) eqn:Et;
    destruct (Num.isFinite (rentValueOf Number rentIndex line)) eqn:Ef;
    cbn [negb orb andb]; rewrite ?andb_false_r; try reflexivity.
  destruct (bool_decide (rentKeyOf nameIndex line = key)) eqn:Ek; cbn [andb].
  - apply bool_decide_eq_true in Ek. rewrite Ek. apply lookup_insert_eq.
  - apply bool_decide_eq_false in Ek. apply lookup_insert_ne, Ek.
Qed.

Lemma foldl_parseRentLine_none nameIndex rentIndex key lines :
  Forall (fun line => storesRent Number nameIndex rentIndex key line = false) lines ->
  forall rentLookup,
    foldl (parseRentLine Number nameIndex rentIndex) rentLookup lines !! key
    = rentLookup !! key.
Proof.
  induction 1 as [|line lines Hline _ IH]; intros rentLookup; [reflexivity|].
  cbn [foldl]. rewrite IH, parseRentLine_lookup, Hline. reflexivity.
Qed.

Lemma foldl_parseRentLine_last nameIndex rentIndex key before line after rentLookup :
  storesRent Number nameIndex rentIndex key line = true ->
  Forall (fun line => storesRent Number nameIndex rentIndex key line = false) after ->
  foldl (parseRentLine Number nameIndex rentIndex) rentLookup
    (before ++ line :: after) !! key
  = Some (rentValueOf Number rentIndex line).
Proof.
  intros Hline Hafter. rewrite foldl_app. cbn [foldl].
  rewrite (foldl_parseRentLine_none _ _ _ _ Hafter), parseRentLine_lookup, Hline.
  reflexivity.
Qed.

(** What every entry of the table satisfies. *)
Lemma foldl_parseRentLine_entry nameIndex rentIndex key rent lines :
  forall rentLookup,
    foldl (parseRentLine Number nameIndex rentIndex) rentLookup lines !! key
    = Some rent ->
    rentLookup !! key = Some rent
    \/ (Num.isFinite rent = true /\ truthyValue key = true
        /\ exists name, normalizeRentKey name = key).
Proof.
  induction lines as [|line lines IH]; intros rentLookup H; [left; exact H|].
  cbn [foldl] in H. apply IH in H as [H | H]; [|right; exact H].
  rewrite parseRentLine_lookup in H. unfold storesRent in H.
  destruct (bool_decide (rentKeyOf nameIndex line = key)) eqn:Ek; [|left; exact H].
  destruct (truthyValue (rentKeyOf nameIndex line)) eqn:Et; [|left; exact H].
  destruct (Num.isFinite (rentValueOf Number rentIndex line)) eqn:Ef;
    [|left; exact H].
  cbn [andb] in H. injection H as <-. apply bool_decide_eq_true in Ek. subst key.
  right. split; [exact Ef|]. split; [exact Et|].
  eexists. unfold rentKeyOf. reflexivity.
Qed.

Lemma parseRentData_entry csvData key rent :
  parseRentData Number csvData !! key = Some rent ->
  Num.isFinite rent = true /\ truthyValue key = true
  /\ exists name, normalizeRentKey name = key.
Proof.
  unfold parseRentData. cbn zeta.
  destruct (length (nonEmptyLines csvData) <=? 1)%nat;
    [rewrite lookup_empty; discriminate|].
  destruct (findIndex _ _) as [nameIndex|]; [|rewrite lookup_empty; discriminate].
  destruct (findIndex _ _) as [rentIndex|]; [|rewrite lookup_empty; discriminate].
  intros H. apply foldl_parseRentLine_entry in H as [H | H]; [|exact H].
  rewrite lookup_empty in H. discriminate.
Qed.

Lemma findIndexFrom_None {A} (test : A -> bool) index l :
  Forall (fun x => test x = false) l -> findIndexFrom test index l = None.
Proof.
  intros H. revert index. induction H as [|x l Hx _ IH]; intros index;
    [reflexivity|].
  cbn [findIndexFrom]. rewrite Hx. apply IH.
Qed.

Lemma parseRentData_lines csvData header lines nameIndex rentIndex :
  nonEmptyLines csvData = header :: lines -> lines <> [] ->
  findIndex (fun header => Str.toLowerCase header =? "areaname") (parseCsvLine header)
  = Some nameIndex ->
  findIndex (fun header => Str.toLowerCase header =? "rent") (parseCsvLine header)
  = Some rentIndex ->
  parseRentData Number csvData
  = foldl (parseRentLine Number nameIndex rentIndex) ∅ lines.
Proof.
  intros Hl Hne Hn Hr. unfold parseRentData. cbn zeta. rewrite Hl.
  cbn [nth drop]. rewrite Hn, Hr.
  destruct lines; [contradiction | reflexivity].
Qed.

End RentTable.

(** X12. Every entry of the table built by [parseRentData] has a finite
    rent and a key that [normalizeRentKey] returns for some name, so that
    [getNeighborhoodRent] finds the entry under that name.  A key that is a
    string is not empty and is its own normal form, so that the entry is
    found under the key itself; a key that is no string is the object
    inherited from [Object.prototype] under [constructor] or [__proto__].
    The table is empty when the text has at most one non-empty line and
    when its header has no [areaName] column or no [rent] column, whatever
    the case of the header names. *)
Theorem rent_table_is_well_formed :
  forall (Number : string -> number) (csvData : string),
    (forall key rent,
        parseRentData Number csvData !! key = Some rent ->
        Num.isFinite rent = true
        /\ (exists name,
              normalizeRentKey name = key
              /\ getNeighborhoodRent name (parseRentData Number csvData) = Some rent)
        /\ match key with
           | Text text =>
               text <> EmptyString
               /\ normalizeRentKey text = Text text
               /\ getNeighborhoodRent text (parseRentData Number csvData) = Some rent
           | Inherited name => name = "constructor" \/ name = "__proto__"
           end)
    /\ ((length (nonEmptyLines csvData) <= 1)%nat -> parseRentData Number csvData = ∅)
    /\ (let headers := parseCsvLine (nth 0 (nonEmptyLines csvData) EmptyString) in
        Forall (fun header => Str.toLowerCase header <> "areaname") headers
        \/ Forall (fun header => Str.toLowerCase header <> "rent") headers ->
        parseRentData Number csvData = ∅).
Proof.
  intros Number csvData. split; [|split].
  - intros key rent H.
    destruct (parseRentData_entry Number csvData key rent H) as (Hf & Ht & name & Hk).
    split; [exact Hf|]. split.
    + exists name. split; [exact Hk|].
      unfold getNeighborhoodRent. cbn zeta. rewrite Hk, Ht. exact H.
    + destruct key as [text|inherited].
      * pose proof (normalizeRentKey_text name text Hk) as Hfix.
        split; [intros ->; discriminate|]. split; [exact Hfix|].
        unfold getNeighborhoodRent. cbn zeta. rewrite Hfix, Ht. exact H.
      * exact (proj2 (normalizeRentKey_inherited name inherited Hk)).
  - intros H. unfold parseRentData. cbn zeta.
    apply Nat.leb_le in H. rewrite H. reflexivity.
  - intros headers H. unfold parseRentData. cbn zeta. fold headers.
    destruct (length (nonEmptyLines csvData) <=? 1)%nat; [reflexivity|].
    destruct H as [H | H].
    + unfold findIndex at 1. rewrite findIndexFrom_None; [reflexivity|].
      eapply Forall_impl; [exact H|]. intros header Hne.
      apply String.eqb_neq, Hne.
    + destruct (findIndex _ headers); [|reflexivity].
      unfold findIndex. rewrite findIndexFrom_None; [reflexivity|].
      eapply Forall_impl; [exact H|]. intros header Hne.
      apply String.eqb_neq, Hne.
Qed.

Lemma rent_table_is_well_formed_witness :
  ("soho" <> EmptyString
   /\ normalizeRentKey "soho" = Text "soho"
   /\ getNeighborhoodRent "soho" (parseRentData sampleRent sampleRentCsv)
      = Some (Fin 4000))
  /\ parseRentData sampleRent "areaName,rent" = ∅
  /\ parseRentData sampleRent ("areaName,price" ++ String LF "SoHo,3000") = ∅.
Proof.
  split; [|split].
  - apply (proj2 (proj2 (proj1 (rent_table_is_well_formed sampleRent sampleRentCsv)
                           (Text "soho") (Fin 4000) ltac:(vm_compute; reflexivity)))).
  - apply (proj1 (proj2 (rent_table_is_well_formed sampleRent "areaName,rent"))).
    vm_compute. lia.
  - apply (proj2 (proj2 (rent_table_is_well_formed sampleRent
                           ("areaName,price" ++ String LF "SoHo,3000")))).
    right. vm_compute. repeat constructor; discriminate.
Defined.

(** X13. In a table whose header has the two columns, the rent found for a
    name is the value of the last data line that stores a rent under the
    key of that name (a line stores a rent when its key is not empty and
    its value converts to a finite number); lines that follow and store
    nothing under that key do not change it, and a key under which no line
    stores a rent has no rent. *)
Theorem rent_lookup_last_row_wins :
  forall (Number : string -> number) (csvData header : string)
         (lines : list string) (nameIndex rentIndex : nat) (name : string),
    nonEmptyLines csvData = header :: lines -> lines <> [] ->
    findIndex (fun header => Str.toLowerCase header =? "areaname")
      (parseCsvLine header) = Some nameIndex ->
    findIndex (fun header => Str.toLowerCase header =? "rent")
      (parseCsvLine header) = Some rentIndex ->
    let stores := storesRent Number nameIndex rentIndex (normalizeRentKey name) in
    (forall before line after,
        lines = (before ++ line :: after)%list ->
        stores line = true ->
        Forall (fun later => stores later = false) after ->
        getNeighborhoodRent name (parseRentData Number csvData)
        = Some (rentValueOf Number rentIndex line))
    /\ (Forall (fun line => stores line = false) lines ->
        getNeighborhoodRent name (parseRentData Number csvData) = None).
Proof.
  intros Number csvData header lines nameIndex rentIndex name Hl Hne Hn Hr stores.
  rewrite (parseRentData_lines Number csvData header lines nameIndex rentIndex
             Hl Hne Hn Hr).
  unfold getNeighborhoodRent. cbn zeta. split.
  - intros before line after -> Hline Hafter.
    assert (Ht : truthyValue (normalizeRentKey name) = true).
    { unfold stores, storesRent in Hline.
      apply andb_true_iff in Hline as [Hline _].
      apply andb_true_iff in Hline as [Hk Ht].
      apply bool_decide_eq_true in Hk. rewrite <- Hk. exact Ht. }
    rewrite Ht. cbn [negb].
    apply foldl_parseRentLine_last; assumption.
  - intros Hnone. destruct (negb _); [reflexivity|].
    rewrite (foldl_parseRentLine_none Number nameIndex rentIndex _ lines Hnone).
    apply lookup_empty.
Qed.

Lemma rent_lookup_last_row_wins_witness :
  getNeighborhoodRent "  SOHO" (parseRentData sampleRent sampleRentCsv)
  = Some (rentValueOf sampleRent 1 " soho ,4000")
  /\ getNeighborhoodRent "Tribeca" (parseRentData sampleRent sampleRentCsv) = None.
Proof.
  assert (Hlines : nonEmptyLines sampleRentCsv
                   = ["areaName,rent"; "Tribeca,n/a"; "SoHo,3000"; " soho ,4000"])
    by (vm_compute; reflexivity).
  split.
  - apply (proj1 (rent_lookup_last_row_wins sampleRent sampleRentCsv "areaName,rent"
                    ["Tribeca,n/a"; "SoHo,3000"; " soho ,4000"] 0 1 "  SOHO"
                    Hlines ltac:(discriminate) eq_refl eq_refl)
             ["Tribeca,n/a"; "SoHo,3000"] " soho ,4000" [] eq_refl);
      [vm_compute; reflexivity | constructor].
  - apply (proj2 (rent_lookup_last_row_wins sampleRent sampleRentCsv "areaName,rent"
                    ["Tribeca,n/a"; "SoHo,3000"; " soho ,4000"] 0 1 "Tribeca"
                    Hlines ltac:(discriminate) eq_refl eq_refl)).
    repeat constructor.
Defined.

Section RentKeys.






End RentKeys.



(** ** The lines of the tooltip *)

Section TooltipLines.
Local Open Scope list_scope.

Lemma dead_not_healthy tree :
  Str.toLowerCase (Str.trim (TreeRecord.status tree)) = "dead" ->
  calculateHealthScore tree <> 3%nat.
Proof.
  intros Hdead.
  assert (Halive : (Str.toLowerCase (TreeRecord.status tree) =? "alive") = false).
  { apply String.eqb_neq. intros Ealive.
    rewrite <- StrFacts.trim_toLowerCase, Ealive in Hdead. discriminate. }
  unfold calculateHealthScore. cbn zeta. rewrite Halive. cbn [negb].
  destruct (_ || _); [lia|].
  destruct (negb (Str.toLowerCase (TreeRecord.sidewalk tree) =? "nodamage"));
    destruct (Str.truthy (TreeRecord.problems tree)
              && negb (Str.toLowerCase (Str.trim (TreeRecord.problems tree))
                       =? "none"));
    cbn; lia.
Qed.

Lemma shouldShowProblems_health tree :
  shouldShowProblems tree = negb (calculateHealthScore tree =? 3)%nat.
Proof.
  unfold shouldShowProblems.
  destruct (Str.toLowerCase (Str.trim (TreeRecord.status tree)) =? "dead") eqn:E;
    [|reflexivity].
  apply String.eqb_eq, dead_not_healthy in E.
  apply Nat.eqb_neq in E. rewrite E. reflexivity.
Qed.

Lemma formatProblems_nonempty tree :
  formatProblems tree <> EmptyString
  /\ Str.trim (formatProblems tree) = formatProblems tree.
Proof.
  unfold formatProblems. cbn zeta.
  destruct (Str.truthy (Str.trim (TreeRecord.problems tree))) eqn:Ep;
    destruct (negb (Str.toLowerCase (Str.trim (TreeRecord.problems tree)) =? "none"));
    cbn [andb];
    try (split; [intros H; rewrite H in Ep; discriminate | apply StrFacts.trim_idem]);
    destruct (Str.truthy (Str.trim (TreeRecord.sidewalk tree))) eqn:Es;
    destruct (negb (Str.toLowerCase (Str.trim (TreeRecord.sidewalk tree))
                    =? "nodamage"));
    cbn [andb];
    try (split; [intros H; rewrite H in Es; discriminate | apply StrFacts.trim_idem]);
    (split; [discriminate | reflexivity]).
Qed.

End TooltipLines.

(** X15. The tooltip of a record has its eight fixed lines, followed by a
    ninth line about problems exactly when the health score of the record
    is not 3.  For a dead record that line is ["Problems:"] with the suffix
    ["dead"]; for any other record it is ["Problems: "] followed by a text
    that is never empty and has no white space around it. *)
Theorem tooltip_problems_line :
  forall (toFixed : number -> nat -> string) (tree : TreeRecord.t),
    let lines := getTreeTooltipContent toFixed tree in
    shouldShowProblems tree = negb (calculateHealthScore tree =? 3)%nat
    /\ length lines = (if (calculateHealthScore tree =? 3)%nat then 8 else 9)%nat
    /\ (Str.toLowerCase (Str.trim (TreeRecord.status tree)) = "dead" ->
        lines !! 8%nat = Some (TooltipLine.mk "Problems:" (Some "dead")))
    /\ (Str.toLowerCase (Str.trim (TreeRecord.status tree)) <> "dead" ->
        calculateHealthScore tree <> 3%nat ->
        lines !! 8%nat
        = Some (TooltipLine.mk ("Problems: " ++ formatProblems tree) None))
    /\ formatProblems tree <> EmptyString
    /\ Str.trim (formatProblems tree) = formatProblems tree.
Proof.
  intros toFixed tree lines.
  split; [apply shouldShowProblems_health|].
  split; [|split; [|split; [|apply formatProblems_nonempty]]].
  - subst lines. unfold getTreeTooltipContent. cbn zeta.
    rewrite shouldShowProblems_health.
    destruct (calculateHealthScore tree =? 3)%nat; cbn [negb]; [reflexivity|].
    destruct (_ =? "dead"); reflexivity.
  - intros Hdead. subst lines. unfold getTreeTooltipContent. cbn zeta.
    rewrite shouldShowProblems_health.
    pose proof (dead_not_healthy tree Hdead) as Hh. apply Nat.eqb_neq in Hh.
    rewrite Hh. cbn [negb]. apply String.eqb_eq in Hdead. rewrite Hdead.
    reflexivity.
  - intros Hlive Hh. subst lines. unfold getTreeTooltipContent. cbn zeta.
    rewrite shouldShowProblems_health. apply Nat.eqb_neq in Hh. rewrite Hh.
    cbn [negb]. apply String.eqb_neq in Hlive. rewrite Hlive. reflexivity.
Qed.

Lemma tooltip_problems_line_witness :
  getTreeTooltipContent (fun _ _ => "0") (sampleRecord "Dead") !! 8%nat
  = Some (TooltipLine.mk "Problems:" (Some "dead"))
  /\ getTreeTooltipContent (fun _ _ => "0") (sampleRecord "Stump") !! 8%nat
     = Some (TooltipLine.mk ("Problems: " ++ formatProblems (sampleRecord "Stump"))
               None).
Proof.
  split.
  - apply (proj1 (proj2 (proj2 (tooltip_problems_line (fun _ _ => "0")
                                  (sampleRecord "Dead"))))).
    reflexivity.
  - apply (proj1 (proj2 (proj2 (proj2 (tooltip_problems_line (fun _ _ => "0")
                                         (sampleRecord "Stump")))))).
    + vm_compute. discriminate.
    + vm_compute. discriminate.
Defined.

(** ** The colour of a cell *)

Section Colour.
Import NumFacts.
Local Open Scope R_scope.

Lemma getAccessibilityColor_Fin score :
  getAccessibilityColor (Some (Fin score))
  = if Num.Rleb 8.5 score then ACCESSIBILITY_COLORS.excellent
    else if Num.Rleb 7.5 score then ACCESSIBILITY_COLORS.great
    else if Num.Rleb 4.5 score then ACCESSIBILITY_COLORS.fair
    else ACCESSIBILITY_COLORS.poor.
Proof. reflexivity. Qed.

Lemma parseTreeData_colour Number csvData neighborhoods rentLookup tree :
  In tree (parseTreeData Number csvData neighborhoods rentLookup) ->
  let colour := getAccessibilityColor (TreeRecord.accessibilityScore tree) in
  colour <> ACCESSIBILITY_COLORS.unknown
  /\ (Str.toLowerCase (TreeRecord.status tree) = "dead" ->
      colour = ACCESSIBILITY_COLORS.poor)
  /\ (Str.toLowerCase (TreeRecord.status tree) = "stump" ->
      colour <> ACCESSIBILITY_COLORS.excellent)
  /\ (colour = ACCESSIBILITY_COLORS.excellent ->
      TreeRecord.affordabilityScore tree <> None
      /\ (1 <= calculateHealthScore tree)%nat).
Proof.
  intros H colour.
  apply parseTreeData_elem in H as (raw & d & (_ & _ & (Ht & _) & Haff) & Hd & ->).
  subst colour.
  set (scored := TreeRecord.setTreeFriendsScore raw (Fin d)).
  assert (Hstatus : TreeRecord.status (assignAccessibilityScore scored)
                    = TreeRecord.status raw) by reflexivity.
  assert (Hscalar : TreeRecord.affordabilityScore (assignAccessibilityScore scored)
                    = TreeRecord.affordabilityScore raw) by reflexivity.
  assert (Hhealth : calculateHealthScore (assignAccessibilityScore scored)
                    = calculateHealthScore raw) by reflexivity.
  rewrite Hstatus, Hscalar, Hhealth.
  destruct (String.eqb_spec (Str.toLowerCase (TreeRecord.status raw)) "dead")
    as [Hdead | Hlive].
  - rewrite (assignAccessibilityScore_dead scored Hdead), getAccessibilityColor_Fin.
    replace (Num.Rleb 8.5 0) with false by (symmetry; apply Rleb_false; lra).
    replace (Num.Rleb 7.5 0) with false by (symmetry; apply Rleb_false; lra).
    replace (Num.Rleb 4.5 0) with false by (symmetry; apply Rleb_false; lra).
    repeat split; discriminate.
  - rewrite (assignAccessibilityScore_live scored d Ht Hlive eq_refl Hd).
    rewrite getAccessibilityColor_Fin.
    change (TreeRecord.affordabilityScore scored)
      with (TreeRecord.affordabilityScore raw).
    change (calculateHealthScore scored) with (calculateHealthScore raw).
    pose proof (clampedScalar_range (TreeRecord.affordabilityScore raw)) as Hs.
    pose proof (INR_health_range raw) as Hh.
    set (score := d / 10 * 4 + clampedScalar (TreeRecord.affordabilityScore raw) / 10 * 4
                  + INR (calculateHealthScore raw)) in *.
    split; [|split; [|split]].
    + destruct (Num.Rleb 8.5 score), (Num.Rleb 7.5 score), (Num.Rleb 4.5 score);
        discriminate.
    + intros Hdead. contradiction.
    + intros Hstump.
      assert (Hzero : calculateHealthScore raw = 0%nat)
        by (apply calculateHealthScore_zero; left; exact Hstump).
      replace (Num.Rleb 8.5 score) with false.
      * destruct (Num.Rleb 7.5 score), (Num.Rleb 4.5 score); discriminate.
      * symmetry. apply Rleb_false. unfold score. rewrite Hzero. simpl. lra.
    + intros Hcolour.
      destruct (Num.Rleb 8.5 score) eqn:E;
        [| destruct (Num.Rleb 7.5 score), (Num.Rleb 4.5 score); discriminate].
      apply Rleb_true in E. unfold score in E. clear score. split.
      * intros Ea. rewrite Ea in E. cbn [clampedScalar] in E. lra.
      * destruct (calculateHealthScore raw) as [|n]; [|lia].
        exfalso. change (INR 0) with 0 in E. lra.
Qed.

End Colour.

(** X16. Every record of the finalized collection has a colour other than
    the colour kept for an unknown score; a dead record has the colour of
    the lowest tier; a stump never has the colour of the highest tier; and
    a record can have the colour of the highest tier only if it has a
    scalar score and a health score of at least 1. *)
Theorem colour_of_finalized_trees :
  forall (Number : string -> number) (csvData : string)
         (neighborhoods : list NeighborhoodRecord.t)
         (rentLookup : gmap propertyValue number) (tree : TreeRecord.t),
    In tree (parseTreeData Number csvData neighborhoods rentLookup) ->
    let colour := getAccessibilityColor (TreeRecord.accessibilityScore tree) in
    colour <> ACCESSIBILITY_COLORS.unknown
    /\ (Str.toLowerCase (TreeRecord.status tree) = "dead" ->
        colour = ACCESSIBILITY_COLORS.poor)
    /\ (Str.toLowerCase (TreeRecord.status tree) = "stump" ->
        colour <> ACCESSIBILITY_COLORS.excellent)
    /\ (colour = ACCESSIBILITY_COLORS.excellent ->
        TreeRecord.affordabilityScore tree <> None
        /\ (1 <= calculateHealthScore tree)%nat).
Proof. exact parseTreeData_colour. Qed.

Lemma colour_of_finalized_trees_witness :
  let tree :=
    assignAccessibilityScore
      (TreeRecord.setTreeFriendsScore (sampleRecord "Dead") (Fin 10)) in
  getAccessibilityColor (TreeRecord.accessibilityScore tree)
  <> ACCESSIBILITY_COLORS.unknown
  /\ getAccessibilityColor (TreeRecord.accessibilityScore tree)
     = ACCESSIBILITY_COLORS.poor.
Proof.
  intros tree.
  assert (Hin : In tree (parseTreeData sampleNumber (sampleCsv "Dead") [] ∅))
    by (rewrite sample_run_dead; left; reflexivity).
  destruct (colour_of_finalized_trees sampleNumber (sampleCsv "Dead") [] ∅ tree Hin)
    as (Hknown & Hdead & _).
  split; [exact Hknown|]. apply Hdead. reflexivity.
Defined.

(** ** The size and the position of the tooltip *)

Section TooltipGeometry.
Import NumFacts.
Local Open Scope list_scope.
Local Open Scope R_scope.

Lemma getResponsiveFontSizePx_window w h document :
  getResponsiveFontSizePx
    (Browser.mk (Some (Window.mk (Fin w) (Fin h))) document)
  = Fin (Rmin (Rmax (Rmin w h * 0.015) 9) 18).
Proof.
  unfold getResponsiveFontSizePx. cbn [Browser.window Window.innerWidth Window.innerHeight].
  rewrite min_Fin. unfold TOOLTIP_FONT_SIZE_VIEWPORT_RATIO. cbn [Num.mul].
  apply clamp_Fin.
Qed.

Lemma getResponsiveFontSizePx_fallback document :
  getResponsiveFontSizePx (Browser.mk None document) = Fin 12.
Proof.
  unfold getResponsiveFontSizePx. cbn [Browser.window].
  unfold TOOLTIP_FONT_SIZE_VIEWPORT_RATIO, TOOLTIP_FONT_SIZE_MIN_PX,
    TOOLTIP_FONT_SIZE_MAX_PX. cbn [Num.mul].
  rewrite clamp_Fin, Rclamp_id by lra. f_equal. lra.
Qed.

Lemma splitNewlinesFrom_length current text :
  (1 <= length (splitNewlinesFrom current text))%nat.
Proof.
  revert current. induction text as [|char rest IH]; intros current;
    cbn [splitNewlinesFrom]; [cbn; lia|].
  destruct (char =? LF)%char; [cbn; lia | apply IH].
Qed.

Lemma splitNewlines_length text : (1 <= length (splitNewlines text))%nat.
Proof. apply splitNewlinesFrom_length. Qed.

Lemma INR_max_scale a b c :
  0 <= c -> INR (Nat.max a b) * c = Rmax (INR a * c) (INR b * c).
Proof.
  intros Hc. destruct (Nat.max_spec a b) as [[Hlt ->] | [Hle ->]].
  - rewrite Rmax_right; [reflexivity|].
    apply Rmult_le_compat_r; [exact Hc | apply le_INR; lia].
  - rewrite Rmax_left; [reflexivity|].
    apply Rmult_le_compat_r; [exact Hc | apply le_INR; lia].
Qed.

Lemma foldl_max_widths f lines : 0 <= f ->
  forall acc, 0 <= acc ->
    foldl Num.max (Fin acc)
      (((fun line => (Num.ofNat (String.length line) * Fin f * Fin 0.6)%num)
        <$> lines) ++ [Fin 0])
    = Fin (Rmax acc (INR (longestLine lines) * (f * 0.6))).
Proof.
  intros Hf. induction lines as [|line lines IH]; intros acc Hacc.
  - cbn [fmap list_fmap app foldl longestLine foldr]. rewrite max_Fin. f_equal.
    simpl. rewrite Rmult_0_l. reflexivity.
  - cbn [fmap list_fmap app foldl]. unfold Num.ofNat at 1. cbn [Num.mul].
    rewrite max_Fin.
    fold (@fmap list _ _ _
            (fun line => (Num.ofNat (String.length line) * Fin f * Fin 0.6)%num)
            lines).
    rewrite IH by (etransitivity; [exact Hacc | apply Rmax_l]).
    f_equal. unfold longestLine. cbn [fmap list_fmap foldr].
    fold (longestLine lines).
    rewrite INR_max_scale by nra.
    rewrite <- Rmax_assoc. f_equal. f_equal. lra.
Qed.

Lemma fallbackLineWidth_Fin f lines : 0 <= f ->
  maxOf (((fun line => (Num.ofNat (String.length line) * Fin f * Fin 0.6)%num)
          <$> lines) ++ [Fin 0])
  = Fin (INR (longestLine lines) * f * 0.6).
Proof.
  intros Hf. unfold maxOf. destruct lines as [|line lines].
  - cbn. f_equal. lra.
  - cbn [fmap list_fmap app foldl]. unfold Num.ofNat at 1. cbn [Num.mul Num.max Num.ltb].
    fold (@fmap list _ _ _
            (fun line => (Num.ofNat (String.length line) * Fin f * Fin 0.6)%num)
            lines).
    assert (Hw : 0 <= INR (String.length line) * f * 0.6).
    { pose proof (pos_INR (String.length line)). nra. }
    rewrite (foldl_max_widths f lines Hf _ Hw). f_equal.
    unfold longestLine. cbn [fmap list_fmap foldr]. fold (longestLine lines).
    rewrite (Rmult_assoc (INR (Nat.max _ _))), INR_max_scale by nra.
    f_equal; lra.
Qed.

Lemma textHeight_Fin f n : 0 <= f -> (1 <= n)%nat ->
  Num.max (Fin f * TOOLTIP_LINE_HEIGHT * Num.ofNat n)%num (Fin f)
  = Fin (f * 2.1 * INR n).
Proof.
  intros Hf Hn. unfold TOOLTIP_LINE_HEIGHT, Num.ofNat. cbn [Num.mul].
  rewrite max_Fin, Rmax_left; [reflexivity|].
  assert (1 <= INR n) by (replace 1 with (INR 1) by reflexivity; apply le_INR, Hn).
  nra.
Qed.

Lemma foldl_measured (measure : string -> number) lines :
  (forall line, exists m, measure line = Fin m) ->
  forall acc,
    exists M,
      foldl (fun maxWidth line => Num.max maxWidth (measure line)) (Fin acc) lines
      = Fin M
      /\ acc <= M
      /\ forall line m, line ∈ lines -> measure line = Fin m -> m <= M.
Proof.
  intros Hfin. induction lines as [|line lines IH]; intros acc.
  - exists acc. split; [reflexivity|]. split; [lra|].
    intros line m H. apply elem_of_nil in H. destruct H.
  - cbn [foldl]. destruct (Hfin line) as [m0 Hm0]. rewrite Hm0, max_Fin.
    destruct (IH (Rmax acc m0)) as (M & HM & Hacc & Hall).
    exists M. split; [exact HM|].
    pose proof (Rmax_l acc m0). pose proof (Rmax_r acc m0).
    split; [lra|]. intros line' m Hin Hm.
    apply elem_of_cons in Hin as [-> | Hin].
    + rewrite Hm0 in Hm. injection Hm as <-. lra.
    + exact (Hall line' m Hin Hm).
Qed.

Lemma measureTooltipSize_height browser cache text f px py :
  0 <= f ->
  Size.height
    (fst (measureTooltipSize browser cache text
            (TooltipMetrics.mk (Fin f) (Fin px) (Fin py))))
  = Fin (f * 2.1 * INR (length (splitNewlines text)) + py * 2)
  /\ snd (measureTooltipSize browser cache text
            (TooltipMetrics.mk (Fin f) (Fin px) (Fin py)))
     = snd (getMeasurementContext browser cache).
Proof.
  intros Hf. unfold measureTooltipSize. cbn zeta.
  cbn [TooltipMetrics.fontSizePx TooltipMetrics.paddingXPx TooltipMetrics.paddingYPx].
  rewrite (textHeight_Fin f _ Hf (splitNewlines_length text)).
  destruct (getMeasurementContext browser cache) as [[context|] cache'];
    cbn [fst snd Size.height Num.mul Num.add]; split; reflexivity.
Qed.

Lemma measureTooltipSize_fallback browser cache text f px py :
  0 <= f ->
  fst (getMeasurementContext browser cache) = None ->
  Size.width
    (fst (measureTooltipSize browser cache text
            (TooltipMetrics.mk (Fin f) (Fin px) (Fin py))))
  = Fin (INR (longestLine (splitNewlines text)) * f * 0.6 + px * 2).
Proof.
  intros Hf Hnone. unfold measureTooltipSize. cbn zeta.
  cbn [TooltipMetrics.fontSizePx TooltipMetrics.paddingXPx TooltipMetrics.paddingYPx].
  rewrite (fallbackLineWidth_Fin f _ Hf).
  destruct (getMeasurementContext browser cache) as [[context|] cache'];
    cbn [fst] in Hnone; [discriminate|].
  reflexivity.
Qed.

Lemma measureTooltipSize_without_canvas browser cache text f px py :
  0 <= f ->
  fst (getMeasurementContext browser cache) = None ->
  measureTooltipSize browser cache text (TooltipMetrics.mk (Fin f) (Fin px) (Fin py))
  = (Size.mk (Fin (INR (longestLine (splitNewlines text)) * f * 0.6 + px * 2))
       (Fin (f * 2.1 * INR (length (splitNewlines text)) + py * 2)),
     snd (getMeasurementContext browser cache)).
Proof.
  intros Hf Hnone.
  pose proof (measureTooltipSize_height browser cache text f px py Hf) as [Hh Hc].
  pose proof (measureTooltipSize_fallback browser cache text f px py Hf Hnone) as Hw.
  destruct (measureTooltipSize browser cache text _) as [[width height] cache'].
  cbn [fst snd Size.width Size.height] in Hh, Hc, Hw. subst. reflexivity.
Qed.

Lemma measureTooltipSize_measured browser cache text f px py context :
  0 <= f ->
  fst (getMeasurementContext browser cache) = Some context ->
  (forall line, exists m, CanvasContext.measureText context (Fin f) line = Fin m) ->
  exists width,
    Size.width
      (fst (measureTooltipSize browser cache text
              (TooltipMetrics.mk (Fin f) (Fin px) (Fin py))))
    = Fin width
    /\ INR (longestLine (splitNewlines text)) * f * 0.6 + px * 2 <= width
    /\ forall line m,
         line ∈ splitNewlines text ->
         CanvasContext.measureText context (Fin f) line = Fin m ->
         m + px * 2 <= width.
Proof.
  intros Hf Hsome Hfin. unfold measureTooltipSize. cbn zeta.
  cbn [TooltipMetrics.fontSizePx TooltipMetrics.paddingXPx TooltipMetrics.paddingYPx].
  rewrite (fallbackLineWidth_Fin f _ Hf).
  destruct (getMeasurementContext browser cache) as [[context'|] cache'];
    cbn [fst] in Hsome; [|discriminate].
  injection Hsome as ->.
  destruct (foldl_measured (CanvasContext.measureText context (Fin f))
              (splitNewlines text) Hfin 0) as (M & HM & _ & Hall).
  rewrite HM, max_Fin. cbn [fst Size.width Num.mul Num.add].
  eexists. split; [reflexivity|].
  pose proof (Rmax_l M (INR (longestLine (splitNewlines text)) * f * 0.6)).
  pose proof (Rmax_r M (INR (longestLine (splitNewlines text)) * f * 0.6)).
  split; [lra|]. intros line m Hin Hm. pose proof (Hall line m Hin Hm). lra.
Qed.

Lemma calculateTooltipPosition_window browser cache text clientX clientY metrics
    vw vh w h cache' :
  Browser.window browser = Some (Window.mk (Fin vw) (Fin vh)) ->
  measureTooltipSize browser cache text metrics = (Size.mk (Fin w) (Fin h), cache') ->
  calculateTooltipPosition browser cache text (Fin clientX) (Fin clientY) metrics
  = (if Rle_dec 16 (clientX - 16 - w)
     then Position.mk (Fin (clientX - 16 - w))
            (Fin (Rmin (Rmax (clientY - h / 2) 16) (vh - h - 16)))
     else Position.mk (Fin (Rmin (Rmax (clientX - w / 2) 16) (vw - w - 16)))
            (Fin (Rmin (Rmax (clientY + 16) 16) (vh - h - 16))),
     cache').
Proof.
  intros Hwindow Hsize. unfold calculateTooltipPosition.
  rewrite Hwindow, Hsize. cbn zeta.
  cbn [Size.width Size.height Window.innerWidth Window.innerHeight].
  unfold TOOLTIP_GAP. rewrite !div_Fin by lra.
  cbn [Num.sub Num.neg Num.add Num.leb]. rewrite !clamp_Fin.
  unfold Num.Rleb.
  destruct (Rle_dec 16 (clientX + - (16) + - w)) as [Hle | Hgt];
    destruct (Rle_dec 16 (clientX - 16 - w)) as [Hle' | Hgt']; try lra;
    reflexivity.
Qed.

End TooltipGeometry.

(** X17. Without a window the tooltip is set in 12 pixels with paddings of
    15 and 6.6 pixels.  With a window of finite size the font size is 1.5
    per cent of the smaller side of the viewport kept within 9 and 18
    pixels, so 9 for a side up to 600 pixels and 18 from 1200 pixels on,
    and the paddings are 1.25 and 0.55 times the font size. *)
Theorem tooltip_font_size :
  forall (document : option (option CanvasContext.t)),
    getTooltipMetrics (Browser.mk None document)
    = TooltipMetrics.mk (Fin 12) (Fin (12 * 1.25)) (Fin (12 * 0.55))
    /\ (forall w h : R,
          exists f : R,
            getTooltipMetrics
              (Browser.mk (Some (Window.mk (Fin w) (Fin h))) document)
            = TooltipMetrics.mk (Fin f) (Fin (f * 1.25)) (Fin (f * 0.55))
            /\ (9 <= f <= 18)%R
            /\ (Rmin w h <= 600 -> f = 9)%R
            /\ (600 <= Rmin w h <= 1200 -> f = Rmin w h * 0.015)%R
            /\ (1200 <= Rmin w h -> f = 18)%R).
Proof.
  intros document. split.
  - unfold getTooltipMetrics. rewrite getResponsiveFontSizePx_fallback. reflexivity.
  - intros w h. eexists. split; [|split; [|split; [|split]]].
    + unfold getTooltipMetrics. rewrite getResponsiveFontSizePx_window. reflexivity.
    + apply NumFacts.Rclamp_bounds. lra.
    + intros H. unfold Rmin at 1, Rmax.
      repeat destruct (Rle_dec _ _); lra.
    + intros H. apply NumFacts.Rclamp_id. lra.
    + intros H. unfold Rmin at 1, Rmax.
      repeat destruct (Rle_dec _ _); lra.
Qed.

Lemma tooltip_font_size_witness :
  exists f : R,
    getTooltipMetrics (Browser.mk (Some (Window.mk (Fin 1000) (Fin 800))) None)
    = TooltipMetrics.mk (Fin f) (Fin (f * 1.25)) (Fin (f * 0.55))
    /\ f = (Rmin 1000 800 * 0.015)%R.
Proof.
  destruct (proj2 (tooltip_font_size None) 1000%R 800%R)
    as (f & Hm & _ & _ & Hmid & _).
  exists f. split; [exact Hm|]. apply Hmid.
  unfold Rmin. destruct (Rle_dec 1000 800); lra.
Defined.

(** X18. For a font size that is not negative, the tooltip is as high as
    its lines (the pieces of the text between newlines, at least one) at
    2.1 times the font size each, plus the vertical padding twice; the
    measurement context kept after the call is the one that
    [getMeasurementContext] keeps, so a context once kept is kept.  Without
    a context the width is 0.6 times the font size per character of the
    longest line, plus the horizontal padding twice; with a context that
    measures finite widths the box is at least that wide and wide enough
    for every measured line and the padding. *)
Theorem tooltip_size :
  forall (browser : Browser.t) (cache : option CanvasContext.t) (text : string)
         (f px py : R),
    (0 <= f)%R ->
    let metrics := TooltipMetrics.mk (Fin f) (Fin px) (Fin py) in
    let lines := splitNewlines text in
    let result := measureTooltipSize browser cache text metrics in
    (1 <= length lines)%nat
    /\ Size.height (fst result) = Fin (f * 2.1 * INR (length lines) + py * 2)
    /\ snd result = snd (getMeasurementContext browser cache)
    /\ (forall context, cache = Some context -> snd result = Some context)
    /\ (fst (getMeasurementContext browser cache) = None ->
        Size.width (fst result)
        = Fin (INR (longestLine lines) * f * 0.6 + px * 2))
    /\ (forall context,
          fst (getMeasurementContext browser cache) = Some context ->
          (forall line,
              exists m, CanvasContext.measureText context (Fin f) line = Fin m) ->
          exists width : R,
            Size.width (fst result) = Fin width
            /\ (INR (longestLine lines) * f * 0.6 + px * 2 <= width)%R
            /\ forall line m,
                 line ∈ lines ->
                 CanvasContext.measureText context (Fin f) line = Fin m ->
                 (m + px * 2 <= width)%R).
Proof.
  intros browser cache text f px py Hf metrics lines result.
  subst metrics lines result.
  destruct (measureTooltipSize_height browser cache text f px py Hf)
    as [Hheight Hcache].
  split; [apply splitNewlines_length|].
  split; [exact Hheight|]. split; [exact Hcache|]. split; [|split].
  - intros context ->. rewrite Hcache. reflexivity.
  - apply measureTooltipSize_fallback, Hf.
  - intros context. apply measureTooltipSize_measured, Hf.
Qed.

Lemma tooltip_size_witness :
  let result :=
    measureTooltipSize (Browser.mk None None) None ("tree-#1" ++ String LF "Health: 3")
      (TooltipMetrics.mk (Fin 12) (Fin 15) (Fin 6.6)) in
  Size.height (fst result) = Fin (12 * 2.1 * INR 2 + 6.6 * 2)
  /\ Size.width (fst result) = Fin (INR 9 * 12 * 0.6 + 15 * 2).
Proof.
  intros result.
  destruct (tooltip_size (Browser.mk None None) None
              ("tree-#1" ++ String LF "Health: 3") 12 15 6.6 ltac:(lra))
    as (_ & Hheight & _ & _ & Hwidth & _).
  split; [exact Hheight|]. apply Hwidth. reflexivity.
Defined.

(** X19. In a window of finite size, for a tooltip of finite width [w] and
    height [h] and a pointer at finite coordinates, the gap being 16
    pixels: when there is room for the tooltip and two gaps on the left of
    the pointer, the tooltip is put there, its right edge one gap left of
    the pointer and centred on it vertically; otherwise it is centred on
    the pointer horizontally, one gap below it.  Each coordinate is then
    kept between one gap and the viewport side less the tooltip and one
    gap, so that the tooltip lies inside the viewport, a gap away from its
    top and bottom edges whenever the viewport is high enough for that and,
    below the pointer, a gap away from its left and right edges whenever it
    is wide enough; when it is not, the coordinate is the upper bound.
    Without a window the tooltip is one gap right of and below the
    pointer. *)
Theorem tooltip_position_in_viewport :
  forall (browser : Browser.t) (cache cache' : option CanvasContext.t)
         (text : string) (clientX clientY : R) (metrics : TooltipMetrics.t)
         (vw vh w h : R),
    (Browser.window browser = None ->
     calculateTooltipPosition browser cache text (Fin clientX) (Fin clientY) metrics
     = (Position.mk (Fin (clientX + 16)) (Fin (clientY + 16)), cache))
    /\ (Browser.window browser = Some (Window.mk (Fin vw) (Fin vh)) ->
        measureTooltipSize browser cache text metrics
        = (Size.mk (Fin w) (Fin h), cache') ->
        exists x y : R,
          calculateTooltipPosition browser cache text (Fin clientX) (Fin clientY)
            metrics
          = (Position.mk (Fin x) (Fin y), cache')
          /\ (h + 32 <= vh -> 16 <= y /\ y + h <= vh - 16)%R
          /\ (vh < h + 32 -> y = vh - h - 16)%R
          /\ (w + 32 <= clientX ->
              x = clientX - 16 - w
              /\ y = Rmin (Rmax (clientY - h / 2) 16) (vh - h - 16))%R
          /\ (clientX < w + 32 ->
              y = Rmin (Rmax (clientY + 16) 16) (vh - h - 16)
              /\ (w + 32 <= vw -> 16 <= x /\ x + w <= vw - 16)
              /\ (vw < w + 32 -> x = vw - w - 16))%R).
Proof.
  intros browser cache cache' text clientX clientY metrics vw vh w h. split.
  - intros Hwindow. unfold calculateTooltipPosition. rewrite Hwindow. reflexivity.
  - intros Hwindow Hsize.
    rewrite (calculateTooltipPosition_window browser cache text clientX clientY
               metrics vw vh w h cache' Hwindow Hsize).
    assert (Hclamp : forall v lo hi : R,
              (lo <= hi -> lo <= Rmin (Rmax v lo) hi <= hi)%R
              /\ (hi < lo -> Rmin (Rmax v lo) hi = hi)%R).
    { intros v lo hi. unfold Rmin, Rmax.
      repeat destruct (Rle_dec _ _); split; intros; lra. }
    destruct (Rle_dec 16 (clientX - 16 - w)) as [Hleft | Hbelow].
    + eexists _, _. split; [reflexivity|].
      destruct (Hclamp (clientY - h / 2) 16 (vh - h - 16))%R as [Hin Hout].
      split; [intros H; specialize (Hin ltac:(lra)); lra|].
      split; [intros H; apply Hout; lra|].
      split; [intros _; split; reflexivity | intros H; lra].
    + eexists _, _. split; [reflexivity|].
      destruct (Hclamp (clientY + 16) 16 (vh - h - 16))%R as [Hin Hout].
      destruct (Hclamp (clientX - w / 2) 16 (vw - w - 16))%R as [Hxin Hxout].
      split; [intros H; specialize (Hin ltac:(lra)); lra|].
      split; [intros H; apply Hout; lra|].
      split; [intros H; lra|].
      intros _. split; [reflexivity|].
      split; [intros H; specialize (Hxin ltac:(lra)); lra | intros H; apply Hxout; lra].
Qed.

Lemma tooltip_position_in_viewport_witness :
  let browser := Browser.mk (Some (Window.mk (Fin 1000) (Fin 800))) None in
  let metrics := TooltipMetrics.mk (Fin 12) (Fin 15) (Fin 6.6) in
  let w := (INR 7 * 12 * 0.6 + 15 * 2)%R in
  let h := (12 * 2.1 * INR 1 + 6.6 * 2)%R in
  exists x y : R,
    calculateTooltipPosition browser None "tree-#1" (Fin 500) (Fin 400) metrics
    = (Position.mk (Fin x) (Fin y), None)
    /\ (16 <= y /\ y + h <= 800 - 16)%R
    /\ x = (500 - 16 - w)%R.
Proof.
  intros browser metrics w h.
  assert (Hsize : measureTooltipSize browser None "tree-#1" metrics
                  = (Size.mk (Fin w) (Fin h), None))
    by (exact (measureTooltipSize_without_canvas browser None "tree-#1" 12 15 6.6
                 ltac:(lra) eq_refl)).
  destruct (proj2 (tooltip_position_in_viewport browser None None "tree-#1"
                     500 400 metrics 1000 800 w h) eq_refl Hsize)
    as (x & y & Hpos & Hin & _ & Hleft & _).
  exists x, y. split; [exact Hpos|].
  assert (Hw : w = 80.4%R) by (unfold w; simpl; lra).
  assert (Hh : h = 38.4%R) by (unfold h; simpl; lra).
  split; [apply Hin; lra | apply Hleft; lra].
Defined.

(** ** The grid of cells *)

Section Grid.
Import NumFacts.
Local Open Scope list_scope.
Local Open Scope R_scope.

Lemma arrayGet_INR {A} (l : list A) (i : nat) :
  arrayGet l (Fin (INR i)) = l !! i.
Proof.
  unfold arrayGet.
  replace (Num.Rleb 0 (INR i)) with true
    by (symmetry; apply Rleb_true, pos_INR).
  rewrite Int_part_INR, <- INR_IZR_INZ.
  replace (Num.Reqb (INR i) (INR i)) with true
    by (symmetry; apply Reqb_true; reflexivity).
  cbn [andb]. rewrite Nat2Z.id. reflexivity.
Qed.

Lemma arrayGet_negative {A} (l : list A) : arrayGet l (Fin (-1)) = None.
Proof.
  unfold arrayGet.
  replace (Num.Rleb 0 (-1)) with false by (symmetry; apply Rleb_false; lra).
  reflexivity.
Qed.

Lemma floor_scaled r n :
  0 <= r < 1 -> (0 < n)%nat ->
  exists i, (i < n)%nat /\ IZR (Int_part (r * INR n)) = INR i.
Proof.
  intros Hr Hn.
  assert (Hpos : 0 < INR n) by (apply lt_0_INR, Hn).
  destruct (base_Int_part (r * INR n)) as [Hlo Hhi].
  set (z := Int_part (r * INR n)) in *.
  assert (Hz0 : (0 <= z)%Z).
  { assert (H : (-1 < z)%Z) by (apply lt_IZR; nra). lia. }
  assert (Hzn : (z < Z.of_nat n)%Z).
  { apply lt_IZR. rewrite <- INR_IZR_INZ. nra. }
  exists (Z.to_nat z). split; [lia|].
  rewrite INR_IZR_INZ, Z2Nat.id by exact Hz0. reflexivity.
Qed.

Lemma getRandomTreeIndex_valid trees random :
  trees <> [] -> unitInterval random ->
  exists i tree,
    getRandomTreeIndex trees random = Fin (INR i)
    /\ (i < length trees)%nat
    /\ trees !! i = Some tree
    /\ arrayGet trees (getRandomTreeIndex trees random) = Some tree.
Proof.
  intros Hne (r & -> & Hr). unfold getRandomTreeIndex.
  destruct trees as [|t0 trees]; [contradiction|].
  cbn [length Nat.eqb]. unfold Num.ofNat. cbn [Num.mul floor].
  destruct (floor_scaled r (S (length trees)) Hr ltac:(lia)) as (i & Hi & Hfloor).
  rewrite Hfloor.
  destruct (lookup_lt_is_Some_2 (t0 :: trees) i Hi) as [tree Htree].
  exists i, tree. split; [reflexivity|]. split; [exact Hi|].
  split; [exact Htree|]. rewrite arrayGet_INR. exact Htree.
Qed.

Lemma cellTree_arraySet trees cells tooltip context cellIndex treeIndex index :
  (cellIndex < length cells)%nat ->
  cellTree trees (AppState.mk (arraySet cellIndex treeIndex cells) tooltip context)
    index
  = if (index =? cellIndex)%nat then arrayGet trees treeIndex
    else cellTree trees (AppState.mk cells tooltip context) index.
Proof.
  intros Hlt. unfold cellTree, arraySet. cbn [AppState.cellTreeIndices].
  apply Nat.ltb_lt in Hlt as Hb. rewrite Hb.
  destruct (Nat.eqb_spec index cellIndex) as [-> | Hne].
  - rewrite list_lookup_insert_eq by exact Hlt. reflexivity.
  - rewrite list_lookup_insert_ne by (intros E; apply Hne; symmetry; exact E).
    reflexivity.
Qed.

Lemma length_arraySet {A} (cells : list (option A)) cellIndex value :
  (cellIndex < length cells)%nat ->
  length (arraySet cellIndex value cells) = length cells.
Proof.
  intros Hlt. unfold arraySet. apply Nat.ltb_lt in Hlt. rewrite Hlt.
  apply length_insert.
Qed.

Lemma initialCellTreeIndices_lookup trees random index :
  (index < CELL_COUNT)%nat ->
  initialCellTreeIndices trees random !! index
  = Some (Some (getRandomTreeIndex trees (random index))).
Proof.
  intros Hlt. unfold initialCellTreeIndices.
  rewrite list_lookup_fmap, lookup_seq_lt by exact Hlt. reflexivity.
Qed.

Lemma reachable_cells toFixed browser trees state :
  trees <> [] ->
  reachable toFixed browser trees state ->
  length (AppState.cellTreeIndices state) = CELL_COUNT
  /\ forall index, (index < CELL_COUNT)%nat ->
       exists tree, cellTree trees state index = Some tree.
Proof.
  intros Hne. induction 1 as [random Hrandom
                              | state clientX clientY tree _ [Hlen Hcells]
                              | state random cellIndex _ [Hlen Hcells] Hindex Hrandom].
  - split.
    + cbn [AppState.cellTreeIndices]. unfold initialCellTreeIndices.
      rewrite length_fmap, length_seq. reflexivity.
    + intros index Hlt. unfold cellTree. cbn [AppState.cellTreeIndices].
      rewrite (initialCellTreeIndices_lookup trees random index Hlt).
      destruct (getRandomTreeIndex_valid trees (random index) Hne (Hrandom index))
        as (i & tree & _ & _ & _ & Hget).
      exists tree. exact Hget.
  - unfold updateTooltip.
    destruct (calculateTooltipPosition _ _ _ _ _ _) as [position context].
    split; [exact Hlen|]. intros index Hlt.
    destruct (Hcells index Hlt) as [shown Hshown]. exists shown. exact Hshown.
  - unfold handleMouseLeave, handleCellMouseLeave, onHoverEnd.
    destruct trees as [|t0 trees]; [contradiction|].
    cbn [length Nat.eqb AppState.cellTreeIndices AppState.measurementContext].
    split.
    + cbn [AppState.cellTreeIndices]. rewrite length_arraySet; [exact Hlen|].
      rewrite Hlen. exact Hindex.
    + intros index Hlt.
      rewrite cellTree_arraySet by (rewrite Hlen; exact Hindex).
      destruct (index =? cellIndex)%nat.
      * destruct (getRandomTreeIndex_valid (t0 :: trees) random Hne Hrandom)
          as (i & tree & _ & _ & _ & Hget).
        exists tree. exact Hget.
      * destruct (Hcells index Hlt) as [shown Hshown]. exists shown.
        exact Hshown.
Qed.

End Grid.

(** X20. For a collection that is not empty and a draw in [0, 1),
    [getRandomTreeIndex] returns a whole number below the length of the
    collection, so that reading the collection at that index gives a
    record.  For the empty collection it returns -1, at which the
    collection reads [undefined]. *)
Theorem random_tree_index_is_valid :
  forall (trees : list TreeRecord.t) (random : number),
    (trees = [] ->
     getRandomTreeIndex trees random = Fin (-1)
     /\ arrayGet trees (getRandomTreeIndex trees random) = None)
    /\ (trees <> [] -> unitInterval random ->
        exists (i : nat) (tree : TreeRecord.t),
          getRandomTreeIndex trees random = Fin (INR i)
          /\ (i < length trees)%nat
          /\ trees !! i = Some tree
          /\ arrayGet trees (getRandomTreeIndex trees random) = Some tree).
Proof.
  intros trees random. split.
  - intros ->. split; [reflexivity | apply arrayGet_negative].
  - apply getRandomTreeIndex_valid.
Qed.

Lemma random_tree_index_is_valid_witness :
  (getRandomTreeIndex [] (Fin 0.5) = Fin (-1)
   /\ arrayGet [] (getRandomTreeIndex [] (Fin 0.5)) = (None : option TreeRecord.t))
  /\ exists (i : nat) (tree : TreeRecord.t),
       getRandomTreeIndex meridianTrees (Fin 0.5) = Fin (INR i)
       /\ (i < length meridianTrees)%nat
       /\ meridianTrees !! i = Some tree
       /\ arrayGet meridianTrees (getRandomTreeIndex meridianTrees (Fin 0.5))
          = Some tree.
Proof.
  split.
  - apply (proj1 (random_tree_index_is_valid [] (Fin 0.5))). reflexivity.
  - apply (proj2 (random_tree_index_is_valid meridianTrees (Fin 0.5)));
      [discriminate|].
    exists 0.5%R. split; [reflexivity | lra].
Defined.

(** X21. When the collection is not empty, in every state that the
    application reaches (from its initial state, through tooltip updates
    and through pointers leaving any of the 144 cells, every draw being in
    [0, 1)) the list of cell indices has 144 entries and every cell shows a
    record of the collection. *)
Theorem every_cell_shows_a_tree :
  forall (toFixed : number -> nat -> string) (browser : Browser.t)
         (trees : list TreeRecord.t) (state : AppState.t),
    trees <> [] ->
    reachable toFixed browser trees state ->
    length (AppState.cellTreeIndices state) = CELL_COUNT
    /\ forall index, (index < CELL_COUNT)%nat ->
         exists tree,
           cellTree trees state index = Some tree /\ In tree trees.
Proof.
  intros toFixed browser trees state Hne Hreach.
  destruct (reachable_cells toFixed browser trees state Hne Hreach) as [Hlen Hcells].
  split; [exact Hlen|]. intros index Hlt.
  destruct (Hcells index Hlt) as [tree Htree]. exists tree. split; [exact Htree|].
  unfold cellTree in Htree.
  destruct (AppState.cellTreeIndices state !! index) as [[treeIndex|]|];
    try discriminate.
  unfold arrayGet in Htree. destruct treeIndex as [x| | |]; try discriminate.
  destruct (_ && _); [|discriminate].
  apply list_elem_of_In, list_elem_of_lookup. eexists. exact Htree.
Qed.

Lemma every_cell_shows_a_tree_witness :
  let state :=
    handleMouseLeave meridianTrees (Fin 0.5) 7
      (AppState.mk (initialCellTreeIndices meridianTrees (fun _ => Fin 0)) None None) in
  length (AppState.cellTreeIndices state) = CELL_COUNT
  /\ exists tree, cellTree meridianTrees state 7 = Some tree /\ In tree meridianTrees.
Proof.
  intros state.
  assert (Hreach : reachable (fun _ _ => "0") (Browser.mk None None) meridianTrees state).
  { apply reachable_leave.
    - apply reachable_initial. intros index. exists 0%R. split; [reflexivity | lra].
    - unfold CELL_COUNT, GRID_SIZE. cbn. lia.
    - exists 0.5%R. split; [reflexivity | lra]. }
  destruct (every_cell_shows_a_tree (fun _ _ => "0") (Browser.mk None None)
              meridianTrees state ltac:(discriminate) Hreach) as [Hlen Hcells].
  split; [exact Hlen|]. apply Hcells. unfold CELL_COUNT, GRID_SIZE. cbn. lia.
Defined.

(** ** The labels of the cells *)

Section CellLabels.
Local Open Scope list_scope.

Lemma cellLabel_NoDup : NoDup (cellLabel <$> seq 0 CELL_COUNT).
Proof.
  apply (bool_decide_unpack (NoDup (cellLabel <$> seq 0 CELL_COUNT))).
  vm_compute. exact I.
Qed.

Lemma cellLabel_inj index other :
  (index < CELL_COUNT)%nat -> (other < CELL_COUNT)%nat ->
  cellLabel other = cellLabel index -> other = index.
Proof.
  intros Hi Ho Heq.
  apply (proj1 (NoDup_alt _) cellLabel_NoDup other index (cellLabel index)).
  - rewrite list_lookup_fmap, lookup_seq_lt by exact Ho. cbn. rewrite Heq. reflexivity.
  - rewrite list_lookup_fmap, lookup_seq_lt by exact Hi. reflexivity.
Qed.

End CellLabels.

(** X22. The label of a cell of the grid names a row and a column between
    1 and 12 from which the index of the cell is recovered, and two
    different cells of the grid have different labels; the cell of index 0
    is labelled ["Cell 1, 1"] and the last one ["Cell 12, 12"]. *)
Theorem cell_labels_are_distinct :
  forall index : nat,
    (index < CELL_COUNT)%nat ->
    (1 <= cellRow index <= GRID_SIZE)%nat
    /\ (1 <= cellColumn index <= GRID_SIZE)%nat
    /\ index = ((cellRow index - 1) * GRID_SIZE + (cellColumn index - 1))%nat
    /\ (forall other : nat,
          (other < CELL_COUNT)%nat -> cellLabel other = cellLabel index ->
          other = index)
    /\ cellLabel 0 = "Cell 1, 1"
    /\ cellLabel (CELL_COUNT - 1) = "Cell 12, 12".
Proof.
  intros index Hlt. unfold cellRow, cellColumn, CELL_COUNT, GRID_SIZE in *.
  pose proof (Nat.div_mod_eq index 12) as Hdiv.
  pose proof (Nat.mod_upper_bound index 12 ltac:(lia)) as Hmod.
  assert (Hrow : (index / 12 < 12)%nat) by (apply Nat.Div0.div_lt_upper_bound; lia).
  split; [lia|]. split; [lia|]. split; [lia|].
  split; [|split; reflexivity].
  intros other Hother. apply cellLabel_inj; assumption.
Qed.

Lemma cell_labels_are_distinct_witness :
  (1 <= cellRow 143 <= GRID_SIZE)%nat
  /\ (1 <= cellColumn 143 <= GRID_SIZE)%nat
  /\ 143%nat = ((cellRow 143 - 1) * GRID_SIZE + (cellColumn 143 - 1))%nat.
Proof.
  destruct (cell_labels_are_distinct 143 ltac:(unfold CELL_COUNT, GRID_SIZE; cbn; lia))
    as (Hrow & Hcolumn & Hindex & _).
  split; [exact Hrow|]. split; [exact Hcolumn | exact Hindex].
Defined.

(** ** The lines of a data file *)

Section Lines.
Local Open Scope list_scope.

Lemma splitLinesFrom_plain line rest current :
  plainLine line ->
  splitLinesFrom current (line ++ rest)%string
  = splitLinesFrom (current ++ line)%string rest.
Proof.
  revert current. induction line as [|char line IH]; intros current [Hcr Hlf].
  { rewrite append_empty_r. reflexivity. }
  cbn [countChar] in Hcr, Hlf.
  destruct (char =? CR)%char eqn:Ecr; [discriminate|].
  destruct (char =? LF)%char eqn:Elf; [discriminate|].
  rewrite append_cons. cbn [splitLinesFrom]. rewrite Ecr, Elf.
  rewrite IH by (split; assumption). rewrite append_pushChar. reflexivity.
Qed.

Lemma splitLinesFrom_separator separator current rest :
  lineSeparator separator ->
  splitLinesFrom current (separator ++ rest)%string
  = current :: splitLinesFrom EmptyString rest.
Proof. intros [-> | ->]; reflexivity. Qed.

Lemma joinLines_cons separator line line' lines :
  joinLines separator (line :: line' :: lines)
  = (line ++ separator ++ joinLines separator (line' :: lines))%string.
Proof. reflexivity. Qed.

Lemma splitLines_joinLines separator lines :
  lineSeparator separator -> lines <> [] -> Forall plainLine lines ->
  splitLines (joinLines separator lines) = lines.
Proof.
  intros Hsep Hne Hall. unfold splitLines.
  induction Hall as [|line lines Hline Hall IH]; [contradiction|].
  destruct lines as [|line' lines].
  - cbn [joinLines]. rewrite <- (append_empty_r line) at 1.
    rewrite splitLinesFrom_plain by exact Hline. reflexivity.
  - rewrite joinLines_cons. rewrite splitLinesFrom_plain by exact Hline.
    rewrite splitLinesFrom_separator by exact Hsep.
    rewrite append_nil. f_equal. apply IH. discriminate.
Qed.

Lemma trimEnd_append s t :
  Str.truthy t = true -> Str.trimEnd t = t ->
  Str.trimEnd (s ++ t)%string = (s ++ t)%string.
Proof.
  intros Ht Hfix. induction s as [|c s IH]; [exact Hfix|].
  rewrite append_cons, StrFacts.trimEnd_cons, IH.
  replace (Str.truthy (s ++ t)%string) with true; [reflexivity|].
  destruct s; [symmetry; exact Ht | reflexivity].
Qed.

Lemma truthy_append s t : Str.truthy s = true -> Str.truthy (s ++ t)%string = true.
Proof. destruct s; [discriminate | reflexivity]. Qed.

Lemma joinLines_truthy separator lines :
  lines <> [] -> Forall (fun line => Str.truthy line = true) lines ->
  Str.truthy (joinLines separator lines) = true.
Proof.
  intros Hne Hall. destruct Hall as [|line lines Hline Hall]; [contradiction|].
  destruct lines; [exact Hline | rewrite joinLines_cons; apply truthy_append, Hline].
Qed.

Lemma trimEnd_joinLines separator lines :
  Forall (fun line => Str.truthy line = true) lines ->
  (forall final, last lines = Some final -> Str.trimEnd final = final) ->
  Str.trimEnd (joinLines separator lines) = joinLines separator lines.
Proof.
  intros Hall Hlast. induction Hall as [|line lines Hline Hall IH]; [reflexivity|].
  destruct lines as [|line' lines].
  - cbn [joinLines]. apply Hlast. reflexivity.
  - rewrite joinLines_cons. rewrite <- append_assoc. apply trimEnd_append.
    + apply joinLines_truthy; [discriminate | exact Hall].
    + apply IH. intros final Hfinal. apply Hlast. exact Hfinal.
Qed.

Lemma trimStart_joinLines separator lines :
  Forall (fun line => Str.truthy line = true) lines ->
  (forall first, head lines = Some first -> Str.trimStart first = first) ->
  Str.trimStart (joinLines separator lines) = joinLines separator lines.
Proof.
  intros Hall Hfirst. destruct Hall as [|line lines Hline Hall]; [reflexivity|].
  specialize (Hfirst line eq_refl).
  assert (Hstart : forall rest, Str.trimStart (line ++ rest)%string = (line ++ rest)%string).
  { intros rest. destruct line as [|c line]; [discriminate|].
    rewrite append_cons. cbn [Str.trimStart] in Hfirst |- *.
    destruct (Str.isWhiteSpace c) eqn:Ec; [|reflexivity].
    exfalso.
    assert (Hlen : (String.length (Str.trimStart line) <= String.length line)%nat).
    { clear. induction line as [|d line IH]; cbn [Str.trimStart]; [lia|].
      destruct (Str.isWhiteSpace d); cbn [String.length]; lia. }
    rewrite Hfirst in Hlen. cbn [String.length] in Hlen. lia. }
  destruct lines; [|rewrite joinLines_cons; apply Hstart].
  cbn [joinLines]. rewrite <- (append_empty_r line). apply Hstart.
Qed.

Lemma filter_truthy lines :
  Forall (fun line => Str.truthy line = true) lines ->
  List.filter Str.truthy lines = lines.
Proof.
  induction 1 as [|line lines Hline _ IH]; [reflexivity|].
  cbn [List.filter]. rewrite Hline, IH. reflexivity.
Qed.

Lemma nonEmptyLines_joinLines separator lines text :
  lineSeparator separator -> lines <> [] -> Forall plainLine lines ->
  Forall (fun line => Str.truthy line = true) lines ->
  (forall first, head lines = Some first -> Str.trimStart first = first) ->
  (forall final, last lines = Some final -> Str.trimEnd final = final) ->
  stripBom text = joinLines separator lines ->
  nonEmptyLines text = lines.
Proof.
  intros Hsep Hne Hplain Hall Hfirst Hlast Hbom. unfold nonEmptyLines. cbn zeta.
  rewrite Hbom. unfold Str.trim.
  rewrite trimStart_joinLines, trimEnd_joinLines by assumption.
  rewrite splitLines_joinLines by assumption.
  apply filter_truthy, Hall.
Qed.

End Lines.

(** X23. Lines that hold no carriage return and no line feed, joined by
    line feeds or by carriage return and line feed pairs, are split back
    into these lines.  When in addition no line is empty, the first does
    not start and the last does not end with white space, the loaders read
    exactly these lines from the joined text, with or without a byte-order
    mark in front of it. *)
Theorem lines_round_trip :
  forall (separator : string) (lines : list string),
    lineSeparator separator -> lines <> [] -> Forall plainLine lines ->
    splitLines (joinLines separator lines) = lines
    /\ (Forall (fun line => Str.truthy line = true) lines ->
        (forall first, head lines = Some first -> Str.trimStart first = first) ->
        (forall final, last lines = Some final -> Str.trimEnd final = final) ->
        nonEmptyLines (BOM ++ joinLines separator lines) = lines
        /\ (stripBom (joinLines separator lines) = joinLines separator lines ->
            nonEmptyLines (joinLines separator lines) = lines)).
Proof.
  intros separator lines Hsep Hne Hplain.
  split; [apply splitLines_joinLines; assumption|].
  intros Hall Hfirst Hlast. split.
  - apply (nonEmptyLines_joinLines separator); try assumption. reflexivity.
  - intros Hbom. apply (nonEmptyLines_joinLines separator); assumption.
Qed.

Lemma lines_round_trip_witness :
  let lines := ["name,latitude"; "SoHo,40.7"; "Tribeca,40.6"] in
  splitLines (joinLines (String CR (String LF EmptyString)) lines) = lines
  /\ nonEmptyLines (BOM ++ joinLines (String CR (String LF EmptyString)) lines)
     = lines
  /\ nonEmptyLines (joinLines (String CR (String LF EmptyString)) lines) = lines.
Proof.
  intros lines.
  destruct (lines_round_trip (String CR (String LF EmptyString)) lines)
    as [Hsplit Hread].
  - right. reflexivity.
  - discriminate.
  - repeat constructor.
  - split; [exact Hsplit|].
    destruct Hread as [Hbom Hplain].
    + repeat constructor.
    + intros first [= <-]. reflexivity.
    + intros final [= <-]. reflexivity.
    + split; [exact Hbom | apply Hplain; reflexivity].
Defined.

(** ** Break points and ranges *)

Section BreakPoints.
Import NumFacts.
Local Open Scope R_scope.

Lemma Rclamp_cases v lo hi :
  lo <= hi ->
  (v <= lo -> Rmin (Rmax v lo) hi = lo)
  /\ (lo <= v <= hi -> Rmin (Rmax v lo) hi = v)
  /\ (hi <= v -> Rmin (Rmax v lo) hi = hi).
Proof.
  intros H. unfold Rmin, Rmax.
  repeat split; intros; repeat destruct (Rle_dec _ _); lra.
Qed.

Lemma toRadians_not_finite n :
  Num.isFinite n = false -> Num.isFinite (toRadians n) = false.
Proof.
  pose proof PI_RGT_0 as Hpi.
  assert (H180 : Num.Rltb 180 0 = false) by (apply Rltb_false; lra).
  assert (Hpos : Num.Rltb 0 PI = true) by (apply Rltb_true; lra).
  assert (Hneg : Num.Rltb 0 (- PI) = false) by (apply Rltb_false; lra).
  assert (Hneg' : Num.Rltb (- PI) 0 = true) by (apply Rltb_true; lra).
  destruct n as [x| | |]; [discriminate| | |]; intros _;
    unfold toRadians, Num.mul, Num.signedInf;
    rewrite ?Hpos, ?Hneg, ?Hneg'; unfold Num.div; rewrite ?H180;
    reflexivity.
Qed.

Lemma getMetersPerDegreeLongitude_range latitude :
  exists meters,
    getMetersPerDegreeLongitude latitude = Fin meters /\ 0 <= meters <= 111320.
Proof.
  unfold getMetersPerDegreeLongitude. cbn zeta.
  destruct (Num.isFinite latitude) eqn:E.
  - apply isFinite_Fin in E as [x ->]. rewrite toRadians_Fin.
    cbn [Num.cos Num.mul Num.isFinite andb Num.ltb].
    pose proof (COS_bound (x * PI / 180)) as Hc.
    destruct (Num.Rltb 0 (111320 * cos (x * PI / 180))) eqn:El.
    + apply Rltb_true in El. eexists. split; [reflexivity | lra].
    + exists 0. split; [reflexivity | lra].
  - apply toRadians_not_finite in E.
    destruct (toRadians latitude); [discriminate| | |];
      (exists 0; split; [reflexivity | lra]).
Qed.

Lemma getAxisDistanceMeters_range delta axis referenceLatitude :
  0 <= delta ->
  exists meters,
    getAxisDistanceMeters (Fin delta) axis referenceLatitude = Fin meters
    /\ 0 <= meters <= delta * 111320.
Proof.
  intros Hd. unfold getAxisDistanceMeters. cbn [Num.eqb].
  destruct (Num.Reqb delta 0) eqn:E.
  - exists 0. split; [reflexivity | lra].
  - destruct (axis =? 0)%nat.
    + eexists. split; [reflexivity | lra].
    + destruct (getMetersPerDegreeLongitude_range referenceLatitude)
        as (meters & -> & Hm).
      eexists. split; [reflexivity | nra].
Qed.

End BreakPoints.

(** X25. The scalar score of a positive finite estimate is 10 up to the
    estimate 36370 / 12.737, then [36370 / estimate - 2.737] up to the
    estimate 36370 / 2.737, and 0 from there on.  The density score of a
    finite average distance is 10 up to 2 meters, then
    [10 - 0.12 * (distance - 2)] up to 2 + 10 / 0.12 meters, and 0 from
    there on. *)
Theorem score_break_points :
  (forall rent : R,
      (0 < rent <= 36370 / 12.737 ->
       calculateAffordabilityScore (Fin rent) = Fin 10)
      /\ (36370 / 12.737 <= rent <= 36370 / 2.737 ->
          calculateAffordabilityScore (Fin rent) = Fin (36370 / rent - 2.737))
      /\ (36370 / 2.737 <= rent ->
          calculateAffordabilityScore (Fin rent) = Fin 0))%R
  /\ (forall distance : R,
        (distance <= 2 -> getTreeFriendsScore (Fin distance) = Fin 10)
        /\ (2 <= distance <= 2 + 10 / 0.12 ->
            getTreeFriendsScore (Fin distance) = Fin (10 - 0.12 * (distance - 2)))
        /\ (2 + 10 / 0.12 <= distance ->
            getTreeFriendsScore (Fin distance) = Fin 0))%R.
Proof.
  split.
  - intros rent.
    assert (Hq : (0 < rent -> 36370 / rent * rent = 36370)%R)
      by (intros H; field; lra).
    assert (Hscore : (0 < rent ->
              calculateAffordabilityScore (Fin rent)
              = Fin (Rmin (Rmax (36370 / rent - 2.737) 0) 10))%R)
      by (intros H; apply calculateAffordabilityScore_Fin; lra).
    destruct (Rclamp_cases (36370 / rent - 2.737) 0 10 ltac:(lra))
      as (Hlo & Hmid & Hhi).
    split; [|split].
    + intros H. rewrite Hscore by lra. f_equal. apply Hhi.
      specialize (Hq ltac:(lra)).
      assert (12.737 * rent <= 36370)%R by lra.
      nra.
    + intros H.
      assert (Hpos : (0 < rent)%R).
      { assert (0 < 36370 / 12.737)%R by (apply Rdiv_lt_0_compat; lra). lra. }
      rewrite Hscore by exact Hpos. f_equal. apply Hmid.
      specialize (Hq Hpos).
      assert (36370 <= 12.737 * rent)%R by lra.
      assert (2.737 * rent <= 36370)%R by lra.
      nra.
    + intros H.
      assert (Hpos : (0 < rent)%R).
      { assert (0 < 36370 / 2.737)%R by (apply Rdiv_lt_0_compat; lra). lra. }
      rewrite Hscore by exact Hpos. f_equal. apply Hlo.
      specialize (Hq Hpos).
      assert (36370 <= 2.737 * rent)%R by lra.
      nra.
  - intros distance.
    destruct (Rclamp_cases (10 - 0.12 * (distance - 2)) 0 10 ltac:(lra))
      as (Hlo & Hmid & Hhi).
    split; [|split].
    + intros H. destruct (Req_dec_T distance 2) as [-> | Hne].
      * rewrite getTreeFriendsScore_linear by lra. f_equal. apply Hhi. lra.
      * apply getTreeFriendsScore_max. right. right. cbn [Num.ltb].
        apply NumFacts.Rltb_true. lra.
    + intros H. rewrite getTreeFriendsScore_linear by lra. f_equal. apply Hmid.
      lra.
    + intros H.
      assert (E : (0.12 * (10 / 0.12) = 10)%R) by lra.
      rewrite getTreeFriendsScore_linear by lra.
      f_equal. apply Hlo. nra.
Qed.

Lemma score_break_points_witness :
  calculateAffordabilityScore (Fin 2000) = Fin 10
  /\ calculateAffordabilityScore (Fin 20000) = Fin 0
  /\ getTreeFriendsScore (Fin 1) = Fin 10
  /\ getTreeFriendsScore (Fin 100) = Fin 0.
Proof.
  destruct score_break_points as [Hrent Hdistance].
  assert (H1 : (2855 < 36370 / 12.737 < 2856)%R) by (split; lra).
  assert (H2 : (13288 < 36370 / 2.737 < 13289)%R) by (split; lra).
  assert (H3 : (85 < 2 + 10 / 0.12 < 86)%R) by (split; lra).
  split; [apply (proj1 (Hrent 2000%R)); lra|].
  split; [apply (proj2 (proj2 (Hrent 20000%R))); lra|].
  split; [apply (proj1 (Hdistance 1%R)); lra|].
  apply (proj2 (proj2 (Hdistance 100%R))); lra.
Defined.

(** X26. For a difference of degrees between 0 and 360, as between two
    latitudes or two longitudes, the axis distance of the pruning test is a
    finite number of meters that is not negative and at most 111320 meters
    per degree, on either axis and whatever the reference latitude, finite
    or not; the conversion for the longitude axis lies between 0 and 111320
    meters per degree. *)
Theorem axis_distance_is_finite :
  forall (delta : R) (axis : nat) (referenceLatitude : number),
    (exists perDegree : R,
        getMetersPerDegreeLongitude referenceLatitude = Fin perDegree
        /\ (0 <= perDegree <= 111320)%R)
    /\ ((0 <= delta <= 360)%R ->
        exists meters : R,
          getAxisDistanceMeters (Fin delta) axis referenceLatitude = Fin meters
          /\ (0 <= meters <= delta * 111320)%R).
Proof.
  intros delta axis referenceLatitude. split.
  - apply getMetersPerDegreeLongitude_range.
  - intros [Hd _]. apply getAxisDistanceMeters_range, Hd.
Qed.

Lemma axis_distance_is_finite_witness :
  exists meters : R,
    getAxisDistanceMeters (Fin 0.5) 1 NaN = Fin meters
    /\ (0 <= meters <= 0.5 * 111320)%R.
Proof.
  apply (proj2 (axis_distance_is_finite 0.5 1 NaN)). lra.
Defined.

(** ** The query when [k] covers all the other points *)

Section Exhaustive.
Import Num NumFacts.
Local Open Scope list_scope.

Local Abbreviation finite := (fun y : number => isFinite y = true).

Lemma kSmallest_length k every kept :
  kSmallest k every kept -> (length kept <= length every)%nat.
Proof.
  intros (_ & _ & rest & Hperm & _). rewrite Hperm, length_app. lia.
Qed.

(** When [k] is at least the number of distances, no subtree that holds a
    distance is skipped. *)
Lemma search_exhaustive target k nd :
  forall every kept,
    Forall finite every -> kSmallest k every kept ->
    (length every + length (otherDistances target (pointsOf nd)) <= k)%nat ->
    kSmallest k (every ++ otherDistances target (pointsOf nd))
      (search target k nd kept).
Proof.
  induction nd as [|point axis leftNode IHl rightNode IHr];
    intros every kept Hfin Hk Htotal.
  { cbn [pointsOf]. rewrite app_nil_r. exact Hk. }
  rewrite search_node. rewrite pointsOf_distances in Htotal |- *. cbn zeta.
  rewrite !length_app in Htotal.
  assert (Hcase :
    forall nearNode farNode,
      (forall every kept, Forall finite every -> kSmallest k every kept ->
         (length every + length (otherDistances target (pointsOf nearNode)) <= k)%nat ->
         kSmallest k (every ++ otherDistances target (pointsOf nearNode))
           (search target k nearNode kept)) ->
      (forall every kept, Forall finite every -> kSmallest k every kept ->
         (length every + length (otherDistances target (pointsOf farNode)) <= k)%nat ->
         kSmallest k (every ++ otherDistances target (pointsOf farNode))
           (search target k farNode kept)) ->
      (length every + (length (otherDistances target (pointsOf nearNode))
                       + (length (otherDistances target [point])
                          + length (otherDistances target (pointsOf farNode))))
       <= k)%nat ->
      forall test : bool,
      kSmallest k
        (every ++ otherDistances target (pointsOf nearNode)
               ++ otherDistances target [point]
               ++ otherDistances target (pointsOf farNode))
        (let visited := visitNode target k point (search target k nearNode kept) in
         if (length visited <? k)%nat || test
         then search target k farNode visited else visited)).
  { intros nearNode farNode IHn IHf Hlen test.
    pose proof (IHn every kept Hfin Hk ltac:(lia)) as Hk1.
    assert (Hfin1 : Forall finite (every ++ otherDistances target (pointsOf nearNode))).
    { apply Forall_app. split; [exact Hfin | apply otherDistances_finite]. }
    pose proof (kSmallest_visitNode target k point _ _ Hfin1 Hk1) as Hk2.
    assert (Hfin2 : Forall finite
              ((every ++ otherDistances target (pointsOf nearNode))
               ++ otherDistances target [point])).
    { apply Forall_app. split; [exact Hfin1 | apply otherDistances_finite]. }
    cbn zeta.
    set (visited := visitNode target k point (search target k nearNode kept)) in *.
    rewrite !app_assoc.
    destruct ((length visited <? k)%nat || test) eqn:Etest.
    - apply IHf; [exact Hfin2 | exact Hk2 |]. rewrite !length_app. lia.
    - apply orb_false_elim in Etest as [Elen _]. apply Nat.ltb_ge in Elen.
      pose proof (kSmallest_length _ _ _ Hk2) as Hle.
      rewrite !length_app in Hle.
      assert (Hnil : otherDistances target (pointsOf farNode) = []).
      { destruct (otherDistances target (pointsOf farNode)); [reflexivity|].
        cbn [length] in Hlen. lia. }
      rewrite Hnil, app_nil_r. exact Hk2. }
  destruct (axisValue axis _ _ <? axisValue axis _ _)%num.
  - apply (Hcase leftNode rightNode IHl IHr); exact Htotal.
  - eapply kSmallest_Permutation;
      [|apply (Hcase rightNode leftNode IHr IHl); lia].
    apply Permutation_app_head, Permutation_flip.
Qed.

Lemma findKNearestNeighborDistances_exhaustive points target k :
  (length (otherDistances target points) <= k)%nat ->
  findKNearestNeighborDistances (buildKdTree points 0) target k
  = sortBy sub (otherDistances target points).
Proof.
  intros Hlen.
  set (root := buildKdTree points 0).
  assert (Hperm : otherDistances target (pointsOf root) ≡ₚ otherDistances target points)
    by apply otherDistances_Permutation, buildKdTree_Permutation.
  pose proof (search_exhaustive target k root [] [] ltac:(constructor)
                (kSmallest_nil k)) as Hk.
  cbn [app length] in Hk. rewrite Hperm in Hk at 1. specialize (Hk Hlen).
  apply kSmallest_unique in Hk; [|apply otherDistances_finite].
  unfold findKNearestNeighborDistances. fold root. rewrite Hk.
  rewrite (sortBy_Permutation_eq _ _ (otherDistances_finite target (pointsOf root)) Hperm).
  apply take_ge. rewrite length_sortBy. exact Hlen.
Qed.

End Exhaustive.

(** X27. When [k] is at least the number of other points at a finite
    distance from the query point, the query returns all these distances
    in non-decreasing order, as a brute-force scan does, whatever the
    positions of the points: no subtree that holds one of them is skipped.
    With the [k = 5] of the density score this covers every collection of at
    most six records. *)
Theorem knn_query_exact_when_k_covers_all :
  forall (points : list IndexedTreePoint.t) (target : IndexedTreePoint.t) (k : nat),
    (length (otherDistances target points) <= k)%nat ->
    findKNearestNeighborDistances (buildKdTree points 0) target k
    = sortBy Num.sub (otherDistances target points)
    /\ findKNearestNeighborDistances (buildKdTree points 0) target k
       = bruteForceNearest points target k.
Proof.
  intros points target k Hlen.
  pose proof (findKNearestNeighborDistances_exhaustive points target k Hlen) as H.
  split; [exact H|]. rewrite H. unfold bruteForceNearest.
  symmetry. apply take_ge. rewrite length_sortBy. exact Hlen.
Qed.

Lemma knn_query_exact_when_k_covers_all_witness :
  findKNearestNeighborDistances (buildKdTree (indexPoints antimeridianTrees) 0)
    (equatorPoint (-180) 0) 7
  = bruteForceNearest (indexPoints antimeridianTrees) (equatorPoint (-180) 0) 7.
Proof.
  assert (Hlen : (length (otherDistances (equatorPoint (-180) 0)
                            (indexPoints antimeridianTrees)) <= 7)%nat).
  { unfold otherDistances.
    etransitivity; [apply List.filter_length_le|]. rewrite length_map.
    vm_compute. lia. }
  exact (proj2 (knn_query_exact_when_k_covers_all (indexPoints antimeridianTrees)
                  (equatorPoint (-180) 0) 7 Hlen)).
Defined.

(** ** The collection loaded from the three data files *)

Section Loaded.
Local Open Scope list_scope.
Variable Number : string -> number.

Lemma calculateExpectedRent_no_rent matches :
  Forall (fun m => NeighborhoodMatch.rent m = None) matches ->
  calculateExpectedRent matches = None.
Proof.
  intros Hall. destruct matches as [|x1 [|x2 [|x3 rest]]];
    try (apply calculateExpectedRent_short; cbn; lia).
  rewrite calculateExpectedRent_three.
  apply Forall_cons in Hall as [-> _]. reflexivity.
Qed.

Lemma parseTreeData_no_rents csvData neighborhoods tree :
  In tree (parseTreeData Number csvData neighborhoods ∅) ->
  TreeRecord.affordabilityScore tree = None.
Proof.
  intros H.
  apply parseTreeData_source in H as (headers & line & raw & d & Hline & _ & ->).
  apply parseTreeLine_matches in Hline as [_ Hscore]. cbn zeta in Hscore.
  cbn [assignAccessibilityScore TreeRecord.setAccessibilityScore
       TreeRecord.setTreeFriendsScore TreeRecord.affordabilityScore].
  rewrite Hscore, calculateExpectedRent_no_rent; [reflexivity|].
  apply Forall_forall. intros m Hm.
  apply getClosestNeighborhoodMatches_elem in Hm as (nb & _ & ->).
  unfold matchOf, getNeighborhoodRent. cbn [NeighborhoodMatch.rent].
  destruct (negb _); [reflexivity | apply lookup_empty].
Qed.

End Loaded.

(** X28. In the collection that the application loads from its three data
    files, a record from which an area read from the areas file is at a
    finite distance is named after such an area, no other at a finite
    distance being nearer, the name being a non-empty normal form; a record
    from which no area is at a finite distance, as when that file yields no
    area, is named ["Unknown"]; and when the rent file yields no rent, or
    the areas file fewer than three areas, no record has a scalar score. *)
Theorem loaded_trees_are_labelled :
  forall (Number : string -> number)
         (treeDataCsv neighborhoodsCsv rentDataCsv : string) (tree : TreeRecord.t),
    In tree (loadTrees Number treeDataCsv neighborhoodsCsv rentDataCsv) ->
    let areas := parseNeighborhoodData Number neighborhoodsCsv in
    (Forall (fun area => Num.isFinite (areaDistance tree area) = false) areas ->
     TreeRecord.neighborhood tree = "Unknown")
    /\ (Exists (fun area => Num.isFinite (areaDistance tree area) = true) areas ->
        exists area,
          area ∈ areas
          /\ Num.isFinite (areaDistance tree area) = true
          /\ TreeRecord.neighborhood tree = NeighborhoodRecord.name area
          /\ normalizeNeighborhoodName (TreeRecord.neighborhood tree)
             = TreeRecord.neighborhood tree
          /\ TreeRecord.neighborhood tree <> EmptyString
          /\ Forall
               (fun other =>
                  Num.isFinite (areaDistance tree other) = true ->
                  numLe (areaDistance tree area) (areaDistance tree other))
               areas)
    /\ (parseRentData Number rentDataCsv = ∅ ->
        TreeRecord.affordabilityScore tree = None)
    /\ ((length areas < 3)%nat -> TreeRecord.affordabilityScore tree = None).
Proof.
  intros Number treeDataCsv neighborhoodsCsv rentDataCsv tree Hin areas.
  unfold loadTrees in Hin. cbn zeta in Hin. fold areas in Hin.
  pose proof (parseNeighborhoodData_areas Number neighborhoodsCsv) as Hareas.
  fold areas in Hareas.
  destruct (parseTreeData_label Number _ _ _ _ Hin) as (Hshort & Hnone & Hnear).
  split; [exact Hnone|]. split; [|split; [|exact Hshort]].
  - intros Hsome. destruct (Hnear Hsome) as (area & Harea & Hfin & Hname & Hle).
    exists area. split; [exact Harea|]. split; [exact Hfin|]. split; [exact Hname|].
    destruct (proj1 (Forall_forall _ _) Hareas area Harea) as (_ & Hnormal & Hne).
    rewrite Hname. split; [exact Hnormal|]. split; [exact Hne | exact Hle].
  - intros Hempty. rewrite Hempty in Hin.
    eapply parseTreeData_no_rents, Hin.
Qed.

Lemma loaded_trees_are_labelled_witness :
  let tree :=
    assignAccessibilityScore
      (TreeRecord.setTreeFriendsScore (sampleRecord "Alive") (Fin 10)) in
  TreeRecord.neighborhood tree = "Unknown"
  /\ TreeRecord.affordabilityScore tree = None.
Proof.
  intros tree.
  assert (Hin : In tree (loadTrees sampleNumber (sampleCsv "Alive")
                           EmptyString EmptyString)).
  { unfold loadTrees.
    change (parseNeighborhoodData sampleNumber EmptyString) with (@nil NeighborhoodRecord.t).
    replace (parseRentData sampleNumber EmptyString) with (∅ : gmap propertyValue number)
      by reflexivity.
    rewrite sample_run_alive. left. reflexivity. }
  destruct (loaded_trees_are_labelled sampleNumber (sampleCsv "Alive")
              EmptyString EmptyString tree Hin) as (Hname & _ & Hrent & _).
  split; [apply Hname; constructor|]. apply Hrent. reflexivity.
Defined.

(** ** The tooltip of a record of the collection *)

Section FinalTooltip.
Import NumFacts.
Local Open Scope list_scope.
Variable Number : string -> number.
Variable toFixed : number -> nat -> string.

Lemma orElse_default_truthy a b :
  Str.truthy b = true -> Str.truthy (Str.orElse a b) = true.
Proof. unfold Str.orElse. destruct (Str.truthy a) eqn:E; intros H; assumption. Qed.

Lemma parseTreeLine_texts neighborhoods rentLookup headers line raw :
  parseTreeLine Number neighborhoods rentLookup headers line = Some raw ->
  Str.truthy (TreeRecord.treeId raw) = true
  /\ Str.truthy (TreeRecord.species raw) = true.
Proof.
  unfold parseTreeLine. cbn zeta.
  destruct (negb _ || negb _); [discriminate|].
  intros [= <-]. cbn [TreeRecord.treeId TreeRecord.species].
  split; apply orElse_default_truthy; reflexivity.
Qed.

Lemma getTreeTooltipContent_fixed tree index :
  (index < 8)%nat ->
  getTreeTooltipContent toFixed tree !! index
  = [ TooltipLine.mk
        (if Str.truthy (TreeRecord.treeId tree)
         then "tree-#" ++ TreeRecord.treeId tree else "tree-#unknown")%string None;
      TooltipLine.mk
        ("Accessibility: "
         ++ formatAccessibilityScore toFixed (TreeRecord.accessibilityScore tree))%string
        None;
      TooltipLine.mk ("Neighborhood: " ++ TreeRecord.neighborhood tree)%string None;
      TooltipLine.mk
        ("Coordinates: " ++ formatCoordinate toFixed (TreeRecord.latitude tree)
         ++ ", " ++ formatCoordinate toFixed (TreeRecord.longitude tree))%string None;
      TooltipLine.mk
        ("Species: " ++ Str.orElse (TreeRecord.species tree) "unknown")%string None;
      TooltipLine.mk
        ("Tree Friends: "
         ++ formatTreeFriendsScore toFixed (TreeRecord.treeFriendsScore tree))%string
        None;
      TooltipLine.mk
        ("Affordability: "
         ++ formatAffordabilityScore toFixed (TreeRecord.affordabilityScore tree))%string
        None;
      TooltipLine.mk ("Health: " ++ formatHealthScore toFixed tree)%string None ]
    !! index.
Proof.
  intros Hlt. unfold getTreeTooltipContent. cbn zeta.
  destruct (shouldShowProblems tree); [|reflexivity].
  destruct (_ =? "dead"); apply lookup_app_l; cbn [length]; exact Hlt.
Qed.

Lemma parseTreeData_tooltip csvData neighborhoods rentLookup tree :
  In tree (parseTreeData Number csvData neighborhoods rentLookup) ->
  let lines := getTreeTooltipContent toFixed tree in
  exists score density : R,
    TreeRecord.accessibilityScore tree = Some (Fin score)
    /\ TreeRecord.treeFriendsScore tree = Fin density
    /\ lines !! 0%nat
       = Some (TooltipLine.mk ("tree-#" ++ TreeRecord.treeId tree)%string None)
    /\ lines !! 1%nat
       = Some (TooltipLine.mk ("Accessibility: " ++ toFixed (Fin score) 1)%string None)
    /\ lines !! 3%nat
       = Some (TooltipLine.mk
                 ("Coordinates: " ++ toFixed (TreeRecord.latitude tree) 5
                  ++ ", " ++ toFixed (TreeRecord.longitude tree) 5)%string None)
    /\ lines !! 4%nat
       = Some (TooltipLine.mk ("Species: " ++ TreeRecord.species tree)%string None)
    /\ lines !! 5%nat
       = Some (TooltipLine.mk
                 ("Tree Friends: " ++ toFixed (Fin (density / 10 * 4)) 1)%string None)
    /\ lines !! 7%nat
       = Some (TooltipLine.mk
                 ("Health: " ++ toFixed (Num.ofNat (calculateHealthScore tree)) 0)%string
                 None).
Proof.
  intros H lines. subst lines.
  apply parseTreeData_source in H as (headers & line & raw & d & Hline & Hd & ->).
  pose proof (parseTreeLine_fresh Number _ _ _ _ _ Hline) as (Hlat & Hlng & (Ht & _) & _).
  pose proof (parseTreeLine_texts _ _ _ _ _ Hline) as [Hid Hspecies].
  set (scored := TreeRecord.setTreeFriendsScore raw (Fin d)).
  assert (Hscore : exists score,
            TreeRecord.accessibilityScore (assignAccessibilityScore scored)
            = Some (Fin score)).
  { destruct (String.eqb_spec (Str.toLowerCase (TreeRecord.status raw)) "dead")
      as [Hdead | Hlive].
    - exists 0%R. apply (assignAccessibilityScore_dead scored Hdead).
    - eexists. apply (assignAccessibilityScore_live scored d Ht Hlive eq_refl Hd). }
  destruct Hscore as [score Hscore].
  exists score, d. split; [exact Hscore|]. split; [reflexivity|].
  rewrite !getTreeTooltipContent_fixed by lia.
  cbn [lookup list_lookup].
  change (TreeRecord.treeId (assignAccessibilityScore scored))
    with (TreeRecord.treeId raw).
  change (TreeRecord.species (assignAccessibilityScore scored))
    with (TreeRecord.species raw).
  change (TreeRecord.latitude (assignAccessibilityScore scored))
    with (TreeRecord.latitude raw).
  change (TreeRecord.longitude (assignAccessibilityScore scored))
    with (TreeRecord.longitude raw).
  change (TreeRecord.treeFriendsScore (assignAccessibilityScore scored))
    with (Fin d).
  rewrite Hid, Hscore. unfold Str.orElse. rewrite Hspecies.
  unfold formatAccessibilityScore, formatCoordinate, formatHealthScore,
    formatTreeFriendsScore.
  rewrite Hlat, Hlng. cbn [negb Num.isFinite Num.ofNat].
  rewrite (normalizeTreeFriendsScore_Fin d Hd).
  repeat split; reflexivity.
Qed.

End FinalTooltip.

(** X29. For a record of the finalized collection the tooltip shows none
    of the texts kept for missing values: its first line is ["tree-#"]
    followed by the identifier of the record, the accessibility line, the
    coordinates line, the density line and the health line render finite
    numbers with [toFixed], the density one being four tenths of the
    density score, and the species line shows the species of the record. *)
Theorem tooltip_of_finalized_tree :
  forall (Number : string -> number) (toFixed : number -> nat -> string)
         (csvData : string) (neighborhoods : list NeighborhoodRecord.t)
         (rentLookup : gmap propertyValue number) (tree : TreeRecord.t),
    In tree (parseTreeData Number csvData neighborhoods rentLookup) ->
    let lines := getTreeTooltipContent toFixed tree in
    exists score density : R,
      TreeRecord.accessibilityScore tree = Some (Fin score)
      /\ TreeRecord.treeFriendsScore tree = Fin density
      /\ lines !! 0%nat
         = Some (TooltipLine.mk ("tree-#" ++ TreeRecord.treeId tree) None)
      /\ lines !! 1%nat
         = Some (TooltipLine.mk ("Accessibility: " ++ toFixed (Fin score) 1) None)
      /\ lines !! 3%nat
         = Some (TooltipLine.mk
                   ("Coordinates: " ++ toFixed (TreeRecord.latitude tree) 5
                    ++ ", " ++ toFixed (TreeRecord.longitude tree) 5) None)
      /\ lines !! 4%nat
         = Some (TooltipLine.mk ("Species: " ++ TreeRecord.species tree) None)
      /\ lines !! 5%nat
         = Some (TooltipLine.mk
                   ("Tree Friends: " ++ toFixed (Fin (density / 10 * 4)) 1) None)
      /\ lines !! 7%nat
         = Some (TooltipLine.mk
                   ("Health: " ++ toFixed (Num.ofNat (calculateHealthScore tree)) 0)
                   None).
Proof. exact parseTreeData_tooltip. Qed.

Lemma tooltip_of_finalized_tree_witness :
  let tree :=
    assignAccessibilityScore
      (TreeRecord.setTreeFriendsScore (sampleRecord "Alive") (Fin 10)) in
  exists score density : R,
    TreeRecord.accessibilityScore tree = Some (Fin score)
    /\ TreeRecord.treeFriendsScore tree = Fin density
    /\ getTreeTooltipContent (fun _ _ => "0") tree !! 0%nat
       = Some (TooltipLine.mk ("tree-#" ++ TreeRecord.treeId tree) None).
Proof.
  intros tree.
  assert (Hin : In tree (parseTreeData sampleNumber (sampleCsv "Alive") [] ∅))
    by (rewrite sample_run_alive; left; reflexivity).
  destruct (tooltip_of_finalized_tree sampleNumber (fun _ _ => "0")
              (sampleCsv "Alive") [] ∅ tree Hin)
    as (score & density & Hscore & Hdensity & Hfirst & _).
  exists score, density. split; [exact Hscore|]. split; [exact Hdensity | exact Hfirst].
Defined.

(** ** The colour of a hovered cell *)

Section Hovered.
Local Open Scope list_scope.

Lemma arrayGet_nil {A} (index : number) : arrayGet (@nil A) index = None.
Proof.
  unfold arrayGet. destruct index as [x| | |]; try reflexivity.
  destruct (_ && _); reflexivity.
Qed.

Lemma cellTree_nil state index : cellTree [] state index = None.
Proof.
  unfold cellTree.
  destruct (AppState.cellTreeIndices state !! index) as [[treeIndex|]|];
    try reflexivity.
  apply arrayGet_nil.
Qed.

End Hovered.

(** X30. With the finalized collection as the collection of the
    application, in every state that the application reaches, entering any
    of the 144 cells with the pointer gives the cell the colour of a record
    of the collection, which is never the colour kept for an unknown score;
    when the collection is empty, no cell is given a colour. *)
Theorem hovered_cell_has_a_known_colour :
  forall (Number : string -> number) (toFixed : number -> nat -> string)
         (browser : Browser.t) (csvData : string)
         (neighborhoods : list NeighborhoodRecord.t)
         (rentLookup : gmap propertyValue number) (state : AppState.t) (index : nat),
    let trees := parseTreeData Number csvData neighborhoods rentLookup in
    reachable toFixed browser trees state ->
    (index < CELL_COUNT)%nat ->
    match trees with
    | [] => cellHoverColor trees state index = None
    | _ =>
        exists tree,
          In tree trees
          /\ cellHoverColor trees state index
             = Some (getAccessibilityColor (TreeRecord.accessibilityScore tree))
          /\ getAccessibilityColor (TreeRecord.accessibilityScore tree)
             <> ACCESSIBILITY_COLORS.unknown
    end.
Proof.
  intros Number toFixed browser csvData neighborhoods rentLookup state index trees
    Hreach Hlt.
  destruct trees as [|tree0 rest] eqn:E.
  - unfold cellHoverColor. rewrite cellTree_nil. reflexivity.
  - rewrite <- E in *.
    assert (Hne : trees <> []) by (rewrite E; discriminate).
    destruct (reachable_cells toFixed browser trees state Hne Hreach) as [_ Hcells].
    destruct (Hcells index Hlt) as [tree Htree].
    assert (Hin : In tree trees).
    { unfold cellTree in Htree.
      destruct (AppState.cellTreeIndices state !! index) as [[treeIndex|]|];
        try discriminate.
      unfold arrayGet in Htree. destruct treeIndex as [x| | |]; try discriminate.
      destruct (_ && _); [|discriminate].
      apply list_elem_of_In, list_elem_of_lookup. eexists. exact Htree. }
    exists tree. split; [exact Hin|]. split.
    + unfold cellHoverColor. rewrite Htree. reflexivity.
    + subst trees.
      exact (proj1 (parseTreeData_colour Number csvData neighborhoods rentLookup
                      tree Hin)).
Qed.

Lemma hovered_cell_has_a_known_colour_witness :
  let trees := parseTreeData sampleNumber (sampleCsv "Alive") [] ∅ in
  let state := AppState.mk (initialCellTreeIndices trees (fun _ => Fin 0)) None None in
  exists tree,
    In tree trees
    /\ cellHoverColor trees state 0
       = Some (getAccessibilityColor (TreeRecord.accessibilityScore tree))
    /\ getAccessibilityColor (TreeRecord.accessibilityScore tree)
       <> ACCESSIBILITY_COLORS.unknown.
Proof.
  intros trees state.
  assert (Hreach : reachable (fun _ _ => "0") (Browser.mk None None) trees state).
  { apply reachable_initial. intros index. exists 0%R. split; [reflexivity | lra]. }
  pose proof (hovered_cell_has_a_known_colour sampleNumber (fun _ _ => "0")
                (Browser.mk None None) (sampleCsv "Alive") [] ∅ state 0 Hreach
                ltac:(unfold CELL_COUNT, GRID_SIZE; cbn; lia)) as H.
  fold trees in H. unfold trees in H at 1. rewrite sample_run_alive in H.
  exact H.
Defined.
